(* ===== verification/_CoqProject ===== *)
-Q . S2P
Prelude.v
CMem.v
CFormat.v
Translate.v
Packet.v
PktQueue.v
PktSync.v
RegBuf.v
Conn.v
Target.v
RegHandlers.v
MemHandlers.v
QueryHandlers.v
Stub.v
Reader.v
System.v
RegSpec.v
MemSpec.v
QuerySpec.v
Emu.v
EmuTarget.v
Isa.v
EmuSpec.v
EmuRun.v
Lifecycle.v
Session.v
