(* ===== verification/Prelude.v ===== *)
(** * Verification of mini-gdbstub

    mini-gdbstub is a C library that lets GDB debug an emulator over the GDB
    Remote Serial Protocol. This development models the library and the RISC-V
    emulator that comes with it, function by function, and proves what makes
    them correct; where the code fails, it proves that too.

    ** The program and its parts

    A reader thread ([socket_reader] in src/src/gdbstub.c) owns the input side of
    the socket. It collects bytes in a receive buffer (src/src/packet.c), cuts
    packets [$payload#hh] out of it, pushes them on a queue
    (src/src/pktqueue.c) and acknowledges them. The main thread
    ([gdbstub_run]) pops a packet, checks its checksum (src/src/utils/csum.c),
    dispatches on its first character to a handler, which parses the request,
    calls back into the target ([struct target_ops], src/include/gdbstub.h) and
    sends one framed reply (src/src/conn.c); [c] and [s] run the target and are
    answered by a stop reply. Register values pass through a growing buffer
    (src/src/regbuf.c) and the hexadecimal codecs (src/src/utils/translate.c).
    The emulator (src/emu/src/emu.c) implements [target_ops].

    ** Files

    - Prelude.v (this file): outcomes of C code, the state monad, machine
      integers, bytes and strings, the tactics and the hint database [stub].
    - CMem.v: memory areas as lists of cells with bounds and initialisation, and
      the string functions of the C library. CFormat.v: [sprintf], [sscanf] and
      [strtok] as far as the program uses them.
    - Translate.v: utils/csum.c and utils/translate.c.
    - Packet.v: packet.c. [holds] relates a buffer to its bytes,
      [scan_contents] is the abstract reading of them.
    - PktQueue.v: pktqueue.c as pointers in a heap ([pktqueue_t], [heap]), the
      abstract queue [aqueue], the interface [PacketQueue] with its promise
      [PacketQueueSpec], and both instances. PktSync.v: the same calls cut at
      their [pthread] calls, as a step relation of two threads.
    - RegBuf.v: regbuf.c. Conn.v: framing and the send loop of conn.c.
    - Target.v: gdbstub.h and the state of the stub ([world]); [emits],
      [replies] and [answers] say what a computation sends.
    - RegHandlers.v, MemHandlers.v, QueryHandlers.v: the packet handlers of
      gdbstub.c. Stub.v: [gdbstub_process_packet], [gdbstub_handle_event] and
      the main loop.
    - Reader.v: [socket_reader]; [recv] is its reference on chunks of bytes.
      System.v: the two threads interleaved, the reader's rounds coming between
      and during the steps of the main thread.
    - RegSpec.v, MemSpec.v, QuerySpec.v: the handlers against the interfaces
      [RegisterFile] and [Memory] of a target.
    - Emu.v: emu.c. EmuTarget.v: it implements [RegisterFile] and [Memory].
      Isa.v: encoding and meaning of its instructions after the RISC-V manual,
      written without looking at the code. EmuSpec.v: [emu_exec] against Isa.v.
      EmuRun.v: the run loops and the invariant [emu_wf].
    - Lifecycle.v: [gdbstub_init], [gdbstub_close], [conn_init], [conn_close],
      [init_mem] and [main], with a ledger of the resources held.
    - Session.v: concrete runs, the stub on the emulator, which instantiate the
      theorems.

    ** How the code is represented

    A function that only computes is a function into [outcome]: it returns,
    fails an assertion, runs into undefined behaviour ([UB]) or loops ([Hang]).
    The handlers are in the monad [M (world T)], [T] being the target's state;
    a NULL callback is [None] and calling it is [UB]. Bytes are [Z] values
    below 256; [int], [size_t] and [char] conversions are written out with
    [s32], [u64] and [s8]. What the system answers is an argument: the results
    of [malloc], of [read], [write] and [poll], of the calls that open the
    connection, and where an interrupt reaches a running target. Every
    allocation may fail; a NULL area that is passed on to a callback is an area
    without bytes ([area]), so the callback sees it and may refuse, and touching
    it is out of bounds; [read] into the NULL of a failed [realloc] is answered
    like any other [read] (the system reports EFAULT). A round of the reader's
    loop is a [round_env] and one of the send loop a [send_ev].

    ** What is shown

    - One packet: exactly one reply per request, whatever the target does
      ([one_reply_per_packet]); acknowledgements and the failure counter
      ([handle_packet_round]); requests the stub cannot serve leave the target
      alone ([refusals_leave_target]); altered packets are noticed
      ([csum_verify_detects]).
    - From the socket to the handler: [is_complete_refines_scan],
      [framed_stream_delivered] (packets split over any reads),
      [run_loop_serves], [any_interleaving_serves_in_order] (any scheduling of
      the two threads), [reader_ends_with_shutdown] and
      [reader_exit_ends_session] (the session ends when the connection does).
    - The queue: [linked_queue_refines] for the pointers, [sync_invariant] and
      [no_lost_wakeup] for the mutex and the condition variable.
    - Registers: [g_reports_registers], [G_is_atomic] (all registers or none),
      [G_of_g_is_identity], [p_after_P], [G_rejected]. Memory: [m_replies],
      [m_after_M], [X_writes_like_M], [breakpoints_reply]. Queries:
      [xfer_delivers_description], [vCont_accepts_what_it_lists],
      [thread_id_round_trip].
    - Codecs and buffers: [hex_round_trip], [unescape_escape],
      [regbuf_get_fits], [conn_send_pktstr_frames],
      [conn_send_str_prefix_and_bounded].
    - The emulator: [emu_exec_refines_isa], [reachable_emulator_wf],
      [cont_is_repeated_stepi].
    - Opening and closing: [init_close_balanced], [init_establishes_configured].
    - Faults: [missing_digit_corrupts_memory], [back_to_back_packet_lost],
      [g_drops_mixed_sizes], [M_reads_past_packet],
      [missing_separator_is_null_dereference], [thread_list_bounds],
      [regbuf_get_hangs], [init_mem_leaks]; and the exceptions in
      [emu_exec_refines_isa] and [cont_is_repeated_stepi]. Where the code and its
      documentation disagree the theorem follows the code and its comment says
      so: [linked_queue_refines], [X_writes_like_M], [breakpoints_reply],
      [conn_send_str_prefix_and_bounded].

    ** Bounds and fuel

    [process_packets] gets the buffer's size plus one rounds, and
    [process_packets_ends] shows that they suffice. [run_loop] needs two rounds
    more than there are queued packets ([run_loop_ok]). [regbuf_grow] has 64
    rounds: a power of two either reaches the size by then or has become zero.
    [pktqueue_destroy_loop] frees two objects per round and gets the size of
    the heap. [unescape_loop] advances in every round. [emu_cont] is a loop of the
    debugged program's making and need not end: it is [Hang] when the rounds run
    out, and [reachable_emulator_wf] says for every number of rounds when that
    is; where an interrupt sets the halt flag is an argument of its own.

    ** Not modelled

    src/include/utils/log.h (output to stderr), the DEBUG prints, the shell
    scripts under src/.ci. Memory is not shared between the threads below the
    level of a queue operation. A round of the reader is one step, which sees one
    value of each atomic flag where it reads it; rounds may come while the main
    thread handles a packet, and what [on_interrupt] then does to the target is
    part of the outcome of [cont] (in [emu_cont] the argument [irq]).
    [send_mutex] appears as the answer of [pthread_mutex_trylock]; the order in which the two threads'
    output reaches the socket is not stated. [pktbuf_destroy] and
    [regbuf_destroy] are single calls of [free] and appear where they are used.
    The addresses given to [bind] are not looked at, and [inet_aton] is a
    parameter. *)

From Stdlib Require Export ZArith Lia Ascii.
From stdpp Require Export base list strings numbers.


#[export] Set Default Proof Using "Type".
Global Open Scope Z_scope.

(** [simpl] and [cbn] leave arithmetic folded; [vm_compute] still evaluates it. *)
Global Arguments Z.eqb : simpl never.
Global Arguments Z.leb : simpl never.
Global Arguments Z.ltb : simpl never.
Global Arguments Z.add : simpl never.
Global Arguments Z.sub : simpl never.
Global Arguments Z.mul : simpl never.
Global Arguments Z.div : simpl never.
Global Arguments Z.modulo : simpl never.
Global Arguments Z.pow : simpl never.
Global Arguments Z.of_nat : simpl never.
Global Arguments Z.to_nat : simpl never.

(** ** Outcomes

    What executing a piece of C can do: return a value, stop at a failed
    [assert], run into undefined behaviour (an out-of-bounds or uninitialised
    access, a NULL dereference, an unrepresentable [sscanf] conversion), or
    loop without end. *)
Inductive outcome (A : Type) : Type :=
| Ret (a : A)
| AssertFail
| UB
| Hang.
Arguments Ret {A} a.
Arguments AssertFail {A}.
Arguments UB {A}.
Arguments Hang {A}.

#[export] Instance outcome_ret : MRet outcome := @Ret.
#[export] Instance outcome_bind : MBind outcome := fun A B f m =>
  match m with
  | Ret a => f a
  | AssertFail => AssertFail
  | UB => UB
  | Hang => Hang
  end.
#[export] Instance outcome_fmap : FMap outcome := fun A B f m =>
  match m with
  | Ret a => Ret (f a)
  | AssertFail => AssertFail
  | UB => UB
  | Hang => Hang
  end.
#[export] Instance outcome_eq_dec {A} `{EqDecision A} : EqDecision (outcome A).
Proof. solve_decision. Defined.

(** [assert(b)]: the Makefile never defines NDEBUG, so a failing assertion
    ends the process. *)
Definition cassert (b : bool) : outcome unit := if b then Ret tt else AssertFail.

(** Dereferencing a possibly-NULL pointer or calling a possibly-NULL function. *)
Definition deref {A} (p : option A) : outcome A :=
  match p with Some a => Ret a | None => UB end.

(** [p == NULL] *)
Definition is_null {A} (p : option A) : bool := match p with Some _ => false | None => true end.
Lemma is_null_true {A} (p : option A) : is_null p = true -> p = None.
Proof. by destruct p. Qed.

(** ** State and outcome *)
Definition M (S A : Type) : Type := S -> outcome (A * S).

#[export] Instance M_ret {S} : MRet (M S) := fun A a s => Ret (a, s).
#[export] Instance M_bind {S} : MBind (M S) := fun A B f m s =>
  match m s with
  | Ret (a, s') => f a s'
  | AssertFail => AssertFail
  | UB => UB
  | Hang => Hang
  end.

Definition lift {S A} (o : outcome A) : M S A := fun s =>
  match o with
  | Ret a => Ret (a, s)
  | AssertFail => AssertFail
  | UB => UB
  | Hang => Hang
  end.
Definition gets {S A} (f : S -> A) : M S A := fun s => Ret (f s, s).
Definition modify {S} (f : S -> S) : M S unit := fun s => Ret (tt, f s).

(** ** Machine integers

    C integers are kept as [Z]; these are the conversions to the types the
    program uses (x86-64 Linux: 32-bit [int], 64-bit [size_t] and [long],
    signed [char]). *)
Definition u8 (x : Z) : Z := x mod 256.
Definition u32 (x : Z) : Z := x mod 4294967296.
Definition u64 (x : Z) : Z := x mod 18446744073709551616.
Definition s8 (x : Z) : Z := (x + 128) mod 256 - 128.
Definition s32 (x : Z) : Z := (x + 2147483648) mod 4294967296 - 2147483648.
Definition s64 (x : Z) : Z :=
  (x + 9223372036854775808) mod 18446744073709551616 - 9223372036854775808.

(** ** Bytes and strings

    A byte is its unsigned value; a string is its bytes without the NUL. *)
Definition byte_ok (b : Z) : Prop := 0 <= b < 256.
Definition char_ok (b : Z) : Prop := 0 < b < 256.
#[export] Instance byte_ok_dec b : Decision (byte_ok b).
Proof. unfold byte_ok. apply _. Defined.
Abbreviation bytes := (list Z).

Fixpoint str (s : string) : bytes :=
  match s with
  | EmptyString => []
  | String.String a s => Z.of_N (N_of_ascii a) :: str s
  end.
Definition chr (a : ascii) : Z := Z.of_N (N_of_ascii a).

(** [strcmp(a, b) == 0] *)
Definition streq (a b : bytes) : bool := bool_decide (a = b).

(** ** Tactics and hints *)
Create HintDb stub discriminated.

Ltac simp_outcome :=
  repeat match goal with
  | H : Ret _ = Ret _ |- _ => injection H as H
  | H : Ret _ = AssertFail |- _ => discriminate H
  | H : Ret _ = UB |- _ => discriminate H
  | H : Ret _ = Hang |- _ => discriminate H
  | H : AssertFail = Ret _ |- _ => discriminate H
  | H : UB = Ret _ |- _ => discriminate H
  | H : Hang = Ret _ |- _ => discriminate H
  end.

(** Case analysis on the boolean tests of a goal or hypothesis, turned into
    propositions [lia] understands. *)
Ltac bool_props :=
  rewrite ?andb_true_iff, ?orb_true_iff, ?andb_false_iff, ?orb_false_iff,
    ?negb_true_iff, ?negb_false_iff, ?Z.eqb_eq, ?Z.eqb_neq, ?Z.leb_le,
    ?Z.leb_gt, ?Z.ltb_lt, ?Z.ltb_ge in *.
Ltac case_if :=
  match goal with
  | |- context [if ?b then _ else _] => let E := fresh "E" in destruct b eqn:E
  | H : context [if ?b then _ else _] |- _ => let E := fresh "E" in destruct b eqn:E
  end; bool_props.

(** Decides the comparisons of a literal request with the literal characters. *)
Ltac pick_request :=
  repeat match goal with |- context [if ?a =? chr ?b then _ else _] =>
    let v := eval vm_compute in (a =? chr b) in
    replace (a =? chr b) with v by reflexivity; cbv iota end.

(** [lia] with [mod] and [/] by constants. *)
Ltac mlia := Z.to_euclidean_division_equations; lia.

Lemma outcome_bind_inv {A B} (m : outcome A) (f : A -> outcome B) b :
  (m ≫= f) = Ret b -> exists a, m = Ret a /\ f a = Ret b.
Proof. destruct m; simpl; intros; simp_outcome; eauto. Qed.

Lemma obind_eq {A B} (m : outcome A) (f : A -> outcome B) a :
  m = Ret a -> (m ≫= f) = f a.
Proof. by intros ->. Qed.

Lemma M_bind_eq {S A B} (m : M S A) (f : A -> M S B) s a s' :
  m s = Ret (a, s') -> (m ≫= f) s = f a s'.
Proof. intros H. unfold mbind, M_bind. by rewrite H. Qed.

Lemma M_bind_inv {S A B} (m : M S A) (f : A -> M S B) s b s'' :
  (m ≫= f) s = Ret (b, s'') -> exists a s', m s = Ret (a, s') /\ f a s' = Ret (b, s'').
Proof.
  unfold mbind, M_bind. destruct (m s) as [[a s']| | |]; intros; simp_outcome; eauto.
Qed.

Lemma lift_Ret {S A} (a : A) (s : S) : lift (Ret a) s = Ret (a, s).
Proof. done. Qed.

Lemma lift_inv {S A} (o : outcome A) (s s' : S) a :
  lift o s = Ret (a, s') -> o = Ret a /\ s' = s.
Proof. destruct o; simpl; intros H; simp_outcome; by simplify_eq. Qed.

Lemma mret_inv {S A} (a b : A) (s s' : S) : (mret a : M S A) s = Ret (b, s') -> b = a /\ s' = s.
Proof. unfold mret, M_ret. intros [= -> ->]. done. Qed.
Lemma modify_inv {S} (f : S -> S) s s' a : modify f s = Ret (a, s') -> s' = f s.
Proof. unfold modify. by intros [= _ <-]. Qed.
Lemma gets_inv {S A} (f : S -> A) s s' a : gets f s = Ret (a, s') -> a = f s /\ s' = s.
Proof. unfold gets. by intros [= <- <-]. Qed.

(** *** Termination: an outcome that is not an endless loop *)
Definition halts {A} (o : outcome A) : Prop := o <> Hang.

Lemma halts_bind {A B} (m : outcome A) (f : A -> outcome B) :
  halts m -> (forall a, m = Ret a -> halts (f a)) -> halts (m ≫= f).
Proof. unfold halts. destruct m; simpl; auto. Qed.
Lemma halts_ret {A} (a : A) : halts (Ret a).
Proof. done. Qed.
Lemma halts_ub {A} : halts (@UB A).
Proof. done. Qed.
Lemma halts_deref {A} (p : option A) : halts (deref p).
Proof. by destruct p. Qed.
Lemma halts_cassert b : halts (cassert b).
Proof. by destruct b. Qed.
#[export] Hint Resolve halts_ret halts_ub halts_deref halts_cassert : stub.

(** One step of a monadic computation, forwards and backwards. *)
Ltac mstep := erewrite M_bind_eq; [|first [eassumption | reflexivity]]; cbv beta iota.
Ltac minv H :=
  let a := fresh "x" in let s := fresh "w" in
  let H1 := fresh "Hm" in let H2 := fresh "Hk" in
  apply M_bind_inv in H; destruct H as (a & s & H1 & H2).
Ltac binv H :=
  let a := fresh "x" in let H1 := fresh "Hm" in let H2 := fresh "Hk" in
  apply outcome_bind_inv in H; destruct H as (a & H1 & H2).

(** *** Integer conversions *)
Lemma u8_range x : 0 <= u8 x < 256.
Proof. unfold u8. mlia. Qed.
Lemma u32_range x : 0 <= u32 x < 4294967296.
Proof. unfold u32. mlia. Qed.
Lemma u64_range x : 0 <= u64 x < 18446744073709551616.
Proof. unfold u64. mlia. Qed.
Lemma s32_range x : -2147483648 <= s32 x < 2147483648.
Proof. unfold s32. mlia. Qed.
Lemma u8_id x : 0 <= x < 256 -> u8 x = x.
Proof. unfold u8. mlia. Qed.
Lemma u32_id x : 0 <= x < 4294967296 -> u32 x = x.
Proof. unfold u32. mlia. Qed.
Lemma u64_id x : 0 <= x < 18446744073709551616 -> u64 x = x.
Proof. unfold u64. mlia. Qed.
Lemma s32_id x : -2147483648 <= x < 2147483648 -> s32 x = x.
Proof. unfold s32. mlia. Qed.
Lemma u8_s8 x : u8 (s8 x) = u8 x.
Proof. unfold u8, s8. mlia. Qed.
#[export] Hint Resolve u8_range u32_range u64_range s32_range : stub.

(** *** Lists *)
Lemma length_bytes_Z {A} (l : list A) : 0 <= Z.of_nat (length l).
Proof. lia. Qed.

Lemma streq_spec a b : streq a b = true <-> a = b.
Proof. unfold streq. by rewrite bool_decide_eq_true. Qed.
Lemma streq_refl a : streq a a = true.
Proof. by apply streq_spec. Qed.
Lemma streq_neq a b : streq a b = false <-> a <> b.
Proof. unfold streq. by rewrite bool_decide_eq_false. Qed.

Lemma take_app_exact {A} (l k : list A) : take (length l) (l ++ k) = l.
Proof. by rewrite take_app_length. Qed.
Lemma drop_app_exact {A} (l k : list A) : drop (length l) (l ++ k) = k.
Proof. by rewrite drop_app_length. Qed.

(** Induction two elements at a time, for the hexadecimal codecs. *)
Lemma list_ind2 {A} (P : list A -> Prop) :
  P [] -> (forall a, P [a]) -> (forall a b l, P l -> P (a :: b :: l)) -> forall l, P l.
Proof.
  intros H0 H1 H2.
  enough (forall l, P l /\ forall a, P (a :: l)) as H by (intros l; apply H).
  induction l as [|a l [IH1 IH2]]; split; auto.
Qed.

(** Proves a closed decidable proposition by computation. *)
Ltac vdecide :=
  match goal with |- ?P => apply (bool_decide_eq_true_1 P); vm_compute; reflexivity end.
