(* ===== verification/CMem.v ===== *)
(** * C memory areas and the string functions the program uses on them

    An area (a [malloc]ed block, a stack array, a packet) is a list of cells;
    a cell is [None] while it is uninitialised. Pointers into an area are
    [Z] offsets. Every access checks the bounds of the area, and reading the
    value of an uninitialised cell is undefined behaviour; copying cells
    ([memcpy], [memmove]) is not. *)

From S2P Require Import Prelude.

Abbreviation buf := (list (option Z)).

Definition blen (b : buf) : Z := Z.of_nat (length b).

(** A block of [n] uninitialised bytes ([malloc], automatic array), and one of
    [n] zeroes ([calloc]). *)
Definition uninit (n : Z) : buf := replicate (Z.to_nat n) None.
Definition zeroed (n : Z) : buf := replicate (Z.to_nat n) (Some 0).

(** The cells [b[off .. off+n-1]]. *)
Definition bslice (b : buf) (off n : Z) : outcome buf :=
  if (0 <=? off) && (0 <=? n) && (off + n <=? blen b)
  then Ret (take (Z.to_nat n) (drop (Z.to_nat off) b)) else UB.

(** The values of initialised cells. *)
Fixpoint bvals (l : buf) : outcome bytes :=
  match l with
  | [] => Ret []
  | None :: _ => UB
  | Some c :: l => s ← bvals l; Ret (c :: s)
  end.

Definition bload (b : buf) (off n : Z) : outcome bytes :=
  s ← bslice b off n; bvals s.

Definition bget (b : buf) (off : Z) : outcome Z :=
  match (if 0 <=? off then b !! Z.to_nat off else None) with
  | Some (Some c) => Ret c
  | _ => UB
  end.

(** [memcpy(b + off, src, len(src))] of cells, and of known bytes. *)
Definition bwrite (b : buf) (off : Z) (src : buf) : outcome buf :=
  if (0 <=? off) && (off + blen src <=? blen b)
  then Ret (take (Z.to_nat off) b ++ src ++ drop (Z.to_nat off + length src) b)
  else UB.

Definition bstore (b : buf) (off : Z) (s : bytes) : outcome buf :=
  bwrite b off (Some <$> s).

Definition bput (b : buf) (off : Z) (c : Z) : outcome buf := bstore b off [c].

(** [memmove(b + dst, b + src, n)] inside one area; [n] is a [size_t]. *)
Definition memmove (b : buf) (dst src n : Z) : outcome buf :=
  s ← bslice b src (u64 n); bwrite b dst s.

(** [memchr(b, c, n)]: the offset of the first [c] among the [n] first cells. *)
Fixpoint memchr_go (l : buf) (c : Z) (n : nat) (i : Z) : outcome (option Z) :=
  match n, l with
  | O, _ => Ret None
  | S _, [] => UB
  | S _, None :: _ => UB
  | S n, Some x :: l => if x =? c then Ret (Some i) else memchr_go l c n (i + 1)
  end.
Definition memchr (b : buf) (c n : Z) : outcome (option Z) :=
  memchr_go b c (Z.to_nat n) 0.

(** The NUL-terminated string a [char *] points to. *)
Fixpoint cstr_go (l : buf) : outcome bytes :=
  match l with
  | [] => UB
  | None :: _ => UB
  | Some c :: l => if c =? 0 then Ret [] else s ← cstr_go l; Ret (c :: s)
  end.
Definition cstr (b : buf) (off : Z) : outcome bytes :=
  if (0 <=? off) && (off <=? blen b) then cstr_go (drop (Z.to_nat off) b) else UB.

Definition strlen (b : buf) (off : Z) : outcome Z :=
  s ← cstr b off; Ret (Z.of_nat (length s)).

(** [strchr(b + off, c)] for [c <> 0]. *)
Fixpoint strchr_go (l : buf) (c : Z) (i : Z) : outcome (option Z) :=
  match l with
  | [] => UB
  | None :: _ => UB
  | Some x :: l =>
      if x =? c then Ret (Some i) else if x =? 0 then Ret None
      else strchr_go l c (i + 1)
  end.
Definition strchr (b : buf) (off : Z) (c : Z) : outcome (option Z) :=
  if (0 <=? off) && (off <=? blen b)
  then strchr_go (drop (Z.to_nat off) b) c off else UB.

(** The idiom
    [args = strchr(s, c); if (args) { *args = 0; args++; }]
    that every handler with a structured payload starts with: the string at
    [off] now ends at the separator, and the result points behind it. *)
Definition split_args (b : buf) (off : Z) (c : Z) : outcome (buf * option Z) :=
  p ← strchr b off c;
  match p with
  | Some i => b' ← bput b i 0; Ret (b', Some (i + 1))
  | None => Ret (b, None)
  end.

Global Arguments bslice : simpl never.
Global Arguments bload : simpl never.
Global Arguments bget : simpl never.
Global Arguments bwrite : simpl never.
Global Arguments bstore : simpl never.
Global Arguments bput : simpl never.
Global Arguments memmove : simpl never.
Global Arguments memchr : simpl never.
Global Arguments cstr : simpl never.
Global Arguments strlen : simpl never.
Global Arguments strchr : simpl never.
Global Arguments split_args : simpl never.

(** A string literal, or any string, as an area holding it and its NUL. *)
Definition lit (s : bytes) : buf := (Some <$> s) ++ [Some 0].

(** [cstr_at b off s]: the area holds the string [s] and its NUL at [off]. *)
Definition no0 (s : bytes) : Prop := Forall (fun c => c <> 0) s.
Definition cstr_at (b : buf) (off : Z) (s : bytes) : Prop :=
  no0 s /\ exists pre post, b = pre ++ (Some <$> s) ++ Some 0 :: post /\ off = blen pre.

(** ** Lemmas *)

Lemma blen_nonneg b : 0 <= blen b.
Proof. unfold blen. lia. Qed.
Lemma blen_app a b : blen (a ++ b) = blen a + blen b.
Proof. unfold blen. rewrite length_app. lia. Qed.
Lemma blen_cons x b : blen (x :: b) = 1 + blen b.
Proof. unfold blen. csimpl. lia. Qed.
Lemma blen_nil : blen [] = 0.
Proof. done. Qed.
Lemma blen_fmap (s : bytes) : blen (Some <$> s) = Z.of_nat (length s).
Proof. unfold blen. by rewrite length_fmap. Qed.
Lemma blen_uninit n : 0 <= n -> blen (uninit n) = n.
Proof. unfold blen, uninit. rewrite length_replicate. lia. Qed.
Lemma blen_zeroed n : 0 <= n -> blen (zeroed n) = n.
Proof. unfold blen, zeroed. rewrite length_replicate. lia. Qed.
Lemma uninit_unfold n : uninit n = replicate (Z.to_nat n) None.
Proof. done. Qed.
#[global] Opaque uninit.
Create Rewrite HintDb blen.
#[export] Hint Rewrite blen_app blen_cons blen_nil blen_fmap : blen.
#[export] Hint Resolve blen_nonneg : stub.

(** Arithmetic on the lengths of areas. *)
Ltac blia :=
  autorewrite with blen in *;
  repeat match goal with
  | |- context [blen ?b] =>
      lazymatch goal with
      | _ : 0 <= blen b |- _ => fail
      | _ => pose proof (blen_nonneg b)
      end
  end; unfold blen in *; rewrite ?length_app, ?length_fmap in *; simpl length in *; lia.

Lemma to_nat_blen b : Z.to_nat (blen b) = length b.
Proof. unfold blen. lia. Qed.

Lemma bslice_app pre mid post off n :
  off = blen pre -> n = blen mid -> bslice (pre ++ mid ++ post) off n = Ret mid.
Proof.
  intros -> ->. unfold bslice.
  replace (_ && _) with true by (symmetry; bool_props; blia).
  by rewrite !to_nat_blen, drop_app_exact, take_app_exact.
Qed.

Lemma bslice_inv b off n s :
  bslice b off n = Ret s ->
  exists pre post, b = pre ++ s ++ post /\ off = blen pre /\ n = blen s.
Proof.
  unfold bslice. case_if; [|done]. intros H. simp_outcome. subst s.
  exists (take (Z.to_nat off) b), (drop (Z.to_nat n) (drop (Z.to_nat off) b)).
  rewrite take_drop, take_drop. unfold blen in *. split; [done|].
  rewrite !length_take, length_drop. lia.
Qed.

Lemma bvals_fmap (s : bytes) : bvals (Some <$> s) = Ret s.
Proof. induction s as [|c s IH]; csimpl; [done|]. by rewrite IH. Qed.

Lemma bvals_inv l s : bvals l = Ret s -> l = Some <$> s.
Proof.
  revert s. induction l as [|[c|] l IH]; csimpl; intros s H; simp_outcome; subst; try done.
  binv H. simp_outcome. subst. csimpl. by rewrite (IH _ Hm).
Qed.

Lemma bload_app pre (s : bytes) post off n :
  off = blen pre -> n = Z.of_nat (length s) ->
  bload (pre ++ (Some <$> s) ++ post) off n = Ret s.
Proof.
  intros -> ->. unfold bload. rewrite bslice_app with (mid := Some <$> s); csimpl.
  - apply bvals_fmap.
  - done.
  - by rewrite blen_fmap.
Qed.

Lemma bget_app pre c post off :
  off = blen pre -> bget (pre ++ Some c :: post) off = Ret c.
Proof.
  intros ->. unfold bget. replace (0 <=? blen pre) with true by (symmetry; bool_props; blia).
  rewrite to_nat_blen, lookup_app_r by lia. by rewrite Nat.sub_diag.
Qed.

Lemma bwrite_app pre old post off src :
  off = blen pre -> length old = length src ->
  bwrite (pre ++ old ++ post) off src = Ret (pre ++ src ++ post).
Proof.
  intros -> Hl. unfold bwrite.
  replace (_ && _) with true by (symmetry; bool_props; blia).
  rewrite to_nat_blen, take_app_exact. do 3 f_equal.
  rewrite <- drop_drop, drop_app_exact, <- Hl. by rewrite drop_app_exact.
Qed.

Lemma bwrite_len b off src b' : bwrite b off src = Ret b' -> blen b' = blen b.
Proof.
  unfold bwrite. case_if; [|done]. intros H. simp_outcome. subst b'.
  unfold blen in *. rewrite !length_app, length_take, length_drop. lia.
Qed.
Lemma bstore_len b off s b' : bstore b off s = Ret b' -> blen b' = blen b.
Proof. apply bwrite_len. Qed.

Lemma bwrite_ok b off src :
  0 <= off -> off + blen src <= blen b -> exists b', bwrite b off src = Ret b'.
Proof.
  intros. unfold bwrite.
  replace (_ && _) with true by (symmetry; bool_props; lia). eauto.
Qed.

(** Writing at the first cell of the yet unwritten part of an area. *)
Lemma bstore_front (pre : buf) rest off (s : bytes) :
  off = blen pre -> Z.of_nat (length s) <= blen rest ->
  bstore (pre ++ rest) off s = Ret (pre ++ (Some <$> s) ++ drop (length s) rest).
Proof.
  intros -> Hl. unfold bstore.
  rewrite <- (take_drop (length s) rest) at 1.
  apply bwrite_app; [done|]. rewrite length_take, length_fmap. unfold blen in *. lia.
Qed.

Lemma bput_app pre c0 post off c :
  off = blen pre -> bput (pre ++ c0 :: post) off c = Ret (pre ++ Some c :: post).
Proof.
  intros. unfold bput, bstore. by apply (bwrite_app pre [c0] post off [Some c]).
Qed.

(** Filling an uninitialised array front to back. *)
Lemma uninit_split n k : 0 <= n -> Z.of_nat k <= n ->
  uninit n = replicate k None ++ uninit (n - Z.of_nat k).
Proof.
  intros. rewrite !uninit_unfold, <- replicate_add. f_equal. lia.
Qed.

Lemma bwrite_uninit pre src n off :
  off = blen pre -> blen src <= n ->
  bwrite (pre ++ uninit n) off src = Ret ((pre ++ src) ++ uninit (n - blen src)).
Proof.
  intros Hoff Hn. pose proof (blen_nonneg src). rewrite (uninit_split n (length src)) by (unfold blen in *; lia).
  rewrite <- app_assoc. apply bwrite_app; [done|]. by rewrite length_replicate.
Qed.

Lemma bstore_uninit pre s n off :
  off = blen pre -> Z.of_nat (length s) <= n ->
  bstore (pre ++ uninit n) off s = Ret ((pre ++ (Some <$> s)) ++ uninit (n - Z.of_nat (length s))).
Proof.
  intros. unfold bstore. rewrite bwrite_uninit by (rewrite ?blen_fmap; done). by rewrite blen_fmap.
Qed.

Lemma bput_uninit pre c n off :
  off = blen pre -> 1 <= n ->
  bput (pre ++ uninit n) off c = Ret ((pre ++ [Some c]) ++ uninit (n - 1)).
Proof. intros. by apply (bstore_uninit pre [c]). Qed.

(** Executes the first operation of an [outcome] computation by [lem]. *)
Ltac ostep lem :=
  erewrite obind_eq; [cbv beta | solve [eapply lem; first [done | blia]]].

(** *** Strings *)
Lemma cstr_go_app s post : no0 s -> cstr_go ((Some <$> s) ++ Some 0 :: post) = Ret s.
Proof.
  induction 1 as [|c s Hc Hs IH]; csimpl; [done|].
  rewrite (proj2 (Z.eqb_neq c 0) Hc), IH. done.
Qed.

Lemma cstr_at_ok b off s : cstr_at b off s -> cstr b off = Ret s.
Proof.
  intros (H0 & pre & post & -> & ->). unfold cstr.
  replace (_ && _) with true by (symmetry; bool_props; blia).
  rewrite to_nat_blen, drop_app_exact. by apply cstr_go_app.
Qed.

Lemma cstr_go_inv l s :
  cstr_go l = Ret s -> no0 s /\ exists post, l = (Some <$> s) ++ Some 0 :: post.
Proof.
  revert s. induction l as [|[c|] l IH]; csimpl; intros s H; try done.
  case_if; simp_outcome; subst.
  - split; [constructor|]. by exists l.
  - binv H. simp_outcome. subst. destruct (IH _ Hm) as (? & post & ->).
    split; [by constructor|]. by exists post.
Qed.

Lemma cstr_inv b off s : cstr b off = Ret s -> cstr_at b off s.
Proof.
  unfold cstr. case_if; [|done]. intros H.
  apply cstr_go_inv in H as (H0 & post & Hb). split; [done|].
  exists (take (Z.to_nat off) b), post. rewrite <- Hb, take_drop. split; [done|].
  unfold blen in *. rewrite length_take. lia.
Qed.

Lemma strlen_at b off s : cstr_at b off s -> strlen b off = Ret (Z.of_nat (length s)).
Proof. intros H. unfold strlen. by rewrite (cstr_at_ok _ _ _ H). Qed.

Lemma lit_at s : no0 s -> cstr_at (lit s) 0 s.
Proof. intros H. split; [done|]. by exists [], []. Qed.

Lemma strchr_go_hit s1 c l i :
  no0 s1 -> c ∉ s1 -> strchr_go ((Some <$> s1) ++ Some c :: l) c i = Ret (Some (i + Z.of_nat (length s1))).
Proof.
  intros H0. revert i. induction H0 as [|x s Hx Hs IH]; intros i Hc; csimpl.
  - rewrite Z.eqb_refl. do 2 f_equal. lia.
  - apply not_elem_of_cons in Hc as [Hne Hc].
    rewrite (proj2 (Z.eqb_neq x c)) by congruence. rewrite (proj2 (Z.eqb_neq x 0) Hx).
    rewrite IH by done. do 2 f_equal. lia.
Qed.

Lemma strchr_go_miss s c l i :
  no0 s -> c <> 0 -> c ∉ s -> strchr_go ((Some <$> s) ++ Some 0 :: l) c i = Ret None.
Proof.
  intros H0 Hc0. revert i. induction H0 as [|x s Hx Hs IH]; intros i Hc; csimpl.
  - by rewrite (proj2 (Z.eqb_neq 0 c)) by congruence.
  - apply not_elem_of_cons in Hc as [Hne Hc].
    rewrite (proj2 (Z.eqb_neq x c)) by congruence. rewrite (proj2 (Z.eqb_neq x 0) Hx). auto.
Qed.

Lemma strchr_miss b off s c :
  cstr_at b off s -> c <> 0 -> c ∉ s -> strchr b off c = Ret None.
Proof.
  intros (H0 & pre & post & -> & ->) Hc Hn. unfold strchr.
  replace (_ && _) with true by (symmetry; bool_props; blia).
  rewrite to_nat_blen, drop_app_exact. by apply strchr_go_miss.
Qed.

(** What the split idiom does on a string with and without the separator. *)
Lemma split_args_miss b off s c :
  cstr_at b off s -> c <> 0 -> c ∉ s -> split_args b off c = Ret (b, None).
Proof. intros. unfold split_args. by erewrite strchr_miss. Qed.

Lemma split_args_hit pre s1 c rest off :
  off = blen pre -> no0 s1 -> c ∉ s1 ->
  split_args (pre ++ (Some <$> s1) ++ Some c :: rest) off c =
  Ret (pre ++ (Some <$> s1) ++ Some 0 :: rest, Some (off + Z.of_nat (length s1) + 1)).
Proof.
  intros -> H0 Hc. unfold split_args, strchr.
  replace (_ && _) with true by (symmetry; bool_props; blia).
  rewrite to_nat_blen, drop_app_exact, strchr_go_hit by done. csimpl.
  rewrite !app_assoc, bput_app by blia. done.
Qed.

(** An area cut at an offset. *)
Lemma area_split (b : buf) n :
  0 <= n <= blen b -> exists a c, b = a ++ c /\ blen a = n.
Proof.
  intros. exists (take (Z.to_nat n) b), (drop (Z.to_nat n) b). rewrite take_drop. split; [done|].
  unfold blen in *. rewrite length_take. lia.
Qed.

(** Accesses by index. *)
Lemma bget_lookup b off c : 0 <= off -> b !! Z.to_nat off = Some (Some c) -> bget b off = Ret c.
Proof.
  intros H1 H2. unfold bget. replace (0 <=? off) with true by (symmetry; bool_props; lia). by rewrite H2.
Qed.
Lemma bput_insert b off c :
  0 <= off < blen b -> bput b off c = Ret (<[Z.to_nat off := Some c]> b).
Proof.
  intros. destruct (area_split b off ltac:(lia)) as (pre & [|x post] & -> & Hl).
  { rewrite app_nil_r in *. lia. }
  rewrite bput_app by done. subst off. rewrite to_nat_blen.
  by rewrite insert_app_r_alt, Nat.sub_diag by lia.
Qed.
