(* ===== verification/CFormat.v ===== *)
(** * The [sprintf] and [sscanf] conversions the program uses

    Printing: [%d], [%04d], [%02x]. Scanning: [%x], [%lx], [%zx], [%d] and
    literal characters. As in the C standard an unsigned conversion accepts
    white space, a sign and a [0x] prefix, and a value the target type cannot
    represent is undefined behaviour. *)

From S2P Require Import Prelude CMem.

(** ** Printing *)
Definition hexchar (d : Z) : Z := if d <? 10 then 48 + d else 87 + d.

Fixpoint digits_go (fuel : nat) (base n : Z) (acc : bytes) : bytes :=
  match fuel with
  | O => acc
  | S fuel =>
      let acc := hexchar (n mod base) :: acc in
      if n / base =? 0 then acc else digits_go fuel base (n / base) acc
  end.
(** The digits of [n >= 0]; [1 + log2 n] rounds are enough for any base >= 2. *)
Definition digits (base n : Z) : bytes := digits_go (S (Z.to_nat (Z.log2 n))) base n [].

Definition pad0 (w : nat) (s : bytes) : bytes := replicate (w - length s) 48 ++ s.

Definition fmt_d (n : Z) : bytes :=
  if n <? 0 then 45 :: digits 10 (- n) else digits 10 n.
Definition fmt_04d (n : Z) : bytes :=
  if n <? 0 then 45 :: pad0 3 (digits 10 (- n)) else pad0 4 (digits 10 n).
Definition fmt_02x (n : Z) : bytes := pad0 2 (digits 16 n).

(** ** Scanning *)
Definition is_space (c : Z) : bool := (c =? 32) || ((9 <=? c) && (c <=? 13)).

Definition digit_val (c : Z) : option Z :=
  if (48 <=? c) && (c <=? 57) then Some (c - 48)
  else if (97 <=? c) && (c <=? 102) then Some (c - 87)
  else if (65 <=? c) && (c <=? 70) then Some (c - 55)
  else None.

Definition base_digit (base c : Z) : option Z :=
  match digit_val c with
  | Some d => if d <? base then Some d else None
  | None => None
  end.

Fixpoint skip_space (s : bytes) : bytes :=
  match s with
  | c :: s' => if is_space c then skip_space s' else s
  | [] => []
  end.

(** The longest run of digits: value, and what follows it. *)
Fixpoint scan_run (base : Z) (s : bytes) (acc : Z) : Z * bytes :=
  match s with
  | c :: s' =>
      match base_digit base c with
      | Some d => scan_run base s' (acc * base + d)
      | None => (acc, s)
      end
  | [] => (acc, [])
  end.

Definition scan_digits (base : Z) (s : bytes) : option (Z * bytes) :=
  match s with
  | c :: _ => match base_digit base c with
              | Some _ => Some (scan_run base s 0)
              | None => None
              end
  | [] => None
  end.

Definition scan_sign (s : bytes) : bool * bytes :=
  match s with
  | c :: s' => if c =? 45 then (true, s') else if c =? 43 then (false, s') else (false, s)
  | [] => (false, [])
  end.

Definition skip_0x (s : bytes) : bytes :=
  match s with
  | c1 :: c2 :: s' => if (c1 =? 48) && ((c2 =? 120) || (c2 =? 88)) then s' else s
  | _ => s
  end.

(** [%x], [%lx], [%zx] into an unsigned type of [w] values ([w = 2^bits]). *)
Definition scan_hex (w : Z) (s : bytes) : outcome (option (Z * bytes)) :=
  let (neg, s) := scan_sign (skip_space s) in
  match scan_digits 16 (skip_0x s) with
  | None => Ret None
  | Some (v, s') =>
      if v <? w then Ret (Some ((if neg then (- v) mod w else v), s')) else UB
  end.

(** [%d] into an [int]. *)
Definition scan_int (s : bytes) : outcome (option (Z * bytes)) :=
  let (neg, s) := scan_sign (skip_space s) in
  match scan_digits 10 s with
  | None => Ret None
  | Some (v, s') =>
      let v := if neg then - v else v in
      if (-2147483648 <=? v) && (v <=? 2147483647) then Ret (Some (v, s')) else UB
  end.

Inductive fmt_item := FHex32 | FHex64 | FInt | FChar (c : Z).

(** The converted values, in order; their number is [sscanf]'s return value
    (the end-of-input result [-1] counts as no conversion). A [%x] stored
    through an [int *] is the bit pattern of the unsigned value. *)
Fixpoint sscanf (fmt : list fmt_item) (s : bytes) : outcome (list Z) :=
  match fmt with
  | [] => Ret []
  | FChar c :: fmt =>
      match s with
      | c' :: s => if c' =? c then sscanf fmt s else Ret []
      | [] => Ret []
      end
  | FHex32 :: fmt =>
      r ← scan_hex 4294967296 s;
      match r with
      | Some (v, s) => vs ← sscanf fmt s; Ret (s32 v :: vs)
      | None => Ret []
      end
  | FHex64 :: fmt =>
      r ← scan_hex 18446744073709551616 s;
      match r with
      | Some (v, s) => vs ← sscanf fmt s; Ret (v :: vs)
      | None => Ret []
      end
  | FInt :: fmt =>
      r ← scan_int s;
      match r with
      | Some (v, s) => vs ← sscanf fmt s; Ret (v :: vs)
      | None => Ret []
      end
  end.

(** [strtok(s, delim)] for a one-character delimiter, on the string that is
    left: the token and the string [strtok(NULL, delim)] goes on with. *)
Fixpoint skip_delim (c : Z) (s : bytes) : bytes :=
  match s with
  | x :: s' => if x =? c then skip_delim c s' else s
  | [] => []
  end.
Fixpoint span_delim (c : Z) (s : bytes) : bytes * bytes :=
  match s with
  | [] => ([], [])
  | x :: s' => if x =? c then ([], s')
               else let (t, r) := span_delim c s' in (x :: t, r)
  end.
Definition strtok (c : Z) (s : bytes) : option bytes * bytes :=
  match skip_delim c s with
  | [] => (None, [])
  | s => let (t, r) := span_delim c s in (Some t, r)
  end.

(** ** Lemmas *)

Definition is_digit (base c : Z) : Prop := exists d, base_digit base c = Some d.

Lemma hexchar_digit base d :
  2 <= base <= 16 -> 0 <= d < base -> base_digit base (hexchar d) = Some d.
Proof.
  intros Hb Hd. unfold base_digit, digit_val, hexchar.
  repeat case_if; try lia; try (f_equal; lia); destruct E0; lia.
Qed.

Lemma hexchar_range d : 0 <= d < 16 -> 48 <= hexchar d <= 102 /\ hexchar d <> 58.
Proof. intros. unfold hexchar. case_if; lia. Qed.

(** What a run of digits denotes. *)
Fixpoint run_val (base : Z) (acc : Z) (s : bytes) : Z :=
  match s with
  | [] => acc
  | c :: s => run_val base (acc * base + default 0 (base_digit base c)) s
  end.

Definition stops (base : Z) (r : bytes) : Prop :=
  match r with [] => True | c :: _ => base_digit base c = None end.

Lemma scan_run_app base s r acc :
  Forall (is_digit base) s -> stops base r ->
  scan_run base (s ++ r) acc = (run_val base acc s, r).
Proof.
  intros Hs Hr. revert acc. induction Hs as [|c s [d Hd] _ IH]; intros acc; csimpl.
  - destruct r as [|c r]; simpl; [done|]. simpl in Hr. by rewrite Hr.
  - rewrite Hd. simpl. apply IH.
Qed.

Lemma scan_digits_app base s r :
  s <> [] -> Forall (is_digit base) s -> stops base r ->
  scan_digits base (s ++ r) = Some (run_val base 0 s, r).
Proof.
  intros Hne Hs Hr. pose proof (scan_run_app base s r 0 Hs Hr) as H.
  destruct s as [|c s]; [done|]. inversion_clear Hs as [|? ? [d Hd] ?].
  change ((c :: s) ++ r) with (c :: (s ++ r)) in *.
  unfold scan_digits. rewrite Hd. by rewrite H.
Qed.

Lemma run_val_app base acc s t : run_val base acc (s ++ t) = run_val base (run_val base acc s) t.
Proof. revert acc. induction s; intros; csimpl; [done|]. apply IHs. Qed.

Lemma run_val_zeros base n s : run_val base 0 (replicate n 48 ++ s) = run_val base 0 s.
Proof.
  rewrite run_val_app. f_equal.
  induction n as [|n IH]; csimpl; [done|]. replace (0 * base + _) with 0; [done|].
  unfold base_digit. change (digit_val 48) with (Some 0). cbv match. destruct (0 <? base); cbv [default id]; lia.
Qed.

(** Printing then scanning: [digits] writes digits that denote [n]. *)
Lemma digits_go_spec fuel base n acc :
  2 <= base <= 16 -> 0 <= n < base ^ Z.of_nat fuel -> (0 < fuel)%nat ->
  exists s, digits_go fuel base n acc = s ++ acc /\ s <> [] /\
    Forall (fun c => exists d, 0 <= d < base /\ c = hexchar d) s /\
    Z.of_nat (length s) <= Z.of_nat fuel /\
    (forall k, 0 < k -> n < base ^ k -> Z.of_nat (length s) <= k) /\
    run_val base 0 s = n.
Proof.
  intros Hb. revert n acc. induction fuel as [|fuel IH]; intros n acc Hn Hf; [lia|].
  simpl. assert (Hd : 0 <= n mod base < base) by (apply Z.mod_pos_bound; lia).
  pose proof (Z.div_mod n base ltac:(lia)) as Hdm. case_if.
  - exists [hexchar (n mod base)]. split; [done|]. split; [done|].
    split; [constructor; [|constructor]; eauto|].
    split; [simpl; lia|]. split; [simpl; intros; lia|].
    csimpl. rewrite hexchar_digit by lia. simpl. lia.
  - assert (Hq : 0 <= n / base) by (apply Z.div_pos; lia).
    assert (Hlt : n / base < base ^ Z.of_nat fuel).
    { apply Z.div_lt_upper_bound; [lia|]. rewrite <- Z.pow_succ_r by lia.
      rewrite <- Nat2Z.inj_succ. lia. }
    assert (0 < fuel)%nat. { destruct fuel; [|lia]. simpl in Hlt. change (base ^ 0) with 1 in Hlt. lia. }
    destruct (IH (n / base) (hexchar (n mod base) :: acc) ltac:(lia) ltac:(lia))
      as (s & -> & Hne & Hs & Hlen & Hk & Hv).
    exists (s ++ [hexchar (n mod base)]). rewrite <- app_assoc. split; [done|].
    split; [by destruct s|].
    split; [apply Forall_app; split; [done|]; constructor; [|constructor]; eauto|].
    rewrite length_app. simpl length. split; [lia|]. split.
    + intros k Hk0 Hnk. assert (1 < k).
      { destruct (decide (k = 1)) as [->|]; [|lia]. rewrite Z.pow_1_r in Hnk.
        assert (n / base = 0) by (apply Z.div_small; lia). lia. }
      assert (Z.of_nat (length s) <= k - 1); [|lia].
      apply Hk; [lia|]. apply Z.div_lt_upper_bound; [lia|].
      rewrite <- Z.pow_succ_r by lia. by replace (Z.succ (k - 1)) with k by lia.
    + rewrite run_val_app. csimpl. rewrite Hv, hexchar_digit by lia. simpl. lia.
Qed.

Lemma digits_spec base n :
  2 <= base <= 16 -> 0 <= n ->
  digits base n <> [] /\
  Forall (fun c => exists d, 0 <= d < base /\ c = hexchar d) (digits base n) /\
  (forall k, 0 < k -> n < base ^ k -> Z.of_nat (length (digits base n)) <= k) /\
  run_val base 0 (digits base n) = n.
Proof.
  intros Hb Hn. unfold digits.
  set (fuel := S (Z.to_nat (Z.log2 n))).
  assert (Hlt : n < base ^ Z.of_nat fuel).
  { subst fuel. rewrite Nat2Z.inj_succ, Z2Nat.id by apply Z.log2_nonneg.
    destruct (decide (n = 0)) as [->|].
    - apply Z.pow_pos_nonneg; [lia|]. pose proof (Z.log2_nonneg 0). lia.
    - eapply Z.lt_le_trans; [apply (proj2 (Z.log2_spec n ltac:(lia)))|].
      apply Z.pow_le_mono_l. lia. }
  destruct (digits_go_spec fuel base n [] Hb ltac:(lia) ltac:(lia)) as (s & -> & ? & ? & ? & ? & ?).
  by rewrite app_nil_r.
Qed.

Lemma digits_chars base n :
  2 <= base <= 16 -> 0 <= n -> Forall (fun c => 48 <= c <= 102 /\ c <> 58) (digits base n).
Proof.
  intros Hb Hn. destruct (digits_spec base n Hb Hn) as (_ & H & _).
  eapply Forall_impl; [|exact H]. intros c (d & ? & ->). apply hexchar_range. lia.
Qed.

Lemma digits_is_digit base n :
  2 <= base <= 16 -> 0 <= n -> Forall (is_digit base) (digits base n).
Proof.
  intros Hb Hn. destruct (digits_spec base n Hb Hn) as (_ & H & _).
  eapply Forall_impl; [|exact H]. intros c (d & ? & ->). exists d. by apply hexchar_digit.
Qed.

Lemma pad0_chars w s :
  Forall (fun c => 48 <= c <= 102 /\ c <> 58) s ->
  Forall (fun c => 48 <= c <= 102 /\ c <> 58) (pad0 w s).
Proof.
  intros. unfold pad0. apply Forall_app. split; [|done].
  apply Forall_replicate. lia.
Qed.

Lemma fmt_chars n : 0 <= n -> Forall (fun c => 48 <= c <= 102 /\ c <> 58) (fmt_d n).
Proof. intros. unfold fmt_d. case_if; [lia|]. apply digits_chars; lia. Qed.

(** What may follow a scanned number: nothing, or a character that is neither a
    digit nor the [x] of a prefix. *)
Definition ends_number (base : Z) (r : bytes) : Prop :=
  match r with [] => True | c :: _ => base_digit base c = None /\ c <> 120 /\ c <> 88 end.

Lemma ends_stops base r : ends_number base r -> stops base r.
Proof. destruct r; [done|]. by intros []. Qed.

Lemma is_digit_not_x base c : is_digit base c -> c <> 120 /\ c <> 88 /\ is_space c = false /\ c <> 45 /\ c <> 43.
Proof.
  intros [d Hd]. unfold base_digit, digit_val in Hd.
  assert (48 <= c <= 57 \/ 97 <= c <= 102 \/ 65 <= c <= 70) by (repeat case_if; try done; lia).
  split_and!; try lia. unfold is_space. bool_props. lia.
Qed.

Lemma skip_number base s r :
  s <> [] -> Forall (is_digit base) s -> ends_number base r ->
  skip_space (s ++ r) = s ++ r /\ scan_sign (s ++ r) = (false, s ++ r) /\ skip_0x (s ++ r) = s ++ r.
Proof.
  intros Hne Hs Hr. destruct s as [|c s]; [done|]. inversion_clear Hs as [|? ? Hc Hs'].
  destruct (is_digit_not_x _ _ Hc) as (_ & _ & Hsp & H1 & H2). csimpl. rewrite Hsp.
  rewrite (proj2 (Z.eqb_neq c 45) H1), (proj2 (Z.eqb_neq c 43) H2). split_and!; [done..|].
  assert (Hx : forall x l, s ++ r = x :: l -> x <> 120 /\ x <> 88).
  { intros x l E. destruct s as [|y s]; simpl in E.
    - subst r. by destruct Hr as (_ & ? & ?).
    - injection E as -> _. inversion_clear Hs' as [|? ? Hy _]. by destruct (is_digit_not_x _ _ Hy) as (? & ? & _). }
  destruct (s ++ r) as [|x l] eqn:E; [done|]. destruct (Hx _ _ eq_refl) as [H3 H4].
  rewrite (proj2 (Z.eqb_neq x 120) H3), (proj2 (Z.eqb_neq x 88) H4). simpl. by rewrite andb_false_r.
Qed.

(** Scanning what was printed. *)
Lemma scan_hex_digits w n r :
  0 <= n < w -> ends_number 16 r -> scan_hex w (digits 16 n ++ r) = Ret (Some (n, r)).
Proof.
  intros Hn Hr. destruct (digits_spec 16 n ltac:(lia) ltac:(lia)) as (Hne & _ & _ & Hv).
  pose proof (digits_is_digit 16 n ltac:(lia) ltac:(lia)) as Hd.
  destruct (skip_number 16 _ r Hne Hd Hr) as (E1 & E2 & E3).
  unfold scan_hex. rewrite E1, E2, E3, scan_digits_app, Hv by auto using ends_stops.
  by rewrite (proj2 (Z.ltb_lt n w)) by lia.
Qed.

Lemma scan_int_digits n k r :
  0 <= n <= 2147483647 -> ends_number 10 r ->
  scan_int (pad0 k (digits 10 n) ++ r) = Ret (Some (n, r)).
Proof.
  intros Hn Hr. destruct (digits_spec 10 n ltac:(lia) ltac:(lia)) as (Hne & _ & _ & Hv).
  pose proof (digits_is_digit 10 n ltac:(lia) ltac:(lia)) as Hd.
  assert (Hd' : Forall (is_digit 10) (pad0 k (digits 10 n))).
  { unfold pad0. apply Forall_app. split; [|done]. apply Forall_replicate. by exists 0. }
  assert (Hne' : pad0 k (digits 10 n) <> []).
  { unfold pad0. intros [_ E]%app_nil. done. }
  destruct (skip_number 10 _ r Hne' Hd' Hr) as (E1 & E2 & _).
  unfold scan_int. rewrite E1, E2, scan_digits_app by auto using ends_stops.
  unfold pad0. rewrite run_val_zeros, Hv.
  by replace (_ && _) with true by (symmetry; bool_props; lia).
Qed.

(** An [int] prints in at most 11 characters, none of them NUL. *)
Lemma fmt_d_int c :
  -2147483648 <= c < 2147483648 ->
  Z.of_nat (length (fmt_d c)) <= 11 /\ Forall (fun c => c <> 0) (fmt_d c).
Proof.
  intros Hc. assert (H : forall m, 0 <= m <= 2147483648 ->
    Z.of_nat (length (digits 10 m)) <= 10 /\ Forall (fun c => c <> 0) (digits 10 m)).
  { intros m Hm. destruct (digits_spec 10 m ltac:(lia) ltac:(lia)) as (_ & _ & Hk & _).
    split; [apply Hk; [lia|]; change (10 ^ 10) with 10000000000; lia|].
    eapply Forall_impl; [|apply (digits_chars 10 m); lia]. simpl. lia. }
  unfold fmt_d. case_if.
  - destruct (H (- c) ltac:(lia)). simpl length. split; [lia|]. by constructor.
  - destruct (H c ltac:(lia)). split; [lia|done].
Qed.

(** What a printed number does not contain. *)
Lemma not_in_digits base c n :
  2 <= base <= 16 -> 0 <= n -> base_digit base c = None -> c ∉ digits base n.
Proof.
  intros Hb Hn Hc Hin. pose proof (digits_is_digit base n Hb Hn) as H.
  rewrite Forall_forall in H. apply list_elem_of_In in Hin. destruct (H c Hin) as [d Hd]. congruence.
Qed.
Lemma no0_digits base n : 2 <= base <= 16 -> 0 <= n -> no0 (digits base n).
Proof. intros. eapply Forall_impl; [|by apply digits_chars]. simpl. lia. Qed.
