(* ===== verification/Translate.v ===== *)
(** * src/utils: checksum, hexadecimal and escape translation

    [compute_checksum] of csum.c and the four functions of translate.c, on
    memory areas, with the reference encodings they are proved against:
    [csum_of], [hex_of]/[unhex] and [escape]. *)

From S2P Require Import Prelude CMem CFormat.

(** ** csum.c *)

(** The loop [csum += buf[i]]: [buf] is a (signed) [char *], [csum] a [uint8_t]. *)
Fixpoint checksum_loop (csum : Z) (s : bytes) : Z :=
  match s with
  | [] => csum
  | c :: s => checksum_loop (u8 (csum + s8 c)) s
  end.
Definition compute_checksum (b : buf) (off len : Z) : outcome Z :=
  s ← bload b off (u64 len); Ret (checksum_loop 0 s).

(** ** translate.c *)

Definition hexchars : bytes := str "0123456789abcdef".

Fixpoint hex_to_str_loop (num : buf) (noff : Z) (dst : buf) (doff : Z) (i : Z) (n : nat)
  : outcome buf :=
  match n with
  | O => Ret dst
  | S n =>
      ch ← bget num (noff + i);
      hi ← deref (hexchars !! Z.to_nat (Z.shiftr ch 4));
      lo ← deref (hexchars !! Z.to_nat (Z.land ch 15));
      dst ← bput dst (doff + i * 2) hi;
      dst ← bput dst (doff + i * 2 + 1) lo;
      hex_to_str_loop num noff dst doff (i + 1) n
  end.
(** [hex_to_str(num + noff, dst + doff, nbytes)]; returns the written area. *)
Definition hex_to_str (num : buf) (noff : Z) (dst : buf) (doff : Z) (nbytes : Z) : outcome buf :=
  dst ← hex_to_str_loop num noff dst doff 0 (Z.to_nat nbytes);
  bput dst (doff + nbytes * 2) 0.

Definition char_to_hex (ch : Z) : Z :=
  let letter := u8 (Z.land ch 64) in
  let offset := u8 (Z.lor (Z.shiftr letter 3) (Z.shiftr letter 6)) in
  u8 (Z.land (ch + offset) 15).

Fixpoint str_to_hex_loop (src : buf) (soff : Z) (num : buf) (noff : Z) (i : Z) (n : nat)
  : outcome buf :=
  match n with
  | O => Ret num
  | S n =>
      c1 ← bget src (soff + i * 2);
      c2 ← bget src (soff + i * 2 + 1);
      let ch_high := char_to_hex (s8 c1) in
      let ch_low := char_to_hex (s8 c2) in
      num ← bput num (noff + i) (u8 (Z.lor (Z.shiftl ch_high 4) ch_low));
      str_to_hex_loop src soff num noff (i + 1) n
  end.
(** [str_to_hex(src + soff, num + noff, nbytes)]; returns the written area. *)
Definition str_to_hex (src : buf) (soff : Z) (num : buf) (noff : Z) (nbytes : Z) : outcome buf :=
  str_to_hex_loop src soff num noff 0 (Z.to_nat nbytes).

(** The loop of [unescape]: [w] and [r] are the write and read positions; it
    runs while [r < end], so [end - msg] rounds are enough. *)
Fixpoint unescape_loop (fuel : nat) (b : buf) (w r stop : Z) : outcome (buf * Z) :=
  if r <? stop then
    match fuel with
    | O => Hang
    | S fuel =>
        c ← bget b r;
        if c =? 125 then
          x ← bget b (r + 1);
          b ← bput b w (u8 (Z.lxor (s8 x) 32));
          unescape_loop fuel b (w + 1) (r + 2) stop
        else
          b ← bput b w c;
          unescape_loop fuel b (w + 1) (r + 1) stop
    end
  else Ret (b, w).
(** [unescape(b + msg, b + stop)]: the rewritten area and the returned length. *)
Definition unescape (b : buf) (msg stop : Z) : outcome (buf * Z) :=
  r ← unescape_loop (Z.to_nat (stop - msg)) b msg msg stop;
  let '(b, w) := r in Ret (b, w - msg).

(** ** Reference encodings *)

Definition zsum (s : bytes) : Z := foldr Z.add 0 s.
Definition csum_of (s : bytes) : Z := zsum s mod 256.

Definition hex_byte (b : Z) : bytes := [hexchar (b / 16); hexchar (b mod 16)].
Definition hex_of (s : bytes) : bytes := s ≫= hex_byte.

(** The value a pair of characters is read as, whatever the characters. *)
Definition nibble (c : Z) : Z := char_to_hex (s8 c).
Fixpoint unhex (s : bytes) : bytes :=
  match s with
  | c1 :: c2 :: s => (nibble c1 * 16 + nibble c2) :: unhex s
  | _ => []
  end.

(** The protocol's binary escaping: [#], [$], [*] and [}] become [}] followed by
    the byte with bit 5 flipped. *)
Definition needs_escape (c : Z) : bool := (c =? 35) || (c =? 36) || (c =? 42) || (c =? 125).
Definition escape_byte (c : Z) : bytes :=
  if needs_escape c then [125; Z.lxor c 32] else [c].
Definition escape (s : bytes) : bytes := s ≫= escape_byte.

(** ** Checksum *)

Lemma checksum_loop_spec s c : 0 <= c < 256 -> checksum_loop c s = (c + zsum s) mod 256.
Proof.
  revert c. induction s as [|x s IH]; intros c Hc; csimpl.
  - unfold zsum. simpl. rewrite Z.add_0_r. by rewrite Z.mod_small.
  - rewrite IH by apply u8_range. unfold u8, s8, zsum. simpl. mlia.
Qed.

Lemma compute_checksum_at b off len s :
  bload b off len = Ret s -> 0 <= len < 18446744073709551616 ->
  compute_checksum b off len = Ret (csum_of s).
Proof.
  intros H Hl. unfold compute_checksum. rewrite u64_id by done. rewrite H. simpl.
  by rewrite checksum_loop_spec.
Qed.

Lemma zsum_app s t : zsum (s ++ t) = zsum s + zsum t.
Proof. unfold zsum. induction s; simpl; lia. Qed.

Lemma csum_range s : 0 <= csum_of s < 256.
Proof. unfold csum_of. apply Z.mod_pos_bound. lia. Qed.

(** ** Hexadecimal *)

(** A property of all bytes (or nibbles) that computation decides. *)
Lemma byte_forall (P : Z -> bool) n c :
  forallb P (seqZ 0 n) = true -> 0 <= c < n -> P c = true.
Proof.
  intros H Hc. rewrite forallb_forall in H. apply H.
  apply list_elem_of_In, elem_of_seqZ. lia.
Qed.

Lemma nibble_hexchar d : 0 <= d < 16 -> nibble (hexchar d) = d.
Proof.
  intros. apply Z.eqb_eq. by apply (byte_forall (fun d => nibble (hexchar d) =? d) 16).
Qed.

Lemma nibble_range c : 0 <= nibble c < 16.
Proof.
  unfold nibble, char_to_hex. change 15 with (Z.ones 4).
  rewrite Z.land_ones by lia. change (2 ^ 4) with 16. unfold u8. mlia.
Qed.

Lemma nibble_upper d : 10 <= d < 16 -> nibble (55 + d) = d.
Proof.
  intros.
  assert (H' : (d <? 10) || (nibble (55 + d) =? d) = true).
  { apply (byte_forall (fun d => (d <? 10) || (nibble (55 + d) =? d)) 16); [done|lia]. }
  bool_props. destruct H'; lia.
Qed.

Lemma hexchars_lookup d : 0 <= d < 16 -> hexchars !! Z.to_nat d = Some (hexchar d).
Proof.
  intros.
  assert (Hb : match hexchars !! Z.to_nat d with Some x => x =? hexchar d | None => false end = true).
  { by apply (byte_forall (fun d => match hexchars !! Z.to_nat d with
                                    | Some x => x =? hexchar d | None => false end) 16). }
  destruct (hexchars !! Z.to_nat d); [|done]. bool_props. by subst.
Qed.

Lemma combine_nibbles h l : 0 <= h < 16 -> 0 <= l < 16 -> u8 (Z.lor (Z.shiftl h 4) l) = h * 16 + l.
Proof.
  intros Hh Hl. apply Z.eqb_eq.
  apply (byte_forall (fun l => u8 (Z.lor (Z.shiftl h 4) l) =? h * 16 + l) 16); [|done].
  by apply (byte_forall (fun h => forallb
    (fun l => u8 (Z.lor (Z.shiftl h 4) l) =? h * 16 + l) (seqZ 0 16)) 16).
Qed.

Lemma byte_split b : 0 <= b < 256 ->
  0 <= b / 16 < 16 /\ 0 <= b mod 16 < 16 /\ b / 16 * 16 + b mod 16 = b /\
  Z.shiftr b 4 = b / 16 /\ Z.land b 15 = b mod 16.
Proof.
  intros. rewrite Z.shiftr_div_pow2 by lia. change 15 with (Z.ones 4).
  rewrite Z.land_ones by lia. change (2 ^ 4) with 16. mlia.
Qed.

Lemma length_hex_of s : length (hex_of s) = (2 * length s)%nat.
Proof. unfold hex_of. induction s; csimpl; [done|]. lia. Qed.

Lemma hex_of_app s t : hex_of (s ++ t) = hex_of s ++ hex_of t.
Proof. unfold hex_of. apply bind_app. Qed.

Lemma hex_of_chars s :
  Forall byte_ok s -> Forall (fun c => 48 <= c <= 102 /\ c <> 58) (hex_of s).
Proof.
  unfold hex_of. induction 1 as [|b s Hb _ IH]; csimpl; [constructor|].
  destruct (byte_split b Hb) as (?&?&_). constructor; [by apply hexchar_range|].
  constructor; [by apply hexchar_range|done].
Qed.

(** Reading back the digits [hex_to_str] writes gives the bytes. *)
Lemma unhex_hex_of s : Forall byte_ok s -> unhex (hex_of s) = s.
Proof.
  unfold hex_of. induction 1 as [|b s Hb _ IH]; csimpl; [done|].
  destruct (byte_split b Hb) as (?&?&?&_). rewrite !nibble_hexchar by done. by f_equal.
Qed.

Lemma unhex_range s : Forall byte_ok (unhex s).
Proof.
  induction s as [|?|c1 c2 s IH] using list_ind2; simpl; [constructor|constructor|].
  constructor; [|done].
  pose proof (nibble_range c1). pose proof (nibble_range c2). unfold byte_ok. lia.
Qed.

Lemma unhex_app a b : Nat.Even (length a) -> unhex (a ++ b) = unhex a ++ unhex b.
Proof.
  intros [k Hk]. revert k Hk. induction a as [|?|c1 c2 a IH] using list_ind2; intros k Hk; simpl in *; [done|lia|].
  by rewrite (IH (k - 1)%nat) by lia.
Qed.
Lemma length_unhex h k : length h = (2 * k)%nat -> length (unhex h) = k.
Proof.
  revert k. induction h as [|?|c1 c2 h IH] using list_ind2; intros k Hk; simpl in *; [lia|lia|].
  rewrite (IH (k - 1)%nat) by lia. lia.
Qed.

Lemma no0_hex s : Forall byte_ok s -> no0 (hex_of s).
Proof. intros H. eapply Forall_impl; [|apply (hex_of_chars s H)]. simpl. lia. Qed.

Lemma hex_to_str_loop_ok bs : forall npre npost dpre old dpost noff doff i,
  Forall byte_ok bs -> noff + i = blen npre -> doff + i * 2 = blen dpre ->
  length old = (2 * length bs)%nat ->
  hex_to_str_loop (npre ++ (Some <$> bs) ++ npost) noff (dpre ++ old ++ dpost) doff i (length bs)
  = Ret (dpre ++ (Some <$> hex_of bs) ++ dpost).
Proof.
  induction bs as [|b bs IH]; intros npre npost dpre old dpost noff doff i Hok Hn Hd Hl; csimpl.
  - by destruct old.
  - inversion_clear Hok as [|? ? Hb Hok']. destruct old as [|o1 [|o2 old]]; simpl in Hl; try lia.
    destruct (byte_split b Hb) as (Hhi & Hlo & _ & Hsr & Hla).
    csimpl. ostep bget_app. rewrite Hsr, Hla, !hexchars_lookup by done. csimpl.
    ostep bput_app.
    replace (dpre ++ Some (hexchar (b / 16)) :: o2 :: old ++ dpost)
      with ((dpre ++ [Some (hexchar (b / 16))]) ++ o2 :: old ++ dpost) by by rewrite <- app_assoc.
    ostep bput_app.
    rewrite !cons_middle, !app_assoc.
    rewrite <- (app_assoc (_ ++ _) old dpost), <- (app_assoc _ (Some <$> bs) npost).
    rewrite IH; [|done|blia|blia|lia].
    by rewrite <- !app_assoc.
Qed.

Lemma hex_to_str_ok bs npre npost dpre old x dpost noff doff n :
  Forall byte_ok bs -> noff = blen npre -> doff = blen dpre -> n = Z.of_nat (length bs) ->
  length old = (2 * length bs)%nat ->
  hex_to_str (npre ++ (Some <$> bs) ++ npost) noff (dpre ++ old ++ x :: dpost) doff n
  = Ret (dpre ++ (Some <$> hex_of bs) ++ Some 0 :: dpost).
Proof.
  intros Hok Hn Hd -> Hl. unfold hex_to_str. rewrite Nat2Z.id.
  rewrite hex_to_str_loop_ok by (done || lia). csimpl.
  rewrite app_assoc, bput_app; [by rewrite <- app_assoc|].
  rewrite blen_app, blen_fmap, length_hex_of. lia.
Qed.

Lemma hex_to_str_loop_len num noff doff n : forall dst i dst',
  hex_to_str_loop num noff dst doff i n = Ret dst' -> blen dst' = blen dst.
Proof.
  induction n as [|n IH]; simpl; intros dst i dst' H; [by simp_outcome; subst|].
  repeat (binv H; rename Hk into H). apply IH in H.
  apply bstore_len in Hm2, Hm3. lia.
Qed.

Lemma bput_inv b off c b' : bput b off c = Ret b' -> 0 <= off < blen b.
Proof. unfold bput, bstore, bwrite. case_if; [|done]. intros _. blia. Qed.

(** The terminating NUL bounds what fits: a successful [hex_to_str] had room
    for two characters per byte and the NUL. *)
Lemma hex_to_str_bound num noff dst doff n dst' :
  hex_to_str num noff dst doff n = Ret dst' -> doff + 2 * n < blen dst.
Proof.
  unfold hex_to_str. intros H. binv H. apply hex_to_str_loop_len in Hm.
  apply bput_inv in Hk. lia.
Qed.

(** The two translations either return or leave an area. *)
Definition ret_or_ub {A} (o : outcome A) : Prop := (exists a, o = Ret a) \/ o = UB.
Lemma ret_or_ub_bind {A B} (o : outcome A) (f : A -> outcome B) :
  ret_or_ub o -> (forall a, ret_or_ub (f a)) -> ret_or_ub (o ≫= f).
Proof. intros [[a ->] | ->] H; [apply H|by right]. Qed.
Lemma ret_or_ub_bget b off : ret_or_ub (bget b off).
Proof.
  unfold bget. destruct (if 0 <=? off then _ else _) as [[c|]|]; [left; eauto|by right..].
Qed.
Lemma ret_or_ub_bput b off c : ret_or_ub (bput b off c).
Proof. unfold bput, bstore, bwrite. destruct (_ && _); [left; eauto|by right]. Qed.
Lemma ret_or_ub_deref {A} (p : option A) : ret_or_ub (deref p).
Proof. destruct p; [left; eauto|by right]. Qed.

Lemma hex_to_str_ret_or_ub num noff dst doff n : ret_or_ub (hex_to_str num noff dst doff n).
Proof.
  unfold hex_to_str. apply ret_or_ub_bind; [|intros; apply ret_or_ub_bput].
  generalize 0. revert dst. induction (Z.to_nat n) as [|m IH]; intros dst i; simpl; [left; eauto|].
  repeat (apply ret_or_ub_bind; [apply ret_or_ub_bget || apply ret_or_ub_deref || apply ret_or_ub_bput|intros]).
  apply IH.
Qed.
Lemma str_to_hex_ret_or_ub src soff num noff n : ret_or_ub (str_to_hex src soff num noff n).
Proof.
  unfold str_to_hex. generalize 0. revert num. induction (Z.to_nat n) as [|m IH]; intros num i; simpl; [left; eauto|].
  repeat (apply ret_or_ub_bind; [apply ret_or_ub_bget || apply ret_or_ub_bput|intros]).
  apply IH.
Qed.

Lemma bget_inv b off c : bget b off = Ret c -> 0 <= off < blen b.
Proof.
  unfold bget. case_if; [|done]. destruct (b !! Z.to_nat off) eqn:El; [|done].
  apply lookup_lt_Some in El. unfold blen. intros _. lia.
Qed.
Lemma str_to_hex_loop_bound src soff noff m : forall num i num',
  str_to_hex_loop src soff num noff i m = Ret num' -> (0 < m)%nat -> soff + 2 * (i + Z.of_nat m) <= blen src.
Proof.
  induction m as [|m IH]; simpl; intros num i num' H Hm; [lia|].
  binv H. binv Hk. apply bget_inv in Hm1. binv Hk0. destruct m; [lia|].
  apply IH in Hk; lia.
Qed.
(** A [str_to_hex] that returns found two characters per byte in its source. *)
Lemma str_to_hex_bound src soff num noff n num' :
  str_to_hex src soff num noff n = Ret num' -> 0 < n -> soff + 2 * n <= blen src.
Proof. intros H Hn. apply str_to_hex_loop_bound in H; lia. Qed.

Lemma str_to_hex_loop_ok h : forall spre spost dpre old dpost soff noff i n,
  length h = (2 * n)%nat -> soff + i * 2 = blen spre -> noff + i = blen dpre ->
  length old = n ->
  str_to_hex_loop (spre ++ (Some <$> h) ++ spost) soff (dpre ++ old ++ dpost) noff i n
  = Ret (dpre ++ (Some <$> unhex h) ++ dpost).
Proof.
  induction h as [| c | c1 c2 h IH] using list_ind2; intros spre spost dpre old dpost soff noff i n Hn Hs Hd Hl;
    simpl in Hn; [|lia|].
  - destruct n; [|lia]. by destruct old.
  - destruct n as [|n]; [lia|]. destruct old as [|o old]; simpl in Hl; [lia|]. csimpl.
    ostep bget_app.
    replace (spre ++ Some c1 :: Some c2 :: (Some <$> h) ++ spost)
      with ((spre ++ [Some c1]) ++ Some c2 :: (Some <$> h) ++ spost) by by rewrite <- app_assoc.
    ostep bget_app.
    ostep bput_app.
    rewrite combine_nibbles by apply nibble_range.
    rewrite !cons_middle, !app_assoc.
    rewrite <- (app_assoc (_ ++ _) old dpost), <- (app_assoc _ (Some <$> h) spost).
    rewrite IH; [|lia|blia|blia|lia].
    by rewrite <- !app_assoc.
Qed.

Lemma str_to_hex_ok h spre spost dpre old dpost soff noff n :
  Z.of_nat (length h) = 2 * n -> soff = blen spre -> noff = blen dpre ->
  Z.of_nat (length old) = n ->
  str_to_hex (spre ++ (Some <$> h) ++ spost) soff (dpre ++ old ++ dpost) noff n
  = Ret (dpre ++ (Some <$> unhex h) ++ dpost).
Proof. intros. unfold str_to_hex. apply str_to_hex_loop_ok; lia. Qed.

(** ** Escaping *)

Lemma lxor_32_range c : 0 <= c < 256 -> 0 <= Z.lxor c 32 < 256.
Proof.
  intros. assert (H' : (0 <=? Z.lxor c 32) && (Z.lxor c 32 <? 256) = true).
  { by apply (byte_forall (fun c => (0 <=? Z.lxor c 32) && (Z.lxor c 32 <? 256)) 256). }
  bool_props. lia.
Qed.

Lemma unescape_char c : byte_ok c -> u8 (Z.lxor (s8 (Z.lxor c 32)) 32) = c.
Proof.
  intros. apply Z.eqb_eq.
  by apply (byte_forall (fun c => u8 (Z.lxor (s8 (Z.lxor c 32)) 32) =? c) 256).
Qed.

Lemma escape_cons c s : escape (c :: s) = escape_byte c ++ escape s.
Proof. done. Qed.

Lemma length_escape s : (length s <= length (escape s))%nat.
Proof.
  induction s as [|c s IH]; [done|]. rewrite escape_cons, length_app.
  unfold escape_byte. case_if; simpl; lia.
Qed.

(** The loop, [gap] being the cells between the write and the read position. *)
Lemma unescape_loop_ok s : forall fuel pre gap post w r stop,
  Forall byte_ok s -> w = blen pre -> r = blen pre + blen gap ->
  stop = r + Z.of_nat (length (escape s)) -> (length (escape s) <= fuel)%nat ->
  exists gap', unescape_loop fuel (pre ++ gap ++ (Some <$> escape s) ++ post) w r stop
    = Ret (pre ++ (Some <$> s) ++ gap' ++ post, w + Z.of_nat (length s)) /\
    (length s + length gap' = length gap + length (escape s))%nat.
Proof.
  induction s as [|c s IH]; intros fuel pre gap post w r stop Hok Hw Hr Hs Hf.
  - exists gap. replace (unescape_loop _ _ _ _ _) with (Ret (pre ++ gap ++ post, w)).
    + csimpl. split; [|lia]. do 2 f_equal. lia.
    + simpl in Hs. destruct fuel; csimpl; (case_if; [lia|done]).
  - inversion_clear Hok as [|? ? Hc Hok'].
    rewrite escape_cons in *. rewrite length_app in *.
    unfold escape_byte in *. destruct (needs_escape c) eqn:Ec; csimpl in *.
    + destruct fuel as [|fuel]; [lia|]. csimpl.
      replace (r <? stop) with true by (symmetry; bool_props; lia).
      rewrite app_assoc. ostep bget_app.
      change (125 =? 125) with true. cbv match.
      replace ((pre ++ gap) ++ Some 125 :: Some (Z.lxor c 32) :: (Some <$> escape s) ++ post)
        with ((pre ++ gap ++ [Some 125]) ++ Some (Z.lxor c 32) :: (Some <$> escape s) ++ post)
        by by rewrite <- !app_assoc.
      ostep bget_app.
      rewrite unescape_char by done.
      destruct (gap ++ [Some 125; Some (Z.lxor c 32)]) as [|g gap'] eqn:Eg; [by destruct gap|].
      replace ((pre ++ gap ++ [Some 125]) ++ Some (Z.lxor c 32) :: (Some <$> escape s) ++ post)
        with (pre ++ g :: gap' ++ (Some <$> escape s) ++ post).
      2:{ change (g :: gap' ++ ?x) with ((g :: gap') ++ x). rewrite <- Eg. by rewrite <- !app_assoc. }
      ostep bput_app.
      assert (length gap' = S (length gap)).
      { apply (f_equal length) in Eg. rewrite length_app in Eg. simpl in Eg. lia. }
      destruct (IH fuel (pre ++ [Some c]) gap' post (w + 1) (r + 2) stop) as (g' & E & Hl');
        [done|blia|blia|lia|lia|].
      exists g'. rewrite <- !app_assoc in E. simpl in E. rewrite E.
      split; [|lia]. do 2 f_equal. lia.
    + destruct fuel as [|fuel]; [lia|]. csimpl.
      replace (r <? stop) with true by (symmetry; bool_props; lia).
      rewrite app_assoc. ostep bget_app.
      replace (c =? 125) with false.
      2:{ symmetry. unfold needs_escape in Ec. bool_props. lia. }
      destruct (gap ++ [Some c]) as [|g gap'] eqn:Eg; [by destruct gap|].
      replace ((pre ++ gap) ++ Some c :: (Some <$> escape s) ++ post)
        with (pre ++ g :: gap' ++ (Some <$> escape s) ++ post).
      2:{ change (g :: gap' ++ ?x) with ((g :: gap') ++ x). rewrite <- Eg. by rewrite <- !app_assoc. }
      ostep bput_app.
      assert (length gap' = length gap).
      { apply (f_equal length) in Eg. rewrite length_app in Eg. simpl in Eg. lia. }
      destruct (IH fuel (pre ++ [Some c]) gap' post (w + 1) (r + 1) stop) as (g' & E & Hl');
        [done|blia|blia|lia|lia|].
      exists g'. rewrite <- !app_assoc in E. simpl in E. rewrite E.
      split; [|lia]. do 2 f_equal. lia.
Qed.

(** Whatever initialised bytes lie in [r .. stop], the loop ends; it writes
    only between the write position and [stop]. *)
Lemma unescape_loop_total stop fuel : forall b w r,
  0 <= w <= r -> r <= stop + 1 -> w <= stop < blen b ->
  (forall i, r <= i <= stop -> exists c, b !! Z.to_nat i = Some (Some c)) ->
  (Z.to_nat (stop - r) <= fuel)%nat ->
  exists b' w', unescape_loop fuel b w r stop = Ret (b', w') /\ w <= w' <= w + Z.max 0 (stop - r) /\
    blen b' = blen b /\ forall i, 0 <= i < w \/ stop <= i -> b' !! Z.to_nat i = b !! Z.to_nat i.
Proof.
  induction fuel as [|fuel IH]; intros b w r Hwr Hr Hw Hinit Hf; simpl; case_if; [lia| |
    |exists b, w; split_and!; try done; lia].
  { exists b, w. split_and!; try done; lia. }
  destruct (Hinit r ltac:(lia)) as (c & Hc).
  rewrite (obind_eq _ _ _ (bget_lookup b r c ltac:(lia) Hc)).
  assert (Hput : forall v, blen (<[Z.to_nat w := Some v]> b) = blen b) by (intros; unfold blen; by rewrite length_insert).
  assert (Hne : forall v i, 0 <= i -> w <> i -> (<[Z.to_nat w := v]> b) !! Z.to_nat i = b !! Z.to_nat i).
  { intros. apply list_lookup_insert_ne. lia. }
  assert (Hstep : forall v r', r < r' <= r + 2 -> r' <= stop + 1 ->
    exists b' w', unescape_loop fuel (<[Z.to_nat w := Some v]> b) (w + 1) r' stop = Ret (b', w') /\
      w <= w' <= w + Z.max 0 (stop - r) /\ blen b' = blen b /\
      forall i, 0 <= i < w \/ stop <= i -> b' !! Z.to_nat i = b !! Z.to_nat i).
  { intros v r' Hr' Hr2.
    destruct (IH (<[Z.to_nat w := Some v]> b) (w + 1) r') as (b' & w' & Eu & Hw' & Hl & Hi);
      [lia|lia|rewrite Hput; lia| |lia|].
    - intros i Hi. rewrite Hne by lia. apply Hinit. lia.
    - exists b', w'. split; [done|]. split; [lia|]. split; [by rewrite Hl|].
      intros i Hio. rewrite Hi by lia. apply Hne; lia. }
  case_if.
  - destruct (Hinit (r + 1) ltac:(lia)) as (x & Hx).
    rewrite (obind_eq _ _ _ (bget_lookup b (r + 1) x ltac:(lia) Hx)).
    rewrite (obind_eq _ _ _ (bput_insert b w _ ltac:(lia))). apply Hstep; lia.
  - rewrite (obind_eq _ _ _ (bput_insert b w _ ltac:(lia))). apply Hstep; lia.
Qed.

(** [unescape] undoes [escape]. *)
Lemma unescape_ok s pre post :
  Forall byte_ok s ->
  let msg := blen pre in let stop := msg + Z.of_nat (length (escape s)) in
  exists gap, unescape (pre ++ (Some <$> escape s) ++ post) msg stop
      = Ret (pre ++ (Some <$> s) ++ gap ++ post, Z.of_nat (length s)) /\
    (length s + length gap = length (escape s))%nat.
Proof.
  intros Hs msg stop. destruct (unescape_loop_ok s (Z.to_nat (stop - msg)) pre [] post msg msg stop)
    as (gap & E & Hl); [done|done|by rewrite blen_nil; lia|done|lia|].
  exists gap. split; [|done]. unfold unescape. simpl in E. rewrite E. simpl. do 2 f_equal. lia.
Qed.

(** ** Properties *)

(** C37 Hexadecimal round trip, in place: [hex_to_str] writes the two digits of
    each byte and a NUL, [str_to_hex] reads them back, for every byte string and
    every pair of areas that are large enough. *)
Theorem hex_round_trip s num dst out :
  Forall byte_ok s -> 2 * Z.of_nat (length s) < blen dst -> Z.of_nat (length s) <= blen out ->
  exists dst' out',
    hex_to_str ((Some <$> s) ++ num) 0 dst 0 (Z.of_nat (length s)) = Ret dst' /\
    cstr_at dst' 0 (hex_of s) /\ blen dst' = blen dst /\
    str_to_hex dst' 0 out 0 (Z.of_nat (length s)) = Ret out' /\
    bload out' 0 (Z.of_nat (length s)) = Ret s.
Proof.
  intros Hs Hd Ho.
  destruct (area_split dst (2 * Z.of_nat (length s))) as (old & [|x rest] & -> & Hold); [lia|rewrite app_nil_r in *; lia|].
  destruct (area_split out (Z.of_nat (length s))) as (oold & orest & -> & Hoold); [lia|].
  exists ((Some <$> hex_of s) ++ Some 0 :: rest), ((Some <$> s) ++ orest). split_and!.
  - apply (hex_to_str_ok s [] num [] old x rest); try done. unfold blen in *. lia.
  - split; [|by exists [], rest]. eapply Forall_impl; [|apply (hex_of_chars s Hs)]. simpl. lia.
  - rewrite !blen_app, !blen_cons, blen_fmap, length_hex_of. lia.
  - rewrite <- (unhex_hex_of s Hs) at 3.
    apply (str_to_hex_ok (hex_of s) [] (Some 0 :: rest) [] oold orest); try done.
    rewrite length_hex_of. lia.
  - by apply (bload_app [] s orest).
Qed.

(** C38 Binary escaping round trip: [unescape] rewrites the escaped bytes in place
    to the original ones, returns their number, and leaves the cells outside
    the message alone. *)
Theorem unescape_escape s pre post :
  Forall byte_ok s ->
  let msg := blen pre in let stop := msg + Z.of_nat (length (escape s)) in
  exists gap, unescape (pre ++ (Some <$> escape s) ++ post) msg stop
      = Ret (pre ++ (Some <$> s) ++ gap ++ post, Z.of_nat (length s)) /\
    (length s + length gap = length (escape s))%nat.
Proof. apply unescape_ok. Qed.

(** [unescape] is safe on any message: as long as the bytes up to and
    including [stop] (the NUL behind the payload) are initialised, it ends, the
    returned length is at most the message's, and no cell before the message or
    from [stop] on changes, even when the last byte is a lone [}]. *)
Theorem unescape_total b msg stop :
  0 <= msg <= stop -> stop < blen b ->
  (forall i, msg <= i <= stop -> exists c, b !! Z.to_nat i = Some (Some c)) ->
  exists b' n, unescape b msg stop = Ret (b', n) /\ 0 <= n <= stop - msg /\ blen b' = blen b /\
    forall i, 0 <= i < msg \/ stop <= i -> b' !! Z.to_nat i = b !! Z.to_nat i.
Proof.
  intros Hm Hs Hinit.
  destruct (unescape_loop_total stop (Z.to_nat (stop - msg)) b msg msg) as (b' & w & E & Hw & Hl & Hi);
    [lia|lia|lia|done|lia|].
  exists b', (w - msg). unfold unescape. rewrite E. simpl. split_and!; [done|lia|lia|done|done].
Qed.

Example hex_round_trip_witness :
  exists dst' out',
    hex_to_str (Some <$> [0; 171; 255]) 0 (uninit 7) 0 3 = Ret dst' /\ cstr_at dst' 0 (str "00abff") /\
    blen dst' = 7 /\ str_to_hex dst' 0 (uninit 3) 0 3 = Ret out' /\ bload out' 0 3 = Ret [0; 171; 255].
Proof.
  apply (hex_round_trip [0; 171; 255] [] (uninit 7) (uninit 3)).
  - vdecide.
  - rewrite blen_uninit; simpl; lia.
  - rewrite blen_uninit; simpl; lia.
Defined.

Example unescape_escape_witness :
  exists gap, unescape ((Some <$> [125; 3; 7]) ++ [Some 0]) 0 3 = Ret ((Some <$> [35; 7]) ++ gap ++ [Some 0], 2)
    /\ (2 + length gap = 3)%nat.
Proof.
  apply (unescape_escape [35; 7] [] [Some 0]). vdecide.
Defined.

Example unescape_total_witness :
  exists b' n, unescape [Some 65; Some 125; Some 0] 0 2 = Ret (b', n) /\ 0 <= n <= 2 - 0 /\ blen b' = 3 /\
    forall i, 0 <= i < 0 \/ 2 <= i -> b' !! Z.to_nat i = [Some 65; Some 125; Some 0] !! Z.to_nat i.
Proof.
  apply (unescape_total [Some 65; Some 125; Some 0] 0 2); [lia|unfold blen; simpl; lia|].
  intros i Hi. assert (i = 0 \/ i = 1 \/ i = 2) as [->|[->| ->]] by lia; by eexists.
Defined.
