(* ===== verification/Packet.v ===== *)
(** * src/packet.c: the receive buffer and the packets cut out of it

    [pktbuf_t] accumulates what the socket delivers; [pktbuf_is_complete]
    looks for [$ ... # hh] and [pktbuf_pop_packet] copies the packet out. The
    operations are on cells, so that stale and uninitialised memory behind the
    valid part is visible; [contents] is the valid part. *)

From S2P Require Import Prelude CMem CFormat Translate.

Definition CSUM_SIZE : Z := 2.

Record packet_t := Packet { pkt_end_pos : Z; pkt_data : buf }.

Record pktbuf_t := Pktbuf {
  pb_size : Z;
  pb_cap : Z;
  pb_end_pos : Z;
  pb_data : option buf  (* [None] is the NULL pointer *)
}.

Definition DEFAULT_CAP : Z := 10.

(** [1 << cap] on [int]: undefined once the result is not an [int]. *)
Definition shl1 (cap : Z) : outcome Z :=
  if (0 <=? cap) && (cap <? 31) then Ret (2 ^ cap) else UB.

Definition pktbuf_clear (pb : pktbuf_t) : pktbuf_t := Pktbuf 0 (pb_cap pb) (-1) (pb_data pb).

(** [alloc_ok]: does [calloc] succeed? The code does not look. *)
Definition pktbuf_init (alloc_ok : bool) : outcome (bool * pktbuf_t) :=
  n ← shl1 DEFAULT_CAP;
  Ret (true, Pktbuf 0 DEFAULT_CAP (-1) (if alloc_ok then Some (zeroed n) else None)).

(** What [read] answers: bytes of the socket, end of file, or an [errno]. It
    delivers bytes only into a buffer; given NULL it answers [EFAULT]. *)
Inductive read_ev := ReadData (avail : bytes) | ReadEof | ReadErr (errno : Z).

Definition pktbuf_fill_from_file (pb : pktbuf_t) (alloc_ok : bool) (ev : read_ev)
  : outcome (Z * pktbuf_t) :=
  n ← shl1 (pb_cap pb);
  _ ← cassert (pb_size pb <=? n);
  pb ← (if n =? pb_size pb then
          n' ← shl1 (pb_cap pb + 1);
          let old := default [] (pb_data pb) in
          Ret (Pktbuf (pb_size pb) (pb_cap pb + 1) (pb_end_pos pb)
                 (if alloc_ok then Some (old ++ uninit (n' - blen old)) else None))
        else Ret pb);
  n ← shl1 (pb_cap pb);
  let left := n - pb_size pb in
  match ev with
  | ReadData avail =>
      d ← deref (pb_data pb);
      let got := take (Z.to_nat left) avail in
      d ← bstore d (pb_size pb) got;
      let nread := Z.of_nat (length got) in
      Ret (nread, Pktbuf (pb_size pb + nread) (pb_cap pb) (pb_end_pos pb) (Some d))
  | ReadEof => Ret (0, pb)
  | ReadErr _ => Ret (-1, pb)
  end.

Definition pktbuf_is_complete (pb : pktbuf_t) : outcome (bool * pktbuf_t) :=
  d ← deref (pb_data pb);
  (* the loop over [i < size] up to the first '$' *)
  head ← memchr d 36 (pb_size pb);
  match head with
  | None => Ret (false, pktbuf_clear pb)
  | Some head =>
      pb ← (if 0 <? head then
              d ← memmove d 0 head (pb_size pb - head);
              Ret (Pktbuf (pb_size pb - head) (pb_cap pb) (pb_end_pos pb) (Some d))
            else Ret pb);
      d ← deref (pb_data pb);
      p ← memchr d 35 (u64 (pb_size pb));
      match p with
      | None => Ret (false, pb)
      | Some p =>
          let end_pos := p + CSUM_SIZE in
          if pb_size pb <? end_pos then Ret (false, pb)
          else Ret (true, Pktbuf (pb_size pb) (pb_cap pb) end_pos (pb_data pb))
      end
  end.

Definition pktbuf_pop_packet (pb : pktbuf_t) (alloc_ok : bool)
  : outcome (option packet_t * pktbuf_t) :=
  if pb_end_pos pb =? -1 then Ret (None, pb)
  else
    let old_pkt_size := pb_end_pos pb + 1 in
    pkt ← deref (if alloc_ok then Some (zeroed (old_pkt_size + 1)) else None);
    d ← deref (pb_data pb);
    src ← bslice d 0 (u64 old_pkt_size);
    pkt ← bwrite pkt 0 src;
    pkt ← bput pkt old_pkt_size 0;
    d ← memmove d 0 (old_pkt_size + 1) (pb_size pb - old_pkt_size);
    Ret (Some (Packet (pb_end_pos pb) pkt),
         Pktbuf (pb_size pb - old_pkt_size) (pb_cap pb) (-1) (Some d)).

(** ** Reference: the wire format and the contents of the buffer *)

(** [$ payload # hh]: how both sides put a packet on the wire. *)
Definition frame (s : bytes) : bytes := [36] ++ s ++ [35] ++ hex_byte (csum_of s).

Global Arguments frame : simpl never.

(** The packet the reader makes of a frame. *)
Definition packet_of (s : bytes) : packet_t :=
  Packet (Z.of_nat (length s) + 3) ((Some <$> frame s) ++ [Some 0]).

(** The first position of a byte. *)
Fixpoint index_of (c : Z) (s : bytes) : option Z :=
  match s with
  | [] => None
  | x :: s => if x =? c then Some 0 else (fun i => 1 + i) <$> index_of c s
  end.

(** [holds pb c]: the buffer is well formed and its valid bytes are [c]. *)
Definition holds (pb : pktbuf_t) (c : bytes) : Prop :=
  exists rest, pb_data pb = Some ((Some <$> c) ++ rest) /\
    pb_size pb = Z.of_nat (length c) /\
    10 <= pb_cap pb < 31 /\ blen ((Some <$> c) ++ rest) = 2 ^ pb_cap pb.

(** What a byte sequence is found to be: no packet start; a packet start at
    [drop]ped offset with no end yet; or a packet of [n] bytes. *)
Inductive scan := NoHead | Partial (c : bytes) | Whole (c : bytes) (end_pos : Z).
Definition scan_contents (c : bytes) : scan :=
  match index_of 36 c with
  | None => NoHead
  | Some h =>
      let c := drop (Z.to_nat h) c in
      match index_of 35 c with
      | None => Partial c
      | Some k => if Z.of_nat (length c) <? k + CSUM_SIZE then Partial c else Whole c (k + CSUM_SIZE)
      end
  end.

(** ** Lemmas *)

Lemma index_of_range c s i : index_of c s = Some i -> 0 <= i < Z.of_nat (length s).
Proof.
  revert i. induction s as [|x s IH]; simpl; intros i H; [done|].
  case_if; simplify_eq; [lia|]. destruct (index_of c s); simplify_eq/=.
  specialize (IH _ eq_refl). lia.
Qed.

Lemma index_of_app c s t : c ∉ s -> index_of c (s ++ t) = (fun i => Z.of_nat (length s) + i) <$> index_of c t.
Proof.
  induction s as [|x s IH]; csimpl; intros Hn.
  - destruct (index_of c t); done.
  - apply not_elem_of_cons in Hn as [Hne Hn]. rewrite (proj2 (Z.eqb_neq x c)) by congruence.
    rewrite IH by done. destruct (index_of c t); csimpl; [|done]. f_equal. lia.
Qed.

Lemma index_of_None c s : c ∉ s -> index_of c s = None.
Proof. intros. rewrite <- (app_nil_r s). by rewrite index_of_app. Qed.

Lemma memchr_go_ok c s rest i :
  memchr_go ((Some <$> s) ++ rest) c (length s) i = Ret ((fun j => i + j) <$> index_of c s).
Proof.
  revert i. induction s as [|x s IH]; intros i; csimpl; [by destruct rest|].
  case_if; csimpl; [do 2 f_equal; lia|]. rewrite IH. destruct (index_of c s); csimpl; [|done].
  do 2 f_equal. lia.
Qed.

Lemma memchr_ok c s rest n :
  n = Z.of_nat (length s) -> memchr ((Some <$> s) ++ rest) c n = Ret (index_of c s).
Proof.
  intros ->. unfold memchr. rewrite Nat2Z.id, memchr_go_ok.
  by destruct (index_of c s).
Qed.

Lemma memchr_uninit c s rest n :
  c ∉ s -> n = Z.of_nat (length s) + 1 -> memchr ((Some <$> s) ++ None :: rest) c n = UB.
Proof.
  intros Hc ->. unfold memchr. replace (Z.to_nat _) with (S (length s)) by lia. generalize 0.
  induction s as [|x s IH]; intros i; csimpl; [done|]. apply not_elem_of_cons in Hc as [Hne Hc].
  rewrite (proj2 (Z.eqb_neq x c)) by congruence. by apply IH.
Qed.

Lemma holds_bounds pb c : holds pb c -> 0 <= pb_size pb <= 2 ^ pb_cap pb /\ 2 ^ pb_cap pb <= 1073741824.
Proof.
  intros (rest & _ & Hs & Hc & Hl). autorewrite with blen in Hl. pose proof (blen_nonneg rest).
  split; [lia|]. change 1073741824 with (2 ^ 30). apply Z.pow_le_mono_r; lia.
Qed.

Lemma shl1_ok cap : 0 <= cap < 31 -> shl1 cap = Ret (2 ^ cap).
Proof. intros. unfold shl1. by replace (_ && _) with true by (symmetry; bool_props; lia). Qed.

(** Moving a suffix of the valid bytes to the front. *)
Lemma memmove_front (pre mid post : buf) n :
  n = blen mid -> blen mid < 18446744073709551616 ->
  exists rest, memmove (pre ++ mid ++ post) 0 (blen pre) n = Ret (mid ++ rest) /\
    blen (mid ++ rest) = blen (pre ++ mid ++ post).
Proof.
  intros -> Hm. pose proof (blen_nonneg mid). unfold memmove. rewrite u64_id by lia.
  rewrite bslice_app by done. csimpl.
  set (all := pre ++ mid ++ post).
  assert (Hl : (length mid <= length all)%nat) by (subst all; rewrite !length_app; lia).
  exists (drop (length mid) all). split.
  - rewrite <- (take_drop (length mid) all) at 1.
    apply (bwrite_app [] (take (length mid) all)); [done|]. rewrite length_take. lia.
  - unfold blen. rewrite length_app, length_drop. lia.
Qed.

Lemma scan_contents_app c h :
  index_of 36 c = Some h ->
  c = take (Z.to_nat h) c ++ drop (Z.to_nat h) c /\ blen (Some <$> take (Z.to_nat h) c) = h.
Proof.
  intros H. apply index_of_range in H. split; [by rewrite take_drop|].
  rewrite blen_fmap, length_take. lia.
Qed.

(** [pktbuf_is_complete] computes [scan_contents]. *)
Lemma is_complete_ok pb c :
  holds pb c ->
  match scan_contents c with
  | NoHead => pktbuf_is_complete pb = Ret (false, pktbuf_clear pb) /\ holds (pktbuf_clear pb) []
  | Partial c' => exists pb', pktbuf_is_complete pb = Ret (false, pb') /\ holds pb' c' /\
      pb_end_pos pb' = pb_end_pos pb /\ pb_cap pb' = pb_cap pb
  | Whole c' e => exists pb', pktbuf_is_complete pb = Ret (true, pb') /\ holds pb' c' /\
      pb_end_pos pb' = e /\ pb_cap pb' = pb_cap pb
  end.
Proof.
  intros Hh. pose proof (holds_bounds _ _ Hh) as Hb. destruct Hh as (rest & Hd & Hs & Hc & Hl).
  unfold pktbuf_is_complete, scan_contents. rewrite Hd. csimpl.
  rewrite memchr_ok by done. csimpl.
  destruct (index_of 36 c) as [h|] eqn:Eh.
  2:{ split; [done|]. by exists ((Some <$> c) ++ rest). }
  destruct (scan_contents_app c h Eh) as [Ec Elen]. apply index_of_range in Eh.
  set (p := take (Z.to_nat h) c) in *. set (c' := drop (Z.to_nat h) c) in *.
  assert (Hlc : Z.of_nat (length c) = h + Z.of_nat (length c')).
  { rewrite Ec, length_app. rewrite blen_fmap in Elen. lia. }
  assert (Hmv : exists pb', (if 0 <? h
      then d ← memmove ((Some <$> c) ++ rest) 0 h (pb_size pb - h);
           Ret (Pktbuf (pb_size pb - h) (pb_cap pb) (pb_end_pos pb) (Some d))
      else Ret pb) = Ret pb' /\ holds pb' c' /\ pb_end_pos pb' = pb_end_pos pb /\ pb_cap pb' = pb_cap pb).
  { case_if.
    - destruct (memmove_front (Some <$> p) (Some <$> c') rest (pb_size pb - h)) as (r & Er & Hr).
      { rewrite blen_fmap. lia. } { rewrite blen_fmap. lia. }
      rewrite Elen, app_assoc, <- fmap_app, <- Ec in Er. rewrite Er. csimpl.
      eexists. split; [done|]. split; [|done]. exists r. csimpl. split; [done|].
      split; [lia|]. split; [done|]. rewrite Hr, app_assoc, <- fmap_app, <- Ec. done.
    - exists pb. assert (h = 0) as -> by lia. split; [done|]. split; [|done].
      exists rest. by subst c'. }
  destruct Hmv as (pb' & -> & Hh' & He' & Hcap').
  csimpl. pose proof (holds_bounds _ _ Hh') as Hb'.
  destruct Hh' as (rest' & Hd' & Hs' & Hc' & Hl'). rewrite Hd'. csimpl.
  rewrite u64_id by lia. rewrite memchr_ok by done. csimpl.
  assert (Hholds : holds pb' c') by by exists rest'.
  destruct (index_of 35 c') as [k|] eqn:Ek; [|by exists pb'].
  rewrite Hs'. unfold CSUM_SIZE. case_if; [by exists pb'|].
  eexists. split; [done|]. split; [|done]. by exists rest'.
Qed.

(** The room [read] is given. *)
Definition fill_cap (pb : pktbuf_t) : Z :=
  if 2 ^ pb_cap pb =? pb_size pb then pb_cap pb + 1 else pb_cap pb.
Definition fill_room (pb : pktbuf_t) : Z := 2 ^ fill_cap pb - pb_size pb.

Lemma fill_room_pos pb c : holds pb c -> 0 < fill_room pb.
Proof.
  intros Hh. pose proof (holds_bounds _ _ Hh). destruct Hh as (rest & _ & _ & Hc & _).
  unfold fill_room, fill_cap. case_if; [|lia]. rewrite Z.pow_add_r by lia. lia.
Qed.

(** [pktbuf_fill_from_file] appends what fits; the buffer doubles when full. *)
Lemma fill_ok pb c avail :
  holds pb c -> fill_cap pb < 31 ->
  let got := take (Z.to_nat (fill_room pb)) avail in
  exists pb', pktbuf_fill_from_file pb true (ReadData avail) = Ret (Z.of_nat (length got), pb') /\
    holds pb' (c ++ got) /\ pb_end_pos pb' = pb_end_pos pb /\ pb_cap pb' = fill_cap pb.
Proof.
  intros Hh Hcap got. pose proof (holds_bounds _ _ Hh) as Hb.
  pose proof (fill_room_pos _ _ Hh) as Hroom.
  destruct Hh as (rest & Hd & Hs & Hc & Hl).
  unfold pktbuf_fill_from_file. rewrite (shl1_ok (pb_cap pb)) by lia. csimpl.
  replace (pb_size pb <=? 2 ^ pb_cap pb) with true by (symmetry; bool_props; lia). csimpl.
  assert (He : exists rest', (if 2 ^ pb_cap pb =? pb_size pb then
          n' ← shl1 (pb_cap pb + 1);
          Ret (Pktbuf (pb_size pb) (pb_cap pb + 1) (pb_end_pos pb)
                 (Some (default [] (pb_data pb) ++ uninit (n' - blen (default [] (pb_data pb))))))
        else Ret pb) = Ret (Pktbuf (pb_size pb) (fill_cap pb) (pb_end_pos pb) (Some ((Some <$> c) ++ rest')))
      /\ blen ((Some <$> c) ++ rest') = 2 ^ fill_cap pb).
  { unfold fill_cap in *. case_if.
    - rewrite shl1_ok by lia. csimpl. rewrite Hd. csimpl.
      exists (rest ++ uninit (2 ^ (pb_cap pb + 1) - blen ((Some <$> c) ++ rest))).
      rewrite <- app_assoc. split; [done|]. rewrite app_assoc, blen_app, blen_uninit; [lia|].
      rewrite Hl, Z.pow_add_r by lia. lia.
    - exists rest. split; [|done]. destruct pb; simpl in *. by subst. }
  destruct He as (rest' & -> & Hl'). csimpl. rewrite shl1_ok; csimpl.
  2:{ unfold fill_cap in *. case_if; lia. }
  fold (fill_room pb). fold got.
  assert (Hgot : Z.of_nat (length got) <= blen rest').
  { subst got. rewrite length_take. autorewrite with blen in Hl'. unfold fill_room in *. lia. }
  rewrite bstore_front; [|rewrite blen_fmap; lia|done]. csimpl.
  eexists. split; [done|]. split; [|done].
  exists (drop (length got) rest'). csimpl.
  rewrite fmap_app, <- app_assoc, length_app. split; [done|]. split; [lia|].
  split. { unfold fill_cap in *. case_if; lia. }
  rewrite <- Hl'. unfold blen. rewrite !length_app, !length_fmap, length_drop. unfold blen in Hgot. lia.
Qed.

(** A packet that starts at the first cell is left where it is. *)
Lemma is_complete_at_head pb c rest k e :
  pb_data pb = Some ((Some <$> c) ++ rest) -> pb_size pb = Z.of_nat (length c) ->
  index_of 36 c = Some 0 -> index_of 35 c = Some k -> e = k + 2 -> e <= pb_size pb <= 1073741824 ->
  pktbuf_is_complete pb = Ret (true, Pktbuf (pb_size pb) (pb_cap pb) e (pb_data pb)).
Proof.
  intros Hd Hs Hh Hk -> Hle. unfold pktbuf_is_complete. rewrite Hd. csimpl.
  rewrite memchr_ok, Hh by done. csimpl. change (0 <? 0) with false. csimpl. rewrite Hd. csimpl.
  apply index_of_range in Hk as Hr. rewrite u64_id by lia. rewrite memchr_ok, Hk by done. csimpl.
  unfold CSUM_SIZE. case_if; [lia|]. done.
Qed.

(** What is copied out and what stays behind, for a packet [p] followed by the
    cells [x :: tl ++ [v]] of which [x] and [tl] are valid bytes: the byte [x] is
    skipped and the cell [v] behind the valid bytes is taken in. *)
Lemma pop_general pb p tl v rest :
  pb_data pb = Some ((Some <$> p) ++ tl ++ v :: rest) -> pb_end_pos pb <> -1 ->
  pb_end_pos pb + 1 = Z.of_nat (length p) -> pb_size pb = Z.of_nat (length p) + blen tl ->
  pb_size pb < 1073741824 ->
  exists d', pktbuf_pop_packet pb true =
    Ret (Some (Packet (pb_end_pos pb) ((Some <$> p) ++ [Some 0])),
         Pktbuf (blen tl) (pb_cap pb) (-1) (Some d')) /\
    (exists rest', d' = tail (tl ++ [v]) ++ rest') /\ blen d' = blen ((Some <$> p) ++ tl ++ v :: rest).
Proof.
  intros Hd He Hp Hs Hsz. unfold pktbuf_pop_packet. rewrite (proj2 (Z.eqb_neq _ _) He), Hp, Hd. csimpl.
  pose proof (blen_nonneg tl). rewrite u64_id by lia.
  ostep (bslice_app [] (Some <$> p)).
  assert (Hz : zeroed (Z.of_nat (length p) + 1) = replicate (length p) (Some 0) ++ [Some 0]).
  { unfold zeroed. replace (Z.to_nat _) with (length p + 1)%nat by lia. by rewrite replicate_add. }
  rewrite Hz. erewrite obind_eq; [|apply (bwrite_app [] (replicate (length p) (Some 0)) [Some 0]);
    [done|by rewrite length_replicate, length_fmap]].
  ostep (bput_app (Some <$> p) (Some 0) []).
  replace (pb_size pb - Z.of_nat (length p)) with (blen tl) by lia.
  destruct (tl ++ [v]) as [|x t] eqn:Et; [by destruct tl|].
  assert (Hlt : length t = length tl).
  { apply (f_equal length) in Et. rewrite length_app in Et. simpl in Et. lia. }
  assert (Ed : (Some <$> p) ++ tl ++ v :: rest = ((Some <$> p) ++ [x]) ++ t ++ rest).
  { rewrite (cons_middle v tl rest), (app_assoc tl), Et. by rewrite <- !app_assoc. }
  rewrite Ed.
  destruct (memmove_front ((Some <$> p) ++ [x]) t rest (blen tl)) as (r & Er & Hr).
  { unfold blen. lia. } { unfold blen in *. lia. }
  replace (blen ((Some <$> p) ++ [x])) with (Z.of_nat (length p) + 1) in Er by blia.
  rewrite Er. csimpl. eexists. split; [done|]. split; [by exists r|done].
Qed.

(** *** Frames in the buffer *)

Lemma length_frame s : length (frame s) = (length s + 4)%nat.
Proof. unfold frame. rewrite !length_app. simpl. lia. Qed.

Lemma frame_inj s t : frame s = frame t -> s = t.
Proof. intros H. apply (f_equal list.tail) in H. by apply app_inj_2 in H as [? _]. Qed.

Lemma frame_app s more : frame s ++ more = (36 :: s) ++ 35 :: (hex_byte (csum_of s) ++ more).
Proof. unfold frame. by rewrite <- !app_assoc. Qed.

Lemma index_of_hash s r : 35 ∉ s -> index_of 35 (36 :: s ++ 35 :: r) = Some (Z.of_nat (length s) + 1).
Proof.
  intros. rewrite app_comm_cons, index_of_app.
  - csimpl. change (35 =? 35) with true. csimpl. f_equal. lia.
  - apply not_elem_of_cons. split; [lia|done].
Qed.

Lemma scan_at_head s r :
  35 ∉ s ->
  scan_contents (36 :: s ++ 35 :: r) =
  if Z.of_nat (length r) <? 1 then Partial (36 :: s ++ 35 :: r)
  else Whole (36 :: s ++ 35 :: r) (Z.of_nat (length s) + 3).
Proof.
  intros. unfold scan_contents. change (index_of 36 (36 :: _)) with (Some 0). cbv beta iota.
  change (drop (Z.to_nat 0) ?l) with l. rewrite index_of_hash by done. unfold CSUM_SIZE.
  simpl length. rewrite length_app. simpl length. repeat case_if; try lia; f_equal; lia.
Qed.

(** Bytes without [$], a frame whose payload has no [#], and anything behind it. *)
Lemma scan_frame junk s more :
  36 ∉ junk -> 35 ∉ s ->
  scan_contents (junk ++ frame s ++ more) = Whole (frame s ++ more) (Z.of_nat (length s) + 3).
Proof.
  intros Hj Hs. rewrite frame_app. unfold scan_contents. rewrite index_of_app by done.
  rewrite <- app_comm_cons. csimpl. change (36 =? 36) with true. csimpl.
  replace (Z.to_nat _) with (length junk) by lia. rewrite drop_app_exact.
  rewrite index_of_hash by done. unfold CSUM_SIZE. simpl length. rewrite length_app. simpl length.
  case_if; [lia|]. f_equal. lia.
Qed.

(** A frame of which the second checksum digit, or more, is still to come. *)
Lemma scan_partial s n :
  36 ∉ s -> 35 ∉ s -> (n < length s + 3)%nat ->
  scan_contents (take n (frame s)) = if bool_decide (n = 0)%nat then NoHead else Partial (take n (frame s)).
Proof.
  intros H36 H35 Hn. case_bool_decide; [by subst|]. destruct n as [|n]; [lia|].
  unfold frame. csimpl. unfold scan_contents. csimpl. change (36 =? 36) with true. csimpl.
  change (Z.to_nat 0) with 0%nat. csimpl. change (36 =? 35) with false. csimpl.
  destruct (decide (n <= length s)%nat).
  - rewrite take_app_le by done. rewrite index_of_None; [done|].
    intros Hin. apply H35. apply elem_of_take in Hin as (i & ? & _). by eapply list_elem_of_lookup_2.
  - rewrite take_app_ge by lia. rewrite index_of_app by done.
    replace (n - length s)%nat with 1%nat by lia. csimpl. change (35 =? 35) with true. csimpl.
    unfold CSUM_SIZE. rewrite length_app. simpl length. by rewrite (proj2 (Z.ltb_lt _ _)) by lia.
Qed.

(** The buffer holds exactly one complete packet: it is popped whole. *)
Lemma pop_exact pb p :
  holds pb p -> p <> [] -> pb_end_pos pb + 1 = Z.of_nat (length p) -> Z.of_nat (length p) < 2 ^ pb_cap pb ->
  exists pb', pktbuf_pop_packet pb true = Ret (Some (Packet (pb_end_pos pb) ((Some <$> p) ++ [Some 0])), pb') /\
    holds pb' [] /\ pb_cap pb' = pb_cap pb.
Proof.
  intros Hh Hne He Hlt. pose proof (holds_bounds _ _ Hh) as Hb. destruct Hh as (rest & Hd & Hs & Hc & Hl).
  assert (0 < length p)%nat by (destruct p; simpl; [done|lia]).
  destruct rest as [|v rest].
  { rewrite app_nil_r, blen_fmap in Hl. lia. }
  destruct (pop_general pb p [] v rest) as (d' & E & (r & Er) & Hd'); [done|lia|lia| |lia|].
  { rewrite blen_nil. lia. }
  rewrite E. eexists. split; [done|]. split; [|done].
  exists d'. csimpl. rewrite Hd'. split; [done|]. split; [by rewrite blen_nil|]. done.
Qed.

(** ** Properties *)

(** C13 [pktbuf_is_complete] implements its abstract reading of the buffer on
    every branch: without a [$] it empties the buffer; otherwise it moves the
    packet start to the front, and reports a packet exactly when there is a [#]
    with its position plus two not above the number of valid bytes. *)
Theorem is_complete_refines_scan pb c :
  holds pb c ->
  match scan_contents c with
  | NoHead => pktbuf_is_complete pb = Ret (false, pktbuf_clear pb) /\ holds (pktbuf_clear pb) []
  | Partial c' => exists pb', pktbuf_is_complete pb = Ret (false, pb') /\ holds pb' c' /\
      pb_end_pos pb' = pb_end_pos pb /\ pb_cap pb' = pb_cap pb
  | Whole c' e => exists pb', pktbuf_is_complete pb = Ret (true, pb') /\ holds pb' c' /\
      pb_end_pos pb' = e /\ pb_cap pb' = pb_cap pb
  end.
Proof. apply is_complete_ok. Qed.

(** C33 When everything but the second checksum digit of a packet has arrived,
    [pktbuf_is_complete] already reports a packet ([end_pos > size] should be
    [end_pos >= size]), and popping it moves [(size_t) -1] bytes: undefined
    behaviour. *)
Theorem missing_digit_corrupts_memory pb s :
  holds pb (take (length s + 3) (frame s)) -> 36 ∉ s -> 35 ∉ s ->
  exists pb', pktbuf_is_complete pb = Ret (true, pb') /\ pktbuf_pop_packet pb' true = UB.
Proof.
  intros Hh H36 H35. pose proof (is_complete_ok _ _ Hh) as H.
  set (c := take (length s + 3) (frame s)) in *.
  assert (Hc : c = (36 :: s) ++ 35 :: [hexchar (csum_of s / 16)]).
  { subst c. unfold frame. rewrite !app_assoc.
    rewrite take_app_ge by (rewrite !length_app; simpl; lia). rewrite !length_app. simpl length.
    replace (_ - _)%nat with 1%nat by lia. by rewrite <- !app_assoc. }
  assert (Hl : Z.of_nat (length c) = Z.of_nat (length s) + 3).
  { rewrite Hc, length_app. simpl. lia. }
  assert (Hscan : scan_contents c = Whole c (Z.of_nat (length s) + 3)).
  { rewrite Hc, <- app_comm_cons. by apply scan_at_head. }
  rewrite Hscan in H. destruct H as (pb' & E & Hh' & He & Hcap). exists pb'. split; [done|].
  pose proof (holds_bounds _ _ Hh') as Hb. destruct Hh' as (rest & Hd & Hs & _ & Hlen).
  unfold pktbuf_pop_packet. rewrite (proj2 (Z.eqb_neq (pb_end_pos pb') (-1))) by lia.
  csimpl. rewrite Hd. csimpl. unfold bslice at 1. rewrite u64_id by lia.
  case_if; [|done]. csimpl. unfold bwrite at 1. case_if; [|done]. csimpl.
  unfold bput, bstore, bwrite. case_if; [|done]. csimpl. unfold memmove.
  replace (pb_size pb' - (pb_end_pos pb' + 1)) with (-1) by lia. change (u64 (-1)) with 18446744073709551615.
  unfold bslice. case_if; [|done]. lia.
Qed.

(** What follows from popping a packet when another one is directly behind it:
    the second one without its [$], and the cell [v] that was behind it. *)
Lemma pop_before_frame pb s t v rest :
  pb_data pb = Some ((Some <$> frame s ++ frame t) ++ v :: rest) ->
  pb_size pb = Z.of_nat (length (frame s ++ frame t)) -> pb_size pb < 1073741824 ->
  exists rest', pktbuf_pop_packet (Pktbuf (pb_size pb) (pb_cap pb) (Z.of_nat (length s) + 3) (pb_data pb)) true =
    Ret (Some (packet_of s), Pktbuf (Z.of_nat (length t) + 4) (pb_cap pb) (-1)
           (Some ((Some <$> t ++ [35] ++ hex_byte (csum_of t)) ++ v :: rest'))) /\
    blen ((Some <$> t ++ [35] ++ hex_byte (csum_of t)) ++ v :: rest')
      = blen ((Some <$> frame s ++ frame t) ++ v :: rest).
Proof.
  intros Hd Hs Hsz. pose proof (length_frame s) as Hfs. pose proof (length_frame t) as Hft.
  rewrite length_app in Hs.
  destruct (pop_general (Pktbuf (pb_size pb) (pb_cap pb) (Z.of_nat (length s) + 3) (pb_data pb))
              (frame s) (Some <$> frame t) v rest) as (d' & E & (r & Hd') & Hl);
    cbn [pb_size pb_cap pb_end_pos pb_data] in *; [|lia|lia|rewrite blen_fmap; lia|lia|].
  { rewrite Hd, fmap_app. by rewrite <- app_assoc. }
  exists r. rewrite blen_fmap, Hft in E.
  assert (Et : d' = (Some <$> t ++ [35] ++ hex_byte (csum_of t)) ++ v :: r).
  { rewrite Hd'. change (v :: r) with ([v] ++ r). by rewrite app_assoc. }
  rewrite <- Et. split; [|by rewrite Hl, fmap_app, <- app_assoc].
  rewrite E. do 3 f_equal. lia.
Qed.

(** The contents of a frame behind its [$] hold no [$] again. *)
Lemma no_head_in_tail t : 36 ∉ t -> 36 ∉ t ++ [35] ++ hex_byte (csum_of t).
Proof.
  intros Ht. destruct (byte_split _ (csum_range t)) as (Hh & Hl & _).
  apply hexchar_range in Hh, Hl. unfold hex_byte. rewrite !not_elem_of_app, !not_elem_of_cons.
  split_and!; try lia; try done; apply not_elem_of_nil.
Qed.

(** C34 Back-to-back packets: popping the first packet moves one byte too few,
    taking in the cell behind the valid bytes instead of the second packet's [$]
    (the [memmove] starts one too far). Whatever that cell is, the second packet
    is never reported: if it lies outside the buffer, or was never written (after
    [realloc]), reading it is undefined behaviour; otherwise the next
    [pktbuf_is_complete] finds no packet and keeps nothing of the second one, at
    most a stale [$] from that cell. *)
Theorem back_to_back_packet_lost pb s t rest :
  pb_data pb = Some ((Some <$> frame s ++ frame t) ++ rest) ->
  holds pb (frame s ++ frame t) -> 35 ∉ s -> 36 ∉ t ->
  exists pb1, pktbuf_is_complete pb = Ret (true, pb1) /\
    match rest with
    | [] => pktbuf_pop_packet pb1 true = UB
    | v :: _ =>
        exists pb2, pktbuf_pop_packet pb1 true = Ret (Some (packet_of s), pb2) /\
          match v with
          | None => pktbuf_is_complete pb2 = UB
          | Some v => exists pb3, pktbuf_is_complete pb2 = Ret (false, pb3) /\
              holds pb3 (if v =? 36 then [36] else [])
          end
    end.
Proof.
  intros Hd Hh H35 H36. pose proof (holds_bounds _ _ Hh) as Hb.
  destruct Hh as (r0 & Hd0 & Hs & Hc & Hl0). pose proof (length_frame s) as Hfs. pose proof (length_frame t) as Hft.
  rewrite Hd in Hd0. injection Hd0 as <-%app_inv_head.
  exists (Pktbuf (pb_size pb) (pb_cap pb) (Z.of_nat (length s) + 3) (pb_data pb)). split.
  { eapply (is_complete_at_head pb _ rest); [exact Hd|done|..].
    + rewrite frame_app. csimpl. by change (36 =? 36) with true.
    + rewrite frame_app. by apply index_of_hash.
    + lia.
    + rewrite length_app in Hs. lia. }
  destruct rest as [|v rest].
  { unfold pktbuf_pop_packet. cbn [pb_size pb_cap pb_end_pos pb_data].
    assert (Hlc : Z.of_nat (length (frame s ++ frame t)) = Z.of_nat (length s) + Z.of_nat (length t) + 8)
      by (rewrite length_app; lia).
    set (c := frame s ++ frame t) in *. clearbody c.
    rewrite (proj2 (Z.eqb_neq _ _)) by lia. csimpl. rewrite Hd. csimpl.
    unfold bslice at 1. case_if; [|done]. csimpl. unfold bwrite at 1. case_if; [|done]. csimpl.
    unfold bput, bstore, bwrite. case_if; [|done]. csimpl. unfold memmove.
    rewrite (u64_id (pb_size pb - _)) by lia. unfold bslice. rewrite app_nil_r, blen_fmap.
    replace (_ && _) with false; [done|]. symmetry. apply andb_false_iff. right. apply Z.leb_gt. lia. }
  assert (Hsz : pb_size pb < 1073741824).
  { autorewrite with blen in Hl0. pose proof (blen_nonneg rest). lia. }
  destruct (pop_before_frame pb s t v rest Hd Hs Hsz) as (r & E & Hl).
  eexists. split; [exact E|]. pose proof (no_head_in_tail t H36) as Ht.
  set (u := t ++ [35] ++ hex_byte (csum_of t)) in *.
  assert (Hlu : Z.of_nat (length u) = Z.of_nat (length t) + 3).
  { subst u. rewrite !length_app. simpl. lia. }
  destruct v as [v|].
  - set (pb2 := Pktbuf _ _ _ _).
    assert (H2 : holds pb2 (u ++ [v])).
    { exists r. subst pb2. cbn [pb_size pb_cap pb_data]. rewrite fmap_app, <- app_assoc. csimpl.
      split_and!; try done; [rewrite length_app; simpl; lia|lia|lia|]. by rewrite Hl. }
    pose proof (is_complete_ok pb2 _ H2) as Hk. unfold scan_contents in Hk.
    rewrite index_of_app in Hk by done. simpl in Hk. destruct (Z.eqb_spec v 36) as [->|Hne]; simpl in Hk.
    + rewrite Z.add_0_r, Nat2Z.id, drop_app_exact in Hk. simpl in Hk.
      destruct Hk as (pb3 & E3 & Hh3 & _). by exists pb3.
    + destruct Hk as [E3 Hh3]. by eexists.
  - unfold pktbuf_is_complete. cbn [pb_size pb_data deref mbind outcome_bind].
    rewrite memchr_uninit; [done|done|lia].
Qed.

(** *** Concrete buffers *)

(** The buffer after [pktbuf_init] and the arrival of [c]. *)
Definition demo_pktbuf (c : bytes) : pktbuf_t :=
  Pktbuf (Z.of_nat (length c)) 10 (-1) (Some ((Some <$> c) ++ zeroed (1024 - Z.of_nat (length c)))).

Lemma demo_holds c : Z.of_nat (length c) <= 1024 -> holds (demo_pktbuf c) c.
Proof.
  intros. exists (zeroed (1024 - Z.of_nat (length c))). split_and!; try done.
  autorewrite with blen. rewrite blen_zeroed by lia. simpl. change (2 ^ 10) with 1024. lia.
Qed.

Example is_complete_refines_scan_witness :
  exists pb', pktbuf_is_complete (demo_pktbuf (str "+" ++ frame (str "g"))) = Ret (true, pb') /\
    holds pb' (frame (str "g")) /\ pb_end_pos pb' = 4.
Proof.
  destruct (is_complete_refines_scan (demo_pktbuf (str "+" ++ frame (str "g"))) (str "+" ++ frame (str "g")))
    as (pb' & E & Hh & He & _).
  - apply demo_holds. vdecide.
  - by exists pb'.
Defined.

Example missing_digit_corrupts_memory_witness :
  exists pb', pktbuf_is_complete (demo_pktbuf (str "$g#6")) = Ret (true, pb') /\
    pktbuf_pop_packet pb' true = UB.
Proof.
  apply (missing_digit_corrupts_memory (demo_pktbuf (str "$g#6")) (str "g")).
  - apply demo_holds. vdecide.
  - vdecide.
  - vdecide.
Defined.

Example back_to_back_packet_lost_witness :
  exists pb1 pb2, pktbuf_is_complete (demo_pktbuf (frame (str "g") ++ frame (str "?"))) = Ret (true, pb1) /\
    pktbuf_pop_packet pb1 true = Ret (Some (packet_of (str "g")), pb2) /\
  exists pb3, pktbuf_is_complete pb2 = Ret (false, pb3) /\ holds pb3 [].
Proof.
  destruct (back_to_back_packet_lost (demo_pktbuf (frame (str "g") ++ frame (str "?"))) (str "g") (str "?") (Some 0 :: zeroed 1013))
    as (pb1 & E1 & pb2 & E2 & pb3 & E3 & Hh).
  - by vm_compute.
  - apply demo_holds. vdecide.
  - vdecide.
  - vdecide.
  - exists pb1, pb2. split; [exact E1|]. split; [exact E2|]. by exists pb3.
Defined.
