(* ===== verification/PktQueue.v ===== *)
(** * src/pktqueue.c: the packet queue, as pointers and as a list

    [Module Impl] is the code: a singly linked list of [malloc]ed nodes with a
    head and a tail pointer in an explicit heap, where using or freeing an
    address that is not allocated is undefined behaviour. [aqueue] is the
    abstract queue a client sees. The class [PacketQueue] is the interface
    between the two: the reader thread and [gdbstub_run] are modelled against
    it, and both the abstract queue and the pointer structure are instances
    (each operation's body runs between lock and unlock, so it is one step;
    PktSync.v looks inside).  *)

From S2P Require Import Prelude CMem CFormat Translate Packet.
From stdpp Require Import gmap.

(** ** The abstract queue *)
Record aqueue := AQueue {
  aq_items : list packet_t;
  aq_shutdown : bool;
  aq_interrupted : bool
}.

(** What [pktqueue_pop] does when it is called: sleep on the condition
    variable, return NULL, or return a packet. *)
Inductive popped := Sleep | Null | Got (p : packet_t).

Definition aq_init : aqueue := AQueue [] false false.
Definition aq_push (q : aqueue) (p : packet_t) : aqueue :=
  AQueue (aq_items q ++ [p]) (aq_shutdown q) (aq_interrupted q).
Definition aq_pop (q : aqueue) : popped * aqueue :=
  match aq_items q with
  | p :: l => (Got p, AQueue l (aq_shutdown q) (aq_interrupted q))
  | [] => if aq_shutdown q || aq_interrupted q then (Null, q) else (Sleep, q)
  end.
Definition aq_signal_shutdown (q : aqueue) : aqueue := AQueue (aq_items q) true (aq_interrupted q).
Definition aq_signal_interrupt (q : aqueue) : aqueue := AQueue (aq_items q) (aq_shutdown q) true.
Definition aq_check_interrupt (q : aqueue) : bool * aqueue :=
  (aq_interrupted q, AQueue (aq_items q) (aq_shutdown q) false).
Definition aq_destroy (q : aqueue) : aqueue := AQueue [] (aq_shutdown q) (aq_interrupted q).

(** ** The interface *)

(** Operations on a queue of packets. [q_push q p ok]: hand over a packet, [ok]
    telling whether the node allocation succeeds; the packet is freed by the
    caller when it fails. [q_pop] includes the consumer's [free] of the packet. *)
Class PacketQueue (Q : Type) := {
  q_init : Q;
  q_push : Q -> packet_t -> bool -> outcome (bool * Q);
  q_pop : Q -> outcome (popped * Q);
  q_signal_shutdown : Q -> Q;
  q_signal_interrupt : Q -> Q;
  q_check_interrupt : Q -> bool * Q;
  q_is_shutdown : Q -> bool;
  q_destroy : Q -> outcome Q;
  q_blocks : Q -> nat      (* the memory blocks it has allocated: an observation *)
}.

(** The promise to the clients: a representation relation that every operation
    respects; two blocks for every packet that is queued, and none left after
    [q_destroy]. *)
Class PacketQueueSpec (Q : Type) `{PacketQueue Q} (q_rep : Q -> aqueue -> Prop) := {
  q_init_spec : q_rep q_init aq_init;
  q_push_spec q a p : q_rep q a -> exists q', q_push q p true = Ret (true, q') /\ q_rep q' (aq_push a p);
  q_push_fail_spec q a p : q_rep q a -> exists q', q_push q p false = Ret (false, q') /\ q_rep q' a;
  q_pop_spec q a : q_rep q a -> exists q', q_pop q = Ret ((aq_pop a).1, q') /\ q_rep q' (aq_pop a).2;
  q_shutdown_spec q a : q_rep q a -> q_rep (q_signal_shutdown q) (aq_signal_shutdown a);
  q_interrupt_spec q a : q_rep q a -> q_rep (q_signal_interrupt q) (aq_signal_interrupt a);
  q_check_spec q a : q_rep q a ->
    (q_check_interrupt q).1 = aq_interrupted a /\ q_rep (q_check_interrupt q).2 (aq_check_interrupt a).2;
  q_is_shutdown_spec q a : q_rep q a -> q_is_shutdown q = aq_shutdown a;
  q_blocks_spec q a : q_rep q a -> q_blocks q = (2 * length (aq_items a))%nat;
  q_destroy_spec q a : q_rep q a ->
    exists q', q_destroy q = Ret q' /\ q_rep q' (aq_destroy a) /\ q_blocks q' = O
}.

(** ** The implementation *)
Abbreviation loc := nat (only parsing).

Inductive obj :=
| Node (pkt : loc) (next : option loc)   (* pktqueue_node_t *)
| PacketObj (p : packet_t).              (* a calloc'ed packet_t *)

Abbreviation heap := (gmap loc obj) (only parsing).

Record pktqueue_t := PktqueueT {
  pq_head : option loc;
  pq_tail : option loc;
  pq_shutdown : bool;
  pq_interrupted : bool
}.

Definition free (h : heap) (l : loc) : outcome heap :=
  match h !! l with Some _ => Ret (delete l h) | None => UB end.
Definition load_node (h : heap) (l : loc) : outcome (loc * option loc) :=
  match h !! l with Some (Node p n) => Ret (p, n) | _ => UB end.
Definition load_packet (h : heap) (l : loc) : outcome packet_t :=
  match h !! l with Some (PacketObj p) => Ret p | _ => UB end.
Definition malloc_obj (h : heap) (o : obj) : loc * heap :=
  let l := fresh (dom h) in (l, <[l := o]> h).

(** Without the mutex and condition variable calls, which cannot fail here. *)
Definition pktqueue_init : pktqueue_t := PktqueueT None None false false.

Definition pktqueue_push (q : pktqueue_t) (h : heap) (pkt : loc) (alloc_ok : bool)
  : outcome (bool * pktqueue_t * heap) :=
  if alloc_ok then
    let '(node, h) := malloc_obj h (Node pkt None) in
    match pq_tail q with
    | Some t =>
        '(tp, _) ← load_node h t;
        let h := <[t := Node tp (Some node)]> h in
        Ret (true, PktqueueT (pq_head q) (Some node) (pq_shutdown q) (pq_interrupted q), h)
    | None => Ret (true, PktqueueT (Some node) (Some node) (pq_shutdown q) (pq_interrupted q), h)
    end
  else Ret (false, q, h).

(** [None]: the loop condition sends the caller to [pthread_cond_wait]. *)
Definition pktqueue_pop (q : pktqueue_t) (h : heap)
  : outcome (option (option loc) * pktqueue_t * heap) :=
  match pq_head q with
  | None => if negb (pq_shutdown q) && negb (pq_interrupted q) then Ret (None, q, h)
            else Ret (Some None, q, h)
  | Some node =>
      '(pkt, next) ← load_node h node;
      let tail := match next with None => None | Some _ => pq_tail q end in
      h ← free h node;
      Ret (Some (Some pkt), PktqueueT next tail (pq_shutdown q) (pq_interrupted q), h)
  end.

Definition pktqueue_signal_shutdown (q : pktqueue_t) : pktqueue_t :=
  PktqueueT (pq_head q) (pq_tail q) true (pq_interrupted q).
Definition pktqueue_signal_interrupt (q : pktqueue_t) : pktqueue_t :=
  PktqueueT (pq_head q) (pq_tail q) (pq_shutdown q) true.
Definition pktqueue_check_interrupt (q : pktqueue_t) : bool * pktqueue_t :=
  (pq_interrupted q, PktqueueT (pq_head q) (pq_tail q) (pq_shutdown q) false).
Definition pktqueue_is_shutdown (q : pktqueue_t) : bool := pq_shutdown q.

(** The loop of [pktqueue_destroy]; every round frees two objects, so the size
    of the heap bounds the rounds. *)
Fixpoint pktqueue_destroy_loop (fuel : nat) (h : heap) (node : option loc) : outcome heap :=
  match node with
  | None => Ret h
  | Some node =>
      match fuel with
      | O => Hang
      | S fuel =>
          '(pkt, next) ← load_node h node;
          h ← free h pkt;
          h ← free h node;
          pktqueue_destroy_loop fuel h next
      end
  end.
Definition pktqueue_destroy (q : pktqueue_t) (h : heap) : outcome (pktqueue_t * heap) :=
  h ← pktqueue_destroy_loop (size h) h (pq_head q);
  Ret (PktqueueT None None (pq_shutdown q) (pq_interrupted q), h).

(** The producer's and the consumer's side: [calloc] the packet and push it
    (freeing it when the push fails); pop a packet, use it and free it. *)
Definition produce (q : pktqueue_t) (h : heap) (p : packet_t) (alloc_ok : bool)
  : outcome (bool * (pktqueue_t * heap)) :=
  let '(pkt, h) := malloc_obj h (PacketObj p) in
  '(r, q, h) ← pktqueue_push q h pkt alloc_ok;
  if (r : bool) then Ret (true, (q, h)) else h ← free h pkt; Ret (false, (q, h)).
Definition consume (q : pktqueue_t) (h : heap) : outcome (popped * (pktqueue_t * heap)) :=
  '(r, q, h) ← pktqueue_pop q h;
  match r with
  | None => Ret (Sleep, (q, h))
  | Some None => Ret (Null, (q, h))
  | Some (Some l) => p ← load_packet h l; h ← free h l; Ret (Got p, (q, h))
  end.

(** ** Representation *)

(** [chain h hd l]: following [next] from [hd] visits the (node, packet)
    addresses [l] and ends at NULL. *)
Fixpoint chain (h : heap) (hd : option loc) (l : list (loc * loc)) : Prop :=
  match l with
  | [] => hd = None
  | (n, p) :: l => hd = Some n /\ exists next, h !! n = Some (Node p next) /\ chain h next l
  end.

Definition addrs (l : list (loc * loc)) : list loc := l.*1 ++ l.*2.

Definition stored (h : heap) (np : loc * loc) (x : packet_t) : Prop := h !! np.2 = Some (PacketObj x).

(** The heap holds exactly the nodes and packets of the queue. *)
Record rep (qh : pktqueue_t * heap) (a : aqueue) : Prop := Rep {
  rep_chain : exists l, chain qh.2 (pq_head qh.1) l /\ pq_tail qh.1 = fst <$> last l /\
     Forall2 (stored qh.2) l (aq_items a) /\ NoDup (addrs l) /\ (forall m, is_Some (qh.2 !! m) <-> m ∈ addrs l);
  rep_shutdown : pq_shutdown qh.1 = aq_shutdown a;
  rep_interrupted : pq_interrupted qh.1 = aq_interrupted a
}.

(** ** Lemmas *)

Lemma chain_last h hd l t tp : chain h hd (l ++ [(t, tp)]) -> h !! t = Some (Node tp None).
Proof.
  revert hd. induction l as [|[n p] l IH]; simpl; intros hd [-> (next & Hn & Hc)]; [by subst|eauto].
Qed.

Lemma chain_ext h h' hd l :
  chain h hd l -> (forall n, n ∈ l.*1 -> h' !! n = h !! n) -> chain h' hd l.
Proof.
  revert hd. induction l as [|[n p] l IH]; csimpl; intros hd Hc He; [done|].
  destruct Hc as [-> (next & Hn & Hc)]. split; [done|]. exists next.
  rewrite He by set_solver. split; [done|]. apply IH; [done|]. set_solver.
Qed.

Lemma chain_snoc h h' hd l t tp n p :
  chain h hd (l ++ [(t, tp)]) -> (forall m, m ∈ l.*1 -> h' !! m = h !! m) ->
  h' !! t = Some (Node tp (Some n)) -> h' !! n = Some (Node p None) ->
  chain h' hd ((l ++ [(t, tp)]) ++ [(n, p)]).
Proof.
  revert hd. induction l as [|[m mp] l IH]; csimpl; intros hd [-> (next & Hm & Hc)] He Ht Hn.
  - split; [done|]. exists (Some n). split; [done|]. split; [done|]. by exists None.
  - split; [done|]. exists next. rewrite He by set_solver. split; [done|].
    apply IH; [done| |done|done]. set_solver.
Qed.

Lemma addrs_snoc l n p : addrs (l ++ [(n, p)]) ≡ₚ n :: p :: addrs l.
Proof. unfold addrs. rewrite !fmap_app. csimpl. solve_Permutation. Qed.

Lemma addrs_cons l n p : addrs ((n, p) :: l) ≡ₚ n :: p :: addrs l.
Proof. unfold addrs. csimpl. solve_Permutation. Qed.

Lemma stored_ext h h' l xs :
  Forall2 (stored h) l xs -> (forall n, n ∈ l.*2 -> h' !! n = h !! n) -> Forall2 (stored h') l xs.
Proof.
  intros H He. induction H as [|[n p] x l xs Hs _ IH]; constructor.
  - unfold stored in *. simpl in *. rewrite He; [done|]. set_solver.
  - apply IH. set_solver.
Qed.

(** Nodes and packets never overlap: following the chain stays inside the nodes. *)
Lemma addrs_disjoint l n : NoDup (addrs l) -> n ∈ l.*1 -> n ∈ l.*2 -> False.
Proof. unfold addrs. rewrite NoDup_app. naive_solver. Qed.

Lemma free_ok (h : heap) l o : h !! l = Some o -> free h l = Ret (delete l h).
Proof. intros H. unfold free. by rewrite H. Qed.

Lemma in_addrs_1 l m : m ∈ l.*1 -> m ∈ addrs l.
Proof. intros. apply elem_of_app. by left. Qed.
Lemma in_addrs_2 l m : m ∈ l.*2 -> m ∈ addrs l.
Proof. intros. apply elem_of_app. by right. Qed.
#[local] Hint Resolve in_addrs_1 in_addrs_2 : stub.

Lemma NoDup_addrs_cons l n p :
  NoDup (addrs ((n, p) :: l)) <-> n <> p /\ n ∉ addrs l /\ p ∉ addrs l /\ NoDup (addrs l).
Proof.
  rewrite addrs_cons, !NoDup_cons, not_elem_of_cons. naive_solver.
Qed.
Lemma NoDup_addrs_snoc l n p :
  NoDup (addrs (l ++ [(n, p)])) <-> n <> p /\ n ∉ addrs l /\ p ∉ addrs l /\ NoDup (addrs l).
Proof.
  rewrite addrs_snoc, !NoDup_cons, not_elem_of_cons. naive_solver.
Qed.
Lemma elem_of_addrs_cons l n p m : m ∈ addrs ((n, p) :: l) <-> m = n \/ m = p \/ m ∈ addrs l.
Proof. by rewrite addrs_cons, !elem_of_cons. Qed.
Lemma elem_of_addrs_snoc l n p m : m ∈ addrs (l ++ [(n, p)]) <-> m = n \/ m = p \/ m ∈ addrs l.
Proof. by rewrite addrs_snoc, !elem_of_cons. Qed.

(** Linking the new node behind the last one. *)
Lemma chain_link h h' hd tl l n pkt :
  chain h hd l -> tl = fst <$> last l -> NoDup (addrs l) ->
  (forall m, m ∈ addrs l -> h' !! m = h !! m) -> h' !! n = Some (Node pkt None) -> n ∉ addrs l ->
  match tl with
  | Some t => exists tp, h' !! t = Some (Node tp None) /\ t ∈ l.*1 /\
      chain (<[t := Node tp (Some n)]> h') hd (l ++ [(n, pkt)])
  | None => l = []
  end.
Proof.
  intros Hc -> Hnd He Hn Hnl. destruct l as [|[t tp] l _] using rev_ind; [done|].
  rewrite last_snoc. simpl. exists tp. pose proof (chain_last _ _ _ _ _ Hc) as Ht.
  apply NoDup_addrs_snoc in Hnd as (Htt & Htl & _ & _).
  assert (Hta : t ∈ addrs (l ++ [(t, tp)])) by (apply elem_of_addrs_snoc; auto).
  rewrite He by done. split; [done|].
  split. { rewrite fmap_app. apply elem_of_app. right. by apply list_elem_of_singleton. }
  apply (chain_snoc h); [done| | |].
  - intros m Hm. rewrite lookup_insert_ne by (intros ->; eauto with stub).
    apply He, elem_of_addrs_snoc. auto with stub.
  - by rewrite lookup_insert_eq.
  - rewrite lookup_insert_ne by (intros ->; done). done.
Qed.

(** *** Push *)
Lemma push_rep q h a pkt p :
  rep (q, h) a -> h !! pkt = None ->
  exists q' h', pktqueue_push q (<[pkt := PacketObj p]> h) pkt true = Ret (true, q', h') /\
    rep (q', h') (aq_push a p).
Proof.
  intros [(l & Hc & Ht & Hst & Hnd & Hdom) Hs Hi] Hp. simpl in *.
  unfold pktqueue_push, malloc_obj. set (h1 := <[pkt := PacketObj p]> h).
  set (n := fresh (dom h1)). set (h2 := <[n := Node pkt None]> h1).
  assert (Hn1 : h1 !! n = None) by (apply not_elem_of_dom, is_fresh).
  assert (Hnp : n <> pkt) by (intros E; subst h1; rewrite E, lookup_insert_eq in Hn1; done).
  assert (Hn : h !! n = None) by (subst h1; by rewrite lookup_insert_ne in Hn1).
  assert (Hout : forall m, h !! m = None -> m ∉ addrs l) by (intros m Hm [x Hx]%Hdom; congruence).
  assert (Hsame : forall m, m ∈ addrs l -> h2 !! m = h !! m).
  { intros m Hm. subst h2 h1. rewrite !lookup_insert_ne; [done|..]; intros ->; by eapply Hout. }
  assert (Hh2n : h2 !! n = Some (Node pkt None)) by apply lookup_insert_eq.
  assert (Hh2p : h2 !! pkt = Some (PacketObj p)).
  { subst h2 h1. rewrite lookup_insert_ne by done. apply lookup_insert_eq. }
  assert (Hdom2 : forall m, is_Some (h2 !! m) <-> m ∈ addrs (l ++ [(n, pkt)])).
  { intros m. rewrite elem_of_addrs_snoc, <- Hdom. subst h2 h1. rewrite !lookup_insert_is_Some.
    destruct (decide (m = n)), (decide (m = pkt)); naive_solver. }
  assert (Hnd2 : NoDup (addrs (l ++ [(n, pkt)]))).
  { apply NoDup_addrs_snoc. auto 10. }
  pose proof (chain_link h h2 _ _ l n pkt Hc Ht Hnd Hsame Hh2n (Hout _ Hn)) as Hlink.
  destruct (pq_tail q) as [t|].
  - destruct Hlink as (tp & Hht & Hin & Hc2). unfold load_node. rewrite Hht. csimpl.
    eexists _, _. split; [done|]. split; [|done|done]. exists (l ++ [(n, pkt)]). simpl.
    assert (Hne : forall m, m ∈ (l ++ [(n, pkt)]).*2 -> t <> m).
    { intros m Hm ->. apply (NoDup_app (l ++ [(n, pkt)]).*1 (l ++ [(n, pkt)]).*2) in Hnd2 as (_ & Hd & _).
      apply (Hd m); [|done]. rewrite fmap_app. apply elem_of_app. auto. }
    split_and!; [done|by rewrite last_snoc| |done|].
    + apply (stored_ext h2); [|by intros; rewrite lookup_insert_ne; auto].
      apply Forall2_app; [|by repeat constructor].
      apply (stored_ext h); [done|]. auto with stub.
    + intros m. rewrite <- Hdom2, lookup_insert_is_Some.
      destruct (decide (t = m)); [subst; rewrite Hht|]; naive_solver.
  - subst l. simpl in Hc. eexists _, _. split; [done|]. split; [|done|done].
    assert (E : aq_items a = []) by (by inversion Hst).
    exists [(n, pkt)]. unfold aq_push. simpl. rewrite E.
    split_and!; [done|by exists None|done|by repeat constructor|done|done].
Qed.

Lemma produce_ok q h a p :
  rep (q, h) a ->
  (exists qh', produce q h p true = Ret (true, qh') /\ rep qh' (aq_push a p)) /\
  produce q h p false = Ret (false, (q, h)).
Proof.
  intros Hr. unfold produce, malloc_obj. set (l := fresh (dom h)).
  assert (Hl : h !! l = None) by (apply not_elem_of_dom, is_fresh). split.
  - destruct (push_rep q h a l p Hr Hl) as (q' & h' & E & Hr'). rewrite E. simpl. by eexists.
  - simpl. unfold free. rewrite lookup_insert_eq. simpl. by rewrite delete_insert_eq, delete_id.
Qed.

(** *** Pop *)
Lemma consume_ok q h a :
  rep (q, h) a -> exists qh', consume q h = Ret ((aq_pop a).1, qh') /\ rep qh' (aq_pop a).2.
Proof.
  intros Hr. pose proof Hr as [(l & Hc & Ht & Hst & Hnd & Hdom) Hs Hi]. simpl in *.
  unfold consume, pktqueue_pop, aq_pop.
  destruct l as [|[n p] l]; destruct (aq_items a) as [|x xs] eqn:Ei; inversion Hst; subst.
  - simpl in Hc. rewrite Hc, Hs, Hi.
    destruct (aq_shutdown a), (aq_interrupted a); simpl; by eexists.
  - destruct Hc as [-> (next & Hn & Hc)]. unfold load_node. rewrite Hn. csimpl.
    rewrite (free_ok _ _ _ Hn). csimpl.
    apply NoDup_addrs_cons in Hnd as (Hnp & Hn1 & Hp1 & Hnd).
    match goal with H : stored _ (n, p) x |- _ => unfold stored in H; simpl in H; rename H into Hp end.
    unfold load_packet. rewrite lookup_delete_ne, Hp by done. csimpl.
    erewrite free_ok by by rewrite lookup_delete_ne. csimpl.
    eexists. split; [done|]. split; [|done|done]. simpl. exists l.
    assert (Hsame : forall m, m ∈ addrs l -> delete p (delete n h) !! m = h !! m).
    { intros m Hm. rewrite !lookup_delete_ne; [done|..]; by intros ->. }
    split_and!.
    + apply (chain_ext h); [done|]. auto with stub.
    + destruct l as [|[n2 p2] l]; simpl in Hc.
      * subst next. done.
      * destruct Hc as [-> _]. by rewrite Ht.
    + apply (stored_ext h); [done|]. auto with stub.
    + done.
    + intros m. specialize (Hdom m). rewrite elem_of_addrs_cons in Hdom.
      rewrite !lookup_delete_is_Some. naive_solver.
Qed.

(** *** Destroy *)
Lemma destroy_loop_ok l : forall fuel h hd xs,
  chain h hd l -> Forall2 (stored h) l xs -> NoDup (addrs l) ->
  (forall m, is_Some (h !! m) <-> m ∈ addrs l) ->
  (length l <= fuel)%nat -> pktqueue_destroy_loop fuel h hd = Ret ∅.
Proof.
  induction l as [|[n p] l IH]; intros fuel h hd xs Hc Hst Hnd Hdom Hf.
  - simpl in Hc. subst hd. replace h with (∅ : heap); [by destruct fuel|].
    symmetry. apply map_empty. intros m. apply eq_None_not_Some. rewrite Hdom. apply not_elem_of_nil.
  - destruct Hc as [-> (next & Hn & Hc)]. simpl in Hf. destruct fuel as [|fuel]; [lia|].
    inversion Hst as [|? x ? xs' Hp Hst']; subst. unfold stored in Hp. simpl in Hp.
    apply NoDup_addrs_cons in Hnd as (Hnp & Hn1 & Hp1 & Hnd).
    simpl. unfold load_node. rewrite Hn. csimpl. rewrite (free_ok _ _ _ Hp). csimpl.
    erewrite free_ok by by rewrite lookup_delete_ne. csimpl.
    assert (Hsame : forall m, m ∈ addrs l -> delete n (delete p h) !! m = h !! m).
    { intros m Hm. rewrite !lookup_delete_ne; [done|..]; by intros ->. }
    apply (IH _ _ _ xs').
    + apply (chain_ext h); [done|]. auto with stub.
    + apply (stored_ext h); [done|]. auto with stub.
    + done.
    + intros m. specialize (Hdom m). rewrite elem_of_addrs_cons in Hdom.
      rewrite !lookup_delete_is_Some. naive_solver.
    + lia.
Qed.

Lemma heap_size (h : heap) l :
  NoDup (addrs l) -> (forall m, is_Some (h !! m) <-> m ∈ addrs l) -> size h = (2 * length l)%nat.
Proof.
  intros Hnd Hdom. assert (E : dom h = list_to_set (addrs l)).
  { apply set_eq. intros m. by rewrite elem_of_dom, elem_of_list_to_set. }
  rewrite <- size_dom, E, size_list_to_set by done. unfold addrs. rewrite length_app, !length_fmap. lia.
Qed.

Lemma rep_blocks q h a : rep (q, h) a -> size h = (2 * length (aq_items a))%nat.
Proof.
  intros [(l & _ & _ & Hst & Hnd & Hdom) _ _]. simpl in *. rewrite (heap_size h l Hnd Hdom).
  by rewrite (Forall2_length _ _ _ Hst).
Qed.

Lemma empty_rep sd intr : rep (PktqueueT None None sd intr, ∅) (AQueue [] sd intr).
Proof.
  split; [|done|done]. exists []. simpl. split_and!; try done; [by apply NoDup_nil|].
  intros m. rewrite lookup_empty. split; [by intros []|]. intros H. by apply not_elem_of_nil in H.
Qed.

Lemma destroy_ok q h a :
  rep (q, h) a ->
  exists q', pktqueue_destroy q h = Ret (q', ∅) /\ rep (q', ∅) (aq_destroy a) /\
    pq_head q' = None /\ pq_tail q' = None.
Proof.
  intros [(l & Hc & Ht & Hst & Hnd & Hdom) Hs Hi]. simpl in *. unfold pktqueue_destroy.
  rewrite (destroy_loop_ok l _ _ _ _ Hc Hst Hnd Hdom); [|rewrite (heap_size h l Hnd Hdom); lia].
  eexists. split; [done|]. split; [|done]. unfold aq_destroy. rewrite <- Hs, <- Hi. apply empty_rep.
Qed.

(** ** Instances *)
#[export] Instance abstract_queue : PacketQueue aqueue := {
  q_init := aq_init;
  q_push q p ok := Ret (ok, if ok then aq_push q p else q);
  q_pop q := Ret (aq_pop q);
  q_signal_shutdown := aq_signal_shutdown;
  q_signal_interrupt := aq_signal_interrupt;
  q_check_interrupt := aq_check_interrupt;
  q_is_shutdown := aq_shutdown;
  q_destroy q := Ret (aq_destroy q);
  q_blocks q := (2 * length (aq_items q))%nat
}.

#[export] Instance abstract_queue_spec : PacketQueueSpec aqueue eq.
Proof.
  constructor; intros; subst; simpl; eauto.
  destruct (aq_pop a); eauto.
Qed.

#[export] Instance linked_queue : PacketQueue (pktqueue_t * heap) := {
  q_init := (pktqueue_init, ∅);
  q_push qh p ok := produce qh.1 qh.2 p ok;
  q_pop qh := consume qh.1 qh.2;
  q_signal_shutdown qh := (pktqueue_signal_shutdown qh.1, qh.2);
  q_signal_interrupt qh := (pktqueue_signal_interrupt qh.1, qh.2);
  q_check_interrupt qh := ((pktqueue_check_interrupt qh.1).1, ((pktqueue_check_interrupt qh.1).2, qh.2));
  q_is_shutdown qh := pktqueue_is_shutdown qh.1;
  q_destroy qh := pktqueue_destroy qh.1 qh.2;
  q_blocks qh := size qh.2
}.

Lemma rep_flags q h a q' a' :
  rep (q, h) a -> pq_head q' = pq_head q -> pq_tail q' = pq_tail q -> aq_items a' = aq_items a ->
  pq_shutdown q' = aq_shutdown a' -> pq_interrupted q' = aq_interrupted a' -> rep (q', h) a'.
Proof.
  intros [(l & Hc & Ht & Hst & Hnd & Hdom) Hs Hi] E1 E2 E3 ? ?. simpl in *. split; [|done|done].
  exists l. simpl. by rewrite E1, E2, E3.
Qed.

Lemma init_rep : rep (pktqueue_init, ∅) aq_init.
Proof. apply empty_rep. Qed.

#[export] Instance linked_queue_spec : PacketQueueSpec (pktqueue_t * heap) rep.
Proof.
  constructor.
  - apply init_rep.
  - intros [q h] a p Hr. apply (proj1 (produce_ok q h a p Hr)).
  - intros [q h] a p Hr. exists (q, h). split; [apply (proj2 (produce_ok q h a p Hr))|done].
  - intros [q h] a Hr. by apply consume_ok.
  - intros [q h] a Hr. pose proof Hr as [_ Hs Hi]. by eapply rep_flags.
  - intros [q h] a Hr. pose proof Hr as [_ Hs Hi]. by eapply rep_flags.
  - intros [q h] a Hr. pose proof Hr as [_ Hs Hi]. split; [done|]. by eapply rep_flags.
  - intros [q h] a [_ Hs _]. done.
  - intros [q h] a Hr. by apply (rep_blocks q).
  - intros [q h] a Hr. destruct (destroy_ok q h a Hr) as (q' & E & Hr' & _). by exists (q', ∅).
Qed.

(** C7 The linked list of pktqueue.c implements the abstract queue: every
    operation, including the failing allocation, commutes with the
    representation and never touches memory that is not allocated; the heap
    holds exactly one node and one packet for each queued packet, and
    [pktqueue_destroy] leaves it empty, so nothing leaks. A pop from the empty
    queue returns NULL when the queue is shut down and also when an interrupt is
    pending (pktqueue.h names the shutdown only), and sleeps otherwise. *)
Theorem linked_queue_refines : PacketQueueSpec (pktqueue_t * heap) rep.
Proof. apply linked_queue_spec. Qed.

(** [pktqueue_destroy] frees every pending node and packet: on any queue
    state the operations can build, it ends with an empty heap and NULL
    pointers. *)
Theorem destroy_frees_all q h a :
  rep (q, h) a -> exists q', pktqueue_destroy q h = Ret (q', ∅) /\ pq_head q' = None /\ pq_tail q' = None.
Proof. intros Hr. destruct (destroy_ok q h a Hr) as (q' & E & _ & H). by exists q'. Qed.

(** A queue built by one push. *)
Definition demo_queue (p : packet_t) : pktqueue_t * heap :=
  match produce pktqueue_init ∅ p true with
  | Ret (_, qh) => qh
  | _ => (pktqueue_init, ∅)
  end.

Lemma demo_queue_rep p : rep (demo_queue p) (aq_push aq_init p).
Proof.
  unfold demo_queue. destruct (produce_ok _ _ _ p init_rep) as [(qh & E & R) _]. by rewrite E.
Qed.

Example destroy_frees_all_witness :
  exists q', pktqueue_destroy (demo_queue (packet_of (str "g"))).1 (demo_queue (packet_of (str "g"))).2
    = Ret (q', ∅) /\ pq_head q' = None /\ pq_tail q' = None.
Proof.
  apply (destroy_frees_all _ _ (aq_push aq_init (packet_of (str "g")))). apply demo_queue_rep.
Defined.
