(* ===== verification/PktSync.v ===== *)
(** * src/pktqueue.c: the mutex and the condition variable

    PktQueue.v takes every queue operation as one atomic step. Here the calls
    of pktqueue.c are cut at their [pthread] calls: a thread asks for the mutex,
    runs the body, signals the condition variable, releases the mutex;
    [pktqueue_pop] may go to sleep in [pthread_cond_wait], which releases the
    mutex, and re-tests its condition when it is woken, by a signal or
    spuriously. Two threads run: the reader pushes and signals, the main thread
    pops, asks for and clears flags, and signals the shutdown. *)

From S2P Require Import Prelude CMem CFormat Translate Packet PktQueue.
From stdpp Require Import relations functions.

Inductive tid := Rd | Mn.
#[export] Instance tid_eq_dec : EqDecision tid.
Proof. solve_decision. Defined.

Inductive queue_call :=
| CPush (p : packet_t)
| CSignalInterrupt
| CSignalShutdown
| CPop
| CCheckInterrupt
| CIsShutdown.

(** Which thread calls what. *)
Definition may_call (t : tid) (c : queue_call) : bool :=
  match t, c with
  | Rd, (CPush _ | CSignalInterrupt | CSignalShutdown) => true
  | Mn, (CPop | CCheckInterrupt | CIsShutdown | CSignalShutdown) => true
  | _, _ => false
  end.

(** Where a thread is. *)
Inductive pc :=
| Idle                   (* outside pktqueue.c *)
| Locking (c : queue_call)     (* in pthread_mutex_lock *)
| Critical (c : queue_call)    (* holds the mutex, the body is still to run *)
| Notify                 (* the body has run, pthread_cond_signal is next *)
| Unlocking              (* pthread_mutex_unlock is next *)
| Waiting                (* asleep in pthread_cond_wait, the mutex released *)
| Woken.                 (* woken in pthread_cond_wait, needs the mutex again *)

Definition holds_mutex (p : pc) : bool :=
  match p with Critical _ | Notify | Unlocking => true | _ => false end.

Record sync := Sync {
  sy_queue : aqueue;
  sy_owner : option tid;        (* of the mutex *)
  sy_pc : tid -> pc;
  sy_pushed : list packet_t;    (* every packet ever pushed, and popped *)
  sy_popped : list packet_t
}.

Definition sync_init : sync := Sync aq_init None (fun _ => Idle) [] [].

Definition goto (t : tid) (p : pc) (s : sync) : sync :=
  Sync (sy_queue s) (sy_owner s) (<[t := p]> (sy_pc s)) (sy_pushed s) (sy_popped s).
Definition set_owner (o : option tid) (s : sync) : sync :=
  Sync (sy_queue s) o (sy_pc s) (sy_pushed s) (sy_popped s).

(** The condition [pktqueue_pop] does not sleep on. *)
Definition ready (q : aqueue) : bool :=
  negb (bool_decide (aq_items q = [])) || aq_shutdown q || aq_interrupted q.

(** The body of a call, up to [pthread_cond_signal] or [pthread_mutex_unlock];
    [pktqueue_pop] with its condition false goes to sleep instead. *)
Definition body (t : tid) (c : queue_call) (s : sync) : sync :=
  let upd q := Sync q (sy_owner s) (sy_pc s) (sy_pushed s) (sy_popped s) in
  match c with
  | CPush p => goto t Notify (Sync (aq_push (sy_queue s) p) (sy_owner s) (sy_pc s) (sy_pushed s ++ [p]) (sy_popped s))
  | CSignalInterrupt => goto t Notify (upd (aq_signal_interrupt (sy_queue s)))
  | CSignalShutdown => goto t Notify (upd (aq_signal_shutdown (sy_queue s)))
  | CPop =>
      if negb (ready (sy_queue s)) then set_owner None (goto t Waiting s)
      else
        match aq_pop (sy_queue s) with
        | (Got p, q) => goto t Unlocking (Sync q (sy_owner s) (sy_pc s) (sy_pushed s) (sy_popped s ++ [p]))
        | (_, q) => goto t Unlocking (upd q)
        end
  | CCheckInterrupt => goto t Unlocking (upd (aq_check_interrupt (sy_queue s)).2)
  | CIsShutdown => goto t Unlocking s
  end.

(** [pthread_cond_signal]: a thread asleep on the condition is woken. With one
    other thread, broadcasting is the same. *)
Definition other (t : tid) : tid := match t with Rd => Mn | Mn => Rd end.
Definition wake (p : pc) : pc := match p with Waiting => Woken | _ => p end.

(** A step inside a call. *)
Inductive run_step : sync -> sync -> Prop :=
| step_lock t c s :
    sy_pc s t = Locking c -> sy_owner s = None ->
    run_step s (set_owner (Some t) (goto t (Critical c) s))
| step_body t c s :
    sy_pc s t = Critical c -> run_step s (body t c s)
| step_notify t s :
    sy_pc s t = Notify ->
    run_step s (goto t Unlocking (goto (other t) (wake (sy_pc s (other t))) s))
| step_unlock t s :
    sy_pc s t = Unlocking -> run_step s (set_owner None (goto t Idle s))
| step_relock t s :
    sy_pc s t = Woken -> sy_owner s = None ->
    run_step s (set_owner (Some t) (goto t (Critical CPop) s)).

(** Anything that can happen: also a thread that starts a call, and a wake-up
    without a signal. *)
Inductive sync_step : sync -> sync -> Prop :=
| inside s s' : run_step s s' -> sync_step s s'
| step_call t c s :
    sy_pc s t = Idle -> may_call t c = true -> sync_step s (goto t (Locking c) s)
| step_spurious t s :
    sy_pc s t = Waiting -> sync_step s (goto t Woken s).

Definition reachable (s : sync) : Prop := rtc sync_step sync_init s.

(** ** The invariant *)
Definition allowed (t : tid) (p : pc) : bool :=
  match p with
  | Locking c => may_call t c
  | Critical c => may_call t c
  | Waiting | Woken => match t with Mn => true | Rd => false end
  | _ => true
  end.

Record sync_inv (s : sync) : Prop := SyncInv {
  inv_mutex t : holds_mutex (sy_pc s t) = bool_decide (sy_owner s = Some t);
  inv_fifo : sy_pushed s = sy_popped s ++ aq_items (sy_queue s);
  inv_calls t : allowed t (sy_pc s t) = true;
  inv_wakeup t : sy_pc s t = Waiting -> ready (sy_queue s) = true -> sy_pc s (other t) = Notify
}.

(** How far a thread is from leaving its call or falling asleep: the reader's
    signal may cost the main thread another round through [pktqueue_pop]. *)
Definition weight (t : tid) (p : pc) : nat :=
  match t, p with
  | Rd, Locking _ => 13 | Rd, Critical _ => 12 | Rd, Notify => 11
  | Mn, (Locking _ | Woken) => 5 | Mn, Critical _ => 4 | Mn, Notify => 3
  | _, Unlocking => 1
  | _, _ => 0
  end.
Definition work (s : sync) : nat := (weight Rd (sy_pc s Rd) + weight Mn (sy_pc s Mn))%nat.

(** ** Lemmas *)
Lemma fn_insert_at (t : tid) (p : pc) (f : tid -> pc) : (<[t := p]> f) t = p.
Proof. apply fn_lookup_insert. Qed.
Lemma fn_insert_other (t u : tid) (p : pc) (f : tid -> pc) : t <> u -> (<[t := p]> f) u = f u.
Proof. apply fn_lookup_insert_ne. Qed.

Lemma inv_init : sync_inv sync_init.
Proof. split; try done. Qed.

Ltac pcs :=
  repeat match goal with
  | |- context [(<[?t := ?p]> ?f) ?u] =>
      destruct (decide (t = u)) as [<-|?];
      [rewrite (fn_insert_at t p f)|rewrite (fn_insert_other t u p f) by done]
  | H : context [(<[?t := ?p]> ?f) ?u] |- _ =>
      destruct (decide (t = u)) as [<-|?];
      [rewrite (fn_insert_at t p f) in H|rewrite (fn_insert_other t u p f) in H by done]
  end.

Lemma other_other t : other (other t) = t.
Proof. by destruct t. Qed.
Lemma owner_other t : bool_decide (Some t = Some (other t)) = false.
Proof. by destruct t. Qed.

(** Moving thread [t] keeps the invariant when its new place, the new owner and
    the new queue fit together. *)
Lemma inv_move s t p o q pushed popped :
  sync_inv s ->
  holds_mutex p = bool_decide (o = Some t) ->
  bool_decide (o = Some (other t)) = bool_decide (sy_owner s = Some (other t)) ->
  pushed = popped ++ aq_items q -> allowed t p = true ->
  (p = Waiting -> ready q = false) ->
  (sy_pc s (other t) = Waiting -> ready q = true -> p = Notify) ->
  sync_inv (Sync q o (<[t := p]> (sy_pc s)) pushed popped).
Proof.
  intros [Hm Hf Hc Hw] H1 H2 H3 H4 H5 H6. split; simpl; try done.
  - intros u. destruct (decide (t = u)) as [<-|Hne]; [by rewrite fn_insert_at|].
    rewrite fn_insert_other, Hm by done. by destruct t, u.
  - intros u. destruct (decide (t = u)) as [<-|Hne]; [by rewrite fn_insert_at|]. by rewrite fn_insert_other.
  - intros u Hu Hr. destruct (decide (t = u)) as [<-|Hne].
    + rewrite fn_insert_at in Hu. rewrite H5 in Hr; done.
    + rewrite fn_insert_other in Hu by done.
      assert (u = other t) as -> by by destruct t, u.
      rewrite other_other, fn_insert_at. by apply H6.
Qed.

Lemma not_both s t : sync_inv s -> holds_mutex (sy_pc s t) = true -> sy_owner s = Some t.
Proof. intros Hi H. rewrite (inv_mutex _ Hi) in H. by apply bool_decide_eq_true in H. Qed.

(** Nobody sleeps over a true condition but behind a thread about to signal. *)
Lemma no_sleeper s t :
  sync_inv s -> sy_pc s t <> Notify -> sy_pc s (other t) = Waiting -> ready (sy_queue s) = true -> False.
Proof. intros Hi Hn Hw Hr. pose proof (inv_wakeup _ Hi _ Hw Hr) as E. by rewrite other_other in E. Qed.

(** The body of a call, run by the thread that holds the mutex. *)
Lemma inv_body s t p q pushed popped :
  sync_inv s -> sy_owner s = Some t -> holds_mutex p = true -> allowed t p = true ->
  pushed = popped ++ aq_items q ->
  (sy_pc s (other t) = Waiting -> ready q = true -> p = Notify) ->
  sync_inv (Sync q (sy_owner s) (<[t := p]> (sy_pc s)) pushed popped).
Proof.
  intros Hi Ho Hp Ha Hf Hw. apply inv_move; try done.
  - by rewrite Hp, Ho, bool_decide_true.
  - by destruct p.
Qed.

Lemma body_inv s t c : sync_inv s -> sy_pc s t = Critical c -> sync_inv (body t c s).
Proof.
  intros Hi E. pose proof Hi as [Hm Hf Hc Hw].
  assert (Ho : sy_owner s = Some t) by (apply not_both; [done|by rewrite E]).
  assert (Ha : may_call t c = true) by (specialize (Hc t); by rewrite E in Hc).
  assert (Hother : sy_pc s (other t) = Waiting -> ready (sy_queue s) = true -> False).
  { apply no_sleeper; [done|by rewrite E]. }
  destruct c; unfold body, goto, set_owner; cbn [sy_queue sy_owner sy_pc sy_pushed sy_popped].
  - apply inv_body; simpl; try done. by rewrite Hf, app_assoc.
  - by apply inv_body.
  - by apply inv_body.
  - destruct (ready (sy_queue s)) eqn:Er; simpl.
    + unfold aq_pop. unfold ready in Er. destruct (aq_items (sy_queue s)) as [|x l] eqn:Ei.
      * simpl in Er. rewrite Er. apply inv_body; try done; [by rewrite Ei|]. intros Hwt Hr. by destruct Hother.
      * apply inv_body; simpl; try done; [by rewrite Hf, <- app_assoc|]. intros Hwt _. by destruct Hother.
    + apply inv_move; simpl; try done; [rewrite Ho; by destruct t|congruence].
  - apply inv_body; simpl; try done. intros Hwt Hr. destruct Hother; [done|].
    unfold ready in *. simpl in *. rewrite orb_false_r in Hr. by rewrite Hr.
  - apply inv_body; try done. intros Hwt Hr. by destruct Hother.
Qed.

(** Taking and releasing the mutex. *)
Lemma inv_take s t p :
  sync_inv s -> sy_owner s = None -> sy_pc s t <> Notify -> holds_mutex p = true -> allowed t p = true ->
  sync_inv (set_owner (Some t) (goto t p s)).
Proof.
  intros Hi Ho Hn Hp Ha. apply inv_move; try done.
  - by rewrite Hp, bool_decide_true.
  - rewrite owner_other. by rewrite Ho.
  - apply (inv_fifo _ Hi).
  - by destruct p.
  - intros Hwt Hr. by destruct (no_sleeper s t Hi).
Qed.

Lemma inv_wake s t : sync_inv s -> sync_inv (goto t (wake (sy_pc s t)) s).
Proof.
  intros Hi. pose proof Hi as [Hm Hf Hc Hw]. apply inv_move; try done.
  - rewrite <- Hm. by destruct (sy_pc s t).
  - specialize (Hc t). by destruct (sy_pc s t).
  - by destruct (sy_pc s t).
  - intros Hwt Hr. specialize (Hw _ Hwt Hr). rewrite other_other in Hw. by rewrite Hw.
Qed.

Lemma run_step_inv s s' : sync_inv s -> run_step s s' -> sync_inv s'.
Proof.
  intros Hi Hs. pose proof Hi as [Hm Hf Hc Hw].
  destruct Hs as [t c s E Eo|t c s E|t s E|t s E|t s E Eo].
  - apply inv_take; try done; [by rewrite E|]. specialize (Hc t). by rewrite E in Hc.
  - by apply body_inv.
  - assert (Ho : sy_owner s = Some t) by (apply not_both; [done|by rewrite E]).
    apply inv_move; try done; [by apply inv_wake|simpl; by rewrite Ho, bool_decide_true|].
    simpl. rewrite fn_insert_at. by destruct (sy_pc s (other t)).
  - assert (Ho : sy_owner s = Some t) by (apply not_both; [done|by rewrite E]).
    apply inv_move; try done; [by rewrite Ho, owner_other|].
    intros Hwt Hr. destruct (no_sleeper s t Hi); [by rewrite E|done..].
  - apply inv_take; try done; [by rewrite E|]. specialize (Hc t). rewrite E in Hc. by destruct t.
Qed.

Lemma sync_step_inv s s' : sync_inv s -> sync_step s s' -> sync_inv s'.
Proof.
  intros Hi Hs. pose proof Hi as [Hm Hf Hc Hw]. destruct Hs as [s s' Hs|t c s E Hcall|t s E].
  - by eapply run_step_inv.
  - apply inv_move; try done; [by rewrite <- Hm, E|].
    intros Hwt Hr. destruct (no_sleeper s t Hi); [by rewrite E|done..].
  - pose proof (inv_wake s t Hi) as H. by rewrite E in H.
Qed.

Lemma reachable_inv s : reachable s -> sync_inv s.
Proof.
  intros H. unfold reachable in H. revert H. generalize inv_init. generalize sync_init.
  intros s0 H0 H. induction H as [|s1 s2 s3 H12 _ IH]; [done|]. apply IH. by eapply sync_step_inv.
Qed.


(** *** Progress *)
Definition stuck (s : sync) : Prop := forall s', ~ run_step s s'.

Lemma work_goto s t p : work (goto t p s) = (weight t p + weight (other t) (sy_pc s (other t)))%nat.
Proof. unfold work. destruct t; simpl; rewrite fn_insert_at, fn_insert_other by done; lia. Qed.
Lemma work_split s t : work s = (weight t (sy_pc s t) + weight (other t) (sy_pc s (other t)))%nat.
Proof. unfold work. destruct t; simpl; lia. Qed.
Lemma work_owner o s : work (set_owner o s) = work s.
Proof. done. Qed.

Lemma body_work s t c : may_call t c = true -> (work (body t c s) < weight t (Critical c) + weight (other t) (sy_pc s (other t)))%nat.
Proof.
  intros H. destruct c; unfold body; try (rewrite ?work_owner, work_goto; destruct t; simpl in *; [lia || done..]).
  - destruct (negb _); [|destruct (aq_pop _) as [[] q]];
      rewrite ?work_owner, work_goto; destruct t; simpl in *; [lia || done..].
Qed.

Lemma run_step_work s s' : sync_inv s -> run_step s s' -> (work s' < work s)%nat.
Proof.
  intros Hi Hs. destruct Hs as [t c s E Eo|t c s E|t s E|t s E|t s E Eo]; rewrite (work_split s t), E.
  - rewrite work_owner, work_goto. destruct t; simpl; lia.
  - apply body_work. pose proof (inv_calls _ Hi t) as Hc. by rewrite E in Hc.
  - rewrite work_goto. simpl. rewrite fn_insert_at.
    pose proof (inv_calls _ Hi (other t)) as Hc. generalize dependent (sy_pc s (other t)). intros p Hc.
    destruct t, p; simpl in *; (done || lia).
  - rewrite work_owner, work_goto. destruct t; simpl; lia.
  - rewrite work_owner, work_goto. pose proof (inv_calls _ Hi t) as Hc. rewrite E in Hc. destruct t; simpl in *; (done || lia).
Qed.

Lemma nsteps_work n s s' : sync_inv s -> nsteps run_step n s s' -> sync_inv s' /\ (n + work s' <= work s)%nat.
Proof.
  intros Hi H. induction H as [s|n s1 s2 s3 H12 _ IH]; [split; [done|lia]|].
  destruct IH as [Hi3 Hw]; [by eapply run_step_inv|]. split; [done|].
  apply run_step_work in H12; [lia|done].
Qed.

Lemma work_bound s : (work s <= 18)%nat.
Proof. unfold work. destruct (sy_pc s Rd), (sy_pc s Mn); simpl; lia. Qed.

(** A thread that cannot go on is outside the queue or asleep. *)
Lemma stuck_pc s t : sync_inv s -> stuck s -> sy_pc s t = Idle \/ sy_pc s t = Waiting.
Proof.
  intros Hi Hs. destruct (sy_owner s) as [u|] eqn:Eo.
  - exfalso. pose proof (inv_mutex _ Hi u) as Hm. rewrite Eo, bool_decide_true in Hm by done.
    destruct (sy_pc s u) as [|c|c| | | |] eqn:E; try done.
    + by apply (Hs (body u c s)), step_body.
    + eapply Hs. by apply (step_notify u).
    + eapply Hs. by apply (step_unlock u).
  - destruct (sy_pc s t) as [|c|c| | | |] eqn:E; auto; exfalso; eapply Hs.
    + by apply (step_lock t c).
    + by apply (step_body t c).
    + by apply (step_notify t).
    + by apply (step_unlock t).
    + by apply (step_relock t).
Qed.

Lemma stuck_asleep s :
  sync_inv s -> stuck s ->
  sy_pc s Rd = Idle /\ (sy_pc s Mn = Idle \/ sy_pc s Mn = Waiting /\ ready (sy_queue s) = false).
Proof.
  intros Hi Hs. assert (HR : sy_pc s Rd = Idle).
  { destruct (stuck_pc s Rd Hi Hs) as [E|E]; [done|]. pose proof (inv_calls _ Hi Rd) as Hc. by rewrite E in Hc. }
  split; [done|]. destruct (stuck_pc s Mn Hi Hs) as [E|E]; [by left|]. right. split; [done|].
  destruct (ready (sy_queue s)) eqn:Er; [|done]. pose proof (inv_wakeup _ Hi _ E Er) as Hn. simpl in Hn. congruence.
Qed.

(** ** Properties *)

(** C8 In every state the two threads can reach, at most one of them is inside a
    critical section, the mutex is owned exactly by the one that is, and the
    packets popped so far followed by those in the queue are the packets pushed,
    in order; a thread asleep in [pktqueue_pop] while it has a reason to wake is
    always about to be signalled. *)
Theorem sync_invariant s :
  reachable s ->
  ~ (holds_mutex (sy_pc s Rd) = true /\ holds_mutex (sy_pc s Mn) = true) /\
  (forall t, sy_owner s = Some t <-> holds_mutex (sy_pc s t) = true) /\
  sy_pushed s = sy_popped s ++ aq_items (sy_queue s) /\
  (forall t, sy_pc s t = Waiting -> ready (sy_queue s) = true -> sy_pc s (other t) = Notify).
Proof.
  intros Hi%reachable_inv. pose proof Hi as [Hm Hf Hc Hw]. split_and!; try done.
  - rewrite !Hm, !bool_decide_eq_true. intros [-> [=]].
  - intros t. by rewrite Hm, bool_decide_eq_true.
Qed.

(** C9 No wake-up is lost and nobody waits forever: from any reachable state the
    calls in progress take at most 18 steps together, in any order, and when
    none is left, the reader is outside the queue and the main thread too, or
    it sleeps because there is nothing to do: every packet pushed has been
    popped, and neither the shutdown nor the interrupt flag is set. *)
Theorem no_lost_wakeup s n s' :
  reachable s -> nsteps run_step n s s' ->
  (n <= 18)%nat /\
  (stuck s' -> sy_pc s' Rd = Idle /\
     (sy_pc s' Mn = Idle \/
      sy_pc s' Mn = Waiting /\ sy_popped s' = sy_pushed s' /\
      aq_shutdown (sy_queue s') = false /\ aq_interrupted (sy_queue s') = false)).
Proof.
  intros Hi%reachable_inv Hn. destruct (nsteps_work n s s' Hi Hn) as [Hi' Hw].
  split; [pose proof (work_bound s); lia|]. intros Hs. destruct (stuck_asleep s' Hi' Hs) as [HR HM].
  split; [done|]. destruct HM as [HM|[HM Hr]]; [by left|right]. split; [done|].
  unfold ready in Hr. apply orb_false_iff in Hr as [[Hr1 ->]%orb_false_iff ->]. split; [|done].
  apply negb_false_iff, bool_decide_eq_true in Hr1. by rewrite (inv_fifo _ Hi'), Hr1, app_nil_r.
Qed.

(** *** A run: the main thread falls asleep in [pktqueue_pop], the reader pushes
    a packet, and the main thread takes it. *)
Definition p0 : packet_t := packet_of (str "g").
Definition after_push : sync :=
  Sync (AQueue [p0] false false) (Some Rd) (<[Rd := Notify]> (<[Rd := Critical (CPush p0)]> (<[Rd := Locking (CPush p0)]>
    (<[Mn := Waiting]> (<[Mn := Critical CPop]> (<[Mn := Locking CPop]> (fun _ => Idle))))))) [p0] [].

Lemma after_push_reachable : reachable after_push.
Proof.
  unfold reachable.
  eapply rtc_l; [by apply (step_call Mn CPop)|].
  eapply rtc_l; [by apply inside, (step_lock Mn CPop)|].
  eapply rtc_l; [by apply inside, (step_body Mn CPop)|].
  eapply rtc_l; [by apply (step_call Rd (CPush p0))|].
  eapply rtc_l; [by apply inside, (step_lock Rd (CPush p0))|].
  eapply rtc_l; [by apply inside, (step_body Rd (CPush p0))|].
  apply rtc_refl.
Qed.

Example sync_invariant_witness :
  reachable after_push /\ [p0] = [] ++ aq_items (sy_queue after_push) /\ sy_pc after_push (other Mn) = Notify.
Proof.
  split; [apply after_push_reachable|].
  destruct (sync_invariant after_push after_push_reachable) as (_ & _ & H1 & H2).
  split; [exact H1|]. by apply H2.
Defined.

Example no_lost_wakeup_witness :
  exists s', nsteps run_step 5 after_push s' /\ stuck s' /\ sy_popped s' = [p0] /\ (5 <= 18)%nat /\ sy_pc s' Rd = Idle.
Proof.
  assert (H : exists s', nsteps run_step 5 after_push s' /\ sy_pc s' Rd = Idle /\ sy_pc s' Mn = Idle /\ sy_popped s' = [p0]).
  { eexists. split; [|split; [|split]].
    - eapply nsteps_l; [by apply (step_notify Rd)|].
      eapply nsteps_l; [by apply (step_unlock Rd)|].
      eapply nsteps_l; [by apply (step_relock Mn)|].
      eapply nsteps_l; [by apply (step_body Mn CPop)|].
      eapply nsteps_l; [by apply (step_unlock Mn)|].
      apply nsteps_O.
    - reflexivity.
    - reflexivity.
    - reflexivity. }
  destruct H as (s' & Hn & HR & HM & Hp). exists s'.
  assert (Hs : stuck s') by (intros s'' Hstep; inversion Hstep as [t ? ? E|t ? ? E|t ? E|t ? E|t ? E]; destruct t; congruence).
  split; [exact Hn|]. split; [exact Hs|]. split; [exact Hp|].
  destruct (no_lost_wakeup after_push 5 s' after_push_reachable Hn) as [H18 H]. split; [exact H18|]. by apply H.
Defined.
