(* ===== verification/RegBuf.v ===== *)
(** * src/regbuf.c: the growing register buffer *)

From S2P Require Import Prelude CMem.

Record regbuf_t := Regbuf { rb_buf : option buf; rb_sz : Z }.

(** [alloc_ok]: does [malloc] succeed? *)
Definition regbuf_init (alloc_ok : bool) : bool * regbuf_t :=
  if alloc_ok then (true, Regbuf (Some (uninit 8)) 8) else (false, Regbuf None 8).

(** [while (reg_sz > sz) sz <<= 1] on [size_t]. From a power of two, 64 rounds
    either reach [reg_sz] or have shifted the one bit out, and then the loop
    never ends. *)
Fixpoint regbuf_grow (fuel : nat) (sz reg_sz : Z) : outcome Z :=
  if sz <? reg_sz then
    match fuel with
    | O => Hang
    | S fuel => regbuf_grow fuel (u64 (Z.shiftl sz 1)) reg_sz
    end
  else Ret sz.

(** The returned pointer is the new [rb_buf]; the result of [malloc] is not
    checked. *)
Definition regbuf_get (r : regbuf_t) (reg_sz : Z) (alloc_ok : bool) : outcome regbuf_t :=
  if reg_sz <=? rb_sz r then Ret r
  else
    sz ← regbuf_grow 64 (rb_sz r) reg_sz;
    Ret (Regbuf (if alloc_ok then Some (uninit sz) else None) sz).

(** The invariant: a power of two from 8 on, and an area of that size. *)
Definition regbuf_wf (r : regbuf_t) : Prop :=
  (exists k, 3 <= k <= 63 /\ rb_sz r = 2 ^ k) /\ exists b, rb_buf r = Some b /\ blen b = rb_sz r.

(** ** Lemmas *)

Lemma regbuf_grow_ok fuel : forall k n,
  0 <= k -> k <= n <= 63 -> (Z.to_nat (n - k) <= fuel)%nat ->
  forall reg_sz, reg_sz <= 2 ^ n -> exists m, k <= m <= n /\ regbuf_grow fuel (2 ^ k) reg_sz = Ret (2 ^ m) /\
    reg_sz <= 2 ^ m /\ (m = k \/ 2 ^ (m - 1) < reg_sz).
Proof.
  induction fuel as [|fuel IH]; intros k n Hk Hn Hf reg_sz Hr; simpl.
  - assert (n = k) as -> by lia. exists k. case_if; [lia|]. split_and!; auto with lia.
  - case_if.
    2:{ exists k. split_and!; auto with lia. }
    assert (k < n). { destruct (decide (k = n)) as [->|]; lia. }
    assert (Hs : u64 (Z.shiftl (2 ^ k) 1) = 2 ^ (k + 1)).
    { rewrite Z.shiftl_mul_pow2, <- Z.pow_add_r by lia. apply u64_id. split; [lia|].
      change 18446744073709551616 with (2 ^ 64). apply Z.pow_lt_mono_r; lia. }
    rewrite Hs. destruct (IH (k + 1) n ltac:(lia) ltac:(lia) ltac:(lia) reg_sz Hr) as (m & ? & Eg & ? & Hmin).
    exists m. split_and!; [lia|lia|exact Eg|done|]. right.
    destruct Hmin as [->|]; [|done]. by replace (k + 1 - 1) with k by lia.
Qed.

Lemma regbuf_init_wf r : regbuf_init true = (true, r) -> regbuf_wf r.
Proof.
  intros [= <-]. split; [exists 3; simpl; lia|]. exists (uninit 8). split; [done|].
  by rewrite blen_uninit.
Qed.

(** What a client relies on. *)
Lemma regbuf_get_ok r reg_sz :
  regbuf_wf r -> 0 <= reg_sz <= 2 ^ 63 ->
  exists r', regbuf_get r reg_sz true = Ret r' /\ regbuf_wf r' /\ reg_sz <= rb_sz r'.
Proof.
  intros Hwf Hr. pose proof Hwf as ((k & Hk & Hsz) & b & Hb & Hl). unfold regbuf_get. case_if.
  - by exists r.
  - rewrite Hsz in *. destruct (regbuf_grow_ok 64 k 63 ltac:(lia) ltac:(lia) ltac:(lia) reg_sz ltac:(lia))
      as (m & Hm & -> & Hle & _). simpl.
    eexists. split; [done|]. split; [|done]. split; [exists m; simpl; split; [lia|done]|].
    exists (uninit (2 ^ m)). split; [done|]. rewrite blen_uninit; [done|]. apply Z.pow_nonneg. lia.
Qed.

(** A shifted-out size never grows again. *)
Lemma regbuf_grow_zero fuel reg_sz : 0 < reg_sz -> regbuf_grow fuel 0 reg_sz = Hang.
Proof.
  intros. induction fuel as [|fuel IH]; simpl; (case_if; [|lia]); [done|].
  change (u64 (Z.shiftl 0 1)) with 0. exact IH.
Qed.

Lemma regbuf_grow_overflow reg_sz fuel k :
  0 <= k <= 63 -> 2 ^ 63 < reg_sz -> regbuf_grow fuel (2 ^ k) reg_sz = Hang.
Proof.
  intros Hk Hr. revert k Hk. induction fuel as [|fuel IH]; intros k Hk; simpl.
  - pose proof (Z.pow_le_mono_r 2 k 63 ltac:(lia) ltac:(lia)). case_if; [done|lia].
  - pose proof (Z.pow_le_mono_r 2 k 63 ltac:(lia) ltac:(lia)). case_if; [|lia].
    destruct (decide (k = 63)) as [->|].
    + change (u64 (Z.shiftl (2 ^ 63) 1)) with 0. apply regbuf_grow_zero. lia.
    + rewrite Z.shiftl_mul_pow2, <- Z.pow_add_r by lia. rewrite u64_id.
      * apply IH. lia.
      * split; [apply Z.pow_nonneg; lia|]. change 18446744073709551616 with (2 ^ 64).
        apply Z.pow_lt_mono_r; lia.
Qed.

(** ** Properties *)

(** C39 [regbuf_get] returns a buffer large enough for every register size up to
    2^63: the old one if it fits, else one whose size is the least doubling that
    does; the size stays a power of two. *)
Theorem regbuf_get_fits r reg_sz :
  regbuf_wf r -> 0 <= reg_sz <= 2 ^ 63 ->
  exists r', regbuf_get r reg_sz true = Ret r' /\ regbuf_wf r' /\ reg_sz <= rb_sz r' /\
    (r' = r \/ rb_sz r < reg_sz /\ rb_sz r' < 2 * reg_sz).
Proof.
  intros Hwf Hr. pose proof Hwf as ((k & Hk & Hsz) & b & Hb & Hl). unfold regbuf_get. case_if.
  - exists r. auto with lia.
  - rewrite Hsz in *. destruct (regbuf_grow_ok 64 k 63 ltac:(lia) ltac:(lia) ltac:(lia) reg_sz ltac:(lia))
      as (m & Hm & -> & Hle & Hmin). simpl.
    eexists. split; [done|]. split_and!; simpl.
    + split; [exists m; simpl; split; [lia|done]|].
      exists (uninit (2 ^ m)). split; [done|]. rewrite blen_uninit; [done|]. apply Z.pow_nonneg. lia.
    + done.
    + right. split; [lia|]. destruct Hmin as [->|Hmin]; [lia|].
      replace m with (m - 1 + 1) by lia. rewrite Z.pow_add_r by lia. lia.
Qed.

Example regbuf_get_fits_witness :
  exists r', regbuf_get (Regbuf (Some (uninit 8)) 8) 33 true = Ret r' /\ rb_sz r' = 64.
Proof.
  assert (H : regbuf_wf (Regbuf (Some (uninit 8)) 8)) by by apply regbuf_init_wf.
  destruct (regbuf_get_fits _ 33 H ltac:(lia)) as (r' & E & _).
  exists r'. split; [exact E|]. vm_compute in E. by injection E as <-.
Defined.

(** Above 2^63 the doubling loop shifts its only bit out and never ends. *)
Theorem regbuf_get_hangs r reg_sz alloc_ok :
  regbuf_wf r -> 2 ^ 63 < reg_sz -> regbuf_get r reg_sz alloc_ok = Hang.
Proof.
  intros ((k & Hk & Hsz) & _) Hr. unfold regbuf_get.
  pose proof (Z.pow_le_mono_r 2 k 63 ltac:(lia) ltac:(lia)). case_if; [lia|].
  rewrite Hsz, regbuf_grow_overflow; [done|lia|done].
Qed.

Example regbuf_get_hangs_witness :
  regbuf_get (Regbuf (Some (uninit 8)) 8) 9223372036854775809 true = Hang.
Proof.
  apply regbuf_get_hangs; [by apply regbuf_init_wf|reflexivity].
Defined.
