(* ===== verification/Conn.v ===== *)
(** * src/conn.c: framing of replies and the send loop

    [packet_string] is [conn_send_pktstr] up to the string it hands to
    [conn_send_str]; [conn_send_loop] is [__conn_send_str], driven by what
    [poll] and [write] answer. Opening and closing the sockets is in
    Lifecycle.v. *)

From S2P Require Import Prelude CMem CFormat Translate Packet.

Definition MAX_SEND_PACKET_SIZE : Z := 4096.
Definition MAX_DATA_PAYLOAD : Z := MAX_SEND_PACKET_SIZE - (2 + CSUM_SIZE + 2).

Record conn_t := Conn {
  listen_fd : Z;
  socket_fd : Z;
  no_ack_mode : bool;
  failure_count : Z
}.
Definition set_no_ack (c : conn_t) (b : bool) : conn_t :=
  Conn (listen_fd c) (socket_fd c) b (failure_count c).
Definition set_failures (c : conn_t) (n : Z) : conn_t :=
  Conn (listen_fd c) (socket_fd c) (no_ack_mode c) n.

Definition STR_ACK : bytes := str "+".
Definition STR_NACK : bytes := str "-".
Definition INTR_CHAR : Z := 3.

(** [sprintf(b + off, ...)] of an already formatted string, and
    [snprintf(b + off, size, ...)], which cuts the string to fit. *)
Definition sprintf (b : buf) (off : Z) (s : bytes) : outcome buf := bstore b off (s ++ [0]).
Definition snprintf (b : buf) (off size : Z) (s : bytes) : outcome buf :=
  if size =? 0 then Ret b
  else bstore b off (take (Z.to_nat (Z.min (size - 1) (Z.of_nat (length s)))) s ++ [0]).

(** [conn_send_pktstr(conn, b + off)]: the string given to [conn_send_str]. *)
Definition packet_string (b : buf) (off : Z) : outcome bytes :=
  len ← strlen b off;
  _ ← cassert (len + 2 + CSUM_SIZE + 1 <? MAX_SEND_PACKET_SIZE);
  packet ← bput (uninit MAX_SEND_PACKET_SIZE) 0 36;
  src ← bslice b off len;
  packet ← bwrite packet 1 src;
  packet ← bput packet (len + 1) 35;
  csum ← compute_checksum b off len;
  csum_str ← snprintf (uninit 4) 0 3 (fmt_02x csum);
  let csum_len := Z.of_nat (length (fmt_02x csum)) in
  _ ← cassert (csum_len =? CSUM_SIZE);
  cs ← bslice csum_str 0 csum_len;
  packet ← bwrite packet (len + 2) cs;
  packet ← bput packet (len + 2 + csum_len) 0;
  cstr packet 0.

(** ** The send loop *)

Definition CONN_SEND_TIMEOUT_MS : Z := 5000.
Definition CONN_SEND_POLL_MS : Z := 100.
Definition EINTR : Z := 4.
Definition EAGAIN : Z := 11.  (* = EWOULDBLOCK *)

(** One round: [poll] says not writable, or [write] takes [n] bytes, or fails. *)
Inductive send_ev := NotWritable | Wrote (n : nat) | WriteErr (errno : Z).

(** [__conn_send_str]: the returned boolean ([None] while it is still in the
    loop when the events end), the bytes the socket took, the events left. *)
Fixpoint conn_send_loop (evs : list send_ev) (s : bytes) (total_waited timeout : Z)
  : option bool * bytes * list send_ev :=
  match s with
  | [] => (Some true, [], evs)
  | _ =>
      match evs with
      | [] => (None, [], [])
      | NotWritable :: evs =>
          let total_waited := total_waited + CONN_SEND_POLL_MS in
          if timeout <=? total_waited then (Some false, [], evs)
          else conn_send_loop evs s total_waited timeout
      | WriteErr e :: evs =>
          if (e =? EINTR) || (negb (timeout =? 0) && (e =? EAGAIN))
          then conn_send_loop evs s total_waited timeout
          else (Some false, [], evs)
      | Wrote n :: evs =>
          let '(r, sent, evs) := conn_send_loop evs (drop n s) 0 timeout in
          (r, take n s ++ sent, evs)
      end
  end.
Definition __conn_send_str (evs : list send_ev) (s : bytes) (timeout : Z) :=
  conn_send_loop evs s 0 timeout.

(** [conn_send_str] (the result is ignored) and [conn_try_send_str], [locked]
    telling whether another thread holds [send_mutex]. *)
Definition conn_send_str_io (evs : list send_ev) (s : bytes) : bytes * list send_ev :=
  let '(_, sent, evs) := __conn_send_str evs s CONN_SEND_TIMEOUT_MS in (sent, evs).
Definition conn_try_send_str_io (locked : bool) (evs : list send_ev) (s : bytes)
  : option bool * bytes * list send_ev :=
  if locked then (Some false, [], evs) else __conn_send_str evs s 0.

(** A run of [conn_send_str] calls on one socket. *)
Fixpoint deliver (evs : list send_ev) (ss : list bytes) : bytes * list send_ev :=
  match ss with
  | [] => ([], evs)
  | s :: ss =>
      let '(sent, evs) := conn_send_str_io evs s in
      let '(rest, evs) := deliver evs ss in (sent ++ rest, evs)
  end.

(** ** Lemmas *)

Lemma fmt_02x_byte c : 0 <= c < 256 -> fmt_02x c = hex_byte c.
Proof.
  intros. enough (H' : streq (fmt_02x c) (hex_byte c) = true) by by apply streq_spec.
  by apply (byte_forall (fun c => streq (fmt_02x c) (hex_byte c)) 256).
Qed.

(** What one can send: NUL-free, within the send buffer. *)
Definition sendable (s : bytes) : Prop := no0 s /\ Z.of_nat (length s) <= MAX_DATA_PAYLOAD.

Lemma no0_frame s : no0 s -> no0 (frame s).
Proof.
  intros. destruct (byte_split _ (csum_range s)) as (Hh & Hl & _).
  apply hexchar_range in Hh, Hl. unfold frame, hex_byte. repeat (apply Forall_app; split); try done;
    repeat constructor; lia.
Qed.

Lemma sprintf_spec b off s b' :
  sprintf b off s = Ret b' -> no0 s -> cstr_at b' off s.
Proof.
  unfold sprintf, bstore, bwrite. intros H Hs. case_if; [|done]. simp_outcome. subst b'.
  split; [done|]. exists (take (Z.to_nat off) b), (drop (Z.to_nat off + length (Some <$> s ++ [0])) b).
  rewrite fmap_app, <- app_assoc. split; [done|]. unfold blen in *. rewrite length_take. lia.
Qed.

Lemma sprintf_ok b off s :
  0 <= off -> off + Z.of_nat (length s) < blen b -> exists b', sprintf b off s = Ret b'.
Proof.
  intros. apply bwrite_ok; [done|]. rewrite blen_fmap, length_app. simpl. lia.
Qed.

(** The tail of [packet_string], past the copied payload. *)
Lemma packet_string_ok b off s :
  cstr_at b off s -> sendable s -> packet_string b off = Ret (frame s).
Proof.
  intros Hat [H0 Hlen]. unfold MAX_DATA_PAYLOAD, MAX_SEND_PACKET_SIZE, CSUM_SIZE in Hlen.
  unfold packet_string. rewrite (strlen_at _ _ _ Hat). csimpl.
  unfold MAX_SEND_PACKET_SIZE, CSUM_SIZE.
  replace (_ <? 4096) with true by (symmetry; bool_props; lia). csimpl.
  destruct Hat as (_ & pre & post & -> & ->).
  rewrite <- (app_nil_l (uninit 4096)).
  erewrite obind_eq; [cbv beta|apply bput_uninit; [reflexivity|lia]].
  ostep (bslice_app pre (Some <$> s) (Some 0 :: post)).
  erewrite obind_eq; [cbv beta|apply bwrite_uninit; [done|rewrite blen_fmap; lia]].
  erewrite obind_eq; [cbv beta|apply bput_uninit; [blia|rewrite blen_fmap; lia]].
  erewrite obind_eq; [cbv beta|apply compute_checksum_at; [by apply bload_app|lia]].
  rewrite (fmt_02x_byte _ (csum_range s)).
  assert (Hsn : snprintf (uninit 4) 0 3 (hex_byte (csum_of s)) =
    Ret ((Some <$> hex_byte (csum_of s)) ++ [Some 0; None])) by reflexivity.
  rewrite Hsn. cbn [mbind outcome_bind]. change (Z.of_nat (length (hex_byte _))) with 2.
  change (cassert (2 =? 2)) with (Ret tt). cbn [mbind outcome_bind].
  ostep (bslice_app [] (Some <$> hex_byte (csum_of s)) [Some 0; None]).
  erewrite obind_eq; [cbv beta|apply bwrite_uninit; [blia|rewrite !blen_fmap; simpl; lia]].
  erewrite obind_eq; [cbv beta|apply bput_uninit; [blia|rewrite !blen_fmap; simpl; lia]].
  apply cstr_at_ok. split; [by apply no0_frame|].
  exists [], (uninit (4096 - 1 - blen (Some <$> s) - 1 - blen (Some <$> hex_byte (csum_of s)) - 1)).
  split; [|done]. unfold frame. rewrite !fmap_app, <- !app_assoc. done.
Qed.

Lemma packet_string_too_long b off s :
  cstr_at b off s -> MAX_DATA_PAYLOAD < Z.of_nat (length s) -> packet_string b off = AssertFail.
Proof.
  intros Hat Hlen. unfold packet_string. rewrite (strlen_at _ _ _ Hat). csimpl.
  unfold MAX_DATA_PAYLOAD, MAX_SEND_PACKET_SIZE, CSUM_SIZE in *.
  by replace (_ <? 4096) with false by (symmetry; bool_props; lia).
Qed.

Lemma packet_string_inv b off r :
  packet_string b off = Ret r -> exists s, r = frame s /\ sendable s /\ cstr_at b off s.
Proof.
  intros H. pose proof H as H'. unfold packet_string, strlen in H'. binv H'. clear Hk.
  binv Hm. simp_outcome. subst. apply cstr_inv in Hm0.
  destruct (decide (Z.of_nat (length x0) <= MAX_DATA_PAYLOAD)) as [Hle|Hgt].
  - assert (Hs : sendable x0) by (split; [by destruct Hm0|done]).
    rewrite (packet_string_ok _ _ _ Hm0 Hs) in H. simp_outcome. by exists x0.
  - rewrite (packet_string_too_long _ _ _ Hm0) in H by lia. done.
Qed.

(** The send loop moves a prefix, and says [true] exactly when all of it went. *)
Lemma send_loop_prefix evs : forall s w t r sent evs',
  conn_send_loop evs s w t = (r, sent, evs') ->
  (exists rest, s = sent ++ rest) /\ (r = Some true <-> sent = s).
Proof.
  induction evs as [|ev evs IH]; intros s w t r sent evs' H; destruct s as [|c s]; simpl in H; simplify_eq;
    try (split; [by eexists|naive_solver]).
  destruct ev as [|n|e].
  - case_if; simplify_eq; [split; [by eexists|naive_solver]|]. by apply IH in H.
  - destruct (conn_send_loop evs (drop n (c :: s)) 0 t) as [[r1 s1] e1] eqn:E. simplify_eq.
    apply IH in E as [[rest Hr] Hiff]. split.
    + exists rest. by rewrite <- app_assoc, <- Hr, take_drop.
    + rewrite Hiff. split; intros H.
      * by rewrite H, take_drop.
      * rewrite <- (take_drop n (c :: s)) in H at 2. by apply app_inv_head in H.
  - case_if; simplify_eq; [|split; [by eexists|naive_solver]]. by apply IH in H.
Qed.

(** The rounds that neither move a byte nor count towards the timeout, and the
    writes of nothing, which restart it. *)
Definition retried (ev : send_ev) : bool :=
  match ev with WriteErr e => (e =? EINTR) || (e =? EAGAIN) | _ => false end.
Definition empty_write (ev : send_ev) : bool :=
  match ev with Wrote O => true | _ => false end.
Definition count (P : send_ev -> bool) (evs : list send_ev) : Z := Z.of_nat (length (List.filter P evs)).

Lemma count_cons P ev evs : count P (ev :: evs) = (if P ev then 1 else 0) + count P evs.
Proof. unfold count. simpl. destruct (P ev); simpl; lia. Qed.

Lemma send_loop_terminates evs : forall s k,
  0 <= k < 50 ->
  50 * (Z.of_nat (length s) + count empty_write evs) - k + count retried evs <= Z.of_nat (length evs) ->
  exists b sent evs', conn_send_loop evs s (100 * k) 5000 = (Some b, sent, evs').
Proof.
  induction evs as [|ev evs IH]; intros s k Hk Hlen; destruct s as [|c s]; simpl conn_send_loop; try by eexists _, _, _.
  - unfold count in Hlen. simpl in Hlen. lia.
  - rewrite !count_cons in Hlen. simpl length in *. destruct ev as [|n|e]; simpl in Hlen.
    + unfold CONN_SEND_POLL_MS. case_if; [by eexists _, _, _|].
      replace (100 * k + 100) with (100 * (k + 1)) by lia. apply IH; [lia|]. simpl. lia.
    + destruct (IH (drop n (c :: s)) 0 ltac:(lia)) as (b & sent & evs' & E).
      { rewrite length_drop. simpl. destruct n; simpl in Hlen |- *; lia. }
      rewrite Z.mul_0_r in E. rewrite E. by eexists _, _, _.
    + change (negb (5000 =? 0)) with true. cbn [andb].
      destruct ((e =? EINTR) || (e =? EAGAIN)); [|by eexists _, _, _]. apply IH; [done|]. simpl. lia.
Qed.

(** Retries alone never end the loop. *)
Lemma send_loop_retries n s w e :
  s <> [] -> e = EINTR \/ e = EAGAIN -> conn_send_loop (replicate n (WriteErr e)) s w 5000 = (None, [], []).
Proof.
  intros Hs He. destruct s as [|c s]; [done|].
  induction n as [|n IH]; [done|]. simpl. by destruct He as [-> | ->].
Qed.

(** ** Properties *)

(** C35 [conn_send_pktstr] frames exactly the payloads that fit: a string of at
    most [MAX_DATA_PAYLOAD] bytes is sent as [$], the string, [#] and the two hex
    digits of its checksum, without overflowing the send buffer; a longer one
    stops at the assertion. *)
Theorem conn_send_pktstr_frames b off s :
  cstr_at b off s ->
  packet_string b off = if Z.of_nat (length s) <=? MAX_DATA_PAYLOAD then Ret (frame s) else AssertFail.
Proof.
  intros Hat. case_if.
  - apply packet_string_ok; [done|]. by split; [destruct Hat|].
  - by apply (packet_string_too_long _ _ s).
Qed.

Example conn_send_pktstr_frames_witness : packet_string (lit (str "OK")) 0 = Ret (str "$OK#9a").
Proof.
  rewrite (conn_send_pktstr_frames _ _ (str "OK")); [by vm_compute|].
  apply lit_at. vdecide.
Defined.

(** C36 [__conn_send_str] gives the socket a prefix of the string and returns true
    exactly when the whole string was taken. After 50 polls without progress
    (5000 ms) it gives up, so it returns within 50 rounds per byte, plus one round
    for every [write] that fails with EINTR or EAGAIN and 50 for every [write] of
    0 bytes. These are not bounded: retries do not count towards the timeout, and
    as long as the socket polls writable and [write] fails with one of them, the
    loop goes on. *)
Theorem conn_send_str_prefix_and_bounded evs s :
  (forall r sent evs', __conn_send_str evs s CONN_SEND_TIMEOUT_MS = (r, sent, evs') ->
     (exists rest, s = sent ++ rest) /\ (r = Some true <-> sent = s)) /\
  (50 * Z.of_nat (length s) + 50 * count empty_write evs + count retried evs <= Z.of_nat (length evs) ->
     exists b sent evs', __conn_send_str evs s CONN_SEND_TIMEOUT_MS = (Some b, sent, evs')) /\
  (s <> [] -> __conn_send_str (replicate 50 NotWritable ++ evs) s CONN_SEND_TIMEOUT_MS = (Some false, [], evs)) /\
  (forall n e, s <> [] -> e = EINTR \/ e = EAGAIN ->
     __conn_send_str (replicate n (WriteErr e)) s CONN_SEND_TIMEOUT_MS = (None, [], [])).
Proof.
  split; [|split; [|split]].
  - intros r sent evs'. apply send_loop_prefix.
  - intros Hlen. apply (send_loop_terminates evs s 0); lia.
  - intros Hs. by destruct s.
  - intros n e. apply send_loop_retries.
Qed.
