(* ===== verification/Target.v ===== *)
(** * include/gdbstub.h: the target interface and the state of the stub

    [target_ops] is the table of callbacks an emulator supplies; its state [T]
    stands for what [args] points to. A NULL entry is [None]; calling it is
    undefined behaviour. [world] is what the packet handlers work on: the
    private part of the stub, the target, the strings passed to
    [conn_send_str] so far, and the answers the allocator will give. *)

From S2P Require Import Prelude CMem CFormat Translate Packet RegBuf Conn.

Inductive gdb_event_t := EVENT_NONE | EVENT_CONT | EVENT_DETACH | EVENT_STEP.
Inductive gdb_action_t := ACT_NONE | ACT_RESUME | ACT_SHUTDOWN.
Definition BP_SOFTWARE : Z := 0.

Record target_ops (T : Type) := TargetOps {
  op_cont : option (T -> outcome (gdb_action_t * T));
  op_stepi : option (T -> outcome (gdb_action_t * T));
  op_get_reg_bytes : option (Z -> Z);
  (* the returned code and the bytes stored through [value] *)
  op_read_reg : option (T -> Z -> outcome (Z * bytes * T));
  (* gets the memory [value] points to, up to the end of its area *)
  op_write_reg : option (T -> Z -> buf -> outcome (Z * T));
  op_read_mem : option (T -> Z -> Z -> outcome (Z * bytes * T));
  op_write_mem : option (T -> Z -> Z -> buf -> outcome (Z * T));
  op_set_bp : option (T -> Z -> Z -> outcome (bool * T));
  op_del_bp : option (T -> Z -> Z -> outcome (bool * T));
  op_on_interrupt : option (T -> outcome T);
  op_set_cpu : option (T -> Z -> outcome T);
  op_get_cpu : option (T -> outcome (Z * T))
}.
Arguments TargetOps {T}.
Arguments op_cont {T}.
Arguments op_stepi {T}.
Arguments op_get_reg_bytes {T}.
Arguments op_read_reg {T}.
Arguments op_write_reg {T}.
Arguments op_read_mem {T}.
Arguments op_write_mem {T}.
Arguments op_set_bp {T}.
Arguments op_del_bp {T}.
Arguments op_on_interrupt {T}.
Arguments op_set_cpu {T}.
Arguments op_get_cpu {T}.

Record arch_info_t := ArchInfo {
  target_desc : option bytes;
  smp : Z;
  reg_num : Z
}.

Record gdbstub_private := GdbstubPrivate {
  conn : conn_t;
  regbuf : regbuf_t;
  thread_stop : bool;
  reader_running : bool;
  async_io_enable : bool;
  total_reg_bytes : Z
}.

Record world (T : Type) := World {
  w_priv : gdbstub_private;
  w_args : T;
  w_sent : list bytes;
  w_mallocs : list bool
}.
Arguments World {T}.
Arguments w_priv {T}.
Arguments w_args {T}.
Arguments w_sent {T}.
Arguments w_mallocs {T}.

Definition set_conn (c : conn_t) (p : gdbstub_private) : gdbstub_private :=
  GdbstubPrivate c (regbuf p) (thread_stop p) (reader_running p) (async_io_enable p) (total_reg_bytes p).
Definition set_regbuf (r : regbuf_t) (p : gdbstub_private) : gdbstub_private :=
  GdbstubPrivate (conn p) r (thread_stop p) (reader_running p) (async_io_enable p) (total_reg_bytes p).
Definition set_async_io (b : bool) (p : gdbstub_private) : gdbstub_private :=
  GdbstubPrivate (conn p) (regbuf p) (thread_stop p) (reader_running p) b (total_reg_bytes p).

Section World.
Context {T : Type}.
Implicit Types (w : world T).

Definition upd_priv (f : gdbstub_private -> gdbstub_private) w : world T :=
  World (f (w_priv w)) (w_args w) (w_sent w) (w_mallocs w).
Definition upd_args (a : T) w : world T := World (w_priv w) a (w_sent w) (w_mallocs w).
Definition add_sent (s : bytes) w : world T :=
  World (w_priv w) (w_args w) (w_sent w ++ [s]) (w_mallocs w).

(** The allocator's next answer, success when none is left; [malloc(n)]. *)
Definition malloc_ok : M (world T) bool := fun w =>
  match w_mallocs w with
  | [] => Ret (true, w)
  | ok :: l => Ret (ok, World (w_priv w) (w_args w) (w_sent w) l)
  end.
Definition malloc (n : Z) : M (world T) (option buf) :=
  ok ← malloc_ok; mret (if ok : bool then Some (uninit n) else None).

Definition conn_send_str (s : bytes) : M (world T) unit := modify (add_sent s).
Definition conn_send_pktstr (b : buf) (off : Z) : M (world T) unit :=
  s ← lift (packet_string b off); conn_send_str s.
(** Sending a string literal or a local string. *)
Definition send_string (s : bytes) : M (world T) unit := conn_send_pktstr (lit s) 0.
Definition SEND_EPERM : M (world T) unit := send_string (str "E01").
Definition SEND_EINVAL : M (world T) unit := send_string (str "E22").

(** Running a callback on the target state. *)
Definition call {A} (f : T -> outcome (A * T)) : M (world T) A := fun w =>
  match f (w_args w) with
  | Ret (a, t) => Ret (a, upd_args t w)
  | AssertFail => AssertFail
  | UB => UB
  | Hang => Hang
  end.

Definition get_priv : M (world T) gdbstub_private := gets w_priv.

(** [regbuf_get(&priv->regbuf, reg_sz)]: the buffer of the returned pointer. *)
Definition regbuf_get_m (reg_sz : Z) : M (world T) (option buf) :=
  p ← get_priv;
  ok ← (if reg_sz <=? rb_sz (regbuf p) then mret true else malloc_ok);
  r ← lift (regbuf_get (regbuf p) reg_sz ok);
  _ ← modify (upd_priv (set_regbuf r));
  mret (rb_buf r).
(** The register buffer after it was written to; there is none behind NULL. *)
Definition regbuf_put (b : buf) : M (world T) unit :=
  modify (upd_priv (fun p => set_regbuf (Regbuf ((fun _ => b) <$> rb_buf (regbuf p)) (rb_sz (regbuf p))) p)).

(** The area behind a pointer that may be NULL: NULL may be passed on, but like
    an area without bytes it does not survive any access. *)
Definition area (p : option buf) : buf := default [] p.

(** ** What a computation sends *)

(** What no packet handler changes: the failure counter, the descriptors, the
    thread flags and the cached register total. *)
Definition stable_priv (p p' : gdbstub_private) : Prop :=
  failure_count (conn p') = failure_count (conn p) /\
  listen_fd (conn p') = listen_fd (conn p) /\ socket_fd (conn p') = socket_fd (conn p) /\
  thread_stop p' = thread_stop p /\ reader_running p' = reader_running p /\
  total_reg_bytes p' = total_reg_bytes p.
#[export] Instance stable_priv_preorder : PreOrder stable_priv.
Proof. unfold stable_priv. split; [by intros p|]. intros ???. intuition congruence. Qed.

(** [emits m R]: whenever [m] returns [a], the strings it sent are some [l] with
    [R a l], and the above is unchanged. *)
Definition emits {A} (m : M (world T) A) (R : A -> list bytes -> Prop) : Prop :=
  forall w a w', m w = Ret (a, w') ->
    (exists l, w_sent w' = w_sent w ++ l /\ R a l) /\ stable_priv (w_priv w) (w_priv w').
Definition silent {A} (m : M (world T) A) : Prop := emits m (fun _ l => l = []).
Definition is_reply (l : list bytes) : Prop := exists s, sendable s /\ l = [frame s].
Definition replies {A} (m : M (world T) A) : Prop := emits m (fun _ l => is_reply l).
(** A command is answered by one packet, unless it starts the target: then the
    answer is the stop reply that follows. *)
Definition answers (m : M (world T) gdb_event_t) : Prop :=
  emits m (fun ev l => match ev with
                       | EVENT_NONE | EVENT_DETACH => is_reply l
                       | EVENT_CONT | EVENT_STEP => l = []
                       end).

(** *** Lemmas *)
Lemma emits_mono {A} (m : M (world T) A) (R R' : A -> list bytes -> Prop) :
  emits m R -> (forall a l, R a l -> R' a l) -> emits m R'.
Proof. intros H HR w a w' E. destruct (H w a w' E) as ((l & ? & ?) & ?). eauto. Qed.

Lemma emits_bind {A B} (m : M (world T) A) (f : A -> M (world T) B) R :
  silent m -> (forall a, emits (f a) R) -> emits (m ≫= f) R.
Proof.
  intros Hm Hf w b w' E. minv E. destruct (Hm _ _ _ Hm0) as ((l & Hs & ->) & St).
  destruct (Hf _ _ _ _ Hk) as ((l' & Hs' & HR) & St'). split; [|by etrans].
  exists l'. split; [|done]. by rewrite Hs', Hs, app_nil_r.
Qed.

Lemma replies_bind {A B} (m : M (world T) A) (f : A -> M (world T) B) :
  silent m -> (forall a, replies (f a)) -> replies (m ≫= f).
Proof. apply emits_bind. Qed.

Lemma emits_ret {A} (a : A) (R : A -> list bytes -> Prop) : R a [] -> emits (mret a) R.
Proof.
  intros H w a' w' E. unfold mret, M_ret in E. simplify_eq. split; [|done].
  exists []. by rewrite app_nil_r.
Qed.

Lemma replies_ret {A B} (m : M (world T) A) (b : B) (R : B -> list bytes -> Prop) :
  replies m -> (forall l, is_reply l -> R b l) -> emits (m ≫= fun _ => mret b) R.
Proof.
  intros Hm Hf w b' w' E. minv E. destruct (Hm _ _ _ Hm0) as ((l & Hs & Hl) & St).
  unfold mret, M_ret in Hk. simplify_eq. split; [|done]. exists l. auto.
Qed.

Lemma silent_ret {A} (a : A) : silent (mret a).
Proof. by apply emits_ret. Qed.
Lemma silent_lift {A} (o : outcome A) : silent (lift o).
Proof. intros w a w' [_ ->]%lift_inv. split; [|done]. exists []. by rewrite app_nil_r. Qed.
Lemma silent_gets {A} (f : world T -> A) : silent (gets f).
Proof. intros w a w' E. unfold gets in E. simplify_eq. split; [|done]. exists []. by rewrite app_nil_r. Qed.
Lemma silent_upd_priv f : (forall p, stable_priv p (f p)) -> silent (modify (upd_priv f)).
Proof.
  intros Hf w a w' E. unfold modify in E. simplify_eq. split; [|apply Hf].
  exists []. by rewrite app_nil_r.
Qed.
Lemma silent_malloc_ok : silent malloc_ok.
Proof.
  intros w a w' E. unfold malloc_ok in E.
  destruct (w_mallocs w); simplify_eq; (split; [exists []; by rewrite app_nil_r|done]).
Qed.
Lemma silent_call {A} (f : T -> outcome (A * T)) : silent (call f).
Proof.
  intros w a w' E. unfold call in E.
  destruct (f (w_args w)) as [[? ?]| | |]; simplify_eq/=. split; [|done].
  exists []. by rewrite app_nil_r.
Qed.
Lemma silent_bind {A B} (m : M (world T) A) (f : A -> M (world T) B) :
  silent m -> (forall a, silent (f a)) -> silent (m ≫= f).
Proof. apply emits_bind. Qed.

Lemma replies_send b off : replies (conn_send_pktstr b off).
Proof.
  intros w a w' E. unfold conn_send_pktstr in E. minv E. apply lift_inv in Hm as [Hm ->].
  apply packet_string_inv in Hm as (s & -> & Hs & _). unfold conn_send_str, modify in Hk. simplify_eq.
  split; [|done]. exists [frame s]. split; [done|]. by exists s.
Qed.
Lemma replies_string s : replies (send_string s).
Proof. apply replies_send. Qed.

(** [m] answers when it replies and stays with no event. *)
Lemma answers_none {A} (m : M (world T) A) : replies m -> answers (m ≫= fun _ => mret EVENT_NONE).
Proof. intros H. by apply replies_ret. Qed.

(** Sending a string that fits, forwards. *)
Lemma send_pktstr_ok b off s w :
  cstr_at b off s -> sendable s -> conn_send_pktstr b off w = Ret (tt, add_sent (frame s) w).
Proof.
  intros Hat Hs. unfold conn_send_pktstr. rewrite (packet_string_ok _ _ _ Hat Hs). done.
Qed.
Lemma send_string_ok s w : sendable s -> send_string s w = Ret (tt, add_sent (frame s) w).
Proof. intros Hs. apply send_pktstr_ok; [|done]. apply lit_at. apply Hs. Qed.

(** *** The buffers, forwards *)

(** The world with another register buffer and target state. *)
Definition with_reg (r : regbuf_t) (t : T) w : world T := upd_args t (upd_priv (set_regbuf r) w).

Lemma upd_args_id w : upd_args (w_args w) w = w.
Proof. by destruct w. Qed.

Lemma with_reg_id w : with_reg (regbuf (w_priv w)) (w_args w) w = w.
Proof. by destruct w as [[] ? ? ?]. Qed.
Lemma with_reg_twice r t r' t' w : with_reg r t (with_reg r' t' w) = with_reg r t w.
Proof. done. Qed.

Lemma malloc_ok_nil w : w_mallocs w = [] -> malloc_ok w = Ret (true, w).
Proof. intros H. unfold malloc_ok. by rewrite H. Qed.
Lemma malloc_nil n w : w_mallocs w = [] -> malloc n w = Ret (Some (uninit n), w).
Proof. intros H. unfold malloc. by rewrite (M_bind_eq _ _ _ _ _ (malloc_ok_nil w H)). Qed.

(** With memory left, the register buffer is there and large enough. *)
Lemma regbuf_get_m_ok sz w :
  w_mallocs w = [] -> regbuf_wf (regbuf (w_priv w)) -> 0 <= sz <= 2 ^ 63 ->
  exists r b, regbuf_get_m sz w = Ret (Some b, with_reg r (w_args w) w) /\
    regbuf_wf r /\ rb_buf r = Some b /\ sz <= blen b.
Proof.
  intros Hm Hwf Hsz. destruct (regbuf_get_ok _ _ Hwf Hsz) as (r & E & Hr & Hle).
  destruct Hr as (Hk & b & Hb & Hbl). exists r, b. split; [|split_and!; [by split; [|exists b]|done|lia]].
  unfold regbuf_get_m. mstep.
  assert (Ea : (if sz <=? rb_sz (regbuf (w_priv w)) then mret true else malloc_ok) w = Ret (true, w)).
  { destruct (_ <=? _); [done|by apply malloc_ok_nil]. }
  rewrite (M_bind_eq _ _ _ _ _ Ea). rewrite E. mstep. mstep. rewrite Hb. by destruct w.
Qed.

(** Filling the register buffer keeps it well formed. *)
Lemma regbuf_wf_filled r b b' :
  regbuf_wf r -> rb_buf r = Some b -> blen b' = blen b -> regbuf_wf (Regbuf (Some b') (rb_sz r)).
Proof.
  intros (Hk & b0 & Hb & Hbl) E Hl. split; [done|]. exists b'. simpl. split; [done|]. congruence.
Qed.

Lemma regbuf_put_ok r b b' t w :
  rb_buf r = Some b -> regbuf_put b' (with_reg r t w) = Ret (tt, with_reg (Regbuf (Some b') (rb_sz r)) t w).
Proof. intros Hb. unfold regbuf_put, modify, with_reg, upd_args, upd_priv. cbn. by rewrite Hb. Qed.

Lemma silent_regbuf_put b : silent (regbuf_put b).
Proof. by apply silent_upd_priv. Qed.
Lemma silent_get_priv : silent get_priv.
Proof. apply silent_gets. Qed.

Lemma silent_malloc n : silent (malloc n).
Proof. apply silent_bind; [apply silent_malloc_ok|]. intros. apply silent_ret. Qed.

Lemma silent_regbuf_get sz : silent (regbuf_get_m sz).
Proof.
  unfold regbuf_get_m. apply silent_bind; [apply silent_gets|]. intros p.
  apply silent_bind.
  - destruct (_ <=? _); [apply silent_ret|apply silent_malloc_ok].
  - intros ok. apply silent_bind; [apply silent_lift|]. intros r.
    apply silent_bind; [by apply silent_upd_priv|]. intros. apply silent_ret.
Qed.
End World.

#[export] Hint Resolve silent_ret silent_lift silent_gets silent_malloc silent_call
  silent_malloc_ok silent_regbuf_put silent_get_priv silent_regbuf_get replies_send replies_string : stub.
#[export] Hint Extern 1 (silent (modify (upd_priv _))) =>
  apply silent_upd_priv; intros; repeat split; reflexivity : stub.
#[export] Hint Unfold SEND_EPERM SEND_EINVAL : stub.

(** Walks through a computation, leaving what is not known to be silent. *)
Ltac emits_auto :=
  repeat first
    [ solve [eauto 3 with stub]
    | progress intros
    | apply silent_bind | apply replies_bind
    | match goal with |- context [match ?x with _ => _ end] => destruct x end ].

(** Splits on the tests a computation starts with, forgetting their outcome. *)
Ltac split_ifs := repeat match goal with |- _ (if ?b then _ else _) => destruct b end.

(** A literal reply fits the send buffer. *)
Ltac sendable_lit := split; [vdecide|vm_compute; discriminate].
