(* ===== verification/RegHandlers.v ===== *)
(** * src/gdbstub.c: register packets [g], [p], [G], [P] *)

From S2P Require Import Prelude CMem CFormat Translate Packet RegBuf Conn Target.

Section RegHandlers.
Context {T : Type} (ops : target_ops T) (arch : arch_info_t).

(** ["E%d"] *)
Definition err_string (ret : Z) : bytes := str "E" ++ fmt_d ret.

Definition get_reg_bytes (regno : Z) : M (world T) Z :=
  f ← lift (deref (op_get_reg_bytes ops)); mret (f regno).

(** [ops->read_reg(args, regno, value)] into the register buffer [value]:
    the returned code and the buffer afterwards. *)
Definition read_reg_into (regno : Z) (value : buf) (off : Z) : M (world T) (Z * buf) :=
  f ← lift (deref (op_read_reg ops));
  '(ret, written) ← call (fun t => '(r, bs, t) ← f t regno; Ret ((r, bs), t));
  value ← lift (bstore value off written);
  mret (ret, value).

Definition write_reg_from (regno : Z) (data : buf) (off : Z) : M (world T) Z :=
  f ← lift (deref (op_write_reg ops));
  call (fun t => f t regno (drop (Z.to_nat off) data)).

(** *** [g] *)

(** The loop over the registers, from register [i]; [n] are left. *)
Fixpoint reg_read_loop (n : nat) (i : Z) (packet_str : buf) : M (world T) buf :=
  match n with
  | O => mret packet_str
  | S n =>
      reg_sz ← get_reg_bytes i;
      p ← regbuf_get_m reg_sz;
      '(ret, reg_value) ← read_reg_into i (area p) 0;
      _ ← regbuf_put reg_value;
      if ret =? 0 then
        packet_str ← lift (hex_to_str reg_value 0 packet_str (u64 (i * reg_sz * 2)) (s32 reg_sz));
        reg_read_loop n (i + 1) packet_str
      else lift (sprintf packet_str 0 (err_string ret))
  end.

Definition process_reg_read : M (world T) unit :=
  packet_str ← reg_read_loop (Z.to_nat (reg_num arch)) 0 (uninit MAX_SEND_PACKET_SIZE);
  conn_send_pktstr packet_str 0.

(** *** [p] *)
Definition process_reg_read_one (data : buf) (payload : Z) : M (world T) unit :=
  s ← lift (cstr data payload);
  vs ← lift (sscanf [FHex32] s);
  _ ← lift (cassert (Z.of_nat (length vs) =? 1));
  regno ← lift (deref (vs !! 0%nat));
  reg_sz ← get_reg_bytes regno;
  p ← regbuf_get_m reg_sz;
  '(ret, reg_value) ← read_reg_into regno (area p) 0;
  _ ← regbuf_put reg_value;
  packet_str ← lift (if ret =? 0
    then hex_to_str reg_value 0 (uninit MAX_SEND_PACKET_SIZE) 0 (s32 reg_sz)
    else sprintf (uninit MAX_SEND_PACKET_SIZE) 0 (err_string ret));
  conn_send_pktstr packet_str 0.

(** *** [G] *)

(** The first loop: parse all new values, read all old ones. A failing read
    gives its code. *)
Fixpoint reg_parse_loop (n : nat) (i : Z) (data : buf) (payload : Z)
    (payload_offset storage_offset : Z) (new_values backup_values : buf)
  : M (world T) (Z + buf * buf) :=
  match n with
  | O => mret (inr (new_values, backup_values))
  | S n =>
      reg_sz ← get_reg_bytes i;
      new_values ← lift (str_to_hex data (payload + payload_offset) new_values storage_offset (s32 reg_sz));
      '(ret, backup_values) ← read_reg_into i backup_values storage_offset;
      if ret =? 0 then
        reg_parse_loop n (i + 1) data payload (u64 (payload_offset + reg_sz * 2))
          (u64 (storage_offset + reg_sz)) new_values backup_values
      else mret (inl ret)
  end.

(** The second loop: [None], or the register that failed and its code. *)
Fixpoint reg_commit_loop (n : nat) (i : Z) (storage_offset : Z) (new_values : buf)
  : M (world T) (option (Z * Z)) :=
  match n with
  | O => mret None
  | S n =>
      reg_sz ← get_reg_bytes i;
      ret ← write_reg_from i new_values storage_offset;
      if ret =? 0 then reg_commit_loop n (i + 1) (u64 (storage_offset + reg_sz)) new_values
      else mret (Some (i, ret))
  end.

(** The third loop: write the old values back, codes ignored. *)
Fixpoint reg_rollback_loop (n : nat) (i : Z) (storage_offset : Z) (backup_values : buf)
  : M (world T) unit :=
  match n with
  | O => mret tt
  | S n =>
      reg_sz ← get_reg_bytes i;
      _ ← write_reg_from i backup_values storage_offset;
      reg_rollback_loop n (i + 1) (u64 (storage_offset + reg_sz)) backup_values
  end.

Definition process_reg_write (data : buf) (payload : Z) : M (world T) unit :=
  p ← get_priv;
  let total := total_reg_bytes p in
  let expected_hex_len := u64 (total * 2) in
  if total =? 0 then send_string (str "OK")
  else
    payload_len ← lift (strlen data payload);
    if negb (payload_len =? expected_hex_len) then send_string (str "E22")
    else
      new_values ← malloc total;
      backup_values ← malloc total;
      match new_values, backup_values with
      | Some new_values, Some backup_values =>
          r ← reg_parse_loop (Z.to_nat (reg_num arch)) 0 data payload 0 0 new_values backup_values;
          match r with
          | inl ret =>
              packet_str ← lift (sprintf (uninit 16) 0 (err_string ret));
              conn_send_pktstr packet_str 0
          | inr (new_values, backup_values) =>
              failed ← reg_commit_loop (Z.to_nat (reg_num arch)) 0 0 new_values;
              match failed with
              | Some (failed_regno, error_code) =>
                  _ ← reg_rollback_loop (Z.to_nat failed_regno) 0 0 backup_values;
                  packet_str ← lift (sprintf (uninit 16) 0 (err_string error_code));
                  conn_send_pktstr packet_str 0
              | None => send_string (str "OK")
              end
          end
      | _, _ => send_string (str "E12")
      end.

(** *** [P] *)
Definition process_reg_write_one (data : buf) (payload : Z) : M (world T) unit :=
  '(data, data_str) ← lift (split_args data payload 61);
  s ← lift (cstr data payload);
  vs ← lift (sscanf [FHex32] s);
  _ ← lift (cassert (Z.of_nat (length vs) =? 1));
  regno ← lift (deref (vs !! 0%nat));
  reg_sz ← get_reg_bytes regno;
  p ← regbuf_get_m reg_sz;
  data_str ← lift (deref data_str);
  len ← lift (strlen data data_str);
  _ ← lift (cassert (len =? u64 (reg_sz * 2)));
  value ← lift (str_to_hex data data_str (area p) 0 (s32 reg_sz));
  _ ← regbuf_put value;
  ret ← write_reg_from regno value 0;
  if ret =? 0 then send_string (str "OK")
  else
    packet_str ← lift (sprintf (uninit MAX_SEND_PACKET_SIZE) 0 (err_string ret));
    conn_send_pktstr packet_str 0.

(** Reporting a failed callback, from a buffer of at least 16 bytes. *)
Lemma sendable_err ret : -2147483648 <= ret < 2147483648 -> sendable (err_string ret).
Proof.
  intros Hr. destruct (fmt_d_int ret Hr) as [Hl H0]. unfold err_string. split.
  - apply Forall_app. split; [vdecide|done].
  - rewrite length_app. unfold MAX_DATA_PAYLOAD, MAX_SEND_PACKET_SIZE, CSUM_SIZE. simpl. lia.
Qed.

Lemma send_err ret k (w : world T) :
  -2147483648 <= ret < 2147483648 -> 16 <= k ->
  (packet_str ← lift (sprintf (uninit k) 0 (err_string ret)); conn_send_pktstr packet_str 0) w
  = Ret (tt, add_sent (frame (err_string ret)) w).
Proof.
  intros Hr Hk. pose proof (sendable_err ret Hr) as Hs. destruct (fmt_d_int ret Hr) as [Hl _].
  destruct (sprintf_ok (uninit k) 0 (err_string ret)) as (b & E); [done| |].
  { rewrite blen_uninit by lia. unfold err_string. rewrite length_app. simpl. lia. }
  erewrite M_bind_eq; [|rewrite E; reflexivity].
  apply send_pktstr_ok; [|done]. eapply sprintf_spec; [exact E|apply Hs].
Qed.

(** ** Every register packet gets exactly one reply *)

Lemma silent_get_reg_bytes regno : silent (get_reg_bytes regno).
Proof. unfold get_reg_bytes. emits_auto. Qed.
Lemma silent_read_reg regno value off : silent (read_reg_into regno value off).
Proof. unfold read_reg_into. emits_auto. Qed.
Lemma silent_write_reg regno data off : silent (write_reg_from regno data off).
Proof. unfold write_reg_from. emits_auto. Qed.
#[local] Hint Resolve silent_get_reg_bytes silent_read_reg silent_write_reg : stub.

Lemma silent_reg_read_loop n : forall i b, silent (reg_read_loop n i b).
Proof. induction n; simpl; emits_auto. Qed.
Lemma silent_reg_parse_loop n : forall i d p po so nv bv, silent (reg_parse_loop n i d p po so nv bv).
Proof. induction n; simpl; emits_auto. Qed.
Lemma silent_reg_commit_loop n : forall i so nv, silent (reg_commit_loop n i so nv).
Proof. induction n; simpl; emits_auto. Qed.
Lemma silent_reg_rollback_loop n : forall i so nv, silent (reg_rollback_loop n i so nv).
Proof. induction n; simpl; emits_auto. Qed.
#[local] Hint Resolve silent_reg_read_loop silent_reg_parse_loop silent_reg_commit_loop
  silent_reg_rollback_loop : stub.

Lemma replies_reg_read : replies process_reg_read.
Proof. unfold process_reg_read. emits_auto. Qed.
Lemma replies_reg_read_one d p : replies (process_reg_read_one d p).
Proof. unfold process_reg_read_one. emits_auto. Qed.
Lemma replies_reg_write d p : replies (process_reg_write d p).
Proof. unfold process_reg_write. emits_auto. Qed.
Lemma replies_reg_write_one d p : replies (process_reg_write_one d p).
Proof. unfold process_reg_write_one. emits_auto. Qed.
End RegHandlers.

#[export] Hint Resolve replies_reg_read replies_reg_read_one replies_reg_write replies_reg_write_one : stub.
