(* ===== verification/MemHandlers.v ===== *)
(** * src/gdbstub.c: memory packets [m], [M], [X] and breakpoints [z], [Z] *)

From S2P Require Import Prelude CMem CFormat Translate Packet RegBuf Conn Target RegHandlers.

Section MemHandlers.
Context {T : Type} (ops : target_ops T).

(** [sscanf(payload, "%lx,%lx", &maddr, &mlen) == 2], asserted. *)
Definition scan_addr_len (data : buf) (payload : Z) : outcome (Z * Z) :=
  s ← cstr data payload;
  vs ← sscanf [FHex64; FChar 44; FHex64] s;
  match vs with
  | [maddr; mlen] => Ret (maddr, mlen)
  | _ => AssertFail
  end.

(** *** [m] *)
Definition process_mem_read (data : buf) (payload : Z) : M (world T) unit :=
  '(maddr, mlen) ← lift (scan_addr_len data payload);
  mval ← malloc mlen;
  f ← lift (deref (op_read_mem ops));
  '(ret, written) ← call (fun t => '(r, bs, t) ← f t maddr mlen; Ret ((r, bs), t));
  mval ← lift (bstore (area mval) 0 written);
  packet_str ← lift (if ret =? 0
    then hex_to_str mval 0 (uninit MAX_SEND_PACKET_SIZE) 0 (s32 mlen)
    else sprintf (uninit MAX_SEND_PACKET_SIZE) 0 (err_string ret));
  conn_send_pktstr packet_str 0.

(** *** [M] *)
Definition process_mem_write (data : buf) (payload : Z) : M (world T) unit :=
  '(data, content) ← lift (split_args data payload 58);
  '(maddr, mlen) ← lift (scan_addr_len data payload);
  mval ← malloc mlen;
  (* a NULL [content] is only dereferenced when there is a byte to convert *)
  content ← lift (if s32 mlen <=? 0 then Ret (default 0 content) else deref content);
  mval ← lift (str_to_hex data content (area mval) 0 (s32 mlen));
  f ← lift (deref (op_write_mem ops));
  ret ← call (fun t => f t maddr mlen mval);
  if ret =? 0 then send_string (str "OK")
  else
    packet_str ← lift (sprintf (uninit MAX_SEND_PACKET_SIZE) 0 (err_string ret));
    conn_send_pktstr packet_str 0.

(** *** [X] *)
Definition process_mem_xwrite (data : buf) (payload packet_end : Z) : M (world T) unit :=
  '(data, content) ← lift (split_args data payload 58);
  '(maddr, mlen) ← lift (scan_addr_len data payload);
  content ← lift (deref content);
  '(data, n) ← lift (unescape data content packet_end);
  _ ← lift (cassert (s32 n =? s32 mlen));
  f ← lift (deref (op_write_mem ops));
  _ ← call (fun t => f t maddr mlen (drop (Z.to_nat content) data));
  send_string (str "OK").

(** *** [z] and [Z] *)

(** [sscanf(payload, "%zx,%zx,%zx", &type, &addr, &kind) == 3], asserted. *)
Definition scan_bp (data : buf) (payload : Z) : outcome (Z * Z * Z) :=
  s ← cstr data payload;
  vs ← sscanf [FHex64; FChar 44; FHex64; FChar 44; FHex64] s;
  match vs with
  | [ty; addr; kind] => Ret (ty, addr, kind)
  | _ => AssertFail
  end.

(** The [size_t] type is converted to the (unsigned) enumeration. *)
Definition process_del_break_points (data : buf) (payload : Z) : M (world T) unit :=
  '(ty, addr, kind) ← lift (scan_bp data payload);
  f ← lift (deref (op_del_bp ops));
  ret ← call (fun t => f t addr (u32 ty));
  if ret : bool then send_string (str "OK") else SEND_EINVAL.

Definition process_set_break_points (data : buf) (payload : Z) : M (world T) unit :=
  '(ty, addr, kind) ← lift (scan_bp data payload);
  f ← lift (deref (op_set_bp ops));
  ret ← call (fun t => f t addr (u32 ty));
  if ret : bool then send_string (str "OK") else SEND_EINVAL.

(** ** Every memory or breakpoint packet gets exactly one reply *)
Lemma replies_mem_read d p : replies (process_mem_read d p).
Proof. unfold process_mem_read. emits_auto. Qed.
Lemma replies_mem_write d p : replies (process_mem_write d p).
Proof. unfold process_mem_write. emits_auto. Qed.
Lemma replies_mem_xwrite d p e : replies (process_mem_xwrite d p e).
Proof. unfold process_mem_xwrite. emits_auto. Qed.
Lemma replies_del_bp d p : replies (process_del_break_points d p).
Proof. unfold process_del_break_points. emits_auto. Qed.
Lemma replies_set_bp d p : replies (process_set_break_points d p).
Proof. unfold process_set_break_points. emits_auto. Qed.
End MemHandlers.

#[export] Hint Resolve replies_mem_read replies_mem_write replies_mem_xwrite replies_del_bp
  replies_set_bp : stub.
