(* ===== verification/QueryHandlers.v ===== *)
(** * src/gdbstub.c: queries, settings, [v] packets, resumption and threads *)

From S2P Require Import Prelude CMem CFormat Translate Packet RegBuf Conn Target.

(** The target descriptions of include/gdbstub.h. *)
Definition quoted (s : bytes) : bytes := [34] ++ s ++ [34].
Definition target_xml (arch_name : bytes) : bytes :=
  str "<target version=" ++ quoted (str "1.0") ++ str "><architecture>" ++ arch_name
    ++ str "</architecture></target>".
Definition TARGET_RV32 : bytes := target_xml (str "riscv:rv32").
Definition TARGET_RV64 : bytes := target_xml (str "riscv:rv64").
Definition TARGET_X86_64 : bytes := target_xml (str "i386:x86-64").

Section QueryHandlers.
Context {T : Type} (ops : target_ops T) (arch : arch_info_t).

(** *** [c], [s] *)
Definition process_cont : M (world T) gdb_event_t :=
  match op_cont ops with
  | Some _ => mret EVENT_CONT
  | None => _ ← SEND_EPERM; mret EVENT_NONE
  end.
Definition process_stepi : M (world T) gdb_event_t :=
  match op_stepi ops with
  | Some _ => mret EVENT_STEP
  | None => _ ← SEND_EPERM; mret EVENT_NONE
  end.

(** *** [qXfer] *)

(** [desc + offset] as a string: the offset has to stay inside the string. *)
Definition desc_from (desc : bytes) (offset : Z) : outcome bytes :=
  if (0 <=? offset) && (offset <=? Z.of_nat (length desc))
  then Ret (drop (Z.to_nat offset) desc) else UB.

(** The reply to a read of [length] bytes at [offset]. *)
Definition xfer_chunk (desc : bytes) (offset len : Z) : outcome buf :=
  let total_len := Z.of_nat (length desc) in
  let payload_length := if len <? MAX_DATA_PAYLOAD then len else MAX_DATA_PAYLOAD in
  b ← bput (uninit MAX_SEND_PACKET_SIZE) 0 (if total_len - offset <? payload_length then 108 else 109);
  s ← desc_from desc offset;
  snprintf b 1 (u64 payload_length) s.

(** [args] is where [s] was split; [strtok] runs on the string it points to. *)
Definition process_xfer (data : buf) (s : Z) : M (world T) unit :=
  '(data, args) ← lift (split_args data s 58);
  name ← lift (cstr data s);
  match target_desc arch with
  | Some desc =>
      if streq name (str "features") then
        args ← lift (deref args);
        rest ← lift (cstr data args);
        let '(action, rest) := strtok 58 rest in
        action ← lift (deref action);
        _ ← lift (cassert (streq action (str "read")));
        let '(annex, rest) := strtok 58 rest in
        annex ← lift (deref annex);
        _ ← lift (cassert (streq annex (str "target.xml")));
        let '(range, _) := strtok 58 rest in
        range ← lift (deref range);
        vs ← lift (sscanf [FHex32; FChar 44; FHex32] range);
        let offset := default 0 (vs !! 0%nat) in
        let len := default 0 (vs !! 1%nat) in
        b ← lift (xfer_chunk desc offset len);
        conn_send_pktstr b 0
      else send_string []
  | None => send_string []
  end.

(** *** [q] *)

(** The loop of [qfThreadInfo]: [n] CPUs left, [cpuid] next, [ptr] the write
    position. *)
Fixpoint thread_info_loop (n : nat) (cpuid : Z) (packet_str : buf) (ptr : Z) : outcome (buf * Z) :=
  match n with
  | O => Ret (packet_str, ptr)
  | S n =>
      cpuid_str ← sprintf (uninit 6) 0 (fmt_04d cpuid ++ [44]);
      c ← bslice cpuid_str 0 5;
      packet_str ← bwrite packet_str ptr c;
      thread_info_loop n (cpuid + 1) packet_str (ptr + 5)
  end.

Definition process_query (data : buf) (payload : Z) : M (world T) unit :=
  '(data, qargs) ← lift (split_args data payload 58);
  name ← lift (cstr data payload);
  if streq name (str "C") then
    match op_get_cpu ops with
    | Some f =>
        cpuid ← call f;
        packet_str ← lift (sprintf (uninit MAX_SEND_PACKET_SIZE) 0 (str "QC" ++ fmt_04d cpuid));
        conn_send_pktstr packet_str 0
    | None => send_string []
    end
  else if streq name (str "Supported") then
    match target_desc arch with
    | Some _ => send_string (str "PacketSize=1024;qXfer:features:read+;QStartNoAckMode+")
    | None => send_string (str "PacketSize=1024;QStartNoAckMode+")
    end
  else if streq name (str "Attached") then send_string (str "1")
  else if streq name (str "Xfer") then
    qargs ← lift (deref qargs); process_xfer data qargs
  else if streq name (str "Symbol") then send_string (str "OK")
  else if streq name (str "fThreadInfo") then
    let n := if smp arch =? 0 then 1 else smp arch in
    _ ← lift (cassert (n <? 10000));
    packet_str ← lift (bput (uninit MAX_SEND_PACKET_SIZE) 0 109);
    '(packet_str, ptr) ← lift (thread_info_loop (Z.to_nat n) 0 packet_str 1);
    packet_str ← lift (bput packet_str ptr 0);
    conn_send_pktstr packet_str 0
  else if streq name (str "sThreadInfo") then send_string (str "l")
  else send_string [].

(** *** [Q] *)
Definition process_general_set (data : buf) (payload : Z) : M (world T) unit :=
  '(data, qargs) ← lift (split_args data payload 58);
  name ← lift (cstr data payload);
  if streq name (str "StartNoAckMode") then
    _ ← modify (upd_priv (fun p => set_conn (set_no_ack (conn p) true) p));
    send_string (str "OK")
  else send_string [].

(** *** [v] *)
Definition process_vcont (data : buf) (args : option Z) : M (world T) gdb_event_t :=
  args ← lift (deref args);
  c ← lift (bget data args);
  if c =? 99 then process_cont
  else if c =? 115 then process_stepi
  else _ ← SEND_EPERM; mret EVENT_NONE.

Definition process_vcont_support : M (world T) unit :=
  let str_s := match op_stepi ops with None => [] | Some _ => str "s;" end in
  let str_c := match op_cont ops with None => [] | Some _ => str "c;" end in
  packet_str ← lift (sprintf (uninit MAX_SEND_PACKET_SIZE) 0 (str "vCont;" ++ str_s ++ str_c));
  conn_send_pktstr packet_str 0.

Definition process_vpacket (data : buf) (payload : Z) : M (world T) gdb_event_t :=
  '(data, args) ← lift (split_args data payload 59);
  name ← lift (cstr data payload);
  if streq name (str "Cont") then process_vcont data args
  else if streq name (str "Cont?") then _ ← process_vcont_support; mret EVENT_NONE
  else _ ← send_string []; mret EVENT_NONE.

(** *** [H] *)
Definition process_set_cpu (data : buf) (payload : Z) : M (world T) unit :=
  c ← lift (bget data payload);
  _ ← (if c =? 103 then
         s ← lift (cstr data payload);
         vs ← lift (sscanf [FChar 103; FInt] s);
         _ ← lift (cassert (Z.of_nat (length vs) =? 1));
         cpuid ← lift (deref (vs !! 0%nat));
         f ← lift (deref (op_set_cpu ops));
         call (fun t => t' ← f t cpuid; Ret (tt, t'))
       else mret tt);
  send_string (str "OK").

(** ** What they send *)
Lemma replies_xfer d s : replies (process_xfer d s).
Proof. unfold process_xfer. emits_auto. Qed.
#[local] Hint Resolve replies_xfer : stub.
Lemma replies_query d p : replies (process_query d p).
Proof. unfold process_query. emits_auto. Qed.
Lemma replies_general_set d p : replies (process_general_set d p).
Proof. unfold process_general_set. emits_auto. Qed.
Lemma replies_vcont_support : replies process_vcont_support.
Proof. unfold process_vcont_support. emits_auto. Qed.
Lemma replies_set_cpu d p : replies (process_set_cpu d p).
Proof. unfold process_set_cpu. emits_auto. Qed.

Lemma answers_bind {A} (m : M (world T) A) (f : A -> M (world T) gdb_event_t) :
  silent m -> (forall a, answers (f a)) -> answers (m ≫= f).
Proof. apply emits_bind. Qed.
Lemma answers_ret ev : ev = EVENT_CONT \/ ev = EVENT_STEP -> answers (mret ev : M (world T) _).
Proof. intros H. apply emits_ret. destruct H; by subst. Qed.

Lemma answers_cont : answers process_cont.
Proof.
  unfold process_cont. destruct (op_cont ops); [apply answers_ret; by left|apply answers_none, replies_string].
Qed.
Lemma answers_stepi : answers process_stepi.
Proof.
  unfold process_stepi. destruct (op_stepi ops); [apply answers_ret; by right|apply answers_none, replies_string].
Qed.
Lemma answers_vpacket d p : answers (process_vpacket d p).
Proof.
  unfold process_vpacket. apply answers_bind; [auto with stub|]. intros [d' args].
  apply answers_bind; [auto with stub|]. intros name. destruct (streq name (str "Cont")).
  - unfold process_vcont. apply answers_bind; [auto with stub|]. intros a.
    apply answers_bind; [auto with stub|]. intros c.
    split_ifs; [apply answers_cont|apply answers_stepi|apply answers_none, replies_string].
  - split_ifs; apply answers_none; [apply replies_vcont_support|apply replies_string].
Qed.
End QueryHandlers.

#[export] Hint Resolve replies_query replies_general_set replies_vcont_support replies_set_cpu
  answers_cont answers_stepi answers_vpacket : stub.
