(* ===== verification/Stub.v ===== *)
(** * src/gdbstub.c: dispatch, events and the main loop of [gdbstub_run] *)

From S2P Require Import Prelude CMem CFormat Translate Packet PktQueue RegBuf Conn Target RegHandlers MemHandlers QueryHandlers.

Definition GDB_SIGNAL_TRAP : Z := 5.
Definition CONN_MAX_FAILURES : Z := 50.

Definition packet_csum_verify (inpkt : packet_t) : outcome bool :=
  csum_rslt ← compute_checksum (pkt_data inpkt) 1 (pkt_end_pos inpkt - CSUM_SIZE - 1);
  csum_expected ← str_to_hex (pkt_data inpkt) (pkt_end_pos inpkt - CSUM_SIZE + 1) (uninit 1) 0 1;
  e ← bget csum_expected 0;
  Ret (csum_rslt =? e).

Section Stub.
Context {T : Type} (ops : target_ops T) (arch : arch_info_t).

(** [if (ops->f != NULL) handler else SEND_EPERM], with no event. *)
Definition guarded {A} (op : option A) (handler : M (world T) unit) : M (world T) gdb_event_t :=
  _ ← match op with Some _ => handler | None => SEND_EPERM end; mret EVENT_NONE.
Definition no_event (handler : M (world T) unit) : M (world T) gdb_event_t :=
  _ ← handler; mret EVENT_NONE.

(** The [switch (request)]. *)
Definition dispatch (request : Z) (data : buf) (payload packet_end : Z) : M (world T) gdb_event_t :=
  if request =? chr "c" then process_cont ops
  else if request =? chr "g" then guarded (op_read_reg ops) (process_reg_read ops arch)
  else if request =? chr "m" then guarded (op_read_mem ops) (process_mem_read ops data payload)
  else if request =? chr "p" then guarded (op_read_reg ops) (process_reg_read_one ops data payload)
  else if request =? chr "q" then no_event (process_query ops arch data payload)
  else if request =? chr "Q" then no_event (process_general_set data payload)
  else if request =? chr "s" then process_stepi ops
  else if request =? chr "v" then process_vpacket ops data payload
  else if request =? chr "z" then guarded (op_del_bp ops) (process_del_break_points ops data payload)
  else if request =? chr "?" then no_event (send_string (str "S05"))
  else if request =? chr "D" then _ ← send_string (str "OK"); mret EVENT_DETACH
  else if request =? chr "G" then guarded (op_write_reg ops) (process_reg_write ops arch data payload)
  else if request =? chr "H" then guarded (op_set_cpu ops) (process_set_cpu ops data payload)
  else if request =? chr "M" then guarded (op_write_mem ops) (process_mem_write ops data payload)
  else if request =? chr "P" then guarded (op_write_reg ops) (process_reg_write_one ops data payload)
  else if request =? chr "T" then no_event (send_string (str "OK"))
  else if request =? chr "X" then guarded (op_write_mem ops) (process_mem_xwrite ops data payload packet_end)
  else if request =? chr "Z" then guarded (op_set_bp ops) (process_set_break_points ops data payload)
  else no_event (send_string []).

Definition gdbstub_process_packet (inpkt : packet_t) : M (world T) gdb_event_t :=
  d0 ← lift (bget (pkt_data inpkt) 0);
  _ ← lift (cassert (d0 =? 36));
  let packet_end := pkt_end_pos inpkt - CSUM_SIZE in
  data ← lift (bput (pkt_data inpkt) packet_end 0);
  request ← lift (bget data 1);
  dispatch request data 2 packet_end.

Definition gdbstub_handle_event (event : gdb_event_t) : M (world T) gdb_action_t :=
  match event with
  | EVENT_CONT =>
      _ ← modify (upd_priv (set_async_io true));
      f ← lift (deref (op_cont ops));
      act ← call f;
      _ ← modify (upd_priv (set_async_io false));
      mret act
  | EVENT_STEP => f ← lift (deref (op_stepi ops)); call f
  | EVENT_DETACH => mret ACT_SHUTDOWN
  | EVENT_NONE => mret ACT_NONE
  end.

Definition gdbstub_act_resume : M (world T) unit :=
  packet_str ← lift (sprintf (uninit 32) 0 (str "S" ++ fmt_02x GDB_SIGNAL_TRAP));
  conn_send_pktstr packet_str 0.

(** How one round of the loop ends: asleep in [pktqueue_pop] with the state
    unchanged, going on, or returning. *)
Inductive run_res := Asleep | Continue | Return (b : bool).

(** What the loop does with a popped packet. *)
Definition handle_packet (pkt : packet_t) : M (world T) run_res :=
  csum_ok ← lift (packet_csum_verify pkt);
  p ← get_priv;
  _ ← (if no_ack_mode (conn p) then mret tt
       else conn_send_str (if csum_ok : bool then STR_ACK else STR_NACK));
  if negb csum_ok then
    let n := failure_count (conn p) + 1 in
    _ ← modify (upd_priv (fun p => set_conn (set_failures (conn p) n) p));
    mret (if CONN_MAX_FAILURES <=? n then Return false else Continue)
  else
    _ ← modify (upd_priv (fun p => set_conn (set_failures (conn p) 0) p));
    event ← gdbstub_process_packet pkt;
    act ← gdbstub_handle_event event;
    match act with
    | ACT_RESUME => _ ← gdbstub_act_resume; mret Continue
    | ACT_SHUTDOWN => mret (Return true)
    | ACT_NONE => mret Continue
    end.

Section Run.
Context {Q : Type} `{PQ : PacketQueue Q}.

(** One round of [while (true)]. *)
Definition run_iter (w : world T) (q : Q) : outcome (run_res * world T * Q) :=
  '(r, q) ← q_pop q;
  match r with
  | Sleep => Ret (Asleep, w, q)
  | Null =>
      if q_is_shutdown q then Ret (Return true, w, q)
      else let '(_, q) := q_check_interrupt q in Ret (Continue, w, q)
  | Got pkt => '(res, w) ← handle_packet pkt w; Ret (res, w, q)
  end.

(** The loop until it returns or falls asleep. Every round takes a packet or
    clears the interrupt flag, so the number of queued packets plus two rounds
    are enough. *)
Fixpoint run_loop (fuel : nat) (w : world T) (q : Q) : outcome (run_res * world T * Q) :=
  match fuel with
  | O => Hang
  | S fuel =>
      '(res, w, q) ← run_iter w q;
      match res with
      | Continue => run_loop fuel w q
      | _ => Ret (res, w, q)
      end
  end.
End Run.

(** ** Lemmas: what is sent *)

Lemma answers_guarded {A} (op : option A) (h : M (world T) unit) : replies h -> answers (guarded op h).
Proof. intros H. apply answers_none. destruct op; [exact H|apply replies_string]. Qed.
Lemma answers_no_event (h : M (world T) unit) : replies h -> answers (no_event h).
Proof. apply answers_none. Qed.
Lemma answers_detach : answers (T := T) (_ ← send_string (str "OK"); mret EVENT_DETACH).
Proof. apply replies_ret; [apply replies_string|done]. Qed.

Lemma answers_dispatch r d p e : answers (dispatch r d p e).
Proof.
  unfold dispatch.
  split_ifs;
    lazymatch goal with
    | |- answers (guarded _ _) => apply answers_guarded
    | |- answers (no_event _) => apply answers_no_event
    | |- answers (_ ← _; mret EVENT_DETACH) => apply answers_detach
    | _ => idtac
    end; auto with stub.
Qed.

Lemma silent_handle_event ev : silent (gdbstub_handle_event ev).
Proof. unfold gdbstub_handle_event. destruct ev; emits_auto. Qed.

Lemma answers_process_packet pkt : answers (gdbstub_process_packet pkt).
Proof.
  unfold gdbstub_process_packet. repeat (apply answers_bind; [auto with stub|intros]).
  apply answers_dispatch.
Qed.

Lemma replies_act_resume : replies gdbstub_act_resume.
Proof. unfold gdbstub_act_resume. emits_auto. Qed.

(** The part of a round behind a correct checksum. *)
Definition act_on (pkt : packet_t) : M (world T) run_res :=
  event ← gdbstub_process_packet pkt;
  act ← gdbstub_handle_event event;
  match act with
  | ACT_RESUME => _ ← gdbstub_act_resume; mret Continue
  | ACT_SHUTDOWN => mret (Return true)
  | ACT_NONE => mret Continue
  end.

(** The answers to one packet: none, or one reply; two when a callback that
    was not asked to run the target reports a stop. *)
Lemma act_on_emits pkt w r w' :
  act_on pkt w = Ret (r, w') ->
  stable_priv (w_priv w) (w_priv w') /\ r <> Asleep /\ r <> Return false /\
  exists l, w_sent w' = w_sent w ++ l /\ (l = [] \/ is_reply l).
Proof.
  unfold act_on. intros E. minv E. apply answers_process_packet in Hm as ((l & Hs & Hl) & St).
  minv Hk.
  assert (Hact : x0 = ACT_RESUME -> l = []).
  { intros ->. destruct x; [|done| |done]; by apply mret_inv in Hm as [? _]. }
  apply silent_handle_event in Hm as ((? & Hs1 & ->) & St1). rewrite app_nil_r in Hs1.
  assert (Hl' : l = [] \/ is_reply l) by (destruct x; auto).
  destruct x0.
  - apply mret_inv in Hk0 as [-> ->]. split; [by etrans|]. split_and!; try done.
    exists l. split; [congruence|done].
  - minv Hk0. apply mret_inv in Hk as [-> ->].
    apply replies_act_resume in Hm as ((l2 & Hs2 & Hl2) & St2).
    split; [do 2 (etrans; [done|]); done|]. split_and!; try done.
    exists l2. rewrite (Hact eq_refl), app_nil_r in Hs. split; [congruence|auto].
  - apply mret_inv in Hk0 as [-> ->]. split; [by etrans|]. split_and!; try done.
    exists l. split; [congruence|done].
Qed.

(** *** Packets as the reader cuts them *)

(** A payload with a claimed checksum on the wire, and the packet made of it. *)
Definition frame_with (s : bytes) (k : Z) : bytes := [36] ++ s ++ [35] ++ hex_byte k.
Definition packet_with (s : bytes) (k : Z) : packet_t :=
  Packet (Z.of_nat (length s) + 3) ((Some <$> frame_with s k) ++ [Some 0]).

Lemma csum_verify_with s k :
  0 <= k < 256 -> Z.of_nat (length s) < 1073741824 ->
  packet_csum_verify (packet_with s k) = Ret (csum_of s =? k).
Proof.
  intros Hk Hl. destruct (byte_split k Hk) as (Hh & Hlo & Hsp & _).
  unfold packet_csum_verify, packet_with. cbn [pkt_data pkt_end_pos]. unfold CSUM_SIZE.
  assert (E : (Some <$> frame_with s k) ++ [Some 0] =
    [Some 36] ++ (Some <$> s) ++ (Some <$> 35 :: hex_byte k) ++ [Some 0]).
  { unfold frame_with. rewrite !fmap_app, <- !app_assoc. done. }
  rewrite E.
  erewrite obind_eq; [|apply compute_checksum_at; [apply bload_app; [done|lia]|lia]].
  rewrite <- (app_nil_l (uninit 1)), <- (app_nil_r (uninit 1)).
  replace ([Some 36] ++ (Some <$> s) ++ (Some <$> 35 :: hex_byte k) ++ [Some 0])
    with (([Some 36] ++ (Some <$> s) ++ [Some 35]) ++ (Some <$> hex_byte k) ++ [Some 0]).
  2:{ csimpl. by rewrite <- !app_assoc. }
  erewrite obind_eq; [|apply str_to_hex_ok; [done|blia|done|done]].
  simpl unhex. rewrite !nibble_hexchar by done. rewrite Hsp.
  erewrite obind_eq; [|by apply (bget_app [] k [])]. done.
Qed.

(** What a handler finds in a packet with request [c] and argument [s]. *)
Definition request_tail (c : Z) (s : bytes) : buf := (Some <$> hex_byte (csum_of (c :: s))) ++ [Some 0].
Definition request_area (c : Z) (s : bytes) : buf :=
  [Some 36; Some c] ++ (Some <$> s) ++ Some 0 :: request_tail c s.

Lemma process_packet_of c s w :
  gdbstub_process_packet (packet_of (c :: s)) w =
  dispatch c (request_area c s) 2 (Z.of_nat (length s) + 2) w.
Proof.
  unfold gdbstub_process_packet, packet_of. cbn [pkt_data pkt_end_pos].
  assert (E : (Some <$> frame (c :: s)) ++ [Some 0] =
    [Some 36; Some c] ++ (Some <$> s) ++ Some 35 :: request_tail c s).
  { unfold frame, request_tail. csimpl. rewrite !fmap_app, <- !app_assoc. done. }
  rewrite E. mstep. mstep.
  erewrite M_bind_eq.
  2:{ rewrite app_assoc, bput_app; [|unfold CSUM_SIZE; blia]. rewrite <- app_assoc. reflexivity. }
  mstep. unfold CSUM_SIZE. simpl length.
  by replace (_ - 2) with (Z.of_nat (length s) + 2) by lia.
Qed.

Lemma request_area_at c s : no0 s -> cstr_at (request_area c s) 2 s.
Proof. intros. split; [done|]. by exists [Some 36; Some c], (request_tail c s). Qed.

(** A request [args sep content], split at the separator. *)
Lemma split_request c args sep content :
  no0 args -> sep ∉ args ->
  split_args (request_area c (args ++ sep :: content)) 2 sep =
  Ret ([Some 36; Some c] ++ (Some <$> args) ++ Some 0 :: (Some <$> content)
         ++ Some 0 :: request_tail c (args ++ sep :: content), Some (2 + Z.of_nat (length args) + 1)).
Proof.
  intros H0 Hs. unfold request_area. rewrite fmap_app, <- app_assoc. set (tl := Some 0 :: request_tail _ _).
  change ((Some <$> sep :: content) ++ tl) with (Some sep :: (Some <$> content) ++ tl).
  by rewrite split_args_hit.
Qed.

(** The packets the stub refuses: those whose callback is missing. *)
Definition missing (c : Z) : bool :=
  (c =? chr "c") && is_null (op_cont ops) || (c =? chr "s") && is_null (op_stepi ops)
  || (c =? chr "g") && is_null (op_read_reg ops) || (c =? chr "p") && is_null (op_read_reg ops)
  || (c =? chr "G") && is_null (op_write_reg ops) || (c =? chr "P") && is_null (op_write_reg ops)
  || (c =? chr "m") && is_null (op_read_mem ops) || (c =? chr "M") && is_null (op_write_mem ops)
  || (c =? chr "X") && is_null (op_write_mem ops) || (c =? chr "z") && is_null (op_del_bp ops)
  || (c =? chr "Z") && is_null (op_set_bp ops) || (c =? chr "H") && is_null (op_set_cpu ops).

Definition known_requests : bytes := str "cgmpqQsvz?DGHMPTXZ".

(** Sending the refusal. *)
Lemma refuse_ok (w : world T) :
  (_ ← SEND_EPERM; mret EVENT_NONE) w = Ret (EVENT_NONE, add_sent (frame (str "E01")) w).
Proof. unfold SEND_EPERM. erewrite M_bind_eq; [|apply send_string_ok; sendable_lit]. done. Qed.
Lemma no_event_send s (w : world T) :
  sendable s -> no_event (send_string s) w = Ret (EVENT_NONE, add_sent (frame s) w).
Proof. intros. unfold no_event. erewrite M_bind_eq; [|by apply send_string_ok]. done. Qed.

(** A queue of packets served in order until one ends the session. *)
Fixpoint serve (w : world T) (l : list packet_t) : outcome (run_res * world T * list packet_t) :=
  match l with
  | [] => Ret (Continue, w, [])
  | p :: l =>
      '(r, w) ← handle_packet p w;
      match r with
      | Continue => serve w l
      | _ => Ret (r, w, l)
      end
  end.

(** ** Properties *)

(** C1 Exactly one reply: whatever the packet, the target and its state, a
    request that is handled without starting the target sends exactly one framed
    reply, and one that starts it sends none (its stop reply comes later). *)
Theorem one_reply_per_packet pkt w ev w' :
  gdbstub_process_packet pkt w = Ret (ev, w') ->
  exists l, w_sent w' = w_sent w ++ l /\
    match ev with
    | EVENT_NONE | EVENT_DETACH => exists s, sendable s /\ l = [frame s]
    | EVENT_CONT | EVENT_STEP => l = []
    end.
Proof. intros E. apply (answers_process_packet pkt _ _ _ E). Qed.

(** C3 One round of the main loop on a popped packet. With a wrong checksum the
    target is not touched, a NACK is sent (unless in no-ack mode), and the
    connection is given up exactly at the 50th consecutive failure; with a right
    one an ACK is sent, the counter restarts, and at most one reply follows. *)
Theorem handle_packet_round pkt w r w' :
  handle_packet pkt w = Ret (r, w') ->
  let c := conn (w_priv w) in
  exists ok, packet_csum_verify pkt = Ret ok /\
  exists l, w_sent w' = w_sent w ++
      (if no_ack_mode c then [] else [if ok then STR_ACK else STR_NACK]) ++ l /\
    if ok then (l = [] \/ is_reply l) /\ failure_count (conn (w_priv w')) = 0 /\
               r <> Asleep /\ r <> Return false
    else l = [] /\ w_args w' = w_args w /\
      failure_count (conn (w_priv w')) = failure_count c + 1 /\
      r = (if 50 <=? failure_count c + 1 then Return false else Continue).
Proof.
  intros E c. unfold handle_packet in E. minv E. apply lift_inv in Hm as [Hv ->].
  exists x. split; [done|]. minv Hk. unfold get_priv, gets in Hm. simplify_eq.
  minv Hk0. rename w into w1.
  set (ack := if no_ack_mode c then [] else [if x then STR_ACK else STR_NACK]).
  assert (Hack : w_sent w1 = w_sent w0 ++ ack /\ w_args w1 = w_args w0 /\ w_priv w1 = w_priv w0).
  { subst ack c. destruct (no_ack_mode _).
    - unfold mret, M_ret in Hm. simplify_eq. by rewrite app_nil_r.
    - unfold conn_send_str, modify in Hm. by simplify_eq. }
  destruct Hack as (Hs1 & Ha1 & Hp1). destruct x; simpl in Hk.
  - minv Hk. unfold modify in Hm0. simplify_eq.
    destruct (act_on_emits pkt _ _ _ Hk0) as (St & Hr1 & Hr2 & l & Hs & Hl).
    exists l. simpl in Hs. split; [by rewrite Hs, Hs1, <- app_assoc|].
    split; [done|]. split; [|done]. destruct St as (St & _). by rewrite St.
  - minv Hk. unfold modify in Hm0. simplify_eq. unfold mret, M_ret in Hk0. simplify_eq.
    exists []. rewrite app_nil_r. simpl. split; [done|]. split; [done|]. split; [done|]. split; [done|].
    done.
Qed.

(** C32 Requests the stub cannot serve leave the target alone: a request whose
    callback is NULL is answered [E01], one it does not know by the empty reply,
    whatever the rest of the packet says. *)
Theorem refusals_leave_target c s w :
  (missing c = true ->
     gdbstub_process_packet (packet_of (c :: s)) w = Ret (EVENT_NONE, add_sent (frame (str "E01")) w)) /\
  (c ∉ known_requests ->
     gdbstub_process_packet (packet_of (c :: s)) w = Ret (EVENT_NONE, add_sent (frame []) w)).
Proof.
  rewrite process_packet_of. split.
  - intros H. unfold missing in H. rewrite !orb_true_iff, !andb_true_iff, !Z.eqb_eq in H.
    destruct_or! H; destruct H as [-> Hn%is_null_true];
      unfold dispatch; pick_request; unfold process_cont, process_stepi, guarded;
      rewrite Hn; apply refuse_ok.
  - intros H. unfold known_requests in H.
    unfold dispatch.
    repeat match goal with |- context [c =? chr ?b] =>
      rewrite (proj2 (Z.eqb_neq c (chr b))) by (intros ->; apply H; vdecide) end.
    apply no_event_send. sendable_lit.
Qed.

(** C31 Checksums: the packet the reader makes of a sender's frame is accepted;
    one in which a single payload byte was altered, or whose two checksum digits
    denote another value, is not. *)
Theorem csum_verify_detects s :
  Z.of_nat (length s) < 1073741824 ->
  packet_csum_verify (packet_of s) = Ret true /\
  (forall pre x y post, s = pre ++ x :: post -> byte_ok x -> byte_ok y -> x <> y ->
     packet_csum_verify (packet_with (pre ++ y :: post) (csum_of s)) = Ret false) /\
  (forall k, 0 <= k < 256 -> k <> csum_of s -> packet_csum_verify (packet_with s k) = Ret false).
Proof.
  intros Hl. pose proof (csum_range s) as Hr. split_and!.
  - change (packet_of s) with (packet_with s (csum_of s)).
    by rewrite csum_verify_with, Z.eqb_refl.
  - intros pre x y post Hs Hx Hy Hne. rewrite csum_verify_with; [|done|].
    2:{ rewrite Hs, length_app in Hl. rewrite length_app. simpl in *. lia. }
    f_equal. apply Z.eqb_neq. subst s. unfold csum_of. rewrite !zsum_app. unfold zsum. simpl.
    unfold byte_ok in *. mlia.
  - intros k Hk Hne. rewrite csum_verify_with by done. f_equal. by apply Z.eqb_neq, not_eq_sym.
Qed.

(** What a served queue comes to in [run_loop]. *)
Definition loop_result {Q} (rep : Q -> aqueue -> Prop) (a : aqueue)
    (served : outcome (run_res * world T * list packet_t)) (o : outcome (run_res * world T * Q)) : Prop :=
  match served with
  | Ret (Continue, w, _) =>
      exists q, rep q (AQueue [] (aq_shutdown a) (aq_shutdown a && aq_interrupted a)) /\
        o = Ret (if aq_shutdown a then Return true else Asleep, w, q)
  | Ret (r, w, rest) => exists q, rep q (AQueue rest (aq_shutdown a) (aq_interrupted a)) /\ o = Ret (r, w, q)
  | AssertFail => o = AssertFail
  | UB => o = UB
  | Hang => o = Hang
  end.

Lemma run_loop_ok {Q} `{PQ : PacketQueue Q} (rep : Q -> aqueue -> Prop) `{!PacketQueueSpec Q rep}
    q a w fuel :
  rep q a -> (length (aq_items a) + 2 <= fuel)%nat ->
  loop_result rep a (serve w (aq_items a)) (run_loop fuel w q).
Proof.
  destruct a as [items sd intr]. simpl. revert q w fuel.
  induction items as [|p items IH]; intros q w fuel Hrep Hf; (destruct fuel as [|fuel]; [simpl in Hf; lia|]);
    unfold loop_result; simpl; unfold run_iter;
    destruct (q_pop_spec _ _ Hrep) as (q1 & E & Hr1); rewrite E; unfold aq_pop in *; simpl in *.
  - destruct sd; simpl in *.
    + rewrite (q_is_shutdown_spec _ _ Hr1). simpl. by exists q1.
    + destruct intr; simpl in *; [|by exists q1].
      rewrite (q_is_shutdown_spec _ _ Hr1). simpl.
      destruct (q_check_spec _ _ Hr1) as [_ Hr2]. destruct (q_check_interrupt q1) as [? q2]. simpl in *.
      destruct fuel as [|fuel]; [lia|]. simpl. unfold run_iter.
      destruct (q_pop_spec _ _ Hr2) as (q3 & E3 & Hr3). rewrite E3. simpl. by exists q3.
  - destruct (handle_packet p w) as [[r w1]| | |]; simpl; try done.
    destruct r; simpl; [by exists q1| |by exists q1].
    specialize (IH q1 w1 fuel Hr1 ltac:(lia)). exact IH.
Qed.

(** The loop of [serve], packet by packet; it never falls asleep. *)
Lemma serve_snoc l p : forall w w1,
  serve w l = Ret (Continue, w1, []) ->
  serve w (l ++ [p]) = ('(r, w2) ← handle_packet p w1; Ret (r, w2, [])).
Proof.
  induction l as [|p1 l IH]; intros w w1 H; simpl in *.
  - simplify_eq. destruct (handle_packet p w1) as [[r w2]| | |]; simpl; try done. by destruct r.
  - destruct (handle_packet p1 w) as [[r w2]| | |]; simpl in *; try done. destruct r; simplify_eq/=; [].
    by apply IH.
Qed.

Lemma handle_packet_awake pkt w r w' : handle_packet pkt w = Ret (r, w') -> r <> Asleep.
Proof.
  unfold handle_packet. intros E. minv E. minv Hk. minv Hk0. destruct x; simpl in Hk.
  - minv Hk. by apply act_on_emits in Hk0 as (_ & H & _).
  - minv Hk. apply mret_inv in Hk0 as [-> _]. by destruct (_ <=? _).
Qed.

Lemma serve_awake l : forall w r w' rest, serve w l = Ret (r, w', rest) -> r <> Asleep.
Proof.
  induction l as [|p l IH]; intros w r w' rest H; simpl in H; [by simplify_eq|].
  destruct (handle_packet p w) as [[r1 w1]| | |] eqn:E; simpl in H; try done.
  apply handle_packet_awake in E. destruct r1; [done|by eapply IH|by simplify_eq].
Qed.

(** C5 [gdbstub_run] serves its queue, proved against the queue's interface: the
    loop handles the pending packets in the order they were pushed, until one of
    them ends the session; once the queue is empty it returns true if the reader
    has shut it down, and otherwise clears a pending interrupt and sleeps. A
    queue of [n] packets needs at most [n + 2] rounds, so the loop never spins. *)
Theorem run_loop_serves {Q} `{PQ : PacketQueue Q} (rep : Q -> aqueue -> Prop) `{!PacketQueueSpec Q rep}
    q a w fuel :
  rep q a -> (length (aq_items a) + 2 <= fuel)%nat ->
  loop_result rep a (serve w (aq_items a)) (run_loop fuel w q).
Proof. intros. by apply run_loop_ok. Qed.

(** Fifty consecutive packets with wrong checksums end the session with
    failure, after one NACK each, and nothing reaches the target. *)
Theorem failures_disconnect l w :
  length l = 50%nat -> Forall (fun p => packet_csum_verify p = Ret false) l ->
  failure_count (conn (w_priv w)) = 0 -> no_ack_mode (conn (w_priv w)) = false ->
  exists w', serve w l = Ret (Return false, w', []) /\
    w_sent w' = w_sent w ++ replicate 50 STR_NACK /\ w_args w' = w_args w.
Proof.
  intros Hl Hbad Hc. rewrite <- Hl.
  assert (Hk : failure_count (conn (w_priv w)) + Z.of_nat (length l) = 50) by (rewrite Hl; lia).
  assert (Hne : l <> []) by (by intros ->). clear Hl Hc.
  revert w Hk Hne. induction Hbad as [|p l Hp Hbad IH]; intros w Hk Hne Hack; [done|].
  set (w1 := upd_priv (fun p => set_conn (set_failures (conn p) (failure_count (conn (w_priv w)) + 1)) p)
               (add_sent STR_NACK w)).
  assert (E : handle_packet p w =
    Ret (if 50 <=? failure_count (conn (w_priv w)) + 1 then Return false else Continue, w1)).
  { unfold handle_packet. rewrite Hp. mstep. mstep. rewrite Hack. mstep. cbn [negb]. mstep. done. }
  simpl serve. rewrite E. simpl length in Hk.
  destruct l as [|p2 l].
  - replace (50 <=? _) with true by (symmetry; bool_props; simpl in *; lia).
    exists w1. split; [done|]. by split.
  - replace (50 <=? _) with false by (symmetry; bool_props; simpl in *; lia).
    destruct (IH w1) as (w' & Es & Hs & Ha).
    + subst w1. cbn -[length] in Hk |- *. lia.
    + done.
    + done.
    + exists w'. split; [exact Es|]. split; [|by rewrite Ha].
      rewrite Hs. subst w1. cbn [w_sent upd_priv add_sent]. by rewrite <- app_assoc.
Qed.

(** Detaching: a [D] packet is acknowledged, answered [OK], and makes
    [gdbstub_run] return true without a word to the target. *)
Theorem detach_ends_session w :
  exists w', handle_packet (packet_of (str "D")) w = Ret (Return true, w') /\
    w_sent w' = w_sent w ++ (if no_ack_mode (conn (w_priv w)) then [] else [STR_ACK]) ++ [str "$OK#9a"] /\
    w_args w' = w_args w.
Proof.
  unfold handle_packet.
  assert (Hv : packet_csum_verify (packet_of (str "D")) = Ret true) by reflexivity.
  rewrite Hv. mstep. mstep.
  set (w1 := if no_ack_mode (conn (w_priv w)) then w else add_sent STR_ACK w).
  assert (E : (if no_ack_mode (conn (w_priv w)) then mret tt else conn_send_str STR_ACK) w = Ret (tt, w1)).
  { subst w1. by destruct (no_ack_mode _). }
  rewrite (M_bind_eq _ _ _ _ _ E). cbn [negb]. mstep.
  set (w2 := upd_priv _ w1).
  assert (Ep : gdbstub_process_packet (packet_of (str "D")) w2 = Ret (EVENT_DETACH, add_sent (frame (str "OK")) w2)).
  { change (str "D") with (chr "D" :: []). rewrite process_packet_of. unfold dispatch; pick_request.
    erewrite M_bind_eq; [|apply send_string_ok; sendable_lit]. done. }
  rewrite (M_bind_eq _ _ _ _ _ Ep). mstep. eexists. split; [reflexivity|].
  cbn [w_sent w_args add_sent]. subst w2 w1. cbn [w_sent w_args upd_priv].
  destruct (no_ack_mode _); simpl; [done|]. by rewrite <- app_assoc.
Qed.
End Stub.
