(* ===== verification/Reader.v ===== *)
(** * src/gdbstub.c, [socket_reader]: the thread that owns the socket's input

    The reader is a function of what its environment does in each round of its
    loop: the value of [thread_stop], the answers of [poll] and [read], the
    [async_io] flag as it is at each interrupt character, and for each packet
    the answers of the allocator, of [send_mutex] and of the socket. It works on
    the queue through the interface [PacketQueue]. *)

From S2P Require Import Prelude CMem CFormat Translate Packet PktQueue RegBuf Conn Target.

Inductive poll_ev := PollErr (errno : Z) | PollTimeout | PollNoInput | PollIn.

Record pkt_env := PktEnv {
  pe_calloc : bool;          (* calloc of the packet *)
  pe_node : bool;            (* malloc of its queue node *)
  pe_locked : bool;          (* does another thread hold send_mutex? *)
  pe_send : list send_ev     (* the socket while the ACK is sent *)
}.
Definition quiet_pkt : pkt_env := PktEnv true true false [Wrote 1].

Record round_env := RoundEnv {
  re_stop : bool;
  re_poll : poll_ev;
  re_realloc : bool;
  re_read : read_ev;
  re_async : list bool;      (* one per interrupt character, then false *)
  re_pkts : list pkt_env     (* one per packet, then [quiet_pkt] *)
}.

(** The buffer, the queue, the target behind [args], and the bytes the reader
    has put on the socket. *)
Record rstate (T Q : Type) := RState {
  rs_buf : pktbuf_t;
  rs_queue : Q;
  rs_args : T;
  rs_sent : bytes
}.
Arguments RState {T Q}.
Arguments rs_buf {T Q}.
Arguments rs_queue {T Q}.
Arguments rs_args {T Q}.
Arguments rs_sent {T Q}.

Section Reader.
Context {T : Type} (ops : target_ops T).
Context {Q : Type} `{PQ : PacketQueue Q}.

(** The scan of the [nread] bytes at [buf_start = data + start]. *)
Fixpoint scan_interrupts (n : nat) (i : Z) (data : buf) (start : Z) (async : list bool) (q : Q) (t : T)
  : outcome (Q * T) :=
  match n with
  | O => Ret (q, t)
  | S n =>
      c ← bget data (start + i);
      if c =? INTR_CHAR then
        t ← match head async, op_on_interrupt ops with
            | Some true, Some on_interrupt => on_interrupt t
            | _, _ => Ret t
            end;
        scan_interrupts n (i + 1) data start (tail async) (q_signal_interrupt q) t
      else scan_interrupts n (i + 1) data start async q t
  end.

(** [while (pktbuf_is_complete(&pktbuf))]: every packet takes at least one byte
    out of the buffer, so its size plus one rounds are enough. *)
Fixpoint process_packets (fuel : nat) (envs : list pkt_env) (pb : pktbuf_t) (q : Q) (sent : bytes)
  : outcome (pktbuf_t * Q * bytes) :=
  match fuel with
  | O => Hang
  | S fuel =>
      '(complete, pb) ← pktbuf_is_complete pb;
      if (complete : bool) then
        let env := default quiet_pkt (head envs) in
        '(pkt, pb) ← pktbuf_pop_packet pb (pe_calloc env);
        match pkt with
        | Some pkt =>
            '(pushed, q) ← q_push q pkt (pe_node env);
            let ack := if pushed : bool then (conn_try_send_str_io (pe_locked env) (pe_send env) STR_ACK).1.2
                       else [] in
            process_packets fuel (tail envs) pb q (sent ++ ack)
        | None => process_packets fuel envs pb q sent
        end
      else Ret (pb, q, sent)
  end.

(** One round of the loop: [true] when it is left. *)
Definition reader_round (env : round_env) (st : rstate T Q) : outcome (bool * rstate T Q) :=
  if re_stop env then Ret (true, st)
  else
    match re_poll env with
    | PollErr e => Ret (negb (e =? EINTR), st)
    | PollTimeout => Ret (false, st)
    | PollNoInput => Ret (false, st)
    | PollIn =>
        '(nread, pb) ← pktbuf_fill_from_file (rs_buf st) (re_realloc env) (re_read env);
        let st := RState pb (rs_queue st) (rs_args st) (rs_sent st) in
        if nread =? 0 then Ret (true, st)
        else if nread <? 0 then
          match re_read env with
          | ReadErr e => Ret (negb ((e =? EINTR) || (e =? EAGAIN)), st)
          | _ => UB   (* [read] returns -1 only with an [errno] *)
          end
        else
          data ← deref (pb_data pb);
          '(q, t) ← scan_interrupts (Z.to_nat nread) 0 data (pb_size pb - nread) (re_async env)
                      (rs_queue st) (rs_args st);
          '(pb, q, sent) ← process_packets (Z.to_nat (pb_size pb) + 1) (re_pkts env) pb q (rs_sent st);
          Ret (false, RState pb q t sent)
    end.

(** The loop over the rounds the environment grants; [false] when they end
    before the loop does. *)
Fixpoint reader_loop (envs : list round_env) (st : rstate T Q) : outcome (bool * rstate T Q) :=
  match envs with
  | [] => Ret (false, st)
  | env :: envs =>
      '(leave, st) ← reader_round env st;
      if (leave : bool) then Ret (true, st) else reader_loop envs st
  end.

(** The thread: [init_ok] is [calloc]'s answer in [pktbuf_init]. On the way out
    the buffer is freed and the queue is shut down. *)
Definition socket_reader (init_ok : bool) (envs : list round_env) (q : Q) (t : T)
  : outcome (bool * rstate T Q) :=
  '(ok, pb) ← pktbuf_init init_ok;
  if (ok : bool) then
    '(leave, st) ← reader_loop envs (RState pb q t []);
    if (leave : bool) then
      Ret (true, RState (Pktbuf (pb_size (rs_buf st)) (pb_cap (rs_buf st)) (pb_end_pos (rs_buf st)) None)
                   (q_signal_shutdown (rs_queue st)) (rs_args st) (rs_sent st))
    else Ret (false, st)
  else Ret (true, RState pb (q_signal_shutdown q) t []).
End Reader.

(** ** Reference: what a stream of chunks comes to *)

(** The bytes a round delivers: none when nothing is read. [None] when the
    round ends the loop or meets a failing [read] or [realloc]. *)
Definition round_bytes (env : round_env) : option bytes :=
  if re_stop env then None
  else
    match re_poll env with
    | PollErr e => if e =? EINTR then Some [] else None
    | PollTimeout => Some []
    | PollNoInput => Some []
    | PollIn =>
        match re_read env with
        | ReadData (c :: avail) => if re_realloc env then Some (c :: avail) else None
        | _ => None
        end
    end.

(** The packet made of a complete run of bytes. *)
Definition packet_at (c : bytes) (e : Z) : packet_t := Packet e ((Some <$> c) ++ [Some 0]).

(** What is kept of the bytes [c] in a buffer of [2 ^ cap] bytes, and the packet
    cut from them. [None]: they do not end with the packet's last byte, or the
    packet fills the buffer to the last byte. *)
Definition cut (cap : Z) (c : bytes) : option (bytes * list packet_t) :=
  match scan_contents c with
  | NoHead => Some ([], [])
  | Partial c => Some (c, [])
  | Whole c e =>
      if (Z.of_nat (length c) =? e + 1) && (Z.of_nat (length c) <? 2 ^ cap) then Some ([], [packet_at c e])
      else None
  end.

(** A full buffer is doubled before it is read into. *)
Definition grown (cap : Z) (n : nat) : Z := if 2 ^ cap =? Z.of_nat n then cap + 1 else cap.

(** The receiver on chunks, from a buffer of [2 ^ cap] bytes that holds [c]:
    the capacity and bytes it ends with and the packets it cuts. [None]: a chunk
    is longer than the room [read] is given, the buffer would outgrow [int], or
    [cut] does not apply. *)
Fixpoint recv (cap : Z) (c : bytes) (chunks : list bytes) : option (Z * bytes * list packet_t) :=
  match chunks with
  | [] => Some (cap, c, [])
  | [] :: chunks => recv cap c chunks
  | ch :: chunks =>
      let cap := grown cap (length c) in
      if (2 ^ cap <? Z.of_nat (length (c ++ ch))) || (31 <=? cap) then None
      else
        '(c, l) ← cut cap (c ++ ch);
        '(cap, c, l') ← recv cap c chunks;
        Some (cap, c, l ++ l')
  end.

(** The rounds that end the loop: a stop request, end of file, and the errors
    that are not "try again". *)
Definition leaves (env : round_env) : bool :=
  re_stop env ||
  match re_poll env with
  | PollErr e => negb (e =? EINTR)
  | PollIn =>
      match re_read env with
      | ReadEof => true
      | ReadErr e => negb ((e =? EINTR) || (e =? EAGAIN))
      | ReadData avail => bool_decide (avail = [])
      end
  | _ => false
  end.

(** The number of interrupt characters, and the calls of [on_interrupt] they
    cause. *)
Fixpoint intr_count (s : bytes) : nat :=
  match s with [] => O | c :: s => if c =? INTR_CHAR then S (intr_count s) else intr_count s end.

Section Spec.
Context {T : Type} (ops : target_ops T).

Fixpoint on_interrupts (n : nat) (async : list bool) (t : T) : outcome T :=
  match n with
  | O => Ret t
  | S n =>
      t ← match head async, op_on_interrupt ops with
          | Some true, Some on_interrupt => on_interrupt t
          | _, _ => Ret t
          end;
      on_interrupts n (tail async) t
  end.
Fixpoint all_interrupts (envs : list round_env) (t : T) : outcome T :=
  match envs with
  | [] => Ret t
  | env :: envs =>
      t ← on_interrupts (intr_count (default [] (round_bytes env))) (re_async env) t;
      all_interrupts envs t
  end.

(** Every packet finds memory; the code does not look. *)
Definition callocs (envs : list pkt_env) : Prop := Forall (fun p => pe_calloc p = true) envs.
Definition accepting (env : round_env) : Prop := callocs (re_pkts env).

(** Is there memory for the node of the first packet of a round? A packet that
    gets none is dropped. *)
Definition node_ok (envs : list pkt_env) : bool := pe_node (default quiet_pkt (head envs)).
Fixpoint kept (l : list packet_t) (taken : list bool) : list packet_t :=
  match l, taken with
  | p :: l, ok :: taken => (if ok : bool then [p] else []) ++ kept l taken
  | _, _ => []
  end.

(** What is sent for a packet: one ACK or, when [send_mutex] is taken, the socket
    does not take it or the packet was dropped, nothing. *)
Definition ack_for (ok : bool) (ack : bytes) : Prop := ack = [] \/ ok = true /\ ack = STR_ACK.

(** What is pushed and flagged. *)
Definition aq_receive (a : aqueue) (pkts : list packet_t) (intr : nat) : aqueue :=
  AQueue (aq_items a ++ pkts) (aq_shutdown a) (aq_interrupted a || negb (intr =? 0)%nat).

Context {Q : Type} `{PQ : PacketQueue Q} (rep : Q -> aqueue -> Prop) `{PQS : !PacketQueueSpec Q rep}.

(** ** Lemmas *)

Lemma scan_interrupts_ok got : forall i (pre post : buf) start async q t,
  start + i = blen pre ->
  scan_interrupts ops (length got) i (pre ++ (Some <$> got) ++ post) start async q t =
  (t ← on_interrupts (intr_count got) async t; Ret (Nat.iter (intr_count got) q_signal_interrupt q, t)).
Proof.
  induction got as [|c got IH]; intros i pre post start async q t Hi; [done|].
  simpl length. csimpl. rewrite (obind_eq _ _ c) by by apply bget_app.
  assert (Hstep : forall async q t,
    scan_interrupts ops (length got) (i + 1) (pre ++ Some c :: (Some <$> got) ++ post) start async q t =
    (t ← on_interrupts (intr_count got) async t; Ret (Nat.iter (intr_count got) q_signal_interrupt q, t))).
  { intros async0 q0 t0. rewrite <- (IH (i + 1) (pre ++ [Some c]) post start); [|blia].
    by rewrite <- app_assoc. }
  case_if; [|apply Hstep]. rewrite Nat.iter_succ_r. simpl on_interrupts.
  destruct (match head async with Some true => _ | _ => _ end); csimpl; try done.
Qed.

Lemma aq_receive_nil a : aq_receive a [] 0 = a.
Proof. destruct a. unfold aq_receive. simpl. by rewrite app_nil_r, orb_false_r. Qed.
Lemma aq_receive_twice a p1 n1 p2 n2 :
  aq_receive (aq_receive a p1 n1) p2 n2 = aq_receive a (p1 ++ p2) (n1 + n2).
Proof.
  unfold aq_receive. simpl. rewrite <- app_assoc. f_equal. destruct n1, n2; simpl; by rewrite ?orb_true_r, ?orb_false_r.
Qed.
Lemma intr_count_app s1 s2 : intr_count (s1 ++ s2) = (intr_count s1 + intr_count s2)%nat.
Proof. induction s1; csimpl; [done|]. case_if; by rewrite IHs1. Qed.

Lemma signal_interrupts_rep n q a : rep q a -> rep (Nat.iter n q_signal_interrupt q) (aq_receive a [] n).
Proof using Type PQS.
  intros Hr. induction n as [|n IH]; [by rewrite aq_receive_nil|]. simpl.
  replace (aq_receive a [] (S n)) with (aq_signal_interrupt (aq_receive a [] n)); [by apply q_interrupt_spec|].
  unfold aq_receive, aq_signal_interrupt. simpl. by rewrite orb_true_r.
Qed.

(** The buffer without a complete packet. *)
Lemma process_packets_none fuel envs pb q sent pb' :
  pktbuf_is_complete pb = Ret (false, pb') -> (0 < fuel)%nat ->
  process_packets fuel envs pb q sent = Ret (pb', q, sent).
Proof. intros E Hf. destruct fuel; [lia|]. simpl. by rewrite E. Qed.

(** Trying to send the ACK sends it or nothing. *)
Definition ack_of (env : pkt_env) : bytes := (conn_try_send_str_io (pe_locked env) (pe_send env) STR_ACK).1.2.

Lemma ack_of_cases env : ack_of env = [] \/ ack_of env = STR_ACK.
Proof.
  unfold ack_of, conn_try_send_str_io. case_if; [by left|].
  destruct (__conn_send_str _ _ _) as [[r s] e] eqn:Es. apply send_loop_prefix in Es as [[rest Hr] _]. simpl.
  destruct s as [|c [|c2 s]]; [by left|right|done]. unfold STR_ACK in *. csimpl. by simplify_eq/=.
Qed.

Lemma kept_app l1 t1 l2 t2 :
  length t1 = length l1 -> kept (l1 ++ l2) (t1 ++ t2) = kept l1 t1 ++ kept l2 t2.
Proof.
  revert t1. induction l1 as [|p l1 IH]; intros [|ok t1] H; try done. injection H as H. csimpl.
  by rewrite IH, app_assoc.
Qed.
Lemma kept_all l taken : length taken = length l -> Forall (eq true) taken -> kept l taken = l.
Proof.
  revert taken. induction l as [|p l IH]; intros [|ok taken] H Hok; try done. injection H as H.
  apply Forall_cons_1 in Hok as [<- Hok]. simpl. by rewrite IH.
Qed.

Lemma all_taken taken oks : taken `sublist_of` oks -> Forall (eq true) oks -> Forall (eq true) taken.
Proof.
  induction 1 as [|ok taken oks _ IH|ok taken oks _ IH]; [done|..]; intros [Hok Hoks]%Forall_cons_1; auto.
Qed.

(** One complete packet, and nothing behind it. *)
Lemma process_packets_one fuel envs pb q sent c e pb1 a :
  pktbuf_is_complete pb = Ret (true, pb1) -> holds pb1 c -> pb_end_pos pb1 = e -> c <> [] ->
  Z.of_nat (length c) = e + 1 -> Z.of_nat (length c) < 2 ^ pb_cap pb1 -> rep q a ->
  callocs envs -> (1 < fuel)%nat ->
  exists pb' q', process_packets fuel envs pb q sent =
      Ret (pb', q', sent ++ if node_ok envs then ack_of (default quiet_pkt (head envs)) else []) /\
    holds pb' [] /\ pb_cap pb' = pb_cap pb1 /\
    rep q' (if node_ok envs then aq_push a (packet_at c e) else a).
Proof using Type PQS.
  intros E Hh He Hne Hl Hcap Hr Henv Hf. destruct fuel as [|fuel]; [lia|]. simpl. rewrite E. csimpl.
  assert (Henv1 : pe_calloc (default quiet_pkt (head envs)) = true) by by destruct Henv.
  rewrite Henv1. fold (node_ok envs).
  destruct (pop_exact pb1 c Hh Hne ltac:(lia) Hcap) as (pb2 & E2 & Hh2 & Hcap2). rewrite E2. csimpl.
  pose proof (is_complete_ok pb2 [] Hh2) as H. simpl in H. destruct H as [Hc Hh3].
  destruct (node_ok envs).
  - destruct (q_push_spec q a (Packet (pb_end_pos pb1) ((Some <$> c) ++ [Some 0])) Hr) as (q' & E3 & Hr').
    rewrite E3. csimpl. erewrite process_packets_none; [|exact Hc|lia].
    exists (pktbuf_clear pb2), q'. unfold packet_at. rewrite <- He. done.
  - destruct (q_push_fail_spec q a (Packet (pb_end_pos pb1) ((Some <$> c) ++ [Some 0])) Hr) as (q' & E3 & Hr').
    rewrite E3. csimpl. erewrite process_packets_none; [|exact Hc|lia].
    by exists (pktbuf_clear pb2), q'.
Qed.

(** What a round makes of the buffer: at most one packet, and what it keeps. *)
Lemma process_packets_cut envs pb c cap c' l q a sent :
  holds pb c -> pb_cap pb = cap -> cut cap c = Some (c', l) -> rep q a -> (0 < length c)%nat -> callocs envs ->
  exists pb' q' taken acks, process_packets (Z.to_nat (pb_size pb) + 1) envs pb q sent =
      Ret (pb', q', sent ++ concat acks) /\
    holds pb' c' /\ pb_cap pb' = cap /\ rep q' (aq_receive a (kept l taken) 0) /\
    length taken = length l /\ taken `sublist_of` [node_ok envs] /\
    Forall2 ack_for taken acks /\ (envs = [] -> acks = (fun _ => STR_ACK) <$> l).
Proof using Type PQS.
  intros Hh Hcap Hcut Hr Hlen Henv. pose proof (is_complete_ok pb c Hh) as H. unfold cut in Hcut.
  pose proof Hh as (? & _ & Hsz & _).
  assert (Hnone : forall pb1, pktbuf_is_complete pb = Ret (false, pb1) -> holds pb1 c' -> pb_cap pb1 = cap -> l = [] ->
    exists pb' q' taken acks, process_packets (Z.to_nat (pb_size pb) + 1) envs pb q sent =
      Ret (pb', q', sent ++ concat acks) /\
    holds pb' c' /\ pb_cap pb' = cap /\ rep q' (aq_receive a (kept l taken) 0) /\
    length taken = length l /\ taken `sublist_of` [node_ok envs] /\
    Forall2 ack_for taken acks /\ (envs = [] -> acks = (fun _ => STR_ACK) <$> l)).
  { intros pb1 E Hh1 Hc1 ->. exists pb1, q, [], []. rewrite (process_packets_none _ _ _ _ _ _ E) by lia.
    simpl. rewrite app_nil_r, aq_receive_nil. split_and!; try done. apply sublist_nil_l. }
  destruct (scan_contents c) as [|c1|c1 e] eqn:Es.
  - destruct H as [E Hh1]. simplify_eq. by eapply Hnone.
  - destruct H as (pb1 & E & Hh1 & _ & Hc1). simplify_eq. by eapply Hnone.
  - destruct H as (pb1 & E & Hh1 & He & Hc1). case_if; [|done]. simplify_eq. destruct E0 as [Hl Hlt].
    assert (Hne : c1 <> []).
    { intros ->. unfold scan_contents in Es. destruct (index_of 36 c); [|done].
      destruct (drop _ c); [done|]. repeat case_match; simplify_eq. }
    destruct (process_packets_one (Z.to_nat (pb_size pb) + 1) envs pb q sent c1 (pb_end_pos pb1) pb1 a)
      as (pb2 & q2 & E2 & Hh2 & Hc2 & Hr2); try done; [congruence|lia|].
    exists pb2, q2, [node_ok envs], [if node_ok envs then ack_of (default quiet_pkt (head envs)) else []].
    simpl. rewrite !app_nil_r. split_and!; try done.
    + congruence.
    + unfold aq_receive. simpl. rewrite orb_false_r. destruct (node_ok envs); [exact Hr2|].
      rewrite app_nil_r. by destruct a.
    + constructor; [|constructor]. unfold ack_for. destruct (node_ok envs); [|by left].
      destruct (ack_of_cases (default quiet_pkt (head envs))); auto.
    + by intros ->.
Qed.

(** A round in which nothing is read changes nothing. *)
Lemma idle_round env st : round_bytes env = Some [] -> reader_round ops env st = Ret (false, st).
Proof.
  unfold round_bytes, reader_round. destruct (re_stop env); [done|].
  destruct (re_poll env) as [e| | |]; try done; [by destruct (e =? EINTR)|].
  destruct (re_read env) as [[|x l]| |]; try done. by destruct (re_realloc env).
Qed.

(** A round that reads [ch]: the interrupt scan, then the packets. *)
Lemma round_ok env st ch c cap :
  round_bytes env = Some ch -> ch <> [] -> holds (rs_buf st) c -> cap = grown (pb_cap (rs_buf st)) (length c) ->
  Z.of_nat (length (c ++ ch)) <= 2 ^ cap -> cap < 31 ->
  exists pb, holds pb (c ++ ch) /\ pb_cap pb = cap /\
    reader_round ops env st =
    (t ← on_interrupts (intr_count ch) (re_async env) (rs_args st);
     '(pb, q, sent) ← process_packets (Z.to_nat (pb_size pb) + 1) (re_pkts env) pb
         (Nat.iter (intr_count ch) q_signal_interrupt (rs_queue st)) (rs_sent st);
     Ret (false, RState pb q t sent)).
Proof using Type.
  intros Hb Hne Hh Hcap Hroom H31. unfold round_bytes, reader_round in *.
  destruct (re_stop env); [done|]. destruct (re_poll env) as [e| | |]; try congruence;
    [destruct (e =? EINTR); congruence|].
  destruct (re_read env) as [[|x av]| |]; try done. destruct (re_realloc env); [|done].
  injection Hb as E. rewrite E.
  assert (Hfc : fill_cap (rs_buf st) = cap).
  { unfold fill_cap. pose proof Hh as (? & _ & -> & _). by rewrite Hcap. }
  assert (Htake : take (Z.to_nat (fill_room (rs_buf st))) ch = ch).
  { apply take_ge. unfold fill_room. rewrite Hfc. pose proof Hh as (? & _ & -> & _).
    rewrite length_app in Hroom. lia. }
  destruct (fill_ok (rs_buf st) c ch Hh ltac:(lia)) as (pb & Ef & Hh1 & _ & Hc1).
  rewrite Htake in Ef, Hh1. exists pb. split; [done|]. split; [by rewrite Hc1|]. rewrite Ef. csimpl.
  assert (0 < length ch)%nat by (destruct ch; simpl; [done|lia]).
  rewrite (proj2 (Z.eqb_neq _ _)), (proj2 (Z.ltb_ge _ _)) by lia.
  pose proof Hh1 as (rest & Hd & Hs & _). rewrite Hd. csimpl. rewrite Nat2Z.id.
  rewrite fmap_app, <- app_assoc, scan_interrupts_ok.
  2:{ rewrite Hs, blen_fmap, length_app. lia. }
  by destruct (on_interrupts _ _ _).
Qed.

Lemma round_interrupts env st ch c cap c' l x :
  round_bytes env = Some ch -> holds (rs_buf st) c -> recv (pb_cap (rs_buf st)) c [ch] = Some (cap, c', l) ->
  reader_round ops env st = Ret x ->
  exists t, on_interrupts (intr_count ch) (re_async env) (rs_args st) = Ret t.
Proof using Type.
  intros Hb Hh Hrecv E. destruct ch as [|b ch]; [by eexists|]. set (ch' := b :: ch) in *.
  set (cap1 := grown (pb_cap (rs_buf st)) (length c)).
  assert (Hfit : (2 ^ cap1 <? Z.of_nat (length (c ++ ch'))) || (31 <=? cap1) = false).
  { simpl in Hrecv. fold cap1 ch' in Hrecv. by destruct (_ || _). }
  bool_props. destruct Hfit as [Hroom H31].
  destruct (round_ok env st ch' c cap1 Hb ltac:(done) Hh eq_refl Hroom H31) as (pb & _ & _ & Er).
  rewrite Er in E. binv E. by eexists.
Qed.

Lemma busy_round env st ch c cap c' l t a :
  round_bytes env = Some ch -> ch <> [] -> holds (rs_buf st) c ->
  cap = grown (pb_cap (rs_buf st)) (length c) ->
  Z.of_nat (length (c ++ ch)) <= 2 ^ cap -> cap < 31 -> cut cap (c ++ ch) = Some (c', l) ->
  rep (rs_queue st) a -> accepting env ->
  on_interrupts (intr_count ch) (re_async env) (rs_args st) = Ret t ->
  exists pb' q' taken acks, reader_round ops env st = Ret (false, RState pb' q' t (rs_sent st ++ concat acks)) /\
    holds pb' c' /\ pb_cap pb' = cap /\ rep q' (aq_receive a (kept l taken) (intr_count ch)) /\
    length taken = length l /\ taken `sublist_of` [node_ok (re_pkts env)] /\
    Forall2 ack_for taken acks /\ (re_pkts env = [] -> acks = (fun _ => STR_ACK) <$> l).
Proof using Type PQS.
  intros Hb Hne Hh Hcap Hroom H31 Hcut Hr Hacc Ht.
  destruct (round_ok env st ch c cap Hb Hne Hh Hcap Hroom H31) as (pb & Hh1 & Hc1 & Er).
  assert (0 < length ch)%nat by (destruct ch; simpl; [done|lia]).
  destruct (process_packets_cut (re_pkts env) pb (c ++ ch) cap c' l
              (Nat.iter (intr_count ch) q_signal_interrupt (rs_queue st)) (aq_receive a [] (intr_count ch)) (rs_sent st))
    as (pb2 & q2 & taken & acks & E2 & Hh2 & Hc2 & Hr2 & Hacks); try done.
  { by apply signal_interrupts_rep. } { rewrite length_app. lia. }
  rewrite Er, Ht. csimpl. rewrite E2. csimpl.
  exists pb2, q2, taken, acks. split_and!; try done; [|by apply Hacks..].
  by rewrite aq_receive_twice, Nat.add_0_r in Hr2.
Qed.

(** The reader thread implements [recv]: whatever the socket delivers, as long as
    every read fits the buffer and no read ends short of or behind a packet's
    last byte, the packets are queued in the order of arrival and unchanged,
    except those whose node could not be allocated; rounds without data change
    nothing, each queued packet is answered by at most one ACK, and every
    interrupt character flags the queue and calls [on_interrupt] when that is
    enabled. *)
Lemma reader_loop_recv envs chunks st cap c cap' c' l t a :
  mapM round_bytes envs = Some chunks -> Forall accepting envs ->
  holds (rs_buf st) c -> pb_cap (rs_buf st) = cap -> recv cap c chunks = Some (cap', c', l) ->
  rep (rs_queue st) a -> all_interrupts envs (rs_args st) = Ret t ->
  exists pb' q' taken acks, reader_loop ops envs st = Ret (false, RState pb' q' t (rs_sent st ++ concat acks)) /\
    holds pb' c' /\ pb_cap pb' = cap' /\ rep q' (aq_receive a (kept l taken) (intr_count (concat chunks))) /\
    length taken = length l /\ taken `sublist_of` ((fun env => node_ok (re_pkts env)) <$> envs) /\
    Forall2 ack_for taken acks /\
    (Forall (fun env => re_pkts env = []) envs -> acks = (fun _ => STR_ACK) <$> l).
Proof using Type PQS.
  intros Hm. apply mapM_Some_1 in Hm. revert st cap c l t a.
  induction Hm as [|env ch envs chunks Henv Hm IH]; intros st cap c l t a Hacc Hh Hcap Hrecv Hr Ht.
  { simpl in *. simplify_eq. exists (rs_buf st), (rs_queue st), [], []. rewrite app_nil_r. simpl.
    rewrite aq_receive_nil. destruct st. split_and!; try done. }
  apply Forall_cons_1 in Hacc as [Ha Hacc]. simpl in Ht. rewrite Henv in Ht. binv Ht.
  destruct ch as [|b ch].
  - simpl in *. simp_outcome. subst. rewrite (idle_round _ _ Henv). csimpl.
    destruct (IH st (pb_cap (rs_buf st)) c l t a) as (pb & q & taken & acks & E & Hh1 & Hc1 & Hr1 & Hl1 & Hs1 & Hk1 & Hq1);
      try done.
    exists pb, q, taken, acks. split_and!; try done; [by apply sublist_cons|]. intros [_ H]%Forall_cons_1. by apply Hq1.
  - set (ch' := b :: ch) in *. simpl default in Hm0.
    set (cap1 := grown cap (length c)).
    assert (Hrecv' : (if (2 ^ cap1 <? Z.of_nat (length (c ++ ch'))) || (31 <=? cap1) then None
      else '(c, l) ← cut cap1 (c ++ ch'); '(cap, c, l') ← recv cap1 c chunks; Some (cap, c, l ++ l'))
      = Some (cap', c', l)) by exact Hrecv.
    destruct (_ || _) eqn:Eg in Hrecv'; [done|]. bool_props. destruct Eg as [Eg1 Eg2].
    destruct (cut cap1 (c ++ ch')) as [[c1 l1]|] eqn:Ecut; [|done]. simpl in Hrecv'.
    destruct (recv cap1 c1 chunks) as [[[cap2 c2] l2]|] eqn:Er; [|done]. simpl in Hrecv'. simplify_eq.
    destruct (busy_round env st ch' c cap1 c1 l1 x a)
      as (pb & q & taken & acks & E & Hh1 & Hc1 & Hr1 & Hl1 & Hs1 & Hk1 & Hq1); try done.
    destruct (IH (RState pb q x (rs_sent st ++ concat acks)) cap1 c1 l2 t (aq_receive a (kept l1 taken) (intr_count ch')))
      as (pb2 & q2 & taken2 & acks2 & E2 & Hh2 & Hc2 & Hr2 & Hl2 & Hs2 & Hk2 & Hq2); try done.
    exists pb2, q2, (taken ++ taken2), (acks ++ acks2). simpl reader_loop. rewrite E. csimpl. rewrite E2. split_and!; try done.
    + by rewrite concat_app, app_assoc.
    + rewrite aq_receive_twice, <- intr_count_app, <- kept_app in Hr2 by done. exact Hr2.
    + rewrite !length_app. lia.
    + by apply (sublist_app taken [_] taken2 _).
    + by apply Forall2_app.
    + intros [H1 H2]%Forall_cons_1. rewrite fmap_app. by rewrite Hq1, Hq2.
Qed.

(** *** Frames in chunks *)

Lemma recv_idle cap c chunks more : concat chunks = [] -> recv cap c (chunks ++ more) = recv cap c more.
Proof. induction chunks as [|[|x ch] chunks IH]; [done| |done]. apply IH. Qed.

(** The beginning of a frame behind junk, without its last two bytes. *)
Lemma scan_begun junk s n :
  36 ∉ junk -> 35 ∉ s -> (0 < n < length s + 3)%nat ->
  scan_contents (junk ++ take n (frame s)) = Partial (take n (frame s)).
Proof.
  intros Hj Hs Hn. destruct n as [|n]; [lia|]. unfold scan_contents, frame. csimpl.
  rewrite index_of_app by done. csimpl. change (36 =? 36) with true. csimpl.
  replace (Z.to_nat _) with (length junk) by lia. rewrite drop_app_exact. csimpl.
  change (36 =? 35) with false. csimpl.
  destruct (decide (n <= length s)%nat).
  - rewrite take_app_le by done. rewrite index_of_None; [done|].
    intros Hin. apply Hs. apply elem_of_take in Hin as (i & ? & _). by eapply list_elem_of_lookup_2.
  - rewrite take_app_ge by lia. rewrite index_of_app by done.
    replace (n - length s)%nat with 1%nat by lia. csimpl. change (35 =? 35) with true. csimpl.
    unfold CSUM_SIZE. rewrite length_app. simpl length. by rewrite (proj2 (Z.ltb_lt _ _)) by lia.
Qed.

Lemma cut_none cap c : 36 ∉ c -> cut cap c = Some ([], []).
Proof. intros. unfold cut, scan_contents. by rewrite index_of_None. Qed.
Lemma cut_begun cap junk s n :
  36 ∉ junk -> 35 ∉ s -> (0 < n < length s + 3)%nat ->
  cut cap (junk ++ take n (frame s)) = Some (take n (frame s), []).
Proof. intros. unfold cut. by rewrite scan_begun. Qed.
Lemma cut_whole cap junk s :
  36 ∉ junk -> 35 ∉ s -> Z.of_nat (length (frame s)) < 2 ^ cap ->
  cut cap (junk ++ frame s) = Some ([], [packet_of s]).
Proof.
  intros Hj Hs Hl. unfold cut. rewrite <- (app_nil_r (frame s)), scan_frame, app_nil_r by done.
  pose proof (length_frame s). rewrite (proj2 (Z.eqb_eq _ _)), (proj2 (Z.ltb_lt _ _)) by lia. done.
Qed.

(** The reads [chunks] fit the room they are given, in a buffer of [2 ^ cap] bytes
    that holds [h] bytes of a packet, with [j] bytes before its [$] still to
    come; the capacity afterwards. *)
Fixpoint fits (cap : Z) (h j : nat) (chunks : list bytes) : option Z :=
  match chunks with
  | [] => Some cap
  | [] :: chunks => fits cap h j chunks
  | ch :: chunks =>
      let cap := grown cap h in
      let p := (h + length ch)%nat in
      if (2 ^ cap <? Z.of_nat p) || (31 <=? cap) then None
      else fits cap (p - j) (j - p) chunks
  end.

Lemma fits_idle cap h j chunks : concat chunks = [] -> fits cap h j chunks = Some cap.
Proof. induction chunks as [|[|x ch] chunks IH]; done. Qed.

(** One round of [fits], and the round of [recv] it allows. *)
Lemma fits_cons cap c j ch chunks cap' :
  ch <> [] -> fits cap (length c) j (ch :: chunks) = Some cap' ->
  let cap1 := grown cap (length c) in
  fits cap1 (length (c ++ ch) - j) (j - length (c ++ ch)) chunks = Some cap' /\
  forall more, recv cap c (ch :: more) =
    ('(c, l) ← cut cap1 (c ++ ch); '(cap, c, l') ← recv cap1 c more; Some (cap, c, l ++ l')).
Proof.
  intros Hne H cap1. destruct ch as [|x ch]; [done|]. simpl in H. fold cap1 in H.
  rewrite length_app. destruct (_ || _) eqn:E in H; [done|]. split; [exact H|].
  intros more. simpl recv. fold cap1. rewrite length_app. simpl length. by rewrite E.
Qed.

Lemma recv_frame s chunks more : forall cap cap' c junk,
  c ++ concat chunks = junk ++ frame s -> c = [] \/ junk = [] -> concat chunks <> [] ->
  36 ∉ junk -> 35 ∉ s -> fits cap (length c) (length junk) chunks = Some cap' ->
  Z.of_nat (length (frame s)) < 2 ^ cap' ->
  (forall k, c ++ concat (take k chunks) <> junk ++ take (length s + 3) (frame s)) ->
  recv cap c (chunks ++ more) =
  ('(cap, c, l) ← recv cap' [] more; Some (cap, c, packet_of s :: l)).
Proof.
  induction chunks as [|ch chunks IH]; intros cap cap' c junk Hw Hcj Hne Hj Hs Hfit Hl Hcut; [done|].
  destruct (decide (ch = [])) as [->|Hch].
  { apply (IH cap cap' c junk); try done. intros k. apply (Hcut (S k)). }
  destruct (fits_cons _ _ _ _ _ _ Hch Hfit) as [Hfit1 Hrecv].
  set (cap1 := grown cap (length c)) in *.
  simpl in Hw. rewrite app_assoc in Hw. pose proof (f_equal length Hw) as Hlen. rewrite !length_app in Hlen.
  pose proof (length_frame s) as Hf. rewrite <- app_comm_cons, Hrecv.
  assert (Hcut' : forall k, (c ++ ch) ++ concat (take k chunks) <> junk ++ take (length s + 3) (frame s)).
  { intros k. rewrite <- app_assoc. apply (Hcut (S k)). }
  rewrite <- length_app in Hlen. set (p := c ++ ch) in *.
  destruct (decide (concat chunks = [])) as [He|He].
  { rewrite (fits_idle _ _ _ _ He) in Hfit1. injection Hfit1 as ->.
    rewrite He, app_nil_r in Hw. rewrite Hw, cut_whole by (done || lia). simpl. by rewrite recv_idle. }
  assert (Hpos : (0 < length (concat chunks))%nat) by (destruct (concat chunks); simpl; [done|lia]).
  destruct (decide (length p <= length junk)%nat) as [Hle|Hgt].
  - assert (Hp : p = take (length p) junk).
    { rewrite <- (take_app_exact p (concat chunks)) at 1. by rewrite Hw, take_app_le. }
    assert (Hjp : junk = p ++ drop (length p) junk) by (rewrite Hp at 1; by rewrite take_drop).
    rewrite cut_none. 2:{ intros Hin. apply Hj. rewrite Hjp. apply elem_of_app. by left. }
    simpl. rewrite (IH cap1 cap' [] (drop (length p) junk)); try done; [| |by left|..].
    + destruct (recv cap' [] more) as [[[? ?] ?]|]; done.
    + rewrite Hjp, <- app_assoc in Hw. by apply app_inv_head in Hw.
    + intros Hin. apply Hj. rewrite Hjp. apply elem_of_app. by right.
    + rewrite length_drop. by replace (length p - length junk)%nat with O in Hfit1 by lia.
    + intros k E. apply (Hcut' k). simpl in E. by rewrite E, app_assoc, <- Hjp.
  - set (n := (length p - length junk)%nat).
    assert (Hp : p = junk ++ take n (frame s)).
    { rewrite <- (take_app_exact p (concat chunks)) at 1. rewrite Hw. rewrite take_app_ge by lia. done. }
    assert (Hn : (n <> length s + 3)%nat).
    { intros E. apply (Hcut' 0%nat). simpl. rewrite app_nil_r, Hp. by rewrite E. }
    rewrite Hp, cut_begun by (done || lia). simpl.
    rewrite (IH cap1 cap' (take n (frame s)) []); try done; [| |by right|..].
    + destruct (recv cap' [] more) as [[[? ?] ?]|]; done.
    + rewrite Hp, <- app_assoc in Hw. by apply app_inv_head in Hw.
    + apply not_elem_of_nil.
    + rewrite length_take, Hf. replace (n `min` _)%nat with n by lia.
      by replace (length junk - length p)%nat with O in Hfit1 by lia.
    + intros k E. apply (Hcut' k). rewrite app_nil_l in E. by rewrite Hp, <- app_assoc, E.
Qed.

(** *** Termination of the inner loop, and the way out *)

Lemma memchr_go_inv l c n i j : memchr_go l c n i = Ret (Some j) -> i <= j < i + Z.of_nat n.
Proof.
  revert l i. induction n as [|n IH]; intros l i H; [by destruct l|].
  destruct l as [|[x|] l]; simpl in H; [done| |done]. destruct (x =? c); [simplify_eq; lia|].
  apply IH in H. lia.
Qed.
Lemma memchr_inv d c n j : memchr d c n = Ret (Some j) -> 0 <= j < Z.max n 0.
Proof. intros H%memchr_go_inv. lia. Qed.

Lemma is_complete_inv pb pb' :
  pktbuf_is_complete pb = Ret (true, pb') -> 2 <= pb_end_pos pb' /\ pb_end_pos pb' <= pb_size pb' <= pb_size pb.
Proof.
  unfold pktbuf_is_complete. intros H. binv H. binv Hk.
  destruct x0 as [h|]; [|done]. apply memchr_inv in Hm0. binv Hk0. binv Hk. binv Hk0.
  destruct x2 as [k|]; [|done]. apply memchr_inv in Hm3. unfold CSUM_SIZE in Hk.
  destruct (pb_size x0 <? k + 2) eqn:Es; [done|]. apply Z.ltb_ge in Es. simp_outcome. subst. simpl.
  destruct (0 <? h); [binv Hm1; simp_outcome; subst; simpl in *; lia|]. simp_outcome. subst. lia.
Qed.

Lemma pop_packet_inv pb ok p pb' :
  pktbuf_pop_packet pb ok = Ret (p, pb') -> 2 <= pb_end_pos pb ->
  is_Some p /\ pb_size pb' = pb_size pb - (pb_end_pos pb + 1).
Proof.
  unfold pktbuf_pop_packet. intros H He. rewrite (proj2 (Z.eqb_neq _ _)) in H by lia.
  do 6 (binv H; rename Hk into H). simp_outcome. subst. eauto.
Qed.

Lemma halts_bvals l : halts (bvals l).
Proof. induction l as [|[x|] l IH]; simpl; auto with stub. apply halts_bind; auto with stub. Qed.
Lemma halts_bslice b off n : halts (bslice b off n).
Proof. unfold bslice. by destruct (_ && _). Qed.
Lemma halts_bwrite b off src : halts (bwrite b off src).
Proof. unfold bwrite. by destruct (_ && _). Qed.
Lemma halts_bget b off : halts (bget b off).
Proof. unfold bget. by destruct (if 0 <=? off then _ else _) as [[x|]|]. Qed.
Lemma halts_memmove b d s n : halts (memmove b d s n).
Proof. unfold memmove. apply halts_bind; [apply halts_bslice|intros; apply halts_bwrite]. Qed.
Lemma halts_memchr b c n : halts (memchr b c n).
Proof.
  unfold memchr. generalize 0, (Z.to_nat n). intros i k. revert b i.
  induction k as [|k IH]; intros [|[x|] b] i; simpl; auto with stub. destruct (x =? c); auto with stub.
Qed.
Lemma halts_shl1 cap : halts (shl1 cap).
Proof. unfold shl1. by destruct (_ && _). Qed.
#[local] Hint Resolve halts_bslice halts_bwrite halts_bget halts_memmove halts_memchr halts_shl1 : stub.
#[local] Hint Extern 1 (halts (bput _ _ _)) => apply halts_bwrite : stub.
#[local] Hint Extern 1 (halts (bstore _ _ _)) => apply halts_bwrite : stub.

Ltac halt_step :=
  repeat first [ progress auto with stub
               | apply halts_bind; [|intros]
               | match goal with |- halts (match ?x with _ => _ end) => destruct x end ].

Lemma halts_is_complete pb : halts (pktbuf_is_complete pb).
Proof. unfold pktbuf_is_complete. halt_step. Qed.
Lemma halts_pop_packet pb ok : halts (pktbuf_pop_packet pb ok).
Proof. unfold pktbuf_pop_packet. halt_step. Qed.
Lemma halts_fill pb ok ev : halts (pktbuf_fill_from_file pb ok ev).
Proof. unfold pktbuf_fill_from_file. halt_step. Qed.

(** The inner loop ends, and only adds packets to the queue. *)
Lemma process_packets_ends fuel : forall envs pb q sent a,
  rep q a -> pb_size pb < Z.of_nat fuel -> (0 < fuel)%nat ->
  halts (process_packets fuel envs pb q sent) /\
  forall r, process_packets fuel envs pb q sent = Ret r -> exists l, rep r.1.2 (aq_receive a l 0).
Proof using Type PQS.
  induction fuel as [|fuel IH]; intros envs pb q sent a Hr Hsz Hf; [lia|]. simpl.
  pose proof (halts_is_complete pb) as Hc.
  destruct (pktbuf_is_complete pb) as [[[] pb1]| | |] eqn:Ec; simpl; try done.
  2:{ split; [done|]. intros r ?. simp_outcome. subst. exists []. by rewrite aq_receive_nil. }
  apply is_complete_inv in Ec as [He Hs1].
  pose proof (halts_pop_packet pb1 (pe_calloc (default quiet_pkt (head envs)))) as Hp.
  destruct (pktbuf_pop_packet pb1 _) as [[pkt pb2]| | |] eqn:Ep; simpl; try done.
  apply pop_packet_inv in Ep as [[p ->] Hs2]; [|done]. simpl.
  assert (Hpush : exists b q' a', q_push q p (pe_node (default quiet_pkt (head envs))) = Ret (b, q') /\ rep q' a' /\
            exists l, a' = aq_receive a l 0).
  { destruct (pe_node _).
    - destruct (q_push_spec q a p Hr) as (q' & E & Hr'). exists true, q', (aq_push a p). split_and!; try done.
      exists [p]. unfold aq_receive, aq_push. simpl. by rewrite orb_false_r.
    - destruct (q_push_fail_spec q a p Hr) as (q' & E & Hr'). exists false, q', a. split_and!; try done.
      exists []. by rewrite aq_receive_nil. }
  destruct Hpush as (b & q' & a' & -> & Hr' & l & ->). csimpl.
  edestruct (IH (tail envs) pb2 q') as [H1 H2]; [exact Hr'|lia|lia|]. split; [apply H1|].
  intros r E. destruct (H2 r E) as [l2 Hl]. rewrite aq_receive_twice in Hl. by exists (l ++ l2).
Qed.

Lemma fill_inv pb ok ev n pb' :
  pktbuf_fill_from_file pb ok ev = Ret (n, pb') ->
  match ev with
  | ReadData avail => 0 <= n /\ (n = 0 <-> avail = [])
  | ReadEof => n = 0
  | ReadErr _ => n = -1
  end.
Proof.
  unfold pktbuf_fill_from_file. intros H. binv H. apply outcome_bind_inv in Hk as (u & Hle & H).
  unfold cassert in Hle. destruct (pb_size pb <=? x) eqn:Ele; [|done]. apply Z.leb_le in Ele. clear Hle u.
  binv H. rename x0 into pb1. apply outcome_bind_inv in Hk as (n1 & Hn1 & H).
  assert (Hroom : 0 < n1 - pb_size pb1).
  { unfold shl1 in Hm, Hn1. destruct (_ && _) eqn:E1 in Hm; [|done]. simp_outcome. subst x.
    destruct (_ =? _) eqn:Eq in Hm0.
    - binv Hm0. simp_outcome. subst pb1. simpl in *. apply Z.eqb_eq in Eq.
      destruct (_ && _) in Hn1; [|done]. simp_outcome. subst n1.
      rewrite Z.pow_add_r by (bool_props; lia). rewrite Eq in *.
      assert (0 < 2 ^ pb_cap pb) by (apply Z.pow_pos_nonneg; bool_props; lia). lia.
    - simp_outcome. subst pb1. apply Z.eqb_neq in Eq. destruct (_ && _) in Hn1; [|done].
      simp_outcome. subst n1. lia. }
  destruct ev as [avail| |e]; [|simp_outcome; by simplify_eq..].
  binv H. binv Hk. injection Hk0 as <- _. split; [lia|]. split.
  - intros E. destruct avail as [|y l]; [done|]. destruct (Z.to_nat (n1 - pb_size pb1)) eqn:En; [lia|]. simpl in E. lia.
  - intros ->. by rewrite take_nil.
Qed.

Definition interrupt_halts : Prop := forall f t, op_on_interrupt ops = Some f -> halts (f t).

Lemma scan_interrupts_ends n : forall i data start async q t a,
  rep q a ->
  (interrupt_halts -> halts (scan_interrupts ops n i data start async q t)) /\
  forall r, scan_interrupts ops n i data start async q t = Ret r -> exists k, rep r.1 (aq_receive a [] k).
Proof using Type PQS.
  induction n as [|n IH]; intros i data start async q t a Hr; simpl.
  { split; [done|]. intros r ?. simp_outcome. subst. exists O. by rewrite aq_receive_nil. }
  pose proof (halts_bget data (start + i)) as Hb.
  destruct (bget data (start + i)) as [c| | |]; simpl; try done.
  destruct (c =? INTR_CHAR); [|by apply IH].
  assert (Hi : interrupt_halts -> halts (match head async with
     | Some true => match op_on_interrupt ops with Some f => f t | None => Ret t end | _ => Ret t end)).
  { intros H. unfold interrupt_halts in H. destruct (head async) as [[]|]; try done.
    destruct (op_on_interrupt ops); try done. by apply H. }
  apply q_interrupt_spec in Hr.
  split.
  - intros H. apply halts_bind; [by apply Hi|]. intros t1 _. by eapply IH.
  - intros r E. binv E. destruct (IH (i + 1) data start (tail async) _ x _ Hr) as [_ Hk2].
    destruct (Hk2 r Hk) as [k Hrep]. exists (S k).
    replace (aq_receive a [] (S k)) with (aq_receive (aq_signal_interrupt a) [] k); [done|].
    unfold aq_receive, aq_signal_interrupt. simpl. by rewrite orb_true_r.
Qed.

(** A computation that does not return: it does not loop either. *)
Ltac stuck H :=
  try (split; [let HI := fresh in intros HI; first [by intros [=] | by destruct (H HI eq_refl)] | by intros ?? [=]]).

Lemma reader_round_ends env st a :
  rep (rs_queue st) a ->
  (interrupt_halts -> halts (reader_round ops env st)) /\
  forall x st', reader_round ops env st = Ret (x, st') ->
    x = leaves env /\ exists l n, rep (rs_queue st') (aq_receive a l n).
Proof using Type PQS.
  intros Hr. unfold reader_round, leaves.
  assert (Hsame : exists l n, rep (rs_queue st) (aq_receive a l n)).
  { exists [], O. by rewrite aq_receive_nil. }
  destruct (re_stop env); [split; [done|intros; simp_outcome; by simplify_eq]|].
  destruct (re_poll env); try (split; [done|intros; simp_outcome; by simplify_eq]).
  pose proof (halts_fill (rs_buf st) (re_realloc env) (re_read env)) as Hf.
  destruct (pktbuf_fill_from_file _ _ _) as [[n pb]| | |] eqn:Ef; simpl; try done. clear Hf.
  apply fill_inv in Ef.
  destruct (n =? 0) eqn:E0.
  { apply Z.eqb_eq in E0. split; [done|]. intros x st' E. simp_outcome. simplify_eq. simpl. split; [|done].
    destruct (re_read env); [|done|done]. symmetry. by apply bool_decide_eq_true, Ef. }
  apply Z.eqb_neq in E0.
  destruct (n <? 0) eqn:En; [apply Z.ltb_lt in En|apply Z.ltb_ge in En].
  { destruct (re_read env); [lia|lia|]. split; [done|]. intros x st' E. simp_outcome. by simplify_eq. }
  destruct (re_read env) as [avail| |]; [|lia|lia].
  assert (Hav : bool_decide (avail = []) = false) by (apply bool_decide_eq_false; intros H; apply E0, Ef, H).
  rewrite Hav. destruct (pb_data pb) as [d|]; simpl; [|split; done].
  destruct (scan_interrupts_ends (Z.to_nat n) 0 d (pb_size pb - n) (re_async env) (rs_queue st) (rs_args st) a Hr) as [Hs1 Hs2].
  destruct (scan_interrupts _ _ _ _ _ _ _ _) as [[q t]| | |]; simpl; stuck Hs1.
  destruct (Hs2 _ eq_refl) as [k Hk]. simpl in Hk.
  destruct (process_packets_ends (Z.to_nat (pb_size pb) + 1) (re_pkts env) pb q (rs_sent st) _ Hk ltac:(lia) ltac:(lia))
    as [Hp1 Hp2].
  destruct (process_packets _ _ _ _ _) as [[[pb' q'] sent']| | |]; simpl; stuck (fun _ : interrupt_halts => Hp1).
  split; [done|]. intros x st' E. simp_outcome. simplify_eq. split; [done|]. simpl.
  destruct (Hp2 _ eq_refl) as [l Hl]. rewrite aq_receive_twice in Hl. by eexists _, _.
Qed.

Lemma reader_loop_ends envs : forall st a,
  rep (rs_queue st) a ->
  (interrupt_halts -> halts (reader_loop ops envs st)) /\
  forall x st', reader_loop ops envs st = Ret (x, st') ->
    x = existsb leaves envs /\ exists l n, rep (rs_queue st') (aq_receive a l n).
Proof using Type PQS.
  induction envs as [|env envs IH]; intros st a Hr; simpl.
  { split; [done|]. intros x st' E. simp_outcome. simplify_eq. split; [done|].
    exists [], O. by rewrite aq_receive_nil. }
  destruct (reader_round_ends env st a Hr) as [H1 H2].
  destruct (reader_round ops env st) as [[x st1]| | |]; simpl; stuck H1.
  destruct (H2 _ _ eq_refl) as [-> (l & n & Hr1)].
  destruct (leaves env); simpl.
  { split; [done|]. intros x st' E. simp_outcome. simplify_eq. split; [done|]. by eexists _, _. }
  destruct (IH st1 _ Hr1) as [H3 H4]. split; [done|]. intros x st' E.
  destruct (H4 _ _ E) as [-> (l2 & n2 & Hr2)]. split; [done|]. rewrite aq_receive_twice in Hr2. by eexists _, _.
Qed.

Lemma init_pktbuf : exists pb, pktbuf_init true = Ret (true, pb) /\ holds pb [] /\ pb_cap pb = 10.
Proof.
  eexists. split; [reflexivity|]. split; [|done]. exists (zeroed 1024). split_and!; try done.
Qed.

(** Packets on the wire: what comes before one (acknowledgements, interrupt
    characters), its payload, and the reads it arrives in. *)
Record arrival := Arrival { ar_junk : bytes; ar_payload : bytes; ar_chunks : list bytes }.
Definition well_cut (r : arrival) : Prop :=
  concat (ar_chunks r) = ar_junk r ++ frame (ar_payload r) /\ 36 ∉ ar_junk r /\ 35 ∉ ar_payload r /\
  forall k, concat (take k (ar_chunks r)) <> ar_junk r ++ take (length (ar_payload r) + 3) (frame (ar_payload r)).

(** All their reads fit, and none of the packets fills the buffer to its last
    byte; the capacity at the end. *)
Fixpoint all_fit (cap : Z) (rs : list arrival) : option Z :=
  match rs with
  | [] => Some cap
  | r :: rs =>
      cap ← fits cap 0 (length (ar_junk r)) (ar_chunks r);
      if Z.of_nat (length (frame (ar_payload r))) <? 2 ^ cap then all_fit cap rs else None
  end.

Lemma recv_arrivals rs : forall cap cap',
  Forall well_cut rs -> all_fit cap rs = Some cap' ->
  recv cap [] (concat (ar_chunks <$> rs)) = Some (cap', [], (fun r => packet_of (ar_payload r)) <$> rs).
Proof.
  induction rs as [|r rs IH]; intros cap cap' Hrs Hfit; [by injection Hfit as ->|].
  apply Forall_cons_1 in Hrs as [(Hc & Hj & Hs & Hcut) Hrs].
  unfold all_fit in Hfit. fold all_fit in Hfit.
  destruct (fits cap 0 _ _) as [cap1|] eqn:Ef; [|done]. cbn [mbind option_bind] in Hfit. csimpl.
  destruct (Z.ltb_spec (Z.of_nat (length (frame (ar_payload r)))) (2 ^ cap1)); [|done].
  rewrite (recv_frame (ar_payload r) (ar_chunks r) _ cap cap1 [] (ar_junk r)); try done.
  - by rewrite (IH _ _ Hrs Hfit).
  - by left.
  - rewrite Hc. unfold frame. by destruct (ar_junk r).
Qed.

(** ** Properties *)

(** C6 Packets split over any number of reads: as long as the client waits for each
    packet to be taken before sending the next, no read ends right before a
    packet's last byte, the unchecked [calloc] of each packet and the [realloc]
    of the buffer succeed, every read fits the room the buffer offers it (1024 bytes
    at first, doubled whenever it is full, up to [2 ^ 30]) and no packet fills the
    buffer to its last byte, every packet whose queue node can be allocated
    reaches the queue exactly as it was framed, in order, whatever stands between
    the packets; one whose node cannot be allocated is dropped and not
    acknowledged. A queued packet is acknowledged once or not at all, and exactly
    once when nobody holds [send_mutex] and the socket takes it. *)
Theorem framed_stream_delivered rs envs q a t t' :
  Forall well_cut rs -> is_Some (all_fit 10 rs) -> mapM round_bytes envs = Some (concat (ar_chunks <$> rs)) ->
  Forall accepting envs -> rep q a -> all_interrupts envs t = Ret t' ->
  exists pb q' taken acks, socket_reader ops true envs q t = Ret (false, RState pb q' t' (concat acks)) /\
    rep q' (aq_receive a (kept ((fun r => packet_of (ar_payload r)) <$> rs) taken)
              (intr_count (concat (concat (ar_chunks <$> rs))))) /\
    length taken = length rs /\ taken `sublist_of` ((fun env => node_ok (re_pkts env)) <$> envs) /\
    Forall2 ack_for taken acks /\
    (Forall (fun env => re_pkts env = []) envs -> acks = (fun _ => STR_ACK) <$> rs).
Proof using Type PQS.
  intros Hrs [cap Hfit] Hm Hacc Hr Ht. unfold socket_reader. destruct init_pktbuf as (pb & -> & Hh & Hcap). csimpl.
  destruct (reader_loop_recv envs _ (RState pb q t []) 10 [] cap [] _ t' a Hm Hacc Hh Hcap (recv_arrivals rs 10 cap Hrs Hfit) Hr Ht)
    as (pb' & q' & taken & acks & E & _ & _ & Hr' & Hl & Hsub & Hk & Hq).
  rewrite E. exists pb', q', taken, acks. split_and!; try done.
  - by rewrite Hl, length_fmap.
  - intros H. by rewrite (Hq H), <- list_fmap_compose.
Qed.

(** C11 The reader thread always gets out of the way: it leaves its loop in exactly
    the rounds that see a stop request, the end of the stream, or an error other
    than "try again"; whenever it has left, the queue is shut down; while it runs
    it only adds packets and interrupts; and its loops cannot spin as long as
    [on_interrupt] returns. *)
Theorem reader_ends_with_shutdown envs q a t :
  rep q a ->
  (interrupt_halts -> halts (socket_reader ops true envs q t)) /\
  forall x st, socket_reader ops true envs q t = Ret (x, st) ->
    x = existsb leaves envs /\
    exists l n, rep (rs_queue st)
      (if x then aq_signal_shutdown (aq_receive a l n) else aq_receive a l n).
Proof using Type PQS.
  intros Hr. unfold socket_reader. destruct init_pktbuf as (pb & -> & _). csimpl.
  destruct (reader_loop_ends envs (RState pb q t []) a Hr) as [H1 H2].
  destruct (reader_loop ops envs _) as [[x st]| | |]; simpl; stuck H1.
  destruct (H2 _ _ eq_refl) as [-> (l & n & Hr')]. split.
  - intros _. by destruct (existsb leaves envs).
  - intros x st' E. destruct (existsb leaves envs); simp_outcome; simplify_eq; (split; [done|]); exists l, n;
      [by apply q_shutdown_spec|done].
Qed.
End Spec.
