(* ===== verification/System.v ===== *)
(** * The two threads together: socket to reply

    The reader thread and the main loop share the queue. [sys_run] interleaves
    their steps in any order. A step of the reader is one pass through its loop;
    the main thread takes a packet from the queue, handles it, or clears an
    interrupt, and the reader may do any number of rounds in between, also while
    a packet is being handled. Each operation on the queue takes its lock
    (PktSync.v), so it is atomic. What [on_interrupt] does to a target that is
    running belongs to the outcome of its [cont] ([emu_cont] has an argument for
    it), so the reader changes the target nowhere else. *)

From S2P Require Import Prelude CMem CFormat Translate Packet PktQueue RegBuf Conn Target RegHandlers MemHandlers QueryHandlers Stub Reader.

Record sys (T Q : Type) := Sys {
  sys_buf : pktbuf_t;
  sys_queue : Q;
  sys_world : world T;
  sys_busy : option packet_t;  (* what the main thread is handling *)
  sys_acks : bytes             (* what the reader thread sent *)
}.
Arguments Sys {T Q}.
Arguments sys_buf {T Q}.
Arguments sys_queue {T Q}.
Arguments sys_world {T Q}.
Arguments sys_busy {T Q}.
Arguments sys_acks {T Q}.

Section System.
Context {T : Type} (ops : target_ops T) (arch : arch_info_t).
Context {Q : Type} `{PQ : PacketQueue Q}.

(** One step of one of the threads. A round of the reader is labelled with the
    bytes it read and with whether there was memory for a queue node. The
    [async_io] flag is only set while the main thread is busy. *)
Inductive sys_step : list (bytes * bool) -> sys T Q -> sys T Q -> Prop :=
| reader_steps env ch s st' :
    round_bytes env = Some ch -> accepting env -> (sys_busy s = None -> re_async env = []) ->
    reader_round ops env (RState (sys_buf s) (sys_queue s) (w_args (sys_world s)) (sys_acks s)) = Ret (false, st') ->
    sys_step [(ch, node_ok (re_pkts env))] s
      (Sys (rs_buf st') (rs_queue st') (sys_world s) (sys_busy s) (rs_sent st'))
| main_takes s p q' :
    sys_busy s = None -> q_pop (sys_queue s) = Ret (Got p, q') ->
    sys_step [] s (Sys (sys_buf s) q' (sys_world s) (Some p) (sys_acks s))
| main_handles s p w' :
    sys_busy s = Some p -> handle_packet ops arch p (sys_world s) = Ret (Continue, w') ->
    sys_step [] s (Sys (sys_buf s) (sys_queue s) w' None (sys_acks s))
| main_wakes s q' :
    sys_busy s = None -> q_pop (sys_queue s) = Ret (Null, q') -> q_is_shutdown q' = false ->
    sys_step [] s (Sys (sys_buf s) (q_check_interrupt q').2 (sys_world s) None (sys_acks s)).

(** Any number of steps, in the order they happen, and their labels. *)
Inductive sys_run (s0 : sys T Q) : list (bytes * bool) -> sys T Q -> Prop :=
| run_start : sys_run s0 [] s0
| run_more tr lab s s' : sys_run s0 tr s -> sys_step lab s s' -> sys_run s0 (tr ++ lab) s'.

(** The main thread's steps are those of [gdbstub_run]'s loop. *)
Lemma run_iter_steps s0 tr s w' q' :
  sys_run s0 tr s -> sys_busy s = None ->
  run_iter ops arch (sys_world s) (sys_queue s) = Ret (Continue, w', q') ->
  sys_run s0 tr (Sys (sys_buf s) q' w' None (sys_acks s)).
Proof.
  intros Hrun Hb E. unfold run_iter in E. destruct (q_pop (sys_queue s)) as [[r q1]| | |] eqn:Ep; simpl in E; try done.
  destruct r as [| |p]; [done| |].
  - destruct (q_is_shutdown q1) eqn:Es; [done|]. pose proof (main_wakes s q1 Hb Ep Es) as Hs.
    destruct (q_check_interrupt q1) as [b q2]. injection E as <- <-. rewrite <- (app_nil_r tr). by eapply run_more.
  - binv E. destruct x as [r w1]. injection Hk as -> -> ->.
    pose proof (main_takes s p q' Hb Ep) as H1. rewrite <- (app_nil_r tr), <- (app_nil_r (tr ++ [])).
    eapply run_more; [by eapply run_more|]. by apply (main_handles (Sys _ q' _ (Some p) _) p w').
Qed.

Context (rep : Q -> aqueue -> Prop) `{PQS : !PacketQueueSpec Q rep}.
#[local] Set Default Proof Using "Type PQS".

Lemma recv_app cap c k1 k2 :
  recv cap c (k1 ++ k2) =
  ('(cap1, c1, l1) ← recv cap c k1; '(cap2, c2, l2) ← recv cap1 c1 k2; Some (cap2, c2, l1 ++ l2)).
Proof.
  revert cap c. induction k1 as [|[|x ch] k1 IH]; intros cap c; [|apply IH|].
  - simpl. by destruct (recv cap c k2) as [[[? ?] ?]|].
  - simpl. destruct (_ || _); [done|]. destruct (cut _ _) as [[c1 l1]|]; [|done]. simpl.
    rewrite IH. destruct (recv _ c1 k1) as [[[? ?] ?]|]; [|done]. simpl.
    destruct (recv _ _ k2) as [[[? ?] ?]|]; [|done]. simpl. by rewrite app_assoc.
Qed.

(** What a run has come to, given the packets [l] in what was read so far. *)
Record progress (s0 s : sys T Q) (oks : list bool) (cap : Z) (c : bytes) (l : list packet_t) : Prop := Progress {
  pr_buf : holds (sys_buf s) c;
  pr_cap : pb_cap (sys_buf s) = cap;
  pr_split : exists taken served pending intr, length taken = length l /\ taken `sublist_of` oks /\
    kept l taken = served ++ option_list (sys_busy s) ++ pending /\
    rep (sys_queue s) (AQueue pending false intr) /\
    serve ops arch (sys_world s0) served = Ret (Continue, sys_world s, [])
}.

Lemma reader_progress s0 s oks ch cap c l cap' c' l' env st' :
  progress s0 s oks cap c l -> recv cap c [ch] = Some (cap', c', l') ->
  round_bytes env = Some ch -> accepting env ->
  reader_round ops env (RState (sys_buf s) (sys_queue s) (w_args (sys_world s)) (sys_acks s)) = Ret (false, st') ->
  progress s0 (Sys (rs_buf st') (rs_queue st') (sys_world s) (sys_busy s) (rs_sent st'))
    (oks ++ [node_ok (re_pkts env)]) cap' c' (l ++ l').
Proof.
  intros [Hh Hcap (taken & served & pending & intr & Hlen & Hsub & Hl & Hr & Hs)] Hrecv Hb Hacc E.
  subst cap. destruct (round_interrupts ops env
    (RState (sys_buf s) (sys_queue s) (w_args (sys_world s)) (sys_acks s)) ch c cap' c' l' _ Hb Hh Hrecv E) as [t Et].
  destruct (reader_loop_recv ops rep [env] [ch] (RState (sys_buf s) (sys_queue s) (w_args (sys_world s)) (sys_acks s))
              (pb_cap (sys_buf s)) c cap' c' l' t (AQueue pending false intr)) as (pb & q & taken' & acks & E2 & Hh2 & Hc2 & Hr2 & Hlen' & Hsub' & _).
  - simpl. by rewrite Hb.
  - by repeat constructor.
  - done.
  - done.
  - done.
  - exact Hr.
  - cbn [all_interrupts]. rewrite Hb. simpl in *. by rewrite Et.
  - simpl in E2. rewrite E in E2. csimpl. simp_outcome. injection E2 as ->. simpl in *.
    split; try done. exists (taken ++ taken'), served, (pending ++ kept l' taken'),
      (intr || negb (intr_count (ch ++ []) =? 0)%nat).
    split_and!; try done.
    + rewrite !length_app. lia.
    + by apply sublist_app.
    + rewrite kept_app by done. by rewrite Hl, <- !app_assoc.
Qed.

Lemma main_progress s0 s s' oks cap c l :
  progress s0 s oks cap c l -> sys_step [] s s' -> progress s0 s' oks cap c l.
Proof.
  intros [Hh Hcap (taken & served & pending & intr & Hlen & Hsub & Hl & Hr & Hs)] Hstep.
  inversion Hstep as [|s1 p q' Hb Ep|s1 p w' Hb E|s1 q' Hb Ep Esd]; subst; (split; [done|done|]);
    exists taken; rewrite Hb in Hl; simpl in Hl |- *.
  - destruct (q_pop_spec _ _ Hr) as (q1 & Ep1 & Hr1). rewrite Ep in Ep1. unfold aq_pop in *. simpl in *.
    destruct pending as [|p1 pending]; [by destruct intr|]. injection Ep1 as -> ->.
    by exists served, pending, intr.
  - exists (served ++ [p]), pending, intr. rewrite <- app_assoc. split_and!; try done.
    rewrite (serve_snoc _ _ _ _ _ _ Hs), E. done.
  - destruct (q_pop_spec _ _ Hr) as (q1 & Ep1 & Hr1). rewrite Ep in Ep1. unfold aq_pop in *. simpl in *.
    destruct pending as [|p1 pending]; [|done]. destruct intr; simpl in *; [|done]. injection Ep1 as ->.
    destruct (q_check_spec _ _ Hr1) as [_ Hr2]. by exists served, [], false.
Qed.

(** ** Properties *)

(** C2 Whatever the scheduling of the two threads, the reader's rounds coming at any
    time between and during the main thread's handling of packets: when the bytes
    read so far consist of whole packets and a beginning, as [recv] demands of the
    reads, the main loop has handled a prefix of these packets, in the order they
    came in, exactly as if it had been given them one after the other; the next
    one may be in its hands, and the rest is waiting in the queue. Nothing is
    duplicated or reordered between socket and handler, and nothing is lost but
    the packets whose queue node could not be allocated. (A round of the reader is
    one step, the unchecked [calloc] of a packet succeeds, and an interrupt that
    reaches a running target is part of the outcome of its [cont].) *)
Theorem any_interleaving_serves_in_order s0 tr s cap c l :
  sys_run s0 tr s -> rep (sys_queue s0) aq_init -> sys_busy s0 = None ->
  holds (sys_buf s0) [] -> pb_cap (sys_buf s0) = 10 -> recv 10 [] tr.*1 = Some (cap, c, l) ->
  exists taken served pending intr, length taken = length l /\ taken `sublist_of` tr.*2 /\
    kept l taken = served ++ option_list (sys_busy s) ++ pending /\
    rep (sys_queue s) (AQueue pending false intr) /\
    serve ops arch (sys_world s0) served = Ret (Continue, sys_world s, []).
Proof.
  intros Hrun Hr Hb Hh Hcap Hrecv. enough (Hp : progress s0 s tr.*2 cap c l) by apply Hp.
  revert cap c l Hrecv. induction Hrun as [|tr lab s s' Hrun IH Hstep]; intros cap c l Hrecv.
  - simpl in Hrecv. simplify_eq. split; try done. exists [], [], [], false. rewrite Hb.
    by split_and!.
  - rewrite fmap_app, recv_app in Hrecv. destruct (recv 10 [] tr.*1) as [[[cap1 c1] l1]|]; [|done].
    cbn [mbind option_bind] in Hrecv.
    destruct (recv cap1 c1 lab.*1) as [[[cap2 c2] l2]|] eqn:E2; [|done]. simpl in Hrecv. simplify_eq.
    specialize (IH _ _ _ eq_refl). rewrite fmap_app. inversion Hstep; subst.
    2-4: simpl in E2; simplify_eq; rewrite !app_nil_r; by eapply main_progress.
    by eapply reader_progress.
Qed.

End System.
