(* ===== verification/RegSpec.v ===== *)
(** * The register packets against an abstract register file

    [RegisterFile] is what the stub asks of a target that has registers: reads
    that return the current bytes, writes that store them or fail without
    effect, and the usual laws of a store. The theorems say what [g], [p], [G]
    and [P] do to any such target. *)

From S2P Require Import Prelude CMem CFormat Translate Packet RegBuf Conn Target RegHandlers Stub.

(** A value register [i] has room for. *)
Definition value_ok (size : Z -> Z) (i : Z) (bs : bytes) : Prop :=
  Z.of_nat (length bs) = size i /\ Forall byte_ok bs.

(** [n] registers of [size i] bytes; [inv] is the target's own invariant. *)
Class RegisterFile {T : Type} (ops : target_ops T) (inv : T -> Prop) (size : Z -> Z) (n : Z) := {
  rf_get : T -> Z -> bytes;
  rf_set : T -> Z -> bytes -> T;
  (* what a write of these bytes returns, 0 when it takes effect *)
  rf_code : Z -> bytes -> Z;
  rf_size_op : op_get_reg_bytes ops = Some size;
  rf_read_op : exists f, op_read_reg ops = Some f /\
    forall t i, inv t -> 0 <= i < n -> f t i = Ret (0, rf_get t i, t);
  rf_write_op : exists f, op_write_reg ops = Some f /\
    forall t i bs rest, inv t -> 0 <= i < n -> value_ok size i bs ->
      f t i ((Some <$> bs) ++ rest) = Ret (rf_code i bs, if rf_code i bs =? 0 then rf_set t i bs else t);
  rf_size_pos i : 0 <= i < n -> 0 < size i < 2147483648;
  rf_get_ok t i : inv t -> 0 <= i < n -> value_ok size i (rf_get t i);
  rf_code_int i bs : -2147483648 <= rf_code i bs < 2147483648;
  (* a value that was read can be written back *)
  rf_code_get t i : inv t -> 0 <= i < n -> rf_code i (rf_get t i) = 0;
  rf_set_inv t i bs : inv t -> 0 <= i < n -> value_ok size i bs -> rf_code i bs = 0 -> inv (rf_set t i bs);
  rf_get_set t i bs : inv t -> 0 <= i < n -> value_ok size i bs -> rf_code i bs = 0 ->
    rf_get (rf_set t i bs) i = bs;
  rf_get_set_ne t i j bs : inv t -> 0 <= i < n -> 0 <= j < n -> i <> j ->
    value_ok size i bs -> rf_code i bs = 0 -> rf_get (rf_set t i bs) j = rf_get t j;
  rf_set_get t i : inv t -> 0 <= i < n -> rf_set t i (rf_get t i) = t;
  rf_set_set t i a b : inv t -> 0 <= i < n -> value_ok size i a -> rf_code i a = 0 ->
    value_ok size i b -> rf_code i b = 0 -> rf_set (rf_set t i a) i b = rf_set t i b;
  rf_set_comm t i j a b : inv t -> 0 <= i < n -> 0 <= j < n -> i <> j ->
    value_ok size i a -> rf_code i a = 0 -> value_ok size j b -> rf_code j b = 0 ->
    rf_set (rf_set t i a) j b = rf_set (rf_set t j b) i a
}.

Section RegSpec.
Context {T : Type} (ops : target_ops T) (arch : arch_info_t).
Context {inv : T -> Prop} {size : Z -> Z} {n : Z} `{!RegisterFile ops inv size n}.
Implicit Types (w : world T).
#[local] Set Default Proof Using "Type RegisterFile0".

(** Values for the registers from [i] on; values that will be taken. *)
Fixpoint values_ok (i : Z) (vs : list bytes) : Prop :=
  match vs with
  | [] => True
  | v :: vs => 0 <= i < n /\ value_ok size i v /\ values_ok (i + 1) vs
  end.
Fixpoint accepted (i : Z) (vs : list bytes) : Prop :=
  match vs with
  | [] => True
  | v :: vs => rf_code i v = 0 /\ accepted (i + 1) vs
  end.

(** The values of [k] registers from [i] on, and storing such values. *)
Fixpoint get_from (k : nat) (i : Z) (t : T) : list bytes :=
  match k with O => [] | S k => rf_get t i :: get_from k (i + 1) t end.
Fixpoint set_from (i : Z) (vs : list bytes) (t : T) : T :=
  match vs with [] => t | v :: vs => set_from (i + 1) vs (rf_set t i v) end.

(** Storing until one write is refused: the refusal and the state it leaves. *)
Fixpoint commit (i : Z) (vs : list bytes) (t : T) : option (Z * Z) * T :=
  match vs with
  | [] => (None, t)
  | v :: vs => if rf_code i v =? 0 then commit (i + 1) vs (rf_set t i v)
               else (Some (i, rf_code i v), t)
  end.

(** Cutting the bytes of a [G] packet into register values. *)
Fixpoint chunks (k : nat) (i : Z) (s : bytes) : list bytes :=
  match k with
  | O => []
  | S k => take (Z.to_nat (size i)) s :: chunks k (i + 1) (drop (Z.to_nat (size i)) s)
  end.
Fixpoint sum_size (k : nat) (i : Z) : Z :=
  match k with O => 0 | S k => size i + sum_size k (i + 1) end.

(** ** Laws of the register file as a whole *)

(** The side conditions of the laws. *)
#[local] Ltac rf_auto :=
  repeat first [done | lia | apply rf_set_inv | apply rf_get_ok | apply rf_code_get].

Lemma get_from_ok k : forall i t, inv t -> 0 <= i -> i + Z.of_nat k <= n ->
  values_ok i (get_from k i t) /\ accepted i (get_from k i t).
Proof.
  induction k as [|k IH]; simpl; intros i t Ht Hi Hk; [done|].
  destruct (IH (i + 1) t Ht) as [H1 H2]; [lia|lia|].
  split_and!; rf_auto.
Qed.

Lemma length_get_from k i t : length (get_from k i t) = k.
Proof. revert i. induction k; intros; simpl; auto. Qed.

Lemma set_from_inv vs : forall i t, inv t -> values_ok i vs -> accepted i vs -> inv (set_from i vs t).
Proof.
  induction vs as [|v vs IH]; simpl; intros i t Ht; [done|]. intros (Hi & Hv & Hvs) [Hc Ha].
  apply IH; [|done|done]. by apply rf_set_inv.
Qed.

Lemma set_from_comm vs : forall i j b t,
  inv t -> values_ok i vs -> accepted i vs -> 0 <= j < i -> j < n -> value_ok size j b -> rf_code j b = 0 ->
  rf_set (set_from i vs t) j b = set_from i vs (rf_set t j b).
Proof.
  induction vs as [|v vs IH]; simpl; intros i j b t Ht Hvs Ha Hj Hn Hb Hcb; [done|].
  destruct Hvs as (Hi & Hv & Hvs), Ha as [Hc Ha]. rewrite IH by rf_auto.
  f_equal. apply rf_set_comm; rf_auto.
Qed.

(** Writing the old values back undoes any writes to the same registers. *)
Lemma set_from_undo vs : forall i t,
  inv t -> values_ok i vs -> accepted i vs -> set_from i (get_from (length vs) i t) (set_from i vs t) = t.
Proof.
  induction vs as [|v vs IH]; simpl; intros i t Ht Hvs Ha; [done|].
  destruct Hvs as (Hi & Hv & Hvs), Ha as [Hc Ha].
  assert (Hg : value_ok size i (rf_get t i)) by by apply rf_get_ok.
  assert (Hgc : rf_code i (rf_get t i) = 0) by by apply rf_code_get.
  rewrite set_from_comm, rf_set_set, rf_set_get by rf_auto. by apply IH.
Qed.

(** Reading back what was stored. *)
Lemma rf_get_set_from vs : forall i j t,
  inv t -> values_ok i vs -> accepted i vs -> 0 <= j < i -> j < n ->
  rf_get (set_from i vs t) j = rf_get t j.
Proof.
  induction vs as [|v vs IH]; simpl; intros i j t Ht Hvs Ha Hj Hn; [done|].
  destruct Hvs as (Hi & Hv & Hvs), Ha as [Hc Ha]. rewrite IH by rf_auto.
  apply rf_get_set_ne; rf_auto.
Qed.

Lemma get_set_from vs : forall i t,
  inv t -> values_ok i vs -> accepted i vs -> get_from (length vs) i (set_from i vs t) = vs.
Proof.
  induction vs as [|v vs IH]; simpl; intros i t Ht Hvs Ha; [done|].
  destruct Hvs as (Hi & Hv & Hvs), Ha as [Hc Ha]. f_equal; [|apply IH; rf_auto].
  rewrite rf_get_set_from by rf_auto. by apply rf_get_set.
Qed.

(** A refused commit wrote only the registers before the refused one. *)
Lemma commit_Some vs : forall i t j c t',
  commit i vs t = (Some (j, c), t') ->
  i <= j /\ c <> 0 /\ -2147483648 <= c < 2147483648 /\
  exists k, j = i + Z.of_nat k /\ (k < length vs)%nat /\ accepted i (take k vs) /\ t' = set_from i (take k vs) t.
Proof.
  induction vs as [|v vs IH]; simpl; intros i t j c t' E; [done|].
  destruct (rf_code i v =? 0) eqn:Ec; bool_props.
  - apply IH in E as (Hj & Hc & Hr & k & -> & Hk & Ha & ->).
    split_and!; [lia|done|lia|lia|]. exists (S k). simpl. split_and!; try done; lia.
  - injection E as <- <- <-. pose proof (rf_code_int i v). split_and!; [lia|done|lia|lia|].
    exists 0%nat. simpl. split_and!; try done; lia.
Qed.
Lemma commit_None vs : forall i t t', commit i vs t = (None, t') -> accepted i vs /\ t' = set_from i vs t.
Proof.
  induction vs as [|v vs IH]; simpl; intros i t t' E; [by injection E|].
  case_if; [|done]. apply IH in E as [Ha ->]. done.
Qed.
Lemma commit_accepted vs : forall i t, accepted i vs -> commit i vs t = (None, set_from i vs t).
Proof.
  induction vs as [|v vs IH]; simpl; intros i t Ha; [done|]. destruct Ha as [-> Ha].
  change (0 =? 0) with true. cbv iota. by apply IH.
Qed.

Lemma values_ok_take vs : forall k i, values_ok i vs -> values_ok i (take k vs).
Proof.
  induction vs as [|v vs IH]; intros [|k] i; csimpl; try done. intros (? & ? & ?). auto.
Qed.
Lemma get_from_app a b : forall i t,
  get_from (a + b) i t = get_from a i t ++ get_from b (i + Z.of_nat a) t.
Proof.
  induction a as [|a IH]; intros i t; csimpl; [f_equal; lia|]. rewrite IH. do 2 f_equal. f_equal. lia.
Qed.
Lemma get_from_split k m i t : (m <= k)%nat ->
  get_from k i t = get_from m i t ++ get_from (k - m) (i + Z.of_nat m) t.
Proof. intros. rewrite <- get_from_app. f_equal. lia. Qed.

(** *** Cutting payloads *)
Lemma size_pos i : 0 <= i < n -> 0 < size i < 2147483648.
Proof. apply rf_size_pos. Qed.

Lemma sum_size_nonneg k : forall i, 0 <= i -> i + Z.of_nat k <= n -> 0 <= sum_size k i.
Proof.
  induction k as [|k IH]; simpl; intros i Hi Hk; [lia|].
  pose proof (size_pos i ltac:(lia)). specialize (IH (i + 1) ltac:(lia) ltac:(lia)). lia.
Qed.

Lemma sum_size_le m : forall k i, (m <= k)%nat -> 0 <= i -> i + Z.of_nat k <= n -> sum_size m i <= sum_size k i.
Proof.
  induction m as [|m IH]; intros [|k] i Hm Hi Hk; simpl; try lia.
  - pose proof (size_pos i ltac:(lia)). pose proof (sum_size_nonneg k (i + 1) ltac:(lia) ltac:(lia)). lia.
  - specialize (IH k (i + 1) ltac:(lia) ltac:(lia) ltac:(lia)). lia.
Qed.

Lemma chunks_ok k : forall i s,
  0 <= i -> i + Z.of_nat k <= n -> Z.of_nat (length s) = sum_size k i -> Forall byte_ok s ->
  values_ok i (chunks k i s) /\ length (chunks k i s) = k /\ mjoin (chunks k i s) = s.
Proof.
  induction k as [|k IH]; simpl; intros i s Hi Hk Hs Hb.
  - split_and!; try done. destruct s; [done|]. simpl in Hs. lia.
  - pose proof (size_pos i ltac:(lia)). pose proof (sum_size_nonneg k (i + 1) ltac:(lia) ltac:(lia)).
    destruct (IH (i + 1) (drop (Z.to_nat (size i)) s)) as (H1 & H2 & H3); [lia|lia| |by apply Forall_drop|].
    { rewrite length_drop. lia. }
    split_and!; [lia|lia| |done|by f_equal|].
    + split; [rewrite length_take; lia|by apply Forall_take].
    + by rewrite H3, take_drop.
Qed.
(** ** The loops of the handlers *)
Lemma get_reg_bytes_ok i w : get_reg_bytes ops i w = Ret (size i, w).
Proof. unfold get_reg_bytes. rewrite rf_size_op. done. Qed.

Lemma read_into_ok i pre old post off w :
  inv (w_args w) -> 0 <= i < n -> off = blen pre -> blen old = size i ->
  read_reg_into ops i (pre ++ old ++ post) off w
  = Ret ((0, pre ++ (Some <$> rf_get (w_args w) i) ++ post), w).
Proof.
  intros Ht Hi Hoff Hold. destruct rf_read_op as (f & Ef & Hf). unfold read_reg_into. rewrite Ef. mstep.
  destruct (rf_get_ok _ _ Ht Hi) as [Hsz _].
  assert (Ec : call (fun t => '(r, bs, t) ← f t i; Ret ((r, bs), t)) w = Ret ((0, rf_get (w_args w) i), w)).
  { unfold call. rewrite Hf by done. simpl. by rewrite upd_args_id. }
  rewrite (M_bind_eq _ _ _ _ _ Ec). unfold bstore. rewrite bwrite_app; [done|done|].
  rewrite length_fmap. unfold blen in Hold. lia.
Qed.

Lemma write_from_ok i pre bs post off w :
  inv (w_args w) -> 0 <= i < n -> off = blen pre -> value_ok size i bs ->
  write_reg_from ops i (pre ++ (Some <$> bs) ++ post) off w
  = Ret (rf_code i bs,
         upd_args (if rf_code i bs =? 0 then rf_set (w_args w) i bs else w_args w) w).
Proof.
  intros Ht Hi -> Hv. destruct rf_write_op as (f & Ef & Hf). unfold write_reg_from. rewrite Ef. mstep.
  rewrite to_nat_blen, drop_app_exact. unfold call. by rewrite Hf.
Qed.

Lemma parse_loop_ok k : forall i h payload pre post npre nold bpre bold po so w,
  inv (w_args w) -> 0 <= i -> i + Z.of_nat k <= n ->
  Z.of_nat (length h) = 2 * sum_size k i -> payload + po = blen pre -> so = blen npre -> so = blen bpre ->
  blen nold = sum_size k i -> blen bold = sum_size k i -> 0 <= po -> po + 2 * sum_size k i < 18446744073709551616 ->
  so + sum_size k i < 18446744073709551616 ->
  reg_parse_loop ops k i (pre ++ (Some <$> h) ++ post) payload po so (npre ++ nold) (bpre ++ bold) w
  = Ret (inr (npre ++ (Some <$> unhex h), bpre ++ (Some <$> mjoin (get_from k i (w_args w)))), w).
Proof.
  induction k as [|k IH]; intros i h payload pre post npre nold bpre bold po so w Ht Hi Hk Hh Hpo Hso Hsb Hn Hb Hp0 Hov Hov2;
    simpl in *.
  - destruct h; [|simpl in Hh; lia]. unfold blen in Hn, Hb.
    destruct nold; [|simpl in Hn; lia]. destruct bold; [|simpl in Hb; lia]. done.
  - pose proof (size_pos i ltac:(lia)) as Hs. pose proof (sum_size_nonneg k (i + 1) ltac:(lia) ltac:(lia)) as Hss.
    rewrite (M_bind_eq _ _ _ _ _ (get_reg_bytes_ok i w)).
    destruct (area_split nold (size i)) as (n1 & n2 & -> & Hn1); [lia|].
    destruct (area_split bold (size i)) as (b1 & b2 & -> & Hb1); [lia|].
    rewrite <- (take_drop (2 * Z.to_nat (size i)) h). set (h1 := take _ h). set (h2 := drop _ h).
    assert (Hh1 : length h1 = (2 * Z.to_nat (size i))%nat) by (subst h1; rewrite length_take; lia).
    assert (Hh2 : Z.of_nat (length h2) = 2 * sum_size k (i + 1)) by (subst h2; rewrite length_drop; lia).
    rewrite blen_app in *. pose proof (length_unhex h1 _ Hh1) as Hu.
    assert (Hs32 : s32 (size i) = size i) by (apply s32_id; lia). rewrite Hs32.
    rewrite fmap_app, <- (app_assoc (Some <$> h1)).
    erewrite M_bind_eq; [cbv beta|].
    2:{ rewrite str_to_hex_ok; [reflexivity|lia|lia|lia|unfold blen in Hn1; lia]. }
    rewrite (M_bind_eq _ _ _ _ _ (read_into_ok i bpre b1 b2 so w Ht ltac:(lia) Hsb Hb1)).
    change (0 =? 0) with true. cbv iota beta.
    rewrite (app_assoc npre), (app_assoc bpre), (app_assoc pre).
    rewrite (u64_id (po + _)) by lia. rewrite (u64_id (so + _)) by (pose proof (blen_nonneg npre); lia).
    assert (Hg : Z.of_nat (length (rf_get (w_args w) i)) = size i) by (apply rf_get_ok; auto with lia).
    rewrite IH; try done; try lia; try (rewrite blen_app, blen_fmap; lia).
    rewrite unhex_app by (exists (Z.to_nat (size i)); lia). rewrite !fmap_app, <- !app_assoc. done.
Qed.

Lemma commit_loop_ok vs : forall i so pre w,
  inv (w_args w) -> values_ok i vs -> so = blen pre ->
  so + Z.of_nat (length (mjoin vs)) < 18446744073709551616 ->
  reg_commit_loop ops (length vs) i so (pre ++ (Some <$> mjoin vs)) w
  = Ret ((commit i vs (w_args w)).1, upd_args (commit i vs (w_args w)).2 w).
Proof.
  induction vs as [|v vs IH]; intros i so pre w Ht Hvs Hso Hov; csimpl.
  - by rewrite upd_args_id.
  - simpl in Hvs, Hov. destruct Hvs as (Hi & Hv & Hvs). pose proof Hv as [Hl _]. rewrite length_app in Hov.
    rewrite (M_bind_eq _ _ _ _ _ (get_reg_bytes_ok i w)).
    rewrite fmap_app. rewrite (M_bind_eq _ _ _ _ _ (write_from_ok i pre v _ so w Ht Hi Hso Hv)).
    destruct (rf_code i v =? 0) eqn:Ec; bool_props; [|done].
    rewrite app_assoc, u64_id by (rewrite Hso; pose proof (blen_nonneg pre); lia).
    set (w1 := upd_args (rf_set (w_args w) i v) w).
    rewrite (IH (i + 1) (so + size i) (pre ++ (Some <$> v)) w1); [done|rf_auto|done| |lia].
    rewrite blen_app, blen_fmap. lia.
Qed.

Lemma rollback_loop_ok k t0 : forall i so pre post w,
  inv t0 -> inv (w_args w) -> 0 <= i -> i + Z.of_nat k <= n -> so = blen pre ->
  so + Z.of_nat (length (mjoin (get_from k i t0))) < 18446744073709551616 ->
  reg_rollback_loop ops k i so (pre ++ (Some <$> mjoin (get_from k i t0)) ++ post) w
  = Ret (tt, upd_args (set_from i (get_from k i t0) (w_args w)) w).
Proof.
  induction k as [|k IH]; intros i so pre post w Ht0 Ht Hi Hk Hso Hov; csimpl.
  - by rewrite upd_args_id.
  - simpl in Hov. rewrite length_app in Hov. assert (Hl : Z.of_nat (length (rf_get t0 i)) = size i) by (apply rf_get_ok; auto with lia).
    assert (Hv : value_ok size i (rf_get t0 i)) by rf_auto.
    rewrite (M_bind_eq _ _ _ _ _ (get_reg_bytes_ok i w)).
    rewrite fmap_app, <- app_assoc.
    rewrite (M_bind_eq _ _ _ _ _ (write_from_ok i pre _ _ so w Ht ltac:(lia) Hso Hv)).
    rewrite rf_code_get by auto with lia. change (0 =? 0) with true. cbv iota beta.
    rewrite app_assoc, u64_id by (rewrite Hso; pose proof (blen_nonneg pre); lia).
    set (w1 := upd_args (rf_set (w_args w) i (rf_get t0 i)) w).
    rewrite (IH (i + 1) (so + size i) _ post w1); [done|done| |lia|lia| |lia].
    + rf_auto.
    + rewrite blen_app, blen_fmap. lia.
Qed.

(** ** The handlers *)

(** Before [gdbstub_init] has handed the stub over: [n] registers, their total
    size cached, room for two characters per byte in a [size_t]. *)
Record configured w : Prop := Configured {
  cf_num : reg_num arch = n;
  cf_pos : 0 < n < 2147483648;
  cf_total : total_reg_bytes (w_priv w) = sum_size (Z.to_nat n) 0;
  cf_small : sum_size (Z.to_nat n) 0 < 4611686018427387904;
  cf_inv : inv (w_args w);
  cf_regbuf : regbuf_wf (regbuf (w_priv w));
  cf_memory : w_mallocs w = []
}.

Lemma sum_size_pos k : 0 < Z.of_nat k <= n -> 0 < sum_size k 0.
Proof.
  intros Hk. destruct k as [|k]; [lia|]. simpl. pose proof (size_pos 0 ltac:(lia)).
  pose proof (sum_size_nonneg k (0 + 1) ltac:(lia) ltac:(lia)). lia.
Qed.

Lemma length_join_get k : forall i t, inv t -> 0 <= i -> i + Z.of_nat k <= n ->
  Z.of_nat (length (mjoin (get_from k i t))) = sum_size k i.
Proof.
  induction k as [|k IH]; intros i t Ht Hi Hk; csimpl; [done|].
  destruct (rf_get_ok t i Ht) as [Hl _]; [lia|].
  rewrite length_app, Nat2Z.inj_add, Hl, IH by (done || lia). done.
Qed.

Lemma set_gets k : forall i t, inv t -> 0 <= i -> i + Z.of_nat k <= n ->
  set_from i (get_from k i t) t = t.
Proof.
  induction k as [|k IH]; intros i t Ht Hi Hk; simpl; [done|].
  rewrite rf_set_get by auto with lia. apply IH; auto with lia.
Qed.

Lemma chunks_join vs : forall i, values_ok i vs -> chunks (length vs) i (mjoin vs) = vs.
Proof.
  induction vs as [|v vs IH]; intros i Hvs; csimpl; [done|]. destruct Hvs as (_ & [Hl _] & Hvs).
  replace (Z.to_nat (size i)) with (length v) by lia.
  rewrite take_app_exact, drop_app_exact. f_equal. by apply IH.
Qed.

Lemma reg_write_packet h w :
  gdbstub_process_packet ops arch (packet_of (chr "G" :: h)) w =
  (_ ← process_reg_write ops arch (request_area (chr "G") h) 2; mret EVENT_NONE) w.
Proof.
  rewrite process_packet_of. unfold dispatch; pick_request. destruct rf_write_op as (f & Ef & _). unfold guarded. by rewrite Ef.
Qed.

(** The handler of [G] up to its three loops. *)
Lemma reg_write_ok h w :
  configured w -> no0 h -> Z.of_nat (length h) = 2 * sum_size (Z.to_nat n) 0 ->
  let vs := chunks (Z.to_nat n) 0 (unhex h) in
  process_reg_write ops arch (request_area (chr "G") h) 2 w =
  match commit 0 vs (w_args w) with
  | (None, t) => Ret (tt, add_sent (frame (str "OK")) (upd_args t w))
  | (Some (_, c), _) => Ret (tt, add_sent (frame (err_string c)) w)
  end.
Proof.
  intros [Hnum Hpos Htot Hsmall Hinv _ Hmem] H0 Hh vs. set (k := Z.to_nat n) in *.
  pose proof (sum_size_pos k ltac:(lia)) as Hsp. set (total := sum_size k 0) in *.
  pose proof (length_unhex h (Z.to_nat total) ltac:(lia)) as Hu.
  destruct (chunks_ok k 0 (unhex h)) as (Hvs & Hlen & Hjoin); [lia|lia|lia|apply unhex_range|]. fold vs in Hvs, Hlen, Hjoin.
  unfold process_reg_write. mstep. rewrite Htot. rewrite (proj2 (Z.eqb_neq total 0)) by lia.
  erewrite M_bind_eq; [cbv beta|rewrite (strlen_at _ _ _ (request_area_at _ _ H0)); reflexivity].
  rewrite u64_id by lia. replace (Z.of_nat (length h) =? total * 2) with true by (symmetry; bool_props; lia).
  cbn [negb]. rewrite (M_bind_eq _ _ _ _ _ (malloc_nil total w Hmem)), (M_bind_eq _ _ _ _ _ (malloc_nil total w Hmem)).
  rewrite Hnum. fold k. unfold request_area.
  erewrite M_bind_eq; [cbv beta|apply (parse_loop_ok k 0 h 2 _ (Some 0 :: _) [] (uninit total) [] (uninit total) 0 0 w);
    try rewrite blen_uninit; try done; lia].
  cbv iota. rewrite !app_nil_l.
  rewrite <- Hlen, <- Hjoin at 1.
  erewrite M_bind_eq; [cbv beta|apply (commit_loop_ok vs 0 0 [] w); try done; rewrite Hjoin; lia].
  destruct (commit 0 vs (w_args w)) as [[[j c]|] t'] eqn:Ec; cbv iota.
  - destruct (commit_Some _ _ _ _ _ _ Ec) as (Hj & Hc & Hcr & m & -> & Hm & Ha & ->).
    cbn [fst snd]. set (w1 := upd_args _ w). replace (Z.to_nat (0 + Z.of_nat m)) with m by lia.
    pose proof (values_ok_take vs m 0 Hvs) as Htk.
    assert (Hlm : length (take m vs) = m) by (rewrite length_take; lia).
    assert (Hw1 : inv (w_args w1)) by (by apply set_from_inv).
    rewrite (get_from_split k m 0 (w_args w)), join_app, fmap_app by lia.
    erewrite M_bind_eq; [cbv beta|apply (rollback_loop_ok m (w_args w) 0 0 [] _ w1); try done; [lia|]].
    2:{ rewrite length_join_get by (done || lia). pose proof (sum_size_le m k 0 ltac:(lia) ltac:(lia) ltac:(lia)). lia. }
    assert (Hback : set_from 0 (get_from m 0 (w_args w)) (w_args w1) = w_args w).
    { subst w1. simpl. rewrite <- Hlm at 1. by apply set_from_undo. }
    rewrite Hback. replace (upd_args (w_args w) w1) with w by by destruct w.
    by apply send_err.
  - cbn [fst snd]. apply send_string_ok. sendable_lit.
Qed.

(** *** [g] on registers of one size *)
(** One round: the digits of register [i] land at [i * size i * 2]. *)
Lemma reg_read_step k i dpre old x dpost w :
  inv (w_args w) -> w_mallocs w = [] -> regbuf_wf (regbuf (w_priv w)) -> 0 <= i < n ->
  blen dpre = i * size i * 2 -> blen old = 2 * size i -> i * size i * 2 < 18446744073709551616 ->
  exists r, regbuf_wf r /\
    reg_read_loop ops (S k) i (dpre ++ old ++ x :: dpost) w
    = reg_read_loop ops k (i + 1) (dpre ++ (Some <$> hex_of (rf_get (w_args w) i)) ++ Some 0 :: dpost)
        (with_reg r (w_args w) w).
Proof.
  intros Ht Hm Hr Hi Hpre Hold Hov. pose proof (size_pos i Hi) as Hz. simpl.
  rewrite (M_bind_eq _ _ _ _ _ (get_reg_bytes_ok i w)).
  destruct (regbuf_get_m_ok (size i) w Hm Hr ltac:(lia)) as (r & b & Eg & Hwf & Hb & Hle).
  rewrite (M_bind_eq _ _ _ _ _ Eg). cbn [area from_option id].
  destruct (area_split b (size i) ltac:(lia)) as (b1 & b2 & -> & Hb1).
  set (w1 := with_reg r (w_args w) w). destruct (rf_get_ok _ _ Ht Hi) as [Hv Hvb].
  rewrite (M_bind_eq _ _ _ _ _ (read_into_ok i [] b1 b2 0 w1 Ht Hi eq_refl Hb1)).
  cbv iota beta. erewrite M_bind_eq; [cbv beta|exact (regbuf_put_ok _ _ _ _ _ Hb)]. change (0 =? 0) with true. cbv iota. set (v := rf_get (w_args w) i) in *.
  pose proof (blen_nonneg dpre). rewrite s32_id, u64_id by lia.
  exists (Regbuf (Some ([] ++ (Some <$> v) ++ b2)) (rb_sz r)). split.
  { eapply regbuf_wf_filled; [exact Hwf|exact Hb|]. rewrite !blen_app, blen_fmap, blen_nil. lia. }
  erewrite M_bind_eq; [reflexivity|].
  erewrite (hex_to_str_ok v [] b2 dpre old x dpost); [reflexivity|done..|by rewrite Hpre|done|].
  unfold blen in Hold. lia.
Qed.

Lemma reg_read_loop_ok z k : forall i sofar x rest w,
  (forall j, 0 <= j < n -> size j = z) -> inv (w_args w) -> w_mallocs w = [] ->
  regbuf_wf (regbuf (w_priv w)) -> 0 <= i -> i + Z.of_nat k <= n ->
  Z.of_nat (length sofar) = i * z * 2 -> (k = 0%nat -> x = Some 0) ->
  2 * z * Z.of_nat k <= blen rest -> blen ((Some <$> sofar) ++ x :: rest) = MAX_SEND_PACKET_SIZE ->
  exists r rest', regbuf_wf r /\
    reg_read_loop ops k i ((Some <$> sofar) ++ x :: rest) w
    = Ret ((Some <$> sofar ++ hex_of (mjoin (get_from k i (w_args w)))) ++ Some 0 :: rest',
           with_reg r (w_args w) w).
Proof.
  induction k as [|k IH]; intros i sofar x rest w Hsz Ht Hm Hr Hi Hk Hl Hx Hroom Hcap.
  - exists (regbuf (w_priv w)), rest. split; [done|]. simpl. by rewrite app_nil_r, with_reg_id, (Hx eq_refl).
  - pose proof (size_pos i ltac:(lia)) as Hz. rewrite Hsz in Hz by lia.
    rewrite blen_app, blen_cons, blen_fmap in Hcap. unfold MAX_SEND_PACKET_SIZE in Hcap.
    destruct (area_split (x :: rest) (2 * z)) as (o & [|y rest2] & Eo & Ho).
    { rewrite blen_cons. nia. }
    { rewrite app_nil_r in Eo. rewrite <- Eo, blen_cons in Ho. nia. }
    assert (Hlo : blen o + 1 + blen rest2 = 1 + blen rest).
    { rewrite <- (blen_cons x rest), Eo, blen_app, blen_cons. lia. }
    rewrite Eo. destruct (rf_get_ok _ i Ht) as [Hv _]; [lia|]. rewrite Hsz in Hv by lia.
    destruct (reg_read_step k i (Some <$> sofar) o y rest2 w) as (r & Hwf & ->);
      try rewrite Hsz by lia; try (done || lia); [rewrite blen_fmap; lia|].
    rewrite app_assoc, <- fmap_app.
    destruct (IH (i + 1) (sofar ++ hex_of (rf_get (w_args w) i)) (Some 0) rest2 (with_reg r (w_args w) w))
      as (r' & rest' & Hr' & E); try (done || lia).
    + rewrite length_app, length_hex_of. lia.
    + rewrite blen_app, blen_cons, blen_fmap, length_app, length_hex_of. unfold MAX_SEND_PACKET_SIZE. lia.
    + exists r', rest'. split; [done|]. rewrite E. simpl. rewrite hex_of_app, <- app_assoc. done.
Qed.

Lemma sum_size_uniform z k : forall i,
  (forall j, 0 <= j < n -> size j = z) -> 0 <= i -> i + Z.of_nat k <= n -> sum_size k i = Z.of_nat k * z.
Proof.
  induction k as [|k IH]; simpl; intros i Hsz Hi Hk; [lia|].
  rewrite Hsz, IH by (done || lia). nia.
Qed.

Lemma join_get_ok k : forall i t, inv t -> 0 <= i -> i + Z.of_nat k <= n ->
  Forall byte_ok (mjoin (get_from k i t)).
Proof.
  induction k as [|k IH]; intros i t Ht Hi Hk; csimpl; [done|]. apply Forall_app.
  split; [apply rf_get_ok; auto with lia|apply IH; auto with lia].
Qed.

Lemma regs_read_ok z w :
  (forall j, 0 <= j < n -> size j = z) -> configured w -> 2 * z * n <= MAX_DATA_PAYLOAD ->
  exists r, regbuf_wf r /\ process_reg_read ops arch w =
    Ret (tt, add_sent (frame (hex_of (mjoin (get_from (Z.to_nat n) 0 (w_args w))))) (with_reg r (w_args w) w)).
Proof.
  intros Hsz [Hnum Hpos _ _ Hinv Hrb Hmem] Hfit. unfold process_reg_read. rewrite Hnum.
  set (k := Z.to_nat n). unfold MAX_DATA_PAYLOAD, MAX_SEND_PACKET_SIZE, CSUM_SIZE in Hfit.
  assert (Hjs : Z.of_nat (length (mjoin (get_from k 0 (w_args w)))) = n * z).
  { rewrite length_join_get, (sum_size_uniform z) by (done || lia). lia. }
  assert (Hbytes : Forall byte_ok (mjoin (get_from k 0 (w_args w)))) by (apply join_get_ok; [done|lia|lia]).
  destruct (reg_read_loop_ok z k 0 [] None (uninit 4095) w) as (r & rest & Hwf & E); try done; try lia.
  { rewrite blen_uninit by lia. replace (Z.of_nat k) with n by lia. lia. }
  exists r. split; [done|]. rewrite (uninit_split MAX_SEND_PACKET_SIZE 1) by done.
  change (replicate 1 None ++ _) with ((Some <$> []) ++ None :: uninit 4095).
  rewrite (M_bind_eq _ _ _ _ _ E). apply send_pktstr_ok.
  - split; [by apply no0_hex|]. by exists [], rest.
  - split; [by apply no0_hex|]. rewrite length_hex_of.
    unfold MAX_DATA_PAYLOAD, MAX_SEND_PACKET_SIZE, CSUM_SIZE. lia.
Qed.

Lemma run_g w w1 :
  process_reg_read ops arch w = Ret (tt, w1) ->
  gdbstub_process_packet ops arch (packet_of (str "g")) w = Ret (EVENT_NONE, w1).
Proof.
  intros E. change (str "g") with (chr "g" :: []). rewrite process_packet_of. unfold dispatch. pick_request.
  destruct rf_read_op as (f & Ef & _). unfold guarded. by rewrite Ef, (M_bind_eq _ _ _ _ _ E).
Qed.

(** Sending the values of [w] to a target in whatever state. *)
Lemma restore_ok w w2 :
  configured w -> configured w2 ->
  gdbstub_process_packet ops arch
    (packet_of (chr "G" :: hex_of (mjoin (get_from (Z.to_nat n) 0 (w_args w))))) w2
  = Ret (EVENT_NONE, add_sent (frame (str "OK"))
      (upd_args (set_from 0 (get_from (Z.to_nat n) 0 (w_args w)) (w_args w2)) w2)).
Proof.
  intros Hc Hc2. pose proof Hc as [_ Hpos _ _ Hinv _ _]. set (k := Z.to_nat n).
  set (s := mjoin (get_from k 0 (w_args w))).
  assert (Hs : Forall byte_ok s) by (apply join_get_ok; [done|lia|lia]).
  assert (Hl : Z.of_nat (length (hex_of s)) = 2 * sum_size k 0).
  { rewrite length_hex_of. subst s. pose proof (length_join_get k 0 (w_args w) Hinv ltac:(lia) ltac:(lia)). lia. }
  pose proof (reg_write_ok (hex_of s) w2 Hc2 (no0_hex s Hs) Hl) as E. fold k in E. simpl in E.
  rewrite unhex_hex_of in E by done. subst s.
  assert (Hch : chunks k 0 (mjoin (get_from k 0 (w_args w))) = get_from k 0 (w_args w)).
  { rewrite <- (length_get_from k 0 (w_args w)) at 1. apply chunks_join, get_from_ok; (done || lia). }
  destruct (get_from_ok k 0 (w_args w)) as [_ Ha]; [done|lia|lia|].
  rewrite Hch, commit_accepted in E by done. by rewrite reg_write_packet, (M_bind_eq _ _ _ _ _ E).
Qed.

(** *** [p] and [P] *)
Lemma scan_regno i rest :
  0 <= i < 2147483648 -> ends_number 16 rest -> sscanf [FHex32] (digits 16 i ++ rest) = Ret [i].
Proof.
  intros Hi Hr. simpl. rewrite scan_hex_digits by (done || lia). csimpl. by rewrite s32_id by lia.
Qed.

Lemma reg_read_one_ok i w :
  configured w -> 0 <= i < n -> 2 * size i <= MAX_DATA_PAYLOAD ->
  exists r, regbuf_wf r /\
    process_reg_read_one ops (request_area (chr "p") (digits 16 i)) 2 w
    = Ret (tt, add_sent (frame (hex_of (rf_get (w_args w) i))) (with_reg r (w_args w) w)).
Proof.
  intros [_ Hn _ _ Hinv Hrb Hmem] Hi Hfit. unfold MAX_DATA_PAYLOAD, MAX_SEND_PACKET_SIZE, CSUM_SIZE in Hfit.
  pose proof (size_pos i Hi) as Hz. unfold process_reg_read_one.
  pose proof (request_area_at (chr "p") (digits 16 i) (no0_digits 16 i ltac:(lia) ltac:(lia))) as Hat.
  erewrite M_bind_eq; [cbv beta|rewrite (cstr_at_ok _ _ _ Hat); reflexivity].
  pose proof (scan_regno i [] ltac:(lia) I) as Hscan. rewrite app_nil_r in Hscan. rewrite Hscan.
  mstep. mstep. mstep. rewrite (M_bind_eq _ _ _ _ _ (get_reg_bytes_ok i w)).
  destruct (regbuf_get_m_ok (size i) w Hmem Hrb ltac:(lia)) as (r & b & Eg & Hwf & Hb & Hle).
  rewrite (M_bind_eq _ _ _ _ _ Eg). cbn [area from_option id].
  destruct (area_split b (size i) ltac:(lia)) as (b1 & b2 & -> & Hb1).
  set (w1 := with_reg r (w_args w) w). set (v := rf_get (w_args w) i).
  assert (Hv : Z.of_nat (length v) = size i) by (apply rf_get_ok; done).
  assert (Hvb : Forall byte_ok v) by (apply rf_get_ok; done).
  rewrite (M_bind_eq _ _ _ _ _ (read_into_ok i [] b1 b2 0 w1 Hinv Hi eq_refl Hb1)).
  cbv iota beta. erewrite M_bind_eq; [cbv beta|exact (regbuf_put_ok _ _ _ _ _ Hb)]. change (0 =? 0) with true. cbv iota. rewrite s32_id by lia.
  destruct (area_split (uninit MAX_SEND_PACKET_SIZE) (2 * size i)) as (o & [|y rest] & Eo & Ho).
  { rewrite blen_uninit by done. unfold MAX_SEND_PACKET_SIZE. lia. }
  { rewrite app_nil_r in Eo. rewrite <- Eo, blen_uninit in Ho by done. unfold MAX_SEND_PACKET_SIZE in Ho. lia. }
  rewrite Eo. erewrite M_bind_eq; [cbv beta|].
  2:{ erewrite (hex_to_str_ok v [] b2 [] o y rest); [reflexivity|done|done|done|done|].
      unfold blen in Ho. lia. }
  exists (Regbuf (Some ([] ++ (Some <$> v) ++ b2)) (rb_sz r)). split.
  { eapply regbuf_wf_filled; [exact Hwf|exact Hb|]. rewrite !blen_app, blen_fmap, blen_nil. lia. }
  rewrite (send_pktstr_ok _ _ (hex_of v)); [done| |].
  - split; [by apply no0_hex|]. by exists [], rest.
  - split; [by apply no0_hex|]. rewrite length_hex_of.
    unfold MAX_DATA_PAYLOAD, MAX_SEND_PACKET_SIZE, CSUM_SIZE. lia.
Qed.

Lemma reg_write_one_ok i h w :
  configured w -> 0 <= i < n -> no0 h -> Z.of_nat (length h) = 2 * size i ->
  let c := rf_code i (unhex h) in
  exists r, regbuf_wf r /\
    process_reg_write_one ops (request_area (chr "P") (digits 16 i ++ str "=" ++ h)) 2 w
    = Ret (tt, add_sent (frame (if c =? 0 then str "OK" else err_string c))
                 (with_reg r (if c =? 0 then rf_set (w_args w) i (unhex h) else w_args w) w)).
Proof.
  intros [_ Hn _ _ Hinv Hrb Hmem] Hi H0 Hh c. pose proof (size_pos i Hi) as Hz.
  set (d := digits 16 i). assert (Hd0 : no0 d) by (apply no0_digits; lia).
  unfold process_reg_write_one, request_area.
  assert (Ed : (Some <$> d ++ str "=" ++ h) = (Some <$> d) ++ Some 61 :: (Some <$> h)) by by rewrite fmap_app.
  rewrite Ed, <- app_assoc. set (tl := Some 0 :: request_tail _ _).
  change ((Some 61 :: (Some <$> h)) ++ tl) with (Some 61 :: (Some <$> h) ++ tl).
  erewrite M_bind_eq; [cbv beta|rewrite split_args_hit; [reflexivity|done|done|]].
  2:{ apply not_in_digits; (done || lia). }
  cbv iota beta. set (data := [Some 36; Some (chr "P")] ++ _).
  assert (Hat : cstr_at data 2 d).
  { split; [done|]. by eexists [Some 36; Some (chr "P")], _. }
  set (off := 2 + Z.of_nat (length d) + 1).
  assert (Edata : data = ([Some 36; Some (chr "P")] ++ (Some <$> d) ++ [Some 0]) ++ (Some <$> h) ++ tl).
  { subst data. by rewrite <- !app_assoc. }
  assert (Hoff : off = blen ([Some 36; Some (chr "P")] ++ (Some <$> d) ++ [Some 0])) by blia.
  assert (Hath : cstr_at data off h).
  { split; [done|]. by eexists _, _. }
  erewrite M_bind_eq; [cbv beta|rewrite (cstr_at_ok _ _ _ Hat); reflexivity].
  pose proof (scan_regno i [] ltac:(lia) I) as Hscan. rewrite app_nil_r in Hscan. fold d in Hscan. rewrite Hscan.
  mstep. mstep. mstep. rewrite (M_bind_eq _ _ _ _ _ (get_reg_bytes_ok i w)).
  destruct (regbuf_get_m_ok (size i) w Hmem Hrb ltac:(lia)) as (r & b & Eg & Hwf & Hb & Hle).
  rewrite (M_bind_eq _ _ _ _ _ Eg). mstep. cbn [area from_option id].
  erewrite M_bind_eq; [cbv beta|rewrite (strlen_at _ _ _ Hath); reflexivity].
  rewrite u64_id by lia. replace (Z.of_nat (length h) =? size i * 2) with true by (symmetry; bool_props; lia).
  mstep. destruct (area_split b (size i) ltac:(lia)) as (b1 & b2 & -> & Hb1).
  pose proof (length_unhex h (Z.to_nat (size i)) ltac:(lia)) as Hu.
  rewrite s32_id by lia.
  erewrite M_bind_eq; [cbv beta|].
  2:{ rewrite Edata. erewrite (str_to_hex_ok h _ tl [] b1 b2); [reflexivity|lia|done|done|].
      unfold blen in Hb1. lia. }
  erewrite M_bind_eq; [cbv beta|exact (regbuf_put_ok _ _ _ _ _ Hb)]. set (w1 := with_reg _ _ _).
  assert (Hval : value_ok size i (unhex h)) by (split; [lia|apply unhex_range]).
  rewrite (M_bind_eq _ _ _ _ _ (write_from_ok i [] (unhex h) b2 0 w1 Hinv Hi eq_refl Hval)).
  exists (Regbuf (Some ([] ++ (Some <$> unhex h) ++ b2)) (rb_sz r)). split.
  { eapply regbuf_wf_filled; [exact Hwf|exact Hb|]. rewrite !blen_app, blen_fmap, blen_nil. lia. }
  fold c. destruct (c =? 0).
  - apply send_string_ok. sendable_lit.
  - apply send_err; [apply rf_code_int|done].
Qed.

(** ** Properties *)

(** C4 A [G] packet of the right length is all or nothing: either every register
    takes its value from the packet, reads back as sent, and the reply is [OK];
    or a write is refused, the reply is [E] with its code, and the target is
    exactly what it was before the packet, the registers already written having
    been rolled back. *)
Theorem G_is_atomic h w :
  configured w -> no0 h -> Z.of_nat (length h) = 2 * sum_size (Z.to_nat n) 0 ->
  let vs := chunks (Z.to_nat n) 0 (unhex h) in
  let m := gdbstub_process_packet ops arch (packet_of (chr "G" :: h)) in
  (exists t, commit 0 vs (w_args w) = (None, t) /\ get_from (Z.to_nat n) 0 t = vs /\ mjoin vs = unhex h /\
     m w = Ret (EVENT_NONE, add_sent (frame (str "OK")) (upd_args t w))) \/
  (exists j c t, commit 0 vs (w_args w) = (Some (j, c), t) /\ c <> 0 /\
     m w = Ret (EVENT_NONE, add_sent (frame (err_string c)) w)).
Proof.
  intros Hc H0 Hh vs m. pose proof Hc as [_ Hpos _ _ Hinv _ _].
  pose proof (sum_size_pos (Z.to_nat n) ltac:(lia)).
  pose proof (length_unhex h (Z.to_nat (sum_size (Z.to_nat n) 0)) ltac:(lia)) as Hu.
  destruct (chunks_ok (Z.to_nat n) 0 (unhex h)) as (Hvs & Hlen & Hjoin); [lia|lia|lia|apply unhex_range|].
  fold vs in Hvs, Hlen, Hjoin. pose proof (reg_write_ok h w Hc H0 Hh) as E. fold vs in E. simpl in E.
  subst m. rewrite reg_write_packet. destruct (commit 0 vs (w_args w)) as [[[j c]|] t] eqn:Ec.
  - right. exists j, c, t. split; [done|]. split; [by apply commit_Some in Ec as (_ & ? & _)|].
    by rewrite (M_bind_eq _ _ _ _ _ E).
  - left. exists t. split; [done|]. split; [|split; [done|by rewrite (M_bind_eq _ _ _ _ _ E)]].
    apply commit_None in Ec as [Ha ->]. rewrite <- Hlen at 1. by apply get_set_from.
Qed.

(** C17 [g] on registers of one size reports all of them: the reply is the
    concatenation of their bytes in hexadecimal, and the target is unchanged, as
    long as it fits the send buffer. *)
Theorem g_reports_registers z w :
  (forall j, 0 <= j < n -> size j = z) -> configured w -> 2 * z * n <= MAX_DATA_PAYLOAD ->
  exists r, regbuf_wf r /\
    gdbstub_process_packet ops arch (packet_of (str "g")) w
    = Ret (EVENT_NONE, add_sent (frame (hex_of (mjoin (get_from (Z.to_nat n) 0 (w_args w)))))
                         (with_reg r (w_args w) w)).
Proof.
  intros Hsz Hc Hfit. destruct (regs_read_ok z w Hsz Hc Hfit) as (r & Hr & E). exists r. split; [done|]. by apply run_g.
Qed.

(** C23 [g] with registers of different sizes is cut short: each register is
    written at its number times its own size instead of behind the previous one,
    so with sizes 1 and 2 the NUL behind the first register ends the reply. *)
Theorem g_drops_mixed_sizes w :
  n = 2 -> size 0 = 1 -> size 1 = 2 -> configured w ->
  exists r, regbuf_wf r /\
    gdbstub_process_packet ops arch (packet_of (str "g")) w
    = Ret (EVENT_NONE, add_sent (frame (hex_of (rf_get (w_args w) 0))) (with_reg r (w_args w) w)).
Proof.
  intros Hn H0 H1 [Hnum Hpos _ _ Hinv Hrb Hmem]. destruct (rf_get_ok _ 0 Hinv) as [Hv Hvb]; [lia|].
  set (v := rf_get (w_args w) 0) in *. rewrite H0 in Hv.
  assert (Hreg : exists r, regbuf_wf r /\ process_reg_read ops arch w =
    Ret (tt, add_sent (frame (hex_of v)) (with_reg r (w_args w) w))).
  { unfold process_reg_read. rewrite Hnum, Hn. change (Z.to_nat 2) with 2%nat.
    rewrite (uninit_split MAX_SEND_PACKET_SIZE 9) by done.
    set (tl := uninit (_ - _)).
    change (replicate 9 None ++ tl) with ([] ++ [None; None] ++ None :: ([None] ++ replicate 4 None ++ None :: tl)).
    destruct (reg_read_step 1 0 [] [None; None] None ([None] ++ replicate 4 None ++ None :: tl) w)
      as (r1 & Hwf1 & E1); try (done || lia); [rewrite H0; done..|].
    unfold mbind, M_bind. rewrite E1. fold v.
    assert (Hl : length (hex_of v) = 2%nat) by (rewrite length_hex_of; lia).
    replace ([] ++ (Some <$> hex_of v) ++ Some 0 :: [None] ++ replicate 4 None ++ None :: tl)
      with (((Some <$> hex_of v) ++ [Some 0; None]) ++ replicate 4 None ++ None :: tl)
      by by rewrite <- app_assoc.
    destruct (reg_read_step 0 1 ((Some <$> hex_of v) ++ [Some 0; None]) (replicate 4 None) None (tl)
      (with_reg r1 (w_args w) w)) as (r2 & Hwf2 & E2); try (done || lia); try (rewrite H1; done).
    { rewrite H1. unfold blen. rewrite length_app, length_fmap, Hl. done. }
    change (0 + 1) with 1. rewrite E2. exists r2. split; [done|]. simpl reg_read_loop. cbv beta iota.
    apply send_pktstr_ok.
    - split; [by apply no0_hex|]. eexists [], _. rewrite <- app_assoc. done.
    - split; [by apply no0_hex|]. rewrite Hl. done. }
  destruct Hreg as (r & Hr & E). exists r. split; [done|]. by apply run_g.
Qed.

(** C18 Saving and restoring on registers of one size: the payload of the reply to
    [g] (when it fits the send buffer), sent back in a [G] packet at once, is
    accepted and leaves the whole target as it is; sent back later, whatever has
    happened to the target in between, it gives every register the value that
    [g] reported. *)
Theorem G_of_g_is_identity z w :
  (forall j, 0 <= j < n -> size j = z) -> configured w -> 2 * z * n <= MAX_DATA_PAYLOAD ->
  exists p w1, gdbstub_process_packet ops arch (packet_of (str "g")) w = Ret (EVENT_NONE, w1) /\
    w_sent w1 = w_sent w ++ [frame p] /\ w_args w1 = w_args w /\
    gdbstub_process_packet ops arch (packet_of (chr "G" :: p)) w1
      = Ret (EVENT_NONE, add_sent (frame (str "OK")) w1) /\
    forall w2, configured w2 -> exists t,
      gdbstub_process_packet ops arch (packet_of (chr "G" :: p)) w2
        = Ret (EVENT_NONE, add_sent (frame (str "OK")) (upd_args t w2)) /\
      get_from (Z.to_nat n) 0 t = get_from (Z.to_nat n) 0 (w_args w).
Proof.
  intros Hsz Hc Hfit. destruct (regs_read_ok z w Hsz Hc Hfit) as (r & Hr & E).
  exists (hex_of (mjoin (get_from (Z.to_nat n) 0 (w_args w)))). eexists. split; [|split; [|split; [|split]]].
  - by apply run_g.
  - done.
  - done.
  - rewrite (restore_ok _ _ Hc).
    + cbn [w_args add_sent with_reg upd_args]. rewrite set_gets by (apply Hc || lia || (destruct Hc; lia)).
      reflexivity.
    + destruct Hc. by split.
  - intros w2 Hc2. eexists. split; [by apply restore_ok|]. pose proof Hc as [_ Hpos _ _ Hinv _ _].
    destruct (get_from_ok (Z.to_nat n) 0 (w_args w)) as [Hv Ha]; [done|lia|lia|].
    rewrite <- (length_get_from (Z.to_nat n) 0 (w_args w)) at 1. apply get_set_from; [apply Hc2|done|done].
Qed.

(** C19 One register: [P] stores the bytes its digits denote, or reports the
    refusal and changes nothing; after that, [p] replies the stored bytes, or the
    old ones if the write was refused, as long as their digits fit the send
    buffer. *)
Theorem p_after_P i h w :
  configured w -> 0 <= i < n -> no0 h -> Z.of_nat (length h) = 2 * size i ->
  let c := rf_code i (unhex h) in
  exists w1, gdbstub_process_packet ops arch (packet_of (chr "P" :: digits 16 i ++ str "=" ++ h)) w
      = Ret (EVENT_NONE, w1) /\
    w_sent w1 = w_sent w ++ [frame (if c =? 0 then str "OK" else err_string c)] /\
    w_args w1 = (if c =? 0 then rf_set (w_args w) i (unhex h) else w_args w) /\
  (2 * size i <= MAX_DATA_PAYLOAD ->
   exists w2, gdbstub_process_packet ops arch (packet_of (chr "p" :: digits 16 i)) w1 = Ret (EVENT_NONE, w2) /\
    w_args w2 = w_args w1 /\
    w_sent w2 = w_sent w1 ++ [frame (hex_of (if c =? 0 then unhex h else rf_get (w_args w) i))]).
Proof.
  intros Hc Hi H0 Hh c. pose proof Hc as [Hnum Hpos Htot Hsm Hinv _ Hmem].
  destruct (reg_write_one_ok i h w Hc Hi H0 Hh) as (r & Hr & E). fold c in E. simpl in E.
  destruct rf_write_op as (fw & Efw & _). destruct rf_read_op as (fr & Efr & _).
  pose proof (size_pos i Hi) as Hz. pose proof (length_unhex h (Z.to_nat (size i)) ltac:(lia)) as Hu.
  assert (Hval : value_ok size i (unhex h)) by (split; [lia|apply unhex_range]).
  set (t1 := if c =? 0 then rf_set (w_args w) i (unhex h) else w_args w) in *.
  assert (Ht1 : inv t1) by (subst t1; destruct (c =? 0) eqn:Ec; bool_props; [by apply rf_set_inv|done]).
  eexists. split; [|split; [|split; [|]]].
  - rewrite process_packet_of. unfold dispatch. pick_request. unfold guarded. rewrite Efw.
    rewrite (M_bind_eq _ _ _ _ _ E). reflexivity.
  - done.
  - done.
  - intros Hfit. set (w1 := add_sent _ _). assert (Hc1 : configured w1) by by split.
    destruct (reg_read_one_ok i w1 Hc1 Hi Hfit) as (r2 & Hr2 & E2). eexists. split; [|split].
    + rewrite process_packet_of. unfold dispatch. pick_request. unfold guarded. rewrite Efr.
      rewrite (M_bind_eq _ _ _ _ _ E2). reflexivity.
    + done.
    + cbn [w_sent add_sent]. do 4 f_equal. subst w1 t1. simpl. destruct (c =? 0) eqn:Ec; bool_props; [|done]. by apply rf_get_set.
Qed.
End RegSpec.

(** C20 The other replies to [G], for any target with a [write_reg]: [OK] when
    there are no register bytes, [E22] when the packet has the wrong length and
    [E12] when one of the two allocations fails; the target is untouched. *)
Theorem G_rejected {T} (ops : target_ops T) arch f h (w : world T) :
  op_write_reg ops = Some f -> no0 h ->
  let total := total_reg_bytes (w_priv w) in
  let m := gdbstub_process_packet ops arch (packet_of (chr "G" :: h)) in
  0 <= total < 4611686018427387904 ->
  (total = 0 -> m w = Ret (EVENT_NONE, add_sent (frame (str "OK")) w)) /\
  (total <> 0 -> Z.of_nat (length h) <> 2 * total -> m w = Ret (EVENT_NONE, add_sent (frame (str "E22")) w)) /\
  (total <> 0 -> Z.of_nat (length h) = 2 * total -> forall a b l, w_mallocs w = a :: b :: l -> a && b = false ->
     exists w', m w = Ret (EVENT_NONE, w') /\ w_sent w' = w_sent w ++ [frame (str "E12")] /\
       w_args w' = w_args w /\ w_priv w' = w_priv w).
Proof.
  intros Ef H0 total m Htot.
  assert (Hm : forall w', process_reg_write ops arch (request_area (chr "G") h) 2 w = Ret (tt, w') ->
    m w = Ret (EVENT_NONE, w')).
  { intros w' E. subst m. rewrite process_packet_of. unfold dispatch. pick_request.
    unfold guarded. rewrite Ef. by rewrite (M_bind_eq _ _ _ _ _ E). }
  assert (Hlen : forall k, (payload_len ← lift (strlen (request_area (chr "G") h) 2); k payload_len : M (world T) unit) w
      = k (Z.of_nat (length h)) w).
  { intros k. erewrite M_bind_eq; [done|]. by rewrite (strlen_at _ _ _ (request_area_at _ _ H0)). }
  unfold process_reg_write in Hm. split_and!.
  - intros Ht. apply Hm. mstep. fold total. rewrite Ht. apply send_string_ok. sendable_lit.
  - intros Ht Hl. apply Hm. mstep. fold total. rewrite (proj2 (Z.eqb_neq _ _) Ht), Hlen, u64_id by lia.
    rewrite (proj2 (Z.eqb_neq _ (total * 2))) by lia. apply send_string_ok. sendable_lit.
  - intros Ht Hl a b l Hal Hab. set (w1 := World (w_priv w) (w_args w) (w_sent w) l).
    exists (add_sent (frame (str "E12")) w1). split; [|done]. apply Hm. mstep. fold total.
    rewrite (proj2 (Z.eqb_neq _ _) Ht), Hlen, u64_id by lia.
    rewrite (proj2 (Z.eqb_eq _ (total * 2))) by lia. cbn [negb].
    assert (E1 : forall c l' (w0 : world T), w_mallocs w0 = c :: l' -> malloc total w0 =
      Ret (if c then Some (uninit total) else None, World (w_priv w0) (w_args w0) (w_sent w0) l')).
    { intros c l' w0 E. unfold malloc, malloc_ok, mbind, M_bind. by rewrite E. }
    rewrite (M_bind_eq _ _ _ _ _ (E1 a (b :: l) w Hal)).
    rewrite (M_bind_eq _ _ _ _ _ (E1 b l (World (w_priv w) (w_args w) (w_sent w) (b :: l)) eq_refl)).
    destruct a, b; try done; apply send_string_ok; sendable_lit.
Qed.

(** ** A register file that refuses values

    Two one-byte registers; the second takes only values below 128. *)
Module Picky.
Definition state : Type := Z * Z.
Definition read (t : state) (i : Z) : outcome (Z * bytes * state) :=
  Ret (0, [if i =? 0 then t.1 else t.2], t).
Definition write (t : state) (i : Z) (data : buf) : outcome (Z * state) :=
  v ← bget data 0;
  if i =? 0 then Ret (0, (v, t.2)) else if v <? 128 then Ret (0, (t.1, v)) else Ret (5, t).
Definition ops : target_ops state := TargetOps None None (Some (fun _ => 1)) (Some read) (Some write)
  None None None None None None None.
Definition inv (t : state) : Prop := byte_ok t.1 /\ 0 <= t.2 < 128.

Definition get (t : state) (i : Z) : bytes := [if i =? 0 then t.1 else t.2].
Definition set (t : state) (i : Z) (bs : bytes) : state :=
  if i =? 0 then (default 0 (head bs), t.2) else (t.1, default 0 (head bs)).
Definition code (i : Z) (bs : bytes) : Z := if (i =? 0) || (default 0 (head bs) <? 128) then 0 else 5.

(** Opens the one byte of a value and the two registers. *)
Ltac open_value :=
  match goal with H : value_ok _ _ ?bs |- _ =>
    let v := fresh "v" in destruct bs as [|v [|? ?]];
      [destruct H as [H _]; simpl in H; lia| |destruct H as [H _]; simpl in H; lia];
    destruct H as [_ H]; apply Forall_inv in H; unfold byte_ok in H
  end.
Ltac picky :=
  intros; repeat open_value; unfold inv, byte_ok, get, set, code in *; simpl in *;
  repeat case_if; simpl in *; first [done | lia | congruence | split; simpl; lia | repeat f_equal; lia].

#[export] Instance registers : RegisterFile ops inv (fun _ => 1) 2.
Proof.
  refine {| rf_get := get; rf_set := set; rf_code := code |}.
  - done.
  - exists read. split; [done|]. done.
  - exists write. split; [done|]. intros t i bs rest Ht Hi Hv. open_value.
    change ((Some <$> [v]) ++ rest) with ([] ++ Some v :: rest). unfold write.
    rewrite (obind_eq _ _ v (bget_app [] v rest 0 eq_refl)). unfold code, set. simpl.
    destruct (i =? 0); [by destruct t|]. by destruct (v <? 128).
  - intros i _. split; lia.
  - intros t i [? ?] Hi. split; [done|]. constructor; [|done]. unfold byte_ok in *. case_if; lia.
  - picky.
  - picky.
  - picky.
  - picky.
  - picky.
  - intros [a b] i _ _. unfold set, get. simpl. by destruct (i =? 0).
  - picky.
  - picky.
Defined.

Definition start : world state :=
  World (GdbstubPrivate (Conn 3 4 false 0) (Regbuf (Some (uninit 8)) 8) false true false 2) (7, 9) [] [].
Definition arch : arch_info_t := ArchInfo None 0 2.

Lemma picky_configured : configured (inv := inv) (size := fun _ => 1) (n := 2) arch start.
Proof.
  split; try done. split; [by exists 3|]. exists (uninit 8). split; [done|]. by rewrite blen_uninit.
Qed.

(** Register 0 takes 5, register 1 refuses 255: nothing changes. *)
Example G_is_atomic_witness :
  gdbstub_process_packet ops arch (packet_of (str "G05ff")) start
  = Ret (EVENT_NONE, add_sent (frame (str "E5")) start).
Proof.
  destruct (G_is_atomic ops arch (str "05ff") start picky_configured) as [(t & E & _)|(j & c & t & E & _ & R)].
  - vdecide.
  - done.
  - vm_compute in E. discriminate.
  - vm_compute in E. injection E as <- <- _. exact R.
Defined.

Example g_reports_registers_witness :
  exists r, regbuf_wf r /\ gdbstub_process_packet ops arch (packet_of (str "g")) start
    = Ret (EVENT_NONE, add_sent (frame (str "0709")) (with_reg r (7, 9) start)).
Proof.
  destruct (g_reports_registers (inv := inv) (size := fun _ => 1) (n := 2) ops arch 1 start)
    as (r & Hr & E); [done|apply picky_configured|done|].
  exists r. split; [exact Hr|]. rewrite E. reflexivity.
Defined.

(** The registers hold 07 and 09; a target that holds 01 and 02 gets them back. *)
Example G_of_g_is_identity_witness :
  exists t, gdbstub_process_packet ops arch (packet_of (str "G0709")) (upd_args (1, 2) start)
    = Ret (EVENT_NONE, add_sent (frame (str "OK")) (upd_args t (upd_args (1, 2) start))) /\
    get t 0 = [7] /\ get t 1 = [9].
Proof.
  destruct (G_of_g_is_identity (inv := inv) (size := fun _ => 1) (n := 2) ops arch 1 start)
    as (p & w1 & E & Hs & _ & _ & H); [done|apply picky_configured|done|].
  assert (Hp : p = str "0709").
  { apply frame_inj. assert (Hw : w_sent w1 = [frame (str "0709")]) by (revert E; vm_compute; by intros [= <-]).
    rewrite Hw in Hs. change (w_sent start) with (@nil bytes) in Hs. rewrite app_nil_l in Hs. congruence. }
  rewrite Hp in H. destruct (H (upd_args (1, 2) start)) as (t & Et & Hg).
  - split; try done. split; [by exists 3|]. exists (uninit 8). split; [done|]. by rewrite blen_uninit.
  - exists t. split; [exact Et|]. simpl in Hg. injection Hg as H1 H2. unfold get. simpl. by rewrite H1, H2.
Defined.

Example p_after_P_witness :
  exists w1, gdbstub_process_packet ops arch (packet_of (str "P1=7f")) start = Ret (EVENT_NONE, w1) /\
    w_sent w1 = [frame (str "OK")] /\ w_args w1 = (7, 127) /\
  exists w2, gdbstub_process_packet ops arch (packet_of (str "p1")) w1 = Ret (EVENT_NONE, w2) /\
    w_args w2 = w_args w1 /\ w_sent w2 = w_sent w1 ++ [frame (str "7f")].
Proof.
  destruct (p_after_P ops arch 1 (str "7f") start picky_configured) as (w1 & E1 & S1 & A1 & H2);
    [done|vdecide|done|]. destruct H2 as (w2 & E2 & A2 & S2); [done|].
  exists w1. split; [exact E1|]. split; [exact S1|]. split; [exact A1|].
  exists w2. split; [exact E2|]. split; [exact A2|exact S2].
Defined.

Example G_rejected_witness :
  gdbstub_process_packet ops arch (packet_of (str "G05")) start
  = Ret (EVENT_NONE, add_sent (frame (str "E22")) start).
Proof.
  apply (G_rejected ops arch write (str "05") start); try done. vdecide.
Defined.
End Picky.

(** ** A register file with registers of 1 and 2 bytes *)
Module Mixed.
Definition state : Type := Z * (Z * Z).
Definition get (t : state) (i : Z) : bytes := if i =? 0 then [t.1] else [t.2.1; t.2.2].
Definition set (t : state) (i : Z) (bs : bytes) : state :=
  match bs with
  | [a] => if i =? 0 then (a, t.2) else t
  | [a; b] => if i =? 0 then t else (t.1, (a, b))
  | _ => t
  end.
Definition read (t : state) (i : Z) : outcome (Z * bytes * state) := Ret (0, get t i, t).
Definition write (t : state) (i : Z) (data : buf) : outcome (Z * state) :=
  v ← bload data 0 (i + 1); Ret (0, set t i v).
Definition ops : target_ops state := TargetOps None None (Some (fun i => i + 1)) (Some read) (Some write)
  None None None None None None None.
Definition inv (t : state) : Prop := byte_ok t.1 /\ byte_ok t.2.1 /\ byte_ok t.2.2.

Lemma value_cases i v : 0 <= i < 2 -> value_ok (fun i => i + 1) i v ->
  (i = 0 /\ exists a, v = [a] /\ byte_ok a) \/ (i = 1 /\ exists a b, v = [a; b] /\ byte_ok a /\ byte_ok b).
Proof.
  intros Hi [Hl Hb]. assert (i = 0 \/ i = 1) as [-> | ->] by lia; [left|right]; (split; [done|]).
  - destruct v as [|a [|? ?]]; simpl in Hl; try lia. exists a. split; [done|]. by apply Forall_inv in Hb.
  - destruct v as [|a [|b [|? ?]]]; simpl in Hl; try lia. exists a, b. split; [done|].
    split; [by apply Forall_inv in Hb|]. by apply Forall_inv_tail, Forall_inv in Hb.
Qed.

Ltac open_values :=
  repeat match goal with Hi : 0 <= ?i < 2, H : value_ok _ ?i ?v |- _ =>
    let E := fresh in
    destruct (value_cases i v Hi H) as [(E & ? & -> & ?)|(E & ? & ? & -> & ? & ?)]; clear H;
    first [discriminate E | subst i | clear E] end.
Ltac mixed :=
  intros; open_values; unfold inv, get, set in *;
  change (1 =? 0) with false in *; change (0 =? 0) with true in *;
  simpl in *; first [done | tauto | lia].

#[export] Instance registers : RegisterFile ops inv (fun i => i + 1) 2.
Proof.
  refine {| rf_get := get; rf_set := set; rf_code := fun _ _ => 0 |}.
  - done.
  - exists read. done.
  - exists write. split; [done|]. intros t i bs rest Ht Hi [Hl Hb]. unfold write.
    rewrite (obind_eq _ _ bs); [done|]. by apply (bload_app []).
  - intros i Hi. lia.
  - intros t i (? & ? & ?) Hi. assert (i = 0 \/ i = 1) as [-> | ->] by lia; (split; [done|]).
    + change (get t 0) with [t.1]. auto using Forall_cons, Forall_nil.
    + change (get t 1) with [t.2.1; t.2.2]. auto using Forall_cons, Forall_nil.
  - done.
  - done.
  - mixed.
  - mixed.
  - intros t i j bs Ht Hi Hj Hne Hv _. assert (j = 0 \/ j = 1) as [-> | ->] by lia; mixed.
  - intros [a [b c]] i _ Hi. assert (i = 0 \/ i = 1) as [-> | ->] by lia; done.
  - mixed.
  - mixed.
Defined.

Definition start : world state :=
  World (GdbstubPrivate (Conn 3 4 false 0) (Regbuf (Some (uninit 8)) 8) false true false 3) (1, (2, 3)) [] [].
Definition arch : arch_info_t := ArchInfo None 0 2.

Lemma mixed_configured : configured (inv := inv) (size := fun i => i + 1) (n := 2) arch start.
Proof.
  split; try done. split; [by exists 3|]. exists (uninit 8). split; [done|]. by rewrite blen_uninit.
Qed.

(** The registers hold 01 and 0203; the reply is 01. *)
Example g_drops_mixed_sizes_witness :
  exists r, regbuf_wf r /\ gdbstub_process_packet ops arch (packet_of (str "g")) start
    = Ret (EVENT_NONE, add_sent (frame (str "01")) (with_reg r (1, (2, 3)) start)).
Proof.
  destruct (g_drops_mixed_sizes (inv := inv) (size := fun i => i + 1) (n := 2) ops arch start)
    as (r & Hr & E); [done..|apply mixed_configured|].
  exists r. split; [exact Hr|]. rewrite E. reflexivity.
Defined.
End Mixed.
