(* ===== verification/MemSpec.v ===== *)
(** * The memory and breakpoint packets against an abstract memory

    [Memory] is what the stub asks of a target with memory: reads that return
    the bytes or a code, and writes that depend only on the bytes given to
    them. The theorems say what [m], [M], [X], [z] and [Z] do to any such
    target, and where the stub itself goes out of bounds. *)

From S2P Require Import Prelude CMem CFormat Translate Packet RegBuf Conn Target RegHandlers MemHandlers Stub.

(** Requests the target's address arithmetic can represent. *)
Definition in_range (a l : Z) : Prop := 0 <= a /\ 0 <= l < 2147483648 /\ a + l < 18446744073709551616.

Class Memory {T : Type} (ops : target_ops T) (inv : T -> Prop) := {
  mm_read : T -> Z -> Z -> Z * bytes;
  mm_write : T -> Z -> bytes -> Z * T;
  mm_read_op : exists f, op_read_mem ops = Some f /\
    forall t a l, inv t -> in_range a l -> f t a l = Ret (mm_read t a l, t);
  mm_read_size t a l : inv t -> in_range a l -> (mm_read t a l).1 = 0 -> Z.of_nat (length (mm_read t a l).2) = l;
  mm_read_nothing t a l : inv t -> in_range a l -> (mm_read t a l).1 <> 0 -> (mm_read t a l).2 = [];
  mm_read_ok t a l : inv t -> in_range a l -> Forall byte_ok (mm_read t a l).2;
  mm_read_code t a l : -2147483648 <= (mm_read t a l).1 < 2147483648;
  mm_write_op : exists f, op_write_mem ops = Some f /\
    forall t a bs rest, inv t -> in_range a (Z.of_nat (length bs)) -> Forall byte_ok bs ->
      f t a (Z.of_nat (length bs)) ((Some <$> bs) ++ rest) = Ret (mm_write t a bs);
  mm_write_code t a bs : -2147483648 <= (mm_write t a bs).1 < 2147483648;
  mm_write_inv t a bs : inv t -> in_range a (Z.of_nat (length bs)) -> Forall byte_ok bs -> inv (mm_write t a bs).2;
  mm_read_write t a bs : inv t -> in_range a (Z.of_nat (length bs)) -> Forall byte_ok bs ->
    (mm_write t a bs).1 = 0 -> mm_read (mm_write t a bs).2 a (Z.of_nat (length bs)) = (0, bs)
}.

(** The argument [addr,length] of a memory packet. *)
Definition mem_args (a l : Z) : bytes := digits 16 a ++ 44 :: digits 16 l.

Lemma mem_args_chars a l : 0 <= a -> 0 <= l -> no0 (mem_args a l) /\ 58 ∉ mem_args a l.
Proof.
  intros. unfold mem_args. split.
  - apply Forall_app. split; [by apply no0_digits|]. constructor; [done|by apply no0_digits].
  - rewrite not_elem_of_app, not_elem_of_cons. split_and!; [|done|]; by apply not_in_digits.
Qed.

Lemma scan_addr_len_ok data off a l :
  cstr_at data off (mem_args a l) -> 0 <= a < 18446744073709551616 -> 0 <= l < 18446744073709551616 ->
  scan_addr_len data off = Ret (a, l).
Proof.
  intros Hat Ha Hl. unfold scan_addr_len. rewrite (cstr_at_ok _ _ _ Hat). csimpl.
  unfold mem_args. rewrite scan_hex_digits by (simpl; auto). csimpl. change (44 =? 44) with true. cbv iota.
  pose proof (scan_hex_digits 18446744073709551616 l [] Hl I) as E. rewrite app_nil_r in E. by rewrite E.
Qed.

Section MemSpec.
Context {T : Type} (ops : target_ops T) (arch : arch_info_t).
Context {inv : T -> Prop} `{!Memory ops inv}.
Implicit Types (w : world T).
#[local] Set Default Proof Using "Type Memory0".

(** *** [m] *)

(** What [process_mem_read] does with the bytes it got. *)
Definition mem_reply (bs : bytes) : M (world T) unit :=
  packet_str ← lift (hex_to_str (Some <$> bs) 0 (uninit MAX_SEND_PACKET_SIZE) 0 (Z.of_nat (length bs)));
  conn_send_pktstr packet_str 0.

Lemma mem_reply_ok bs w :
  Forall byte_ok bs ->
  mem_reply bs w =
    (if 2 * Z.of_nat (length bs) <=? MAX_DATA_PAYLOAD then Ret (tt, add_sent (frame (hex_of bs)) w)
     else if 2 * Z.of_nat (length bs) <? MAX_SEND_PACKET_SIZE then AssertFail else UB).
Proof.
  intros Hb. pose proof (length_hex_of bs) as Hl.
  pose proof (no0_hex bs Hb) as H0.
  destruct (decide (2 * Z.of_nat (length bs) < MAX_SEND_PACKET_SIZE)) as [Hlt|Hge].
  - destruct (area_split (uninit MAX_SEND_PACKET_SIZE) (2 * Z.of_nat (length bs))) as (o & [|y rest] & Eo & Ho).
    { rewrite blen_uninit by done. lia. }
    { rewrite app_nil_r in Eo. rewrite <- Eo, blen_uninit in Ho by done. lia. }
    assert (Eh : hex_to_str (Some <$> bs) 0 (uninit MAX_SEND_PACKET_SIZE) 0 (Z.of_nat (length bs))
      = Ret ((Some <$> hex_of bs) ++ Some 0 :: rest)).
    { rewrite Eo, <- (app_nil_r (Some <$> bs)). apply (hex_to_str_ok bs [] [] [] o y rest); try done.
      unfold blen in Ho. lia. }
    assert (Hat : cstr_at ((Some <$> hex_of bs) ++ Some 0 :: rest) 0 (hex_of bs)) by (split; [done|by exists [], rest]).
    unfold mem_reply. rewrite Eh. mstep. case_if.
    + apply send_pktstr_ok; [done|]. split; [done|]. rewrite Hl. lia.
    + replace (_ <? _) with true by (symmetry; by apply Z.ltb_lt). unfold conn_send_pktstr.
      rewrite (packet_string_too_long _ _ _ Hat) by (rewrite Hl; lia). done.
  - unfold MAX_SEND_PACKET_SIZE, MAX_DATA_PAYLOAD, CSUM_SIZE in *.
    rewrite (proj2 (Z.leb_gt _ _)), (proj2 (Z.ltb_ge _ _)) by (unfold MAX_SEND_PACKET_SIZE; lia).
    unfold mem_reply. destruct (hex_to_str_ret_or_ub (Some <$> bs) 0 (uninit MAX_SEND_PACKET_SIZE) 0 (Z.of_nat (length bs)))
      as [[d E] | E].
    + apply hex_to_str_bound in E. rewrite blen_uninit in E by done. unfold MAX_SEND_PACKET_SIZE in E. lia.
    + unfold MAX_SEND_PACKET_SIZE in *. by rewrite E.
Qed.

Lemma mem_read_ok a l w :
  inv (w_args w) -> w_mallocs w = [] -> in_range a l ->
  process_mem_read ops (request_area (chr "m") (mem_args a l)) 2 w =
  let '(c, bs) := mm_read (w_args w) a l in
  if c =? 0 then mem_reply bs w else Ret (tt, add_sent (frame (err_string c)) w).
Proof.
  intros Ht Hm Hr. pose proof Hr as (Ha & Hl & Hal). destruct (mem_args_chars a l) as [H0 _]; [lia|lia|].
  destruct mm_read_op as (f & Ef & Hf). pose proof (mm_read_size _ _ _ Ht Hr) as Hsz.
  pose proof (mm_read_nothing _ _ _ Ht Hr) as Hno. pose proof (mm_read_code (w_args w) a l) as Hc.
  unfold process_mem_read. rewrite (scan_addr_len_ok _ _ a l (request_area_at _ _ H0)) by lia.
  mstep. rewrite (M_bind_eq _ _ _ _ _ (malloc_nil l w Hm)). rewrite Ef. mstep. cbn [area from_option id].
  assert (Ec : call (fun t => '(r, bs, t) ← f t a l; Ret ((r, bs), t)) w = Ret (mm_read (w_args w) a l, w)).
  { unfold call. rewrite Hf by done. destruct (mm_read (w_args w) a l). simpl. by destruct w. }
  rewrite (M_bind_eq _ _ _ _ _ Ec). destruct (mm_read (w_args w) a l) as [c bs]. simpl in Hsz, Hno, Hc.
  destruct (decide (c = 0)) as [->|Hne].
  - specialize (Hsz eq_refl).
    erewrite M_bind_eq; [cbv beta|].
    2:{ rewrite <- (app_nil_l (uninit l)), bstore_uninit by (done || lia).
        rewrite app_nil_l, Hsz, Z.sub_diag, uninit_unfold, app_nil_r. reflexivity. }
    change (0 =? 0) with true. cbv iota. rewrite s32_id by lia. unfold mem_reply. by rewrite Hsz.
  - rewrite (proj2 (Z.eqb_neq c 0) Hne). rewrite (Hno Hne).
    erewrite M_bind_eq; [cbv beta|].
    2:{ rewrite <- (app_nil_l (uninit l)), bstore_uninit by (done || simpl; lia). reflexivity. }
    by apply send_err.
Qed.

(** *** [M] *)
Lemma mem_write_ok a h w :
  let l := Z.of_nat (length (unhex h)) in
  inv (w_args w) -> w_mallocs w = [] -> in_range a l -> Nat.Even (length h) -> no0 h ->
  process_mem_write ops (request_area (chr "M") (mem_args a l ++ 58 :: h)) 2 w =
  let '(c, t) := mm_write (w_args w) a (unhex h) in
  Ret (tt, add_sent (frame (if c =? 0 then str "OK" else err_string c)) (upd_args t w)).
Proof.
  intros l Ht Hm Hr [k Hk] H0h. pose proof Hr as (Ha & Hl & Hal).
  pose proof (length_unhex h k Hk) as Hu. destruct (mem_args_chars a l) as [H0 H58]; [lia|lia|].
  destruct mm_write_op as (f & Ef & Hf). pose proof (mm_write_code (w_args w) a (unhex h)) as Hc.
  unfold process_mem_write. rewrite (split_request _ _ _ h H0 H58). mstep.
  set (d := mem_args a l) in *. set (tl := Some 0 :: request_tail _ _).
  assert (Hat : cstr_at ([Some 36; Some (chr "M")] ++ (Some <$> d) ++ Some 0 :: (Some <$> h) ++ tl) 2 d).
  { split; [done|]. by eexists [Some 36; Some (chr "M")], _. }
  rewrite (scan_addr_len_ok _ _ a l Hat) by lia. mstep. rewrite (M_bind_eq _ _ _ _ _ (malloc_nil l w Hm)).
  cbn [area from_option id]. rewrite s32_id by lia. set (off := 2 + Z.of_nat (length d) + 1).
  assert (Econ : (lift (if l <=? 0 then Ret (default 0 (Some off)) else deref (Some off)) : M (world T) Z) w = Ret (off, w)).
  { by destruct (l <=? 0). }
  rewrite (M_bind_eq _ _ _ _ _ Econ).
  erewrite M_bind_eq; [cbv beta|].
  2:{ replace ([Some 36; Some (chr "M")] ++ (Some <$> d) ++ Some 0 :: (Some <$> h) ++ tl)
        with (([Some 36; Some (chr "M")] ++ (Some <$> d) ++ [Some 0]) ++ (Some <$> h) ++ tl)
        by by rewrite <- !app_assoc.
      rewrite <- (app_nil_l (uninit l)), <- (app_nil_r (uninit l)).
      rewrite str_to_hex_ok; [reflexivity|lia|subst off; blia|done|].
      pose proof (blen_uninit l ltac:(lia)) as Hbl. unfold blen in Hbl. done. }
  rewrite Ef. mstep. rewrite app_nil_l.
  assert (Ec : call (fun t => f t a l ((Some <$> unhex h) ++ [])) w =
    Ret ((mm_write (w_args w) a (unhex h)).1, upd_args (mm_write (w_args w) a (unhex h)).2 w)).
  { unfold call. unfold l. rewrite Hf by (done || apply unhex_range). by destruct (mm_write _ _ _). }
  rewrite (M_bind_eq _ _ _ _ _ Ec). destruct (mm_write _ _ _) as [c t]. simpl in Hc |- *.
  case_if; [apply send_string_ok; sendable_lit|by apply send_err].
Qed.

(** *** [X] *)
Lemma mem_xwrite_ok a bs w :
  let l := Z.of_nat (length bs) in
  let s := mem_args a l ++ 58 :: escape bs in
  inv (w_args w) -> in_range a l -> Forall byte_ok bs ->
  process_mem_xwrite ops (request_area (chr "X") s) 2 (Z.of_nat (length s) + 2) w =
  Ret (tt, add_sent (frame (str "OK")) (upd_args (mm_write (w_args w) a bs).2 w)).
Proof.
  intros l s Ht Hr Hb. pose proof Hr as (Ha & Hl & Hal).
  destruct (mem_args_chars a l) as [H0 H58]; [lia|lia|].
  destruct mm_write_op as (f & Ef & Hf).
  unfold process_mem_xwrite. subst s. rewrite (split_request _ _ _ (escape bs) H0 H58). mstep.
  set (d := mem_args a l) in *. set (tl := Some 0 :: request_tail _ _).
  assert (Hat : cstr_at ([Some 36; Some (chr "X")] ++ (Some <$> d) ++ Some 0 :: (Some <$> escape bs) ++ tl) 2 d).
  { split; [done|]. by eexists [Some 36; Some (chr "X")], _. }
  rewrite (scan_addr_len_ok _ _ a l Hat) by lia. mstep. mstep.
  set (pre := [Some 36; Some (chr "X")] ++ (Some <$> d) ++ [Some 0]).
  replace ([Some 36; Some (chr "X")] ++ (Some <$> d) ++ Some 0 :: (Some <$> escape bs) ++ tl)
    with (pre ++ (Some <$> escape bs) ++ tl) by (subst pre; by rewrite <- !app_assoc).
  assert (Hoff : 2 + Z.of_nat (length d) + 1 = blen pre) by (subst pre; blia).
  assert (Hend : Z.of_nat (length (d ++ 58 :: escape bs)) + 2 = blen pre + Z.of_nat (length (escape bs))).
  { rewrite <- Hoff, length_app. simpl. lia. }
  destruct (unescape_ok bs pre tl Hb) as (gap & Eu & _). rewrite Hoff, Hend, Eu. mstep.
  rewrite Z.eqb_refl. mstep. rewrite Ef. mstep.
  rewrite to_nat_blen, drop_app_exact.
  assert (Ec : call (fun t => f t a l ((Some <$> bs) ++ gap ++ tl)) w =
    Ret ((mm_write (w_args w) a bs).1, upd_args (mm_write (w_args w) a bs).2 w)).
  { unfold call. unfold l. rewrite Hf by done. by destruct (mm_write _ _ _). }
  rewrite (M_bind_eq _ _ _ _ _ Ec). apply send_string_ok. sendable_lit.
Qed.

(** The handlers behind the dispatch. *)
Lemma run_m s w : gdbstub_process_packet ops arch (packet_of (chr "m" :: s)) w =
  (_ ← process_mem_read ops (request_area (chr "m") s) 2; mret EVENT_NONE) w.
Proof.
  rewrite process_packet_of. unfold dispatch. pick_request. destruct mm_read_op as (f & Ef & _).
  unfold guarded. by rewrite Ef.
Qed.
Lemma run_M s w : gdbstub_process_packet ops arch (packet_of (chr "M" :: s)) w =
  (_ ← process_mem_write ops (request_area (chr "M") s) 2; mret EVENT_NONE) w.
Proof.
  rewrite process_packet_of. unfold dispatch. pick_request. destruct mm_write_op as (f & Ef & _).
  unfold guarded. by rewrite Ef.
Qed.
Lemma run_X s w : gdbstub_process_packet ops arch (packet_of (chr "X" :: s)) w =
  (_ ← process_mem_xwrite ops (request_area (chr "X") s) 2 (Z.of_nat (length s) + 2); mret EVENT_NONE) w.
Proof.
  rewrite process_packet_of. unfold dispatch. pick_request. destruct mm_write_op as (f & Ef & _).
  unfold guarded. by rewrite Ef.
Qed.

(** ** Properties *)

(** C24 [m addr,length]: a read the target refuses is reported by its code; bytes
    it delivers are replied in hexadecimal when two characters per byte fit
    [MAX_DATA_PAYLOAD]. Beyond that the stub fails: up to the size of its buffer
    at the assertion of [conn_send_pktstr], and from 2048 bytes on by writing
    past [packet_str], although [qSupported] advertises packets of 0x1024 bytes. *)
Theorem m_replies a l w :
  inv (w_args w) -> w_mallocs w = [] -> in_range a l ->
  let '(c, bs) := mm_read (w_args w) a l in
  gdbstub_process_packet ops arch (packet_of (chr "m" :: mem_args a l)) w =
    (if c =? 0 then
       if 2 * l <=? MAX_DATA_PAYLOAD then Ret (EVENT_NONE, add_sent (frame (hex_of bs)) w)
       else if 2 * l <? MAX_SEND_PACKET_SIZE then AssertFail else UB
     else Ret (EVENT_NONE, add_sent (frame (err_string c)) w)).
Proof.
  intros Ht Hm Hr. pose proof (mem_read_ok a l w Ht Hm Hr) as E.
  pose proof (mm_read_size _ _ _ Ht Hr) as Hsz. pose proof (mm_read_ok _ _ _ Ht Hr) as Hb.
  rewrite run_m. unfold mbind, M_bind. rewrite E. destruct (mm_read (w_args w) a l) as [c bs]. simpl in *.
  destruct (c =? 0) eqn:Ec; [|done]. apply Z.eqb_eq in Ec. specialize (Hsz Ec). subst l.
  rewrite (mem_reply_ok bs w Hb). by repeat case_if.
Qed.

(** C21 [M addr,length:digits] stores the bytes the digits denote and replies [OK],
    or reports the code of a refused write; after a write that succeeded, [m] of
    the same range replies exactly these bytes, as long as their digits fit the
    send buffer. *)
Theorem m_after_M a bs w :
  let l := Z.of_nat (length bs) in
  inv (w_args w) -> w_mallocs w = [] -> in_range a l -> Forall byte_ok bs ->
  let '(c, t) := mm_write (w_args w) a bs in
  let w1 := add_sent (frame (if c =? 0 then str "OK" else err_string c)) (upd_args t w) in
  gdbstub_process_packet ops arch (packet_of (chr "M" :: mem_args a l ++ 58 :: hex_of bs)) w
    = Ret (EVENT_NONE, w1) /\
  (c = 0 -> 2 * l <= MAX_DATA_PAYLOAD ->
   gdbstub_process_packet ops arch (packet_of (chr "m" :: mem_args a l)) w1
    = Ret (EVENT_NONE, add_sent (frame (hex_of bs)) w1)).
Proof.
  intros l Ht Hm Hr Hb.
  assert (He : Nat.Even (length (hex_of bs))) by (exists (length bs); apply length_hex_of).
  pose proof (mem_write_ok a (hex_of bs) w) as E. rewrite unhex_hex_of in E by done.
  specialize (E Ht Hm Hr He (no0_hex bs Hb)). fold l in E.
  pose proof (mm_write_inv _ _ _ Ht Hr Hb) as Ht1. pose proof (mm_read_write _ _ _ Ht Hr Hb) as Hrw.
  destruct (mm_write (w_args w) a bs) as [c t]. simpl in Ht1, Hrw. split.
  - rewrite run_M. by rewrite (M_bind_eq _ _ _ _ _ E).
  - intros Hc Hfit. set (w1 := add_sent _ _). pose proof (mem_read_ok a l w1 Ht1 Hm Hr) as Er.
    rewrite run_m. unfold mbind, M_bind. rewrite Er. subst w1. simpl w_args. unfold l at 1. rewrite (Hrw Hc).
    change (0 =? 0) with true. cbv iota. rewrite mem_reply_ok by done.
    rewrite (proj2 (Z.leb_le _ _)) by done. done.
Qed.

(** C22 [X] writes like [M]: for every byte string, escaped in [X] and in
    hexadecimal in [M], both leave the same target; but [X] replies [OK] even
    when the write was refused, where [M] reports the code. *)
Theorem X_writes_like_M a bs w :
  let l := Z.of_nat (length bs) in
  inv (w_args w) -> w_mallocs w = [] -> in_range a l -> Forall byte_ok bs ->
  let '(c, t) := mm_write (w_args w) a bs in
  gdbstub_process_packet ops arch (packet_of (chr "M" :: mem_args a l ++ 58 :: hex_of bs)) w
    = Ret (EVENT_NONE, add_sent (frame (if c =? 0 then str "OK" else err_string c)) (upd_args t w)) /\
  gdbstub_process_packet ops arch (packet_of (chr "X" :: mem_args a l ++ 58 :: escape bs)) w
    = Ret (EVENT_NONE, add_sent (frame (str "OK")) (upd_args t w)).
Proof.
  intros l Ht Hm Hr Hb.
  assert (He : Nat.Even (length (hex_of bs))) by (exists (length bs); apply length_hex_of).
  pose proof (mem_write_ok a (hex_of bs) w) as E. rewrite unhex_hex_of in E by done.
  specialize (E Ht Hm Hr He (no0_hex bs Hb)). fold l in E.
  pose proof (mem_xwrite_ok a bs w Ht Hr Hb) as Ex.
  destruct (mm_write (w_args w) a bs) as [c t]. split.
  - rewrite run_M. by rewrite (M_bind_eq _ _ _ _ _ E).
  - rewrite run_X. by rewrite (M_bind_eq _ _ _ _ _ Ex).
Qed.

(** C25 [M] trusts its length: when the packet holds fewer digits than the length
    asks for, and not even the checksum behind them makes up for it, the handler
    reads past the end of the packet. *)
Theorem M_reads_past_packet a l h w :
  w_mallocs w = [] -> in_range a l -> no0 h -> Z.of_nat (length h) + 4 < 2 * l ->
  gdbstub_process_packet ops arch (packet_of (chr "M" :: mem_args a l ++ 58 :: h)) w = UB.
Proof.
  intros Hm Hr Hh Hshort. pose proof Hr as (Ha & Hl & Hal).
  destruct (mem_args_chars a l) as [H0 H58]; [lia|lia|].
  rewrite run_M.
  enough (E : process_mem_write ops (request_area (chr "M") (mem_args a l ++ 58 :: h)) 2 w = UB).
  { unfold mbind, M_bind. by rewrite E. }
  unfold process_mem_write. rewrite (split_request _ _ _ h H0 H58). mstep.
  set (d := mem_args a l) in *. set (tl := Some 0 :: request_tail _ _).
  assert (Hat : cstr_at ([Some 36; Some (chr "M")] ++ (Some <$> d) ++ Some 0 :: (Some <$> h) ++ tl) 2 d).
  { split; [done|]. by eexists [Some 36; Some (chr "M")], _. }
  rewrite (scan_addr_len_ok _ _ a l Hat) by lia. mstep. rewrite (M_bind_eq _ _ _ _ _ (malloc_nil l w Hm)).
  cbn [area from_option id]. rewrite s32_id by lia. rewrite (proj2 (Z.leb_gt l 0)) by lia. mstep.
  destruct (str_to_hex_ret_or_ub ([Some 36; Some (chr "M")] ++ (Some <$> d) ++ Some 0 :: (Some <$> h) ++ tl)
    (2 + Z.of_nat (length d) + 1) (uninit l) 0 l) as [[b E] | E].
  - apply str_to_hex_bound in E; [|lia]. subst tl. unfold request_tail in E. autorewrite with blen in E.
    change (length (hex_byte _)) with 2%nat in E. lia.
  - unfold mbind, M_bind. by rewrite E.
Qed.
End MemSpec.

(** C26 Breakpoints: [Z type,addr,kind] and [z type,addr,kind] pass the address and
    the type the client sent, as a 32-bit enumeration, to the target, and reply
    [OK] or [E22] as it answers. Every type is passed on, not only
    [BP_SOFTWARE], although the README says that the type is always
    [BP_SOFTWARE]: refusing the others is left to the target. *)
Theorem breakpoints_reply {T} (ops : target_ops T) arch (fs fd : T -> Z -> Z -> outcome (bool * T))
    ty a k ok (t : T) (w : world T) :
  op_set_bp ops = Some fs -> op_del_bp ops = Some fd ->
  0 <= ty < 18446744073709551616 -> 0 <= a < 18446744073709551616 -> 0 <= k < 18446744073709551616 ->
  let args := digits 16 ty ++ 44 :: digits 16 a ++ 44 :: digits 16 k in
  let w' := add_sent (frame (if ok : bool then str "OK" else str "E22")) (upd_args t w) in
  (fs (w_args w) a (u32 ty) = Ret (ok, t) ->
     gdbstub_process_packet ops arch (packet_of (chr "Z" :: args)) w = Ret (EVENT_NONE, w')) /\
  (fd (w_args w) a (u32 ty) = Ret (ok, t) ->
     gdbstub_process_packet ops arch (packet_of (chr "z" :: args)) w = Ret (EVENT_NONE, w')).
Proof.
  intros Es Ed Hty Ha Hk args w'.
  assert (H0 : no0 args).
  { subst args. apply Forall_app. split; [apply no0_digits; lia|]. constructor; [done|].
    apply Forall_app. split; [apply no0_digits; lia|]. constructor; [done|apply no0_digits; lia]. }
  assert (Hscan : forall c, scan_bp (request_area c args) 2 = Ret (ty, a, k)).
  { intros c. unfold scan_bp. rewrite (cstr_at_ok _ _ _ (request_area_at c args H0)). csimpl.
    subst args. rewrite scan_hex_digits by (simpl; auto). csimpl. change (44 =? 44) with true. cbv iota.
    rewrite scan_hex_digits by (simpl; auto). csimpl. change (44 =? 44) with true. cbv iota.
    pose proof (scan_hex_digits 18446744073709551616 k [] Hk I) as E. rewrite app_nil_r in E. by rewrite E. }
  assert (Hsend : ((_ ← (if ok then send_string (str "OK") else SEND_EINVAL); mret EVENT_NONE) : M (world T) _)
      (upd_args t w) = Ret (EVENT_NONE, w')).
  { unfold SEND_EINVAL. destruct ok; (erewrite M_bind_eq; [|apply send_string_ok; sendable_lit]); done. }
  split; intros Hf; rewrite process_packet_of; unfold dispatch; pick_request; unfold guarded; rewrite ?Es, ?Ed.
  all: unfold process_set_break_points, process_del_break_points; rewrite Hscan, ?Es, ?Ed.
  all: unfold mbind, M_bind, lift, call in *; cbn [deref]; by rewrite Hf.
Qed.
