(* ===== verification/QuerySpec.v ===== *)
(** * Queries, [v] packets and thread selection: what they reply

    The target description read through [qXfer], the [vCont] actions, the thread
    list and the thread ids, and the requests that lack a separator. *)

From S2P Require Import Prelude CMem CFormat Translate Packet RegBuf Conn Target RegHandlers MemHandlers QueryHandlers Stub MemSpec.

(** ** The client's view of [qXfer] *)

(** The reply to a read of [len] bytes at [off]: [l] or [m], and the data. *)
Definition xfer_reply (desc : bytes) (off len : Z) : bytes :=
  let n := Z.min len MAX_DATA_PAYLOAD in
  (if Z.of_nat (length desc) - off <? n then chr "l" else chr "m")
    :: take (Z.to_nat (n - 1)) (drop (Z.to_nat off) desc).

(** Reading on behind the bytes received until a reply starts with [l];
    [None] when the fuel runs out. *)
Fixpoint read_all (fuel : nat) (desc : bytes) (off len : Z) : option bytes :=
  match fuel with
  | O => None
  | S fuel =>
      match xfer_reply desc off len with
      | flag :: data =>
          if flag =? chr "l" then Some data
          else (fun rest => data ++ rest) <$> read_all fuel desc (off + Z.of_nat (length data)) len
      | [] => None
      end
  end.

(** The list of thread ids. *)
Definition thread_id (i : Z) : bytes := fmt_04d i ++ [44].
Fixpoint thread_ids (n : nat) (i : Z) : bytes :=
  match n with O => [] | S n => thread_id i ++ thread_ids n (i + 1) end.

(** ** Lemmas *)

Lemma skip_delim_head c s : head s <> Some c -> skip_delim c s = s.
Proof. destruct s as [|x s]; simpl; [done|]. intros Hx. by rewrite (proj2 (Z.eqb_neq x c)) by congruence. Qed.

Lemma span_delim_hit c s r : c ∉ s -> span_delim c (s ++ c :: r) = (s, r).
Proof.
  induction s as [|x s IH]; csimpl; intros Hc; [by rewrite Z.eqb_refl|].
  apply not_elem_of_cons in Hc as [Hne Hc]. rewrite (proj2 (Z.eqb_neq x c)) by congruence. by rewrite IH.
Qed.
Lemma span_delim_miss c s : c ∉ s -> span_delim c s = (s, []).
Proof.
  induction s as [|x s IH]; csimpl; intros Hc; [done|].
  apply not_elem_of_cons in Hc as [Hne Hc]. rewrite (proj2 (Z.eqb_neq x c)) by congruence. by rewrite IH.
Qed.

Lemma strtok_hit c x s r : c ∉ x :: s -> strtok c ((x :: s) ++ c :: r) = (Some (x :: s), r).
Proof.
  intros Hc. unfold strtok. rewrite skip_delim_head.
  - pose proof (span_delim_hit c (x :: s) r Hc) as E. cbn [app] in *. by rewrite E.
  - apply not_elem_of_cons in Hc as [Hne _]. simpl. congruence.
Qed.
Lemma strtok_last c x s : c ∉ x :: s -> strtok c (x :: s) = (Some (x :: s), []).
Proof.
  intros Hc. unfold strtok. rewrite skip_delim_head.
  - by rewrite (span_delim_miss c (x :: s) Hc).
  - apply not_elem_of_cons in Hc as [Hne _]. simpl. congruence.
Qed.

Lemma no0_sub (s : bytes) a b : no0 s -> no0 (take a (drop b s)).
Proof. intros. by apply Forall_take, Forall_drop. Qed.

Lemma xfer_reply_sendable desc off len : no0 desc -> 0 < len -> sendable (xfer_reply desc off len).
Proof.
  intros H0 Hl. unfold xfer_reply. split.
  - constructor; [by case_if|]. by apply no0_sub.
  - simpl. rewrite length_take. unfold MAX_DATA_PAYLOAD, MAX_SEND_PACKET_SIZE, CSUM_SIZE. lia.
Qed.

(** The chunk the handler builds holds the reply. *)
Lemma xfer_chunk_ok desc off len :
  no0 desc -> 0 <= off <= Z.of_nat (length desc) -> 0 < len ->
  exists b, xfer_chunk desc off len = Ret b /\ cstr_at b 0 (xfer_reply desc off len).
Proof.
  intros H0 Hoff Hl. unfold xfer_chunk, xfer_reply.
  assert (Hn : (if len <? MAX_DATA_PAYLOAD then len else MAX_DATA_PAYLOAD) = Z.min len MAX_DATA_PAYLOAD).
  { case_if; lia. }
  rewrite Hn. set (n := Z.min len MAX_DATA_PAYLOAD).
  change (chr "l") with 108. change (chr "m") with 109. set (fl := if _ <? n then _ else _).
  assert (Hnb : 0 < n <= 4090).
  { subst n. unfold MAX_DATA_PAYLOAD, MAX_SEND_PACKET_SIZE, CSUM_SIZE. lia. }
  rewrite <- (app_nil_l (uninit MAX_SEND_PACKET_SIZE)).
  erewrite obind_eq; [cbv beta|apply bput_uninit; done].
  unfold desc_from. replace (_ && _) with true by (symmetry; bool_props; lia). csimpl.
  unfold snprintf. rewrite u64_id by lia. rewrite (proj2 (Z.eqb_neq n 0)) by lia.
  set (rest := drop (Z.to_nat off) desc).
  replace (take (Z.to_nat (Z.min (n - 1) (Z.of_nat (length rest)))) rest) with (take (Z.to_nat (n - 1)) rest).
  2:{ destruct (decide (n - 1 <= Z.of_nat (length rest))).
      - by rewrite Z.min_l by lia.
      - rewrite Z.min_r by lia. rewrite !take_ge by lia. done. }
  set (data := take (Z.to_nat (n - 1)) rest).
  assert (Hd : Z.of_nat (length data) <= n - 1) by (subst data; rewrite length_take; lia).
  change (Some fl :: uninit (MAX_SEND_PACKET_SIZE - 1)) with ([Some fl] ++ uninit (MAX_SEND_PACKET_SIZE - 1)).
  rewrite bstore_uninit; [|done|rewrite length_app; unfold MAX_SEND_PACKET_SIZE; simpl; lia].
  eexists. split; [done|]. split.
  - constructor; [|by apply no0_sub]. subst fl. by case_if.
  - eexists [], _. rewrite fmap_app, <- !app_assoc. done.
Qed.

(** The client's loop puts the description together. *)
Lemma read_all_ok desc len fuel : forall off,
  2 <= len -> 0 <= off <= Z.of_nat (length desc) -> (length desc - Z.to_nat off < fuel)%nat ->
  read_all fuel desc off len = Some (drop (Z.to_nat off) desc).
Proof.
  induction fuel as [|fuel IH]; intros off Hl Hoff Hf; [lia|]. simpl.
  set (n := Z.min len MAX_DATA_PAYLOAD).
  assert (Hn : 2 <= n) by (subst n; unfold MAX_DATA_PAYLOAD, MAX_SEND_PACKET_SIZE, CSUM_SIZE; lia).
  destruct (Z.of_nat (length desc) - off <? n) eqn:E; bool_props.
  - change (chr "l" =? chr "l") with true. cbv iota. f_equal. apply take_ge. rewrite length_drop. lia.
  - change (chr "m" =? chr "l") with false. cbv iota.
    assert (Hd : length (take (Z.to_nat (n - 1)) (drop (Z.to_nat off) desc)) = Z.to_nat (n - 1)).
    { rewrite length_take, length_drop. lia. }
    rewrite Hd, IH by lia. simpl. f_equal.
    replace (Z.to_nat (off + Z.of_nat (Z.to_nat (n - 1)))) with (Z.to_nat off + Z.to_nat (n - 1))%nat by lia.
    by rewrite <- drop_drop, take_drop.
Qed.

(** *** Thread lists *)
Lemma thread_id_shape i : 0 <= i < 10000 -> length (thread_id i) = 5%nat /\ no0 (thread_id i).
Proof.
  intros Hi. destruct (digits_spec 10 i ltac:(lia) ltac:(lia)) as (_ & _ & Hk & _).
  specialize (Hk 4 ltac:(lia) ltac:(done || (change (10 ^ 4) with 10000; lia))).
  unfold thread_id, fmt_04d. rewrite (proj2 (Z.ltb_ge i 0)) by lia. split.
  - unfold pad0. rewrite !length_app, length_replicate. simpl length. lia.
  - apply Forall_app. split; [|by constructor]. unfold pad0. apply Forall_app. split; [by apply Forall_replicate|].
    by apply no0_digits; lia.
Qed.

Lemma thread_ids_shape n : forall i, 0 <= i -> i + Z.of_nat n <= 10000 ->
  length (thread_ids n i) = (5 * n)%nat /\ no0 (thread_ids n i).
Proof.
  induction n as [|n IH]; intros i Hi Hn; simpl; [split; [done|constructor]|].
  destruct (thread_id_shape i) as [H1 H2]; [lia|]. destruct (IH (i + 1)) as [H3 H4]; [lia|lia|].
  rewrite length_app, H1, H3. split; [lia|]. by apply Forall_app.
Qed.

Lemma thread_step i : 0 <= i < 10000 ->
  (cpuid_str ← sprintf (uninit 6) 0 (fmt_04d i ++ [44]); bslice cpuid_str 0 5) = Ret (Some <$> thread_id i).
Proof.
  intros Hi. destruct (thread_id_shape i Hi) as [Hl _]. unfold sprintf. fold (thread_id i).
  rewrite <- (app_nil_l (uninit 6)).
  erewrite obind_eq; [|apply bstore_uninit; [done|rewrite length_app, Hl; done]].
  rewrite length_app, Hl, fmap_app, uninit_unfold. simpl replicate. rewrite !app_nil_r, app_nil_l.
  apply (bslice_app [] (Some <$> thread_id i) (Some <$> [0])); [done|]. by rewrite blen_fmap, Hl.
Qed.

Lemma thread_info_loop_ok n : forall i pre room,
  0 <= i -> i + Z.of_nat n <= 10000 -> 5 * Z.of_nat n <= room ->
  thread_info_loop n i (pre ++ uninit room) (blen pre) =
  Ret ((pre ++ (Some <$> thread_ids n i)) ++ uninit (room - 5 * Z.of_nat n), blen pre + 5 * Z.of_nat n).
Proof.
  induction n as [|n IH]; intros i pre room Hi Hn Hr; simpl.
  - rewrite app_nil_r, Z.sub_0_r, Z.add_0_r. done.
  - destruct (thread_id_shape i) as [Hl _]; [lia|]. pose proof (thread_step i ltac:(lia)) as E.
    destruct (sprintf (uninit 6) 0 (fmt_04d i ++ [44])) as [b| | |]; simpl in E |- *; try done. rewrite E. simpl.
    erewrite obind_eq; [cbv beta|apply bwrite_uninit; [done|rewrite blen_fmap, Hl; lia]].
    rewrite blen_fmap, Hl. replace (blen pre + 5) with (blen (pre ++ (Some <$> thread_id i))).
    2:{ rewrite blen_app, blen_fmap, Hl. done. }
    rewrite IH by lia. rewrite blen_app, blen_fmap, Hl, fmap_app, <- !app_assoc.
    replace (room - Z.of_nat 5 - 5 * Z.of_nat n) with (room - 5 * Z.of_nat (S n)) by lia.
    by replace (blen pre + Z.of_nat 5 + 5 * Z.of_nat n) with (blen pre + 5 * Z.of_nat (S n)) by lia.
Qed.

(** The loop that runs out of the buffer. *)
Lemma thread_info_loop_ub n : forall i pre room,
  0 <= i -> i + Z.of_nat n <= 10000 -> 0 <= room < 5 * Z.of_nat n ->
  thread_info_loop n i (pre ++ uninit room) (blen pre) = UB.
Proof.
  induction n as [|n IH]; intros i pre room Hi Hn Hr; [lia|]; simpl.
  destruct (thread_id_shape i) as [Hl _]; [lia|]. pose proof (thread_step i ltac:(lia)) as E.
  destruct (sprintf (uninit 6) 0 (fmt_04d i ++ [44])) as [b| | |]; simpl in E |- *; try done. rewrite E. simpl.
  destruct (decide (5 <= room)).
  - erewrite obind_eq; [cbv beta|apply bwrite_uninit; [done|rewrite blen_fmap, Hl; lia]].
    rewrite blen_fmap, Hl. replace (blen pre + 5) with (blen (pre ++ (Some <$> thread_id i))).
    2:{ rewrite blen_app, blen_fmap, Hl. done. }
    apply IH; lia.
  - unfold bwrite. rewrite blen_app, blen_fmap, blen_uninit, Hl by lia.
    by replace (_ && _) with false by (symmetry; bool_props; lia).
Qed.

(** *** A [q] request split twice *)
Lemma not_in_lit (c : Z) (s : bytes) : bool_decide (c ∉ s) = true -> c ∉ s.
Proof. apply bool_decide_eq_true_1. Qed.

Lemma digits_cons base n : 2 <= base <= 16 -> 0 <= n -> exists x s, digits base n = x :: s.
Proof. intros Hb Hn. destruct (digits_spec base n Hb Hn) as (Hne & _). destruct (digits base n); eauto; done. Qed.

(** The range [offset,length] of a read request. *)
Definition range (off len : Z) : bytes := digits 16 off ++ 44 :: digits 16 len.
Definition xfer_request (off len : Z) : bytes :=
  str "Xfer" ++ 58 :: (str "features" ++ 58 :: str "read:target.xml:" ++ range off len).

Lemma range_ok off len : 0 <= off < 2147483648 -> 0 <= len < 2147483648 ->
  no0 (range off len) /\ strtok 58 (range off len) = (Some (range off len), []) /\
  sscanf [FHex32; FChar 44; FHex32] (range off len) = Ret [off; len].
Proof.
  intros Ho Hl. unfold range. split_and!.
  - apply Forall_app. split; [apply no0_digits; lia|]. constructor; [done|apply no0_digits; lia].
  - destruct (digits_cons 16 off) as (x & s & E); [lia|lia|].
    assert (Hn : 58 ∉ digits 16 off ++ 44 :: digits 16 len).
    { rewrite not_elem_of_app, not_elem_of_cons. split_and!; [|done|]; apply not_in_digits; (done || lia). }
    rewrite E in *. cbn [app] in *. by apply strtok_last.
  - csimpl. rewrite scan_hex_digits by (simpl; auto with lia). csimpl. change (44 =? 44) with true. cbv iota.
    pose proof (scan_hex_digits 4294967296 len [] ltac:(lia) I) as E. rewrite app_nil_r in E. rewrite E. csimpl.
    by rewrite !s32_id by lia.
Qed.

Lemma no0_str_app (s r : bytes) : bool_decide (no0 s) = true -> no0 r -> no0 (s ++ r).
Proof. intros Hs Hr. apply Forall_app. split; [by apply bool_decide_eq_true_1 in Hs|done]. Qed.

Section QuerySpec.
Context {T : Type} (ops : target_ops T) (arch : arch_info_t).
Implicit Types (w : world T).

Lemma xfer_ok desc off len w :
  target_desc arch = Some desc -> no0 desc -> 0 <= off <= Z.of_nat (length desc) ->
  off < 2147483648 -> 0 < len < 2147483648 ->
  process_query ops arch (request_area (chr "q") (xfer_request off len)) 2 w
  = Ret (tt, add_sent (frame (xfer_reply desc off len)) w).
Proof.
  intros Ed H0 Hoff Ho31 Hl. destruct (range_ok off len) as (Hr0 & Htok & Hscan); [lia|lia|].
  unfold process_query, xfer_request. set (tail1 := str "features" ++ _).
  rewrite (split_request _ (str "Xfer") 58 tail1) by vdecide. mstep.
  set (tl := Some 0 :: request_tail _ _).
  assert (Hat : cstr_at ([Some 36; Some (chr "q")] ++ (Some <$> str "Xfer") ++ Some 0 :: (Some <$> tail1) ++ tl) 2 (str "Xfer")).
  { split; [vdecide|]. by eexists [Some 36; Some (chr "q")], _. }
  rewrite (cstr_at_ok _ _ _ Hat). mstep.
  repeat match goal with |- context [streq (str "Xfer") ?s] =>
    let v := eval vm_compute in (streq (str "Xfer") s) in
    replace (streq (str "Xfer") s) with v by reflexivity; cbv iota end.
  mstep. unfold process_xfer. subst tail1.
  set (pre := [Some 36; Some (chr "q")] ++ (Some <$> str "Xfer") ++ [Some 0]).
  set (rest := str "read:target.xml:" ++ range off len).
  assert (Hpre : forall l : buf, [Some 36; Some (chr "q")] ++ (Some <$> str "Xfer") ++ Some 0 :: l = pre ++ l) by done.
  rewrite Hpre. change (Z.of_nat (length (str "Xfer"))) with 4. change (2 + 4 + 1) with 7.
  assert (Hsp : split_args (pre ++ (Some <$> str "features" ++ 58 :: rest) ++ tl) 7 58
    = Ret (pre ++ (Some <$> str "features") ++ Some 0 :: (Some <$> rest) ++ tl, Some 16)).
  { rewrite fmap_app, <- app_assoc.
    change ((Some <$> 58 :: rest) ++ tl) with (Some 58 :: (Some <$> rest) ++ tl).
    rewrite split_args_hit; [done|done|vdecide|vdecide]. }
  rewrite Hsp. mstep.
  assert (Hat2 : cstr_at (pre ++ (Some <$> str "features") ++ Some 0 :: (Some <$> rest) ++ tl) 7 (str "features")).
  { split; [vdecide|]. by eexists pre, _. }
  rewrite (cstr_at_ok _ _ _ Hat2). mstep. rewrite Ed. rewrite streq_refl. mstep.
  assert (Hat3 : cstr_at (pre ++ (Some <$> str "features") ++ Some 0 :: (Some <$> rest) ++ tl) 16 rest).
  { split; [by apply no0_str_app|]. exists (pre ++ (Some <$> str "features") ++ [Some 0]), (request_tail (chr "q") (str "Xfer" ++ 58 :: str "features" ++ 58 :: rest)).
    split; [|done]. by rewrite <- !app_assoc. }
  rewrite (cstr_at_ok _ _ _ Hat3). mstep.
  change rest with ((114 :: str "ead") ++ 58 :: str "target.xml:" ++ range off len).
  rewrite strtok_hit by vdecide. mstep. mstep.
  change (str "target.xml:" ++ range off len) with ((116 :: str "arget.xml") ++ 58 :: range off len).
  rewrite strtok_hit by vdecide. mstep. mstep. rewrite Htok. mstep. rewrite Hscan. mstep.
  destruct (xfer_chunk_ok desc off len H0 Hoff ltac:(lia)) as (b & Eb & Hb).
  cbn [default]. change (default 0 ([off; len] !! 0%nat)) with off. change (default 0 ([off; len] !! 1%nat)) with len.
  rewrite Eb. mstep. apply send_pktstr_ok; [done|]. apply xfer_reply_sendable; (done || lia).
Qed.

(** C27 The target description arrives whole: each [qXfer:features:read] request
    is answered by the next bytes of it, flagged [l] exactly when they are the
    last; and a client that asks for two bytes or more at a time and goes on
    behind what it received reads the description exactly, in at most one
    request per byte and one. *)
Theorem xfer_delivers_description desc len w :
  target_desc arch = Some desc -> no0 desc -> Z.of_nat (length desc) < 2147483648 -> 2 <= len < 2147483648 ->
  (forall off, 0 <= off <= Z.of_nat (length desc) ->
     gdbstub_process_packet ops arch (packet_of (chr "q" :: xfer_request off len)) w
     = Ret (EVENT_NONE, add_sent (frame (xfer_reply desc off len)) w)) /\
  read_all (S (length desc)) desc 0 len = Some desc.
Proof.
  intros Ed H0 Hdl Hl. split.
  - intros off Hoff. rewrite process_packet_of. unfold dispatch. pick_request. unfold no_event.
    by rewrite (M_bind_eq _ _ _ _ _ (xfer_ok desc off len w Ed H0 Hoff ltac:(lia) ltac:(lia))).
  - rewrite read_all_ok; [by rewrite drop_0|lia|lia|lia].
Qed.

(** *** [vCont] *)
Definition vcont_actions : list Z :=
  (if is_null (op_stepi ops) then [] else [chr "s"]) ++ (if is_null (op_cont ops) then [] else [chr "c"]).
Definition vcont_list : bytes := str "vCont;" ++ (vcont_actions ≫= fun a => [a; chr ";"]).

Lemma vpacket_cont a rest w :
  no0 (a :: rest) ->
  process_vpacket ops (request_area (chr "v") (str "Cont" ++ 59 :: a :: rest)) 2 w =
  (if a =? 99 then process_cont ops
   else if a =? 115 then process_stepi ops
   else _ ← SEND_EPERM; mret EVENT_NONE) w.
Proof.
  intros H0. unfold process_vpacket. rewrite (split_request _ (str "Cont") 59 (a :: rest)) by vdecide. mstep.
  set (tl := Some 0 :: request_tail _ _).
  set (data := [Some 36; Some (chr "v")] ++ (Some <$> str "Cont") ++ Some 0 :: (Some <$> a :: rest) ++ tl).
  assert (Hat : cstr_at data 2 (str "Cont")).
  { split; [vdecide|]. by eexists [Some 36; Some (chr "v")], _. }
  rewrite (cstr_at_ok _ _ _ Hat). mstep. rewrite streq_refl. unfold process_vcont. mstep.
  assert (Hg : bget data 7 = Ret a).
  { assert (Ed : data = ([Some 36; Some (chr "v")] ++ (Some <$> str "Cont") ++ [Some 0]) ++ Some a :: (Some <$> rest) ++ tl) by done.
    rewrite Ed. by apply bget_app. }
  change (2 + Z.of_nat (length (str "Cont")) + 1) with 7. rewrite Hg. by mstep.
Qed.

Lemma run_v s w : gdbstub_process_packet ops arch (packet_of (chr "v" :: s)) w =
  process_vpacket ops (request_area (chr "v") s) 2 w.
Proof. rewrite process_packet_of. unfold dispatch. by pick_request. Qed.

Lemma vcont_support_ok w : process_vcont_support ops w = Ret (tt, add_sent (frame vcont_list) w).
Proof.
  assert (Hs : sendable vcont_list).
  { unfold vcont_list, vcont_actions. destruct (op_cont ops), (op_stepi ops); sendable_lit. }
  unfold process_vcont_support.
  assert (E : str "vCont;" ++ match op_stepi ops with Some _ => str "s;" | None => [] end
      ++ match op_cont ops with Some _ => str "c;" | None => [] end = vcont_list).
  { unfold vcont_list, vcont_actions. by destruct (op_stepi ops), (op_cont ops). }
  destruct (sprintf_ok (uninit MAX_SEND_PACKET_SIZE) 0 vcont_list) as (b & Eb); [done| |].
  { destruct Hs as [_ Hl]. rewrite blen_uninit by done. unfold MAX_DATA_PAYLOAD, CSUM_SIZE in Hl. lia. }
  rewrite E, Eb. mstep. apply send_pktstr_ok; [|done]. eapply sprintf_spec; [exact Eb|apply Hs].
Qed.

(** C28 The stub accepts exactly the [vCont] actions it advertises: [vCont?] lists
    [s] and [c] according to the callbacks; [vCont;a...] starts the target for a
    listed action, without a reply, and answers [E01] for every other one,
    touching nothing. *)
Theorem vCont_accepts_what_it_lists w :
  gdbstub_process_packet ops arch (packet_of (str "vCont?")) w = Ret (EVENT_NONE, add_sent (frame vcont_list) w) /\
  forall a rest, no0 (a :: rest) ->
    gdbstub_process_packet ops arch (packet_of (str "vCont;" ++ a :: rest)) w =
    if bool_decide (a ∈ vcont_actions)
    then Ret (if a =? chr "c" then EVENT_CONT else EVENT_STEP, w)
    else Ret (EVENT_NONE, add_sent (frame (str "E01")) w).
Proof.
  split.
  - change (str "vCont?") with (chr "v" :: str "Cont?"). rewrite run_v. unfold process_vpacket.
    pose proof (request_area_at (chr "v") (str "Cont?") ltac:(vdecide)) as Hat.
    rewrite (split_args_miss _ _ (str "Cont?")) by (done || vdecide). mstep.
    rewrite (cstr_at_ok _ _ _ Hat). mstep.
    change (streq (str "Cont?") (str "Cont")) with false. rewrite streq_refl. cbv iota.
    by rewrite (M_bind_eq _ _ _ _ _ (vcont_support_ok w)).
  - intros a rest H0. change (str "vCont;" ++ a :: rest) with (chr "v" :: str "Cont" ++ 59 :: a :: rest).
    rewrite run_v, vpacket_cont by done. unfold process_cont, process_stepi, vcont_actions.
    change (chr "c") with 99. change (chr "s") with 115.
    destruct (Z.eqb_spec a 99), (Z.eqb_spec a 115); subst; try done.
    + destruct (op_cont ops), (op_stepi ops); simpl; apply refuse_ok || done.
    + destruct (op_cont ops), (op_stepi ops); simpl; apply refuse_ok || done.
    + rewrite bool_decide_eq_false_2; [apply refuse_ok|].
      destruct (op_cont ops), (op_stepi ops); simpl; rewrite ?elem_of_cons, ?elem_of_nil; naive_solver.
Qed.

(** A handler that dereferences NULL. *)
Lemma ub_then (m : M (world T) unit) w : m w = UB -> (_ ← m; mret EVENT_NONE) w = UB.
Proof. intros E. unfold mbind, M_bind. by rewrite E. Qed.

(** The argument of a request in which the separator [c] does not occur. *)
Lemma unsplit_request r s c :
  no0 s -> c <> 0 -> c ∉ s -> split_args (request_area r s) 2 c = Ret (request_area r s, None).
Proof. intros H0 Hc Hs. eapply split_args_miss; [by apply request_area_at|done|done]. Qed.

Lemma mem_write_unsplit f a l w :
  op_write_mem ops = Some f -> w_mallocs w = [] ->
  0 <= a < 18446744073709551616 -> 0 <= l < 18446744073709551616 ->
  process_mem_write ops (request_area (chr "M") (mem_args a l)) 2 w =
  if 0 <? s32 l then UB
  else (ret ← call (fun t => f t a l (uninit l));
        if ret =? 0 then send_string (str "OK")
        else packet_str ← lift (sprintf (uninit MAX_SEND_PACKET_SIZE) 0 (err_string ret));
             conn_send_pktstr packet_str 0) w.
Proof.
  intros Ef Hm Ha Hl. destruct (mem_args_chars a l) as [H0 H58]; [lia|lia|].
  unfold process_mem_write. rewrite unsplit_request by done. mstep.
  rewrite (scan_addr_len_ok _ _ a l (request_area_at _ _ H0)) by lia. mstep.
  rewrite (M_bind_eq _ _ _ _ _ (malloc_nil l w Hm)). cbn [area from_option id].
  destruct (Z.ltb_spec 0 (s32 l)) as [Hs|Hs].
  - by rewrite (proj2 (Z.leb_gt _ _)) by lia.
  - rewrite (proj2 (Z.leb_le _ _)) by lia. mstep. unfold str_to_hex.
    replace (Z.to_nat (s32 l)) with O by lia. mstep. rewrite Ef. mstep. done.
Qed.

(** C30 Requests that lack their separator make the handlers use the NULL pointer
    that [strchr] or [strtok] returned: [vCont] without an action; [M] without
    the colon whenever the length is positive as an [int] (for the other lengths
    nothing is converted and the write goes to the target); [X] without the
    colon, for every address and length; [P] without the equals sign, for every
    register number; [qXfer] without an object, and [qXfer:features] without an
    operation when there is a description. *)
Theorem missing_separator_is_null_dereference fm fw sz w :
  op_write_mem ops = Some fm -> op_write_reg ops = Some fw -> op_get_reg_bytes ops = Some sz ->
  w_mallocs w = [] -> regbuf_wf (regbuf (w_priv w)) ->
  let runs s := gdbstub_process_packet ops arch (packet_of s) w in
  runs (str "vCont") = UB /\
  (forall a l, 0 <= a < 18446744073709551616 -> 0 <= l < 18446744073709551616 ->
     (0 < s32 l -> runs (chr "M" :: mem_args a l) = UB) /\
     (forall t, s32 l <= 0 -> fm (w_args w) a l (uninit l) = Ret (0, t) ->
        runs (chr "M" :: mem_args a l) = Ret (EVENT_NONE, add_sent (frame (str "OK")) (upd_args t w))) /\
     runs (chr "X" :: mem_args a l) = UB) /\
  (forall i, 0 <= i < 2147483648 -> 0 <= sz i <= 2 ^ 63 -> runs (chr "P" :: digits 16 i) = UB) /\
  runs (str "qXfer") = UB /\
  (is_Some (target_desc arch) -> runs (str "qXfer:features") = UB).
Proof.
  intros Em Ew Esz Hm Hr runs. subst runs. cbv beta.
  split; [|split; [|split; [|split]]].
  - destruct w. vm_compute. reflexivity.
  - intros a l Ha Hl. destruct (mem_args_chars a l) as [H0 H58]; [lia|lia|].
    rewrite !process_packet_of. unfold dispatch. pick_request. unfold guarded. rewrite Em.
    split; [|split].
    + intros Hs. apply ub_then. rewrite (mem_write_unsplit fm) by done. by rewrite (proj2 (Z.ltb_lt _ _)).
    + intros t Hs Hf.
      erewrite M_bind_eq; [|rewrite (mem_write_unsplit fm), (proj2 (Z.ltb_ge _ _)) by done].
      2:{ erewrite M_bind_eq; [|unfold call; by rewrite Hf]. apply send_string_ok. sendable_lit. }
      done.
    + apply ub_then. unfold process_mem_xwrite. rewrite unsplit_request by done. mstep.
      rewrite (scan_addr_len_ok _ _ a l (request_area_at _ _ H0)) by lia. mstep. reflexivity.
  - intros i Hi Hsz. rewrite process_packet_of. unfold dispatch. pick_request. unfold guarded. rewrite Ew.
    apply ub_then. assert (H0 : no0 (digits 16 i)) by (apply no0_digits; lia).
    unfold process_reg_write_one. rewrite unsplit_request by (done || (apply not_in_digits; (done || lia))). mstep.
    erewrite M_bind_eq; [cbv beta|rewrite (cstr_at_ok _ _ _ (request_area_at _ _ H0)); reflexivity].
    assert (Hscan : sscanf [FHex32] (digits 16 i) = Ret [i]).
    { pose proof (scan_hex_digits 4294967296 i [] ltac:(lia) I) as E. rewrite app_nil_r in E. simpl.
      rewrite E. csimpl. by rewrite s32_id by lia. }
    rewrite Hscan. mstep. mstep. mstep. unfold get_reg_bytes. rewrite Esz. mstep.
    destruct (regbuf_get_m_ok (sz i) w Hm Hr Hsz) as (r & b & E & _). by rewrite (M_bind_eq _ _ _ _ _ E).
  - destruct w. vm_compute. reflexivity.
  - intros [desc Hd]. destruct w, arch. simpl in Hd. subst. vm_compute. reflexivity.
Qed.

(** *** Threads *)

(** The number of CPUs [qfThreadInfo] lists. *)
Definition cpus : Z := if smp arch =? 0 then 1 else smp arch.

Lemma thread_info_ok w :
  0 <= smp arch ->
  process_query ops arch (request_area (chr "q") (str "fThreadInfo")) 2 w =
  (if cpus <=? 817 then Ret (tt, add_sent (frame (chr "m" :: thread_ids (Z.to_nat cpus) 0)) w)
   else if (cpus =? 818) || (10000 <=? cpus) then AssertFail else UB).
Proof.
  intros Hs. assert (Hc : 0 < cpus) by (unfold cpus; destruct (Z.eqb_spec (smp arch) 0); lia).
  unfold process_query.
  pose proof (request_area_at (chr "q") (str "fThreadInfo") ltac:(vdecide)) as Hat.
  rewrite (split_args_miss _ _ (str "fThreadInfo")) by (done || vdecide). mstep.
  rewrite (cstr_at_ok _ _ _ Hat). mstep.
  repeat match goal with |- context [streq (str "fThreadInfo") ?s] =>
    let v := eval vm_compute in (streq (str "fThreadInfo") s) in
    replace (streq (str "fThreadInfo") s) with v by reflexivity; cbv iota end.
  fold cpus. destruct (decide (10000 <= cpus)) as [Hbig|Hsmall].
  { rewrite (proj2 (Z.ltb_ge cpus 10000) Hbig), (proj2 (Z.leb_gt cpus 817)), (proj2 (Z.leb_le 10000 cpus) Hbig) by lia.
    by rewrite orb_true_r. }
  rewrite (proj2 (Z.ltb_lt cpus 10000)) by lia. rewrite (proj2 (Z.leb_gt 10000 cpus)), orb_false_r by lia. mstep.
  rewrite <- (app_nil_l (uninit MAX_SEND_PACKET_SIZE)). rewrite bput_uninit by done. mstep. rewrite app_nil_l.
  set (n := Z.to_nat cpus). assert (Hn : Z.of_nat n = cpus) by lia.
  change 1 with (blen [Some 109]) at 2.
  destruct (decide (5 * Z.of_nat n <= 4095)) as [Hfit|Hover].
  - rewrite thread_info_loop_ok by (unfold MAX_SEND_PACKET_SIZE; lia). mstep.
    destruct (thread_ids_shape n 0) as [Hl H0]; [lia|lia|].
    set (room := MAX_SEND_PACKET_SIZE - 1 - 5 * Z.of_nat n).
    destruct (decide (cpus <= 818)) as [Hle|Hgt].
    + rewrite bput_uninit by (autorewrite with blen; subst room; unfold MAX_SEND_PACKET_SIZE; rewrite ?Hl; lia).
      mstep. rewrite <- app_assoc.
      assert (Hc2 : cstr_at (([Some 109] ++ (Some <$> thread_ids n 0)) ++ [Some 0] ++ uninit (room - 1)) 0
        (chr "m" :: thread_ids n 0)).
      { split; [by constructor|]. by eexists [], _. }
      destruct (decide (cpus <= 817)) as [Hle2|Hgt2].
      * rewrite (proj2 (Z.leb_le cpus 817) Hle2). apply send_pktstr_ok; [done|]. split; [by constructor|].
        simpl length. unfold MAX_DATA_PAYLOAD, MAX_SEND_PACKET_SIZE, CSUM_SIZE. lia.
      * assert (cpus = 818) as -> by lia. unfold conn_send_pktstr. rewrite (packet_string_too_long _ _ _ Hc2); [done|].
        simpl length. unfold MAX_DATA_PAYLOAD, MAX_SEND_PACKET_SIZE, CSUM_SIZE. lia.
    + rewrite (proj2 (Z.leb_gt cpus 817)), (proj2 (Z.eqb_neq cpus 818)) by lia.
      assert (E : bput (([Some 109] ++ (Some <$> thread_ids n 0)) ++ uninit room) (blen [Some 109] + 5 * Z.of_nat n) 0 = UB).
      { unfold bput, bstore, bwrite. autorewrite with blen. subst room. unfold MAX_SEND_PACKET_SIZE.
        rewrite blen_uninit by lia. rewrite Hl.
        by replace (_ && _) with false by (symmetry; bool_props; simpl; lia). }
      by rewrite E.
  - rewrite (proj2 (Z.leb_gt cpus 817)), (proj2 (Z.eqb_neq cpus 818)) by lia.
    by rewrite thread_info_loop_ub by (unfold MAX_SEND_PACKET_SIZE; lia).
Qed.

(** [qfThreadInfo] lists every CPU with a four-digit id when there are at most
    817 of them. The assertion admits up to 9999, but 818 ids do not fit a packet
    (the assertion of [conn_send_pktstr] stops the stub) and 819 or more are
    written past the end of [packet_str]. *)
Theorem thread_list_bounds w :
  0 <= smp arch ->
  let reply := gdbstub_process_packet ops arch (packet_of (str "qfThreadInfo")) w in
  (cpus <= 817 -> reply = Ret (EVENT_NONE, add_sent (frame (chr "m" :: thread_ids (Z.to_nat cpus) 0)) w)) /\
  (cpus = 818 -> reply = AssertFail) /\
  (818 < cpus < 10000 -> reply = UB) /\
  (10000 <= cpus -> reply = AssertFail).
Proof.
  intros Hs reply. subst reply. change (str "qfThreadInfo") with (chr "q" :: str "fThreadInfo").
  rewrite process_packet_of. unfold dispatch. pick_request. unfold no_event, mbind, M_bind.
  rewrite thread_info_ok by done.
  destruct (Z.leb_spec cpus 817), (Z.eqb_spec cpus 818), (Z.leb_spec 10000 cpus); simpl;
    split_and!; intros; done || lia.
Qed.
End QuerySpec.

(** The digits of an id read as hexadecimal and printed as such again. *)
Lemma hex_reprint i : 0 <= i < 10000 -> digits 16 (run_val 16 0 (fmt_04d i)) = digits 10 i.
Proof.
  intros Hi. apply streq_spec.
  apply (byte_forall (fun i => streq (digits 16 (run_val 16 0 (fmt_04d i))) (digits 10 i)) 10000); [|done].
  vm_compute. reflexivity.
Qed.

Lemma fmt_04d_pos i : 0 <= i -> fmt_04d i = pad0 4 (digits 10 i).
Proof. intros. unfold fmt_04d. by rewrite (proj2 (Z.ltb_ge i 0)). Qed.

Lemma set_cpu_ok {T} (ops : target_ops T) arch fset k i t (w : world T) :
  op_set_cpu ops = Some fset -> 0 <= i < 10000 -> fset (w_args w) i = Ret t ->
  gdbstub_process_packet ops arch (packet_of (chr "H" :: chr "g" :: pad0 k (digits 10 i))) w
  = Ret (EVENT_NONE, add_sent (frame (str "OK")) (upd_args t w)).
Proof.
  intros Es Hi Hf. set (d := pad0 k (digits 10 i)). rewrite process_packet_of. unfold dispatch. pick_request.
  assert (H0 : no0 (chr "g" :: d)).
  { constructor; [done|]. apply Forall_app. split; [by apply Forall_replicate|apply no0_digits; lia]. }
  assert (Hg : bget (request_area (chr "H") (chr "g" :: d)) 2 = Ret 103) by done.
  assert (Hscan : sscanf [FChar 103; FInt] (chr "g" :: d) = Ret [i]).
  { pose proof (scan_int_digits i k [] ltac:(lia) I) as E. rewrite app_nil_r in E. fold d in E.
    change (sscanf [FChar 103; FInt] (chr "g" :: d)) with
      (r ← scan_int d; match r with Some (v, s) => vs ← sscanf [] s; Ret (v :: vs) | None => Ret [] end).
    by rewrite E. }
  assert (E : process_set_cpu ops (request_area (chr "H") (chr "g" :: d)) 2 w = Ret (tt, add_sent (frame (str "OK")) (upd_args t w))).
  { unfold process_set_cpu. rewrite Hg. mstep. change (103 =? 103) with true. cbv iota.
    assert (Ein : (s ← lift (cstr (request_area (chr "H") (chr "g" :: d)) 2);
         vs ← lift (sscanf [FChar 103; FInt] s);
         _ ← lift (cassert (Z.of_nat (length vs) =? 1));
         cpuid ← lift (deref (vs !! 0%nat));
         f ← lift (deref (op_set_cpu ops));
         call (fun t => t' ← f t cpuid; Ret (tt, t'))) w = Ret (tt, upd_args t w)).
    { rewrite (cstr_at_ok _ _ _ (request_area_at _ _ H0)). mstep. rewrite Hscan. mstep. mstep. mstep.
      rewrite Es. mstep. unfold call. by rewrite Hf. }
    rewrite (M_bind_eq _ _ _ _ _ Ein). apply send_string_ok. sendable_lit. }
  unfold guarded. by rewrite Es, (M_bind_eq _ _ _ _ _ E).
Qed.

(** C29 Thread ids survive the round trip: [Hg] with an id as it was listed selects
    that CPU, and so does the id a client prints after reading the listed digits
    as hexadecimal; [qC] reports the current CPU in the listed form. *)
Theorem thread_id_round_trip {T} (ops : target_ops T) arch fset fget i t (w : world T) :
  op_set_cpu ops = Some fset -> op_get_cpu ops = Some fget -> 0 <= i < 10000 ->
  fset (w_args w) i = Ret t -> fget (w_args w) = Ret (i, w_args w) ->
  let ok := Ret (EVENT_NONE, add_sent (frame (str "OK")) (upd_args t w)) in
  gdbstub_process_packet ops arch (packet_of (chr "H" :: chr "g" :: fmt_04d i)) w = ok /\
  gdbstub_process_packet ops arch (packet_of (chr "H" :: chr "g" :: digits 16 (run_val 16 0 (fmt_04d i)))) w = ok /\
  gdbstub_process_packet ops arch (packet_of (str "qC")) w
    = Ret (EVENT_NONE, add_sent (frame (str "QC" ++ fmt_04d i)) w).
Proof.
  intros Es Eg Hi Hf Hg ok. split_and!.
  - rewrite fmt_04d_pos by lia. by eapply set_cpu_ok.
  - rewrite hex_reprint by done. by apply (set_cpu_ok ops arch fset 0 i).
  - change (str "qC") with (chr "q" :: str "C"). rewrite process_packet_of. unfold dispatch. pick_request.
    assert (E : process_query ops arch (request_area (chr "q") (str "C")) 2 w
      = Ret (tt, add_sent (frame (str "QC" ++ fmt_04d i)) w)).
    { unfold process_query. pose proof (request_area_at (chr "q") (str "C") ltac:(vdecide)) as Hat.
      rewrite (split_args_miss _ _ (str "C")) by (done || vdecide). mstep.
      rewrite (cstr_at_ok _ _ _ Hat). mstep. rewrite streq_refl, Eg.
      assert (Ec : call fget w = Ret (i, w)) by (unfold call; rewrite Hg; by destruct w).
      rewrite (M_bind_eq _ _ _ _ _ Ec).
      destruct (thread_id_shape i Hi) as [Hl H0]. unfold thread_id in Hl, H0. rewrite length_app in Hl. simpl in Hl.
      apply Forall_app in H0 as [H0 _].
      assert (Hs : sendable (str "QC" ++ fmt_04d i)).
      { split; [by apply no0_str_app|]. rewrite length_app. simpl length.
        unfold MAX_DATA_PAYLOAD, MAX_SEND_PACKET_SIZE, CSUM_SIZE. lia. }
      destruct (sprintf_ok (uninit MAX_SEND_PACKET_SIZE) 0 (str "QC" ++ fmt_04d i)) as (b & Eb); [done| |].
      { rewrite blen_uninit by done. destruct Hs as [_ Hs]. unfold MAX_DATA_PAYLOAD, CSUM_SIZE in Hs. lia. }
      rewrite Eb. mstep. apply send_pktstr_ok; [|done]. eapply sprintf_spec; [exact Eb|apply Hs]. }
    unfold no_event. by rewrite (M_bind_eq _ _ _ _ _ E).
Qed.
