(* ===== verification/Emu.v ===== *)
(** * emu/src/emu.c: the reference RISC-V emulator

    The state [emu], the ten opcode functions, [emu_exec], the callbacks and
    the table [emu_ops] they form. 64-bit registers are [Z] values wrapped by
    [u64]; the memory is the block of [MEM_SIZE] bytes [init_mem] allocates and
    clears. Pointer sums [mem + x + imm] wrap like the machine's addresses, and
    an access outside the block is undefined behaviour. *)

From S2P Require Import Prelude CMem CFormat Translate Packet RegBuf Conn Target.

Definition MEM_SIZE : Z := 4096.
Definition TOHOST_ADDR : Z := MEM_SIZE - 4.
Definition EFAULT : Z := 14.

Record emu := Emu {
  e_mem : bytes;        (* m.mem *)
  e_code_size : Z;      (* m.code_size *)
  e_x : list Z;
  e_pc : Z;
  e_bp_is_set : bool;
  e_bp_addr : Z;
  e_halt : bool
}.

Definition set_mem (m : bytes) (e : emu) : emu :=
  Emu m (e_code_size e) (e_x e) (e_pc e) (e_bp_is_set e) (e_bp_addr e) (e_halt e).
Definition set_x (x : list Z) (e : emu) : emu :=
  Emu (e_mem e) (e_code_size e) x (e_pc e) (e_bp_is_set e) (e_bp_addr e) (e_halt e).
Definition set_pc (pc : Z) (e : emu) : emu :=
  Emu (e_mem e) (e_code_size e) (e_x e) pc (e_bp_is_set e) (e_bp_addr e) (e_halt e).
Definition set_bp (b : bool) (a : Z) (e : emu) : emu :=
  Emu (e_mem e) (e_code_size e) (e_x e) (e_pc e) b a (e_halt e).
Definition set_halt (h : bool) (e : emu) : emu :=
  Emu (e_mem e) (e_code_size e) (e_x e) (e_pc e) (e_bp_is_set e) (e_bp_addr e) h.

Definition emu_halt (e : emu) : emu := set_halt true e.
Definition emu_start_run (e : emu) : emu := set_halt false e.
Definition emu_is_halt (e : emu) : bool := e_halt e.

(** ** Memory access macros *)

Fixpoint read_len_loop (n : nat) (i : Z) (m : bytes) (ptr value : Z) : outcome Z :=
  match n with
  | O => Ret value
  | S n =>
      b ← deref (m !! Z.to_nat (ptr + i));
      read_len_loop n (i + 1) m ptr (Z.lor value (Z.shiftl b (Z.shiftl i 3)))
  end.
Definition read_len (bit : Z) (m : bytes) (ptr : Z) : outcome Z :=
  read_len_loop (Z.to_nat (Z.shiftr bit 3)) 0 m ptr 0.

Fixpoint write_len_loop (n : nat) (i : Z) (m : bytes) (ptr value : Z) : outcome bytes :=
  match n with
  | O => Ret m
  | S n =>
      _ ← deref (m !! Z.to_nat (ptr + i));
      write_len_loop n (i + 1) (<[Z.to_nat (ptr + i) := Z.land (Z.shiftr value (Z.shiftl i 3)) 255]> m) ptr value
  end.
Definition write_len (bit : Z) (m : bytes) (ptr value : Z) : outcome bytes :=
  write_len_loop (Z.to_nat (Z.shiftr bit 3)) 0 m ptr value.

(** ** Instructions *)

Record inst_t := Inst {
  inst : Z;
  rd : Z;
  rs1 : Z;
  rs2 : Z;
  funct3 : Z;
  funct7 : Z
}.

(** [emu->x[r]] and its update; [r] is a five-bit field. *)
Definition getx (e : emu) (r : Z) : outcome Z := deref (e_x e !! Z.to_nat r).
Definition setx (r v : Z) (e : emu) : emu := set_x (<[Z.to_nat r := v]> (e_x e)) e.

(** [(int32_t) (inst & 0xfff00000) >> 20], and the other immediates. *)
Definition imm_i (w : Z) : Z := u64 (Z.shiftr (s32 (Z.land w 0xfff00000)) 20).
Definition imm_u (w : Z) : Z := u64 (s32 (Z.land w 0xfffff000)).
Definition imm_s (w : Z) : Z :=
  u64 (Z.lor (Z.shiftr (s32 (Z.land w 0xfe000000)) 20) (s32 (Z.land (Z.shiftr w 7) 0x1f))).
Definition imm_j (w : Z) : Z :=
  u64 (Z.lor (Z.lor (Z.lor (Z.shiftr (s32 (Z.land w 0x80000000)) 11)
                           (s32 (Z.land w 0xff000)))
                    (s32 (Z.land (Z.shiftr w 9) 0x800)))
             (s32 (Z.land (Z.shiftr w 20) 0x7fe))).

(** Each returns the C return value and the new state. *)
Definition opcode_3 (e : emu) (i : inst_t) : outcome (Z * emu) :=
  let imm := imm_i (inst i) in
  if funct3 i =? 2 then
    a ← getx e (rs1 i);
    value ← read_len 32 (e_mem e) (u64 (a + imm));
    Ret (0, setx (rd i) value e)
  else if funct3 i =? 3 then
    a ← getx e (rs1 i);
    value ← read_len 64 (e_mem e) (u64 (a + imm));
    Ret (0, setx (rd i) value e)
  else Ret (-1, e).

Definition opcode_13 (e : emu) (i : inst_t) : outcome (Z * emu) :=
  let imm := imm_i (inst i) in
  if funct3 i =? 0 then
    a ← getx e (rs1 i); Ret (0, setx (rd i) (u64 (a + imm)) e)
  else if funct3 i =? 2 then
    a ← getx e (rs1 i); Ret (0, setx (rd i) (if s64 a <? s64 imm then 1 else 0) e)
  else Ret (-1, e).

Definition opcode_17 (e : emu) (i : inst_t) : outcome (Z * emu) :=
  Ret (0, setx (rd i) (u64 (e_pc e + imm_u (inst i) - 4)) e).

Definition opcode_1b (e : emu) (i : inst_t) : outcome (Z * emu) :=
  let imm := imm_i (inst i) in
  if funct3 i =? 0 then
    a ← getx e (rs1 i); Ret (0, setx (rd i) (u64 (s32 (u32 (u32 a + u32 imm)))) e)
  else Ret (-1, e).

Definition opcode_23 (e : emu) (i : inst_t) : outcome (Z * emu) :=
  let imm := imm_s (inst i) in
  let store bit :=
    a ← getx e (rs1 i); v ← getx e (rs2 i);
    m ← write_len bit (e_mem e) (u64 (a + imm)) v;
    Ret (0, set_mem m e) in
  if funct3 i =? 0 then store 8
  else if funct3 i =? 2 then store 32
  else if funct3 i =? 3 then store 64
  else Ret (-1, e).

Definition opcode_33 (e : emu) (i : inst_t) : outcome (Z * emu) :=
  if (funct3 i =? 0) && (funct7 i =? 0) then
    a ← getx e (rs1 i); b ← getx e (rs2 i); Ret (0, setx (rd i) (u64 (a + b)) e)
  else Ret (-1, e).

Definition opcode_37 (e : emu) (i : inst_t) : outcome (Z * emu) :=
  Ret (0, setx (rd i) (imm_u (inst i)) e).

Definition opcode_3b (e : emu) (i : inst_t) : outcome (Z * emu) :=
  if (funct3 i =? 0) && (funct7 i =? 0) then
    a ← getx e (rs1 i); b ← getx e (rs2 i);
    Ret (0, setx (rd i) (u64 (s32 (u32 (u32 a + u32 b)))) e)
  else Ret (-1, e).

(** [x[rd]] is written before [x[rs1]] is read. *)
Definition opcode_67 (e : emu) (i : inst_t) : outcome (Z * emu) :=
  let e := setx (rd i) (e_pc e) e in
  a ← getx e (rs1 i);
  Ret (0, set_pc (Z.land (u64 (a + imm_i (inst i))) (u64 (-2))) e).

Definition opcode_6f (e : emu) (i : inst_t) : outcome (Z * emu) :=
  let e := setx (rd i) (e_pc e) e in
  Ret (0, set_pc (u64 (e_pc e + imm_j (inst i) - 4)) e).

Definition decode (w : Z) : inst_t :=
  Inst w (Z.land (Z.shiftr w 7) 31) (Z.land (Z.shiftr w 15) 31) (Z.land (Z.shiftr w 20) 31)
    (Z.land (Z.shiftr w 12) 7) (Z.land (Z.shiftr w 25) 127).

Definition emu_exec (e : emu) (raw_inst : Z) : outcome (Z * emu) :=
  let opcode := Z.land raw_inst 127 in
  let e := setx 0 0 e in
  let i := decode raw_inst in
  if opcode =? 0x3 then opcode_3 e i
  else if opcode =? 0x13 then opcode_13 e i
  else if opcode =? 0x17 then opcode_17 e i
  else if opcode =? 0x1b then opcode_1b e i
  else if opcode =? 0x23 then opcode_23 e i
  else if opcode =? 0x33 then opcode_33 e i
  else if opcode =? 0x37 then opcode_37 e i
  else if opcode =? 0x3b then opcode_3b e i
  else if opcode =? 0x67 then opcode_67 e i
  else if opcode =? 0x6f then opcode_6f e i
  else Ret (-1, e).

(** ** Initial state *)

(** [emu_init] leaves [m] zero; the memory block comes with [init_mem]. *)
Definition emu_init : emu :=
  Emu [] 0 (<[2%nat := TOHOST_ADDR]> (replicate 32 0)) 0 false (u64 (-1)) true.

(** [init_mem] on an existing file that [fread] delivers completely. *)
Definition load_binary (file : bytes) (e : emu) : option emu :=
  if TOHOST_ADDR <? Z.of_nat (length file) then None
  else Some (Emu (file ++ replicate (Z.to_nat (MEM_SIZE - Z.of_nat (length file))) 0)
               (Z.of_nat (length file)) (e_x e) (e_pc e) (e_bp_is_set e) (e_bp_addr e) (e_halt e)).

(** ** Callbacks *)
Section Callbacks.
(** [REGSZ]: 4 when compiled for RV32, else 8; the rounds granted to [emu_cont];
    and when the client's interrupt reaches a [cont] from a given state, if at
    all. *)
Context (REGSZ : Z) (fuel : nat) (irq : emu -> option nat).

(** The bytes of a [uint64_t] in memory, and their first [n] overwritten. *)
Fixpoint le_bytes (n : nat) (v : Z) : bytes :=
  match n with O => [] | S n => v mod 256 :: le_bytes n (v / 256) end.
Fixpoint le_val (l : bytes) : Z :=
  match l with [] => 0 | b :: l => b + 256 * le_val l end.
Definition overlay (v : Z) (bs : bytes) : Z := le_val (bs ++ drop (length bs) (le_bytes 8 v)).

Definition emu_get_reg_bytes (regno : Z) : Z := REGSZ.

Definition emu_read_reg (e : emu) (regno : Z) : outcome (Z * bytes * emu) :=
  if 32 <? regno then Ret (EFAULT, [], e)
  else if regno =? 32 then Ret (0, le_bytes (Z.to_nat REGSZ) (e_pc e), e)
  else
    v ← deref (if 0 <=? regno then e_x e !! Z.to_nat regno else None);
    Ret (0, le_bytes (Z.to_nat REGSZ) v, e).

Definition emu_write_reg (e : emu) (regno : Z) (data : buf) : outcome (Z * emu) :=
  if 32 <? regno then Ret (EFAULT, e)
  else
    bs ← bload data 0 REGSZ;
    if regno =? 32 then Ret (0, set_pc (overlay (e_pc e) bs) e)
    else
      v ← deref (if 0 <=? regno then e_x e !! Z.to_nat regno else None);
      Ret (0, setx regno (overlay v bs) e).

(** [memcpy] from and to the memory block; the guard is on the wrapped sum. *)
Definition emu_read_mem (e : emu) (addr len : Z) : outcome (Z * bytes * emu) :=
  if MEM_SIZE <? u64 (addr + len) then Ret (EFAULT, [], e)
  else
    bs ← bload (Some <$> e_mem e) addr len;
    Ret (0, bs, e).

Definition emu_write_mem (e : emu) (addr len : Z) (val : buf) : outcome (Z * emu) :=
  if MEM_SIZE <? u64 (addr + len) then Ret (EFAULT, e)
  else
    bs ← bload val 0 len;
    m ← bstore (Some <$> e_mem e) addr bs;
    m ← bvals m;
    Ret (0, set_mem m e).

(** [emu_read_mem(args, emu->pc, 4, &inst)], the code ignored: [inst] is
    uninitialised if it fails. *)
Definition fetch (e : emu) : outcome Z :=
  '(ret, bs, _) ← emu_read_mem e (e_pc e) 4;
  if ret =? 0 then Ret (le_val bs) else UB.

(** The loop of [emu_cont]. [irq] is when the reader thread calls
    [emu_on_interrupt]: just before the loop condition is tested for the [k]th
    time, counting from 0, or never. Running out of [n] rounds is [Hang], not an
    end of the C loop. *)
Fixpoint emu_cont_loop (n : nat) (irq : option nat) (e : emu) : outcome (gdb_action_t * emu) :=
  match n with
  | O => Hang
  | S n =>
      let e := match irq with Some O => emu_halt e | _ => e end in
      if (e_pc e <? e_code_size e) && negb (e_pc e =? e_bp_addr e) && negb (emu_is_halt e) then
        inst ← fetch e;
        let e := set_pc (u64 (e_pc e + 4)) e in
        '(ret, e) ← emu_exec e inst;
        if ret <? 0 then Ret (ACT_RESUME, e)
        else
          value ← read_len 8 (e_mem e) TOHOST_ADDR;
          if negb (value =? 0) then Ret (ACT_SHUTDOWN, e) else emu_cont_loop n (Nat.pred <$> irq) e
      else Ret (ACT_RESUME, e)
  end.
Definition emu_cont (fuel : nat) (irq : option nat) (e : emu) : outcome (gdb_action_t * emu) :=
  emu_cont_loop fuel irq (emu_start_run e).

Definition emu_stepi (e : emu) : outcome (gdb_action_t * emu) :=
  let e := emu_start_run e in
  if e_pc e <? e_code_size e then
    inst ← fetch e;
    let e := set_pc (u64 (e_pc e + 4)) e in
    '(_, e) ← emu_exec e inst;
    Ret (ACT_RESUME, e)
  else Ret (ACT_RESUME, e).

Definition emu_set_bp (e : emu) (addr ty : Z) : outcome (bool * emu) :=
  if negb (ty =? BP_SOFTWARE) || e_bp_is_set e then Ret (false, e)
  else Ret (true, set_bp true addr e).

Definition emu_del_bp (e : emu) (addr ty : Z) : outcome (bool * emu) :=
  if negb (ty =? BP_SOFTWARE) || negb (e_bp_is_set e) || negb (e_bp_addr e =? addr) then Ret (true, e)
  else Ret (true, set_bp false 0 e).

Definition emu_on_interrupt (e : emu) : outcome emu := Ret (emu_halt e).

Definition emu_ops : target_ops emu := TargetOps
  (Some (fun e => emu_cont fuel (irq e) e)) (Some emu_stepi) (Some emu_get_reg_bytes) (Some emu_read_reg) (Some emu_write_reg)
  (Some emu_read_mem) (Some emu_write_mem) (Some emu_set_bp) (Some emu_del_bp)
  (Some emu_on_interrupt) None None.
End Callbacks.

(** The invariant: a full memory block of bytes, 32 registers and a pc of 64
    bits, and a program that leaves the last word free. *)
Record emu_wf (e : emu) : Prop := EmuWf {
  wf_mem : length (e_mem e) = 4096%nat;
  wf_bytes : Forall byte_ok (e_mem e);
  wf_code : 0 <= e_code_size e <= TOHOST_ADDR;
  wf_x : length (e_x e) = 32%nat;
  wf_regs : Forall (fun v => 0 <= v < 18446744073709551616) (e_x e);
  wf_pc : 0 <= e_pc e < 18446744073709551616
}.
