(* ===== verification/EmuTarget.v ===== *)
(** * The reference emulator as a target

    The callbacks of emu.c implement the interfaces [RegisterFile] and
    [Memory], so the theorems about the packet handlers apply to the emulator. *)

From S2P Require Import Prelude CMem CFormat Translate Packet RegBuf Conn Target RegHandlers MemHandlers Stub RegSpec MemSpec Emu.

(** ** Little-endian bytes *)
Lemma length_le_bytes n v : length (le_bytes n v) = n.
Proof. revert v. induction n; intros; simpl; auto. Qed.
Lemma le_bytes_ok n v : Forall byte_ok (le_bytes n v).
Proof.
  revert v. induction n as [|n IH]; intros v; simpl; constructor; [|apply IH].
  unfold byte_ok. mlia.
Qed.
Lemma le_val_range l : Forall byte_ok l -> 0 <= le_val l < 256 ^ Z.of_nat (length l).
Proof.
  induction 1 as [|b l Hb _ IH]; simpl; [done|]. rewrite Nat2Z.inj_succ, Z.pow_succ_r by lia.
  unfold byte_ok in Hb. lia.
Qed.
Lemma le_bytes_val a b : Forall byte_ok a -> le_bytes (length a) (le_val (a ++ b)) = a.
Proof.
  induction 1 as [|x a Hx _ IH]; csimpl; [done|]. unfold byte_ok in Hx. f_equal; [mlia|].
  by replace ((x + 256 * le_val (a ++ b)) / 256) with (le_val (a ++ b)) by mlia.
Qed.
Lemma le_val_bytes n v : 0 <= v < 256 ^ Z.of_nat n -> le_val (le_bytes n v) = v.
Proof.
  revert v. induction n as [|n IH]; intros v Hv; simpl.
  - change (256 ^ Z.of_nat 0) with 1 in Hv. lia.
  - rewrite Nat2Z.inj_succ, Z.pow_succ_r in Hv by lia. rewrite IH.
    + mlia.
    + split; [mlia|]. apply Z.div_lt_upper_bound; lia.
Qed.
Lemma take_le_bytes k n v : (k <= n)%nat -> take k (le_bytes n v) = le_bytes k v.
Proof. revert n v. induction k as [|k IH]; intros [|n] v Hk; csimpl; try done; [lia|]. f_equal. apply IH. lia. Qed.

Definition u64_ok (v : Z) : Prop := 0 <= v < 18446744073709551616.

(** ** Overwriting the low bytes of a register *)
Lemma overlay_ok v bs :
  (length bs <= 8)%nat -> Forall byte_ok bs -> u64_ok (overlay v bs).
Proof.
  intros Hl Hb. unfold u64_ok, overlay.
  assert (Hok : Forall byte_ok (bs ++ drop (length bs) (le_bytes 8 v))).
  { apply Forall_app. split; [done|]. apply Forall_drop, le_bytes_ok. }
  pose proof (le_val_range _ Hok) as Hr. rewrite length_app, length_drop, length_le_bytes in Hr.
  by replace (length bs + (8 - length bs))%nat with 8%nat in Hr by lia.
Qed.
Lemma overlay_get v bs : Forall byte_ok bs -> le_bytes (length bs) (overlay v bs) = bs.
Proof. intros. unfold overlay. by apply le_bytes_val. Qed.
Lemma overlay_id v k : (k <= 8)%nat -> u64_ok v -> overlay v (le_bytes k v) = v.
Proof.
  intros Hk Hv. unfold overlay. rewrite length_le_bytes, <- (take_le_bytes k 8) by done.
  rewrite take_drop. by apply le_val_bytes.
Qed.
Lemma overlay_twice v a b :
  (length a <= 8)%nat -> length a = length b -> Forall byte_ok a -> overlay (overlay v a) b = overlay v b.
Proof.
  intros Hl Hab Ha. unfold overlay at 1 3. do 2 f_equal. unfold overlay.
  set (s := a ++ drop (length a) (le_bytes 8 v)).
  assert (Hs : length s = 8%nat) by (subst s; rewrite length_app, length_drop, length_le_bytes; lia).
  assert (Hok : Forall byte_ok s).
  { apply Forall_app. split; [done|]. apply Forall_drop, le_bytes_ok. }
  pose proof (le_bytes_val s [] Hok) as E. rewrite app_nil_r, Hs in E. rewrite E.
  subst s. by rewrite <- Hab, drop_app_exact.
Qed.

Section EmuTarget.
Context (REGSZ : Z) (fuel : nat) (irq : emu -> option nat).
Context (Hsz : 0 < REGSZ <= 8).

Definition reg_val (e : emu) (i : Z) : Z := if i =? 32 then e_pc e else default 0 (e_x e !! Z.to_nat i).
Definition emu_get (e : emu) (i : Z) : bytes := le_bytes (Z.to_nat REGSZ) (reg_val e i).
Definition emu_set (e : emu) (i : Z) (bs : bytes) : emu :=
  if i =? 32 then set_pc (overlay (e_pc e) bs) e else setx i (overlay (reg_val e i) bs) e.

Lemma reg_val_lookup e i : emu_wf e -> 0 <= i < 32 -> e_x e !! Z.to_nat i = Some (reg_val e i).
Proof.
  intros [_ _ _ Hx _ _] Hi. unfold reg_val. rewrite (proj2 (Z.eqb_neq i 32)) by lia.
  destruct (lookup_lt_is_Some_2 (e_x e) (Z.to_nat i)) as [v Hv]; [lia|]. by rewrite Hv.
Qed.
Lemma reg_val_ok e i : emu_wf e -> 0 <= i <= 32 -> u64_ok (reg_val e i).
Proof.
  intros Hwf Hi. destruct (decide (i = 32)) as [->|Hne].
  - apply (wf_pc _ Hwf).
  - pose proof (reg_val_lookup e i Hwf ltac:(lia)) as Hl. pose proof (wf_regs _ Hwf) as Hr.
    rewrite Forall_lookup in Hr. by eapply Hr.
Qed.

Lemma reg_val_set e i bs j :
  emu_wf e -> 0 <= i <= 32 -> 0 <= j <= 32 ->
  reg_val (emu_set e i bs) j = if i =? j then overlay (reg_val e i) bs else reg_val e j.
Proof.
  intros Hwf Hi Hj. unfold emu_set, reg_val.
  destruct (i =? 32) eqn:E1, (j =? 32) eqn:E2, (i =? j) eqn:E3; bool_props; simpl; try done; try lia; subst.
  - rewrite list_lookup_insert_eq; [done|]. rewrite (wf_x _ Hwf). lia.
  - rewrite list_lookup_insert_ne; [done|]. lia.
Qed.

Lemma setx_wf e i v : emu_wf e -> u64_ok v -> emu_wf (setx i v e).
Proof.
  intros [Hm Hb Hc Hx Hr Hp] Hv. split; simpl; try done.
  - by rewrite length_insert.
  - apply Forall_insert; done.
Qed.
Lemma set_pc_wf e pc : emu_wf e -> u64_ok pc -> emu_wf (set_pc pc e).
Proof. intros [Hm Hb Hc Hx Hr Hp] Hv. by split. Qed.
Lemma set_mem_wf e m : emu_wf e -> length m = length (e_mem e) -> Forall byte_ok m -> emu_wf (set_mem m e).
Proof. intros [Hm Hb Hc Hx Hr Hp] Hl Hv. split; simpl; try done. by rewrite Hl. Qed.

Lemma size_8 bs i : value_ok (fun _ => REGSZ) i bs -> (length bs <= 8)%nat /\ length bs = Z.to_nat REGSZ.
Proof using Hsz. intros [Hl _]. lia. Qed.

Lemma emu_set_wf e i bs :
  emu_wf e -> 0 <= i <= 32 -> value_ok (fun _ => REGSZ) i bs -> emu_wf (emu_set e i bs).
Proof using Hsz.
  intros Hwf Hi Hv. destruct (size_8 _ _ Hv) as [H8 _], Hv as [_ Hb]. unfold emu_set.
  destruct (i =? 32); [apply set_pc_wf|apply setx_wf]; auto using overlay_ok.
Qed.

#[export] Instance emu_registers : RegisterFile (emu_ops REGSZ fuel irq) emu_wf (fun _ => REGSZ) 33.
Proof using Hsz.
  refine {| rf_get := emu_get; rf_set := emu_set; rf_code := fun _ _ => 0 |}.
  - done.
  - eexists. split; [reflexivity|]. intros e i Hwf Hi. unfold emu_read_reg.
    rewrite (proj2 (Z.ltb_ge 32 i)) by lia. unfold emu_get. case_if.
    + subst i. done.
    + rewrite (proj2 (Z.leb_le 0 i)), reg_val_lookup by (done || lia). done.
  - eexists. split; [reflexivity|]. intros e i bs rest Hwf Hi [Hl Hb]. unfold emu_write_reg.
    rewrite (proj2 (Z.ltb_ge 32 i)) by lia.
    rewrite (obind_eq _ _ bs) by by apply (bload_app []). unfold emu_set. case_if; [done|].
    rewrite (proj2 (Z.leb_le 0 i)), reg_val_lookup by (done || lia). done.
  - intros i _. lia.
  - intros e i Hwf Hi. split; [unfold emu_get; rewrite length_le_bytes; lia|apply le_bytes_ok].
  - done.
  - done.
  - intros e i bs Hwf Hi Hv _. apply emu_set_wf; (done || lia).
  - intros e i bs Hwf Hi Hv _. unfold emu_get. rewrite reg_val_set, Z.eqb_refl by (done || lia).
    destruct (size_8 _ _ Hv) as [_ <-], Hv as [_ Hb]. by apply overlay_get.
  - intros e i j bs Hwf Hi Hj Hne Hv _. unfold emu_get.
    rewrite reg_val_set, (proj2 (Z.eqb_neq i j)) by (done || lia). done.
  - intros e i Hwf Hi. unfold emu_set, emu_get.
    rewrite overlay_id by (lia || apply reg_val_ok; done || lia). case_if.
    + subst. unfold reg_val. simpl. rewrite overlay_id by (lia || apply Hwf). by destruct e.
    + unfold setx. rewrite list_insert_id by (apply reg_val_lookup; done || lia). by destruct e.
  - intros e i a b Hwf Hi Ha _ Hb _. destruct (size_8 _ _ Ha) as [Ha8 Hal], (size_8 _ _ Hb) as [_ Hbl], Ha as [_ Ha].
    assert (Hre : reg_val (emu_set e i a) i = overlay (reg_val e i) a).
    { rewrite reg_val_set, Z.eqb_refl by (done || lia). done. }
    unfold emu_set at 1. rewrite Hre. unfold emu_set.
    case_if; simpl; rewrite overlay_twice by (done || lia); [done|].
    unfold setx. simpl. by rewrite list_insert_insert_eq.
  - intros e i j a b Hwf Hi Hj Hne Ha _ Hb _.
    assert (Hrj : reg_val (emu_set e i a) j = reg_val e j).
    { rewrite reg_val_set, (proj2 (Z.eqb_neq i j)) by (done || lia). done. }
    assert (Hri : reg_val (emu_set e j b) i = reg_val e i).
    { rewrite reg_val_set, (proj2 (Z.eqb_neq j i)) by (done || lia). done. }
    unfold emu_set at 1 3. rewrite Hrj, Hri. unfold emu_set.
    destruct (i =? 32) eqn:E1, (j =? 32) eqn:E2; bool_props; simpl; try done; [lia|].
    unfold setx, set_x. simpl. f_equal. apply list_insert_insert_ne. lia.
Defined.

(** ** Memory *)
Definition mem_read (e : emu) (a l : Z) : Z * bytes :=
  if MEM_SIZE <? a + l then (EFAULT, []) else (0, take (Z.to_nat l) (drop (Z.to_nat a) (e_mem e))).
Definition splice (m : bytes) (a : Z) (bs : bytes) : bytes :=
  take (Z.to_nat a) m ++ bs ++ drop (Z.to_nat a + length bs) m.
Definition mem_write (e : emu) (a : Z) (bs : bytes) : Z * emu :=
  if MEM_SIZE <? a + Z.of_nat (length bs) then (EFAULT, e) else (0, set_mem (splice (e_mem e) a bs) e).

Lemma length_splice m a bs :
  0 <= a -> a + Z.of_nat (length bs) <= Z.of_nat (length m) -> length (splice m a bs) = length m.
Proof. intros. unfold splice. rewrite !length_app, length_take, length_drop. lia. Qed.

Lemma bload_mem m a l :
  0 <= a -> 0 <= l -> a + l <= Z.of_nat (length m) ->
  bload (Some <$> m) a l = Ret (take (Z.to_nat l) (drop (Z.to_nat a) m)).
Proof.
  intros Ha Hl Hm. rewrite <- (take_drop (Z.to_nat a) m) at 1.
  rewrite <- (take_drop (Z.to_nat l) (drop (Z.to_nat a) m)) at 1. rewrite !fmap_app. apply bload_app.
  - rewrite blen_fmap, length_take. lia.
  - rewrite length_take, length_drop. lia.
Qed.

Lemma bstore_mem m a bs :
  0 <= a -> a + Z.of_nat (length bs) <= Z.of_nat (length m) ->
  (m' ← bstore (Some <$> m) a bs; bvals m') = Ret (splice m a bs).
Proof.
  intros Ha Hm. unfold bstore, bwrite. rewrite !blen_fmap.
  replace (_ && _) with true by (symmetry; bool_props; lia). csimpl.
  rewrite length_fmap, <- !fmap_take, <- !fmap_drop, <- !fmap_app. apply bvals_fmap.
Qed.

Lemma wf_mem_Z e : emu_wf e -> Z.of_nat (length (e_mem e)) = MEM_SIZE.
Proof. intros Hwf. by rewrite (wf_mem _ Hwf). Qed.

Lemma emu_read_mem_ok e a l :
  emu_wf e -> in_range a l -> emu_read_mem e a l = Ret (mem_read e a l, e).
Proof.
  intros Hwf (Ha & Hl & Hal). pose proof (wf_mem_Z _ Hwf) as Hm.
  unfold emu_read_mem, mem_read. rewrite u64_id by lia. case_if; [done|].
  rewrite bload_mem by lia. done.
Qed.

Lemma emu_write_mem_ok e a bs rest :
  emu_wf e -> in_range a (Z.of_nat (length bs)) -> Forall byte_ok bs ->
  emu_write_mem e a (Z.of_nat (length bs)) ((Some <$> bs) ++ rest) = Ret (mem_write e a bs).
Proof.
  intros Hwf (Ha & Hl & Hal) Hb. pose proof (wf_mem_Z _ Hwf) as Hm.
  unfold emu_write_mem, mem_write. rewrite u64_id by lia. case_if; [done|].
  rewrite (obind_eq _ _ bs) by by apply (bload_app [] bs rest).
  pose proof (bstore_mem (e_mem e) a bs ltac:(lia) ltac:(lia)) as Es.
  destruct (bstore (Some <$> e_mem e) a bs) as [m'| | |]; simpl in Es |- *; try done. by rewrite Es.
Qed.

#[export] Instance emu_memory : Memory (emu_ops REGSZ fuel irq) emu_wf.
Proof.
  refine {| mm_read := mem_read; mm_write := mem_write |}.
  - eexists. split; [reflexivity|]. apply emu_read_mem_ok.
  - intros e a l Hwf (Ha & Hl & Hal) Hc. pose proof (wf_mem_Z _ Hwf) as Hm. unfold mem_read in *.
    case_if; [done|]. simpl. rewrite length_take, length_drop. lia.
  - intros e a l Hwf Hr Hc. unfold mem_read in *. case_if; [done|]. simpl in Hc. lia.
  - intros e a l Hwf Hr. unfold mem_read. case_if; [constructor|]. simpl.
    apply Forall_take, Forall_drop, (wf_bytes _ Hwf).
  - intros e a l. unfold mem_read, EFAULT. case_if; simpl; lia.
  - eexists. split; [reflexivity|]. apply emu_write_mem_ok.
  - intros e a bs. unfold mem_write, EFAULT. case_if; simpl; lia.
  - intros e a bs Hwf (Ha & Hl & Hal) Hb. pose proof (wf_mem_Z _ Hwf) as Hm. unfold mem_write.
    case_if; [done|]. simpl. apply set_mem_wf; [done|by apply length_splice; lia|].
    unfold splice. rewrite !Forall_app. pose proof (wf_bytes _ Hwf) as Hw.
    split_and!; [by apply Forall_take|done|by apply Forall_drop].
  - intros e a bs Hwf (Ha & Hl & Hal) Hb Hc. pose proof (wf_mem_Z _ Hwf) as Hm.
    unfold mem_write in *. destruct (MEM_SIZE <? _) eqn:Eg; [done|]. simpl. unfold mem_read. rewrite Eg.
    apply Z.ltb_ge in Eg. simpl.
    f_equal. unfold splice. rewrite drop_app_length' by (rewrite length_take; lia).
    by rewrite Nat2Z.id, take_app_length.
Defined.
End EmuTarget.
