(* ===== verification/Isa.v ===== *)
(** * The instructions of the reference emulator, as the RISC-V manual has them

    [encode] is the binary format of the fourteen RV64I instructions emu.c
    knows, [isa_exec] their meaning: [x0] is constantly zero, [lw] and the
    [w]-forms sign-extend, jumps link the address of the next instruction. This
    file does not look at emu.c; EmuSpec.v compares the two. *)

From S2P Require Import Prelude Emu.

Inductive instr :=
| Lw (rd rs1 imm : Z) | Ld (rd rs1 imm : Z)
| Addi (rd rs1 imm : Z) | Slti (rd rs1 imm : Z) | Addiw (rd rs1 imm : Z)
| Auipc (rd imm : Z) | Lui (rd imm : Z)
| Sb (rs1 rs2 imm : Z) | Sw (rs1 rs2 imm : Z) | Sd (rs1 rs2 imm : Z)
| Add (rd rs1 rs2 : Z) | Addw (rd rs1 rs2 : Z)
| Jalr (rd rs1 imm : Z) | Jal (rd imm : Z).

(** ** Encoding *)

Definition enc_R (op f3 f7 rd rs1 rs2 : Z) : Z :=
  op + rd * 2 ^ 7 + f3 * 2 ^ 12 + rs1 * 2 ^ 15 + rs2 * 2 ^ 20 + f7 * 2 ^ 25.
Definition enc_I (op f3 rd rs1 imm : Z) : Z :=
  op + rd * 2 ^ 7 + f3 * 2 ^ 12 + rs1 * 2 ^ 15 + (imm mod 2 ^ 12) * 2 ^ 20.
Definition enc_S (op f3 rs1 rs2 imm : Z) : Z :=
  op + (imm mod 2 ^ 5) * 2 ^ 7 + f3 * 2 ^ 12 + rs1 * 2 ^ 15 + rs2 * 2 ^ 20 + (imm / 2 ^ 5 mod 2 ^ 7) * 2 ^ 25.
Definition enc_U (op rd imm : Z) : Z := op + rd * 2 ^ 7 + imm * 2 ^ 12.
(** imm[20|10:1|11|19:12] *)
Definition enc_J (op rd imm : Z) : Z :=
  op + rd * 2 ^ 7 + (imm / 2 ^ 12 mod 2 ^ 8) * 2 ^ 12 + (imm / 2 ^ 11 mod 2) * 2 ^ 20
  + (imm / 2 mod 2 ^ 10) * 2 ^ 21 + (imm / 2 ^ 20 mod 2) * 2 ^ 31.

Definition encode (i : instr) : Z :=
  match i with
  | Lw rd rs1 imm => enc_I 0x03 2 rd rs1 imm
  | Ld rd rs1 imm => enc_I 0x03 3 rd rs1 imm
  | Addi rd rs1 imm => enc_I 0x13 0 rd rs1 imm
  | Slti rd rs1 imm => enc_I 0x13 2 rd rs1 imm
  | Addiw rd rs1 imm => enc_I 0x1b 0 rd rs1 imm
  | Auipc rd imm => enc_U 0x17 rd imm
  | Lui rd imm => enc_U 0x37 rd imm
  | Sb rs1 rs2 imm => enc_S 0x23 0 rs1 rs2 imm
  | Sw rs1 rs2 imm => enc_S 0x23 2 rs1 rs2 imm
  | Sd rs1 rs2 imm => enc_S 0x23 3 rs1 rs2 imm
  | Add rd rs1 rs2 => enc_R 0x33 0 0 rd rs1 rs2
  | Addw rd rs1 rs2 => enc_R 0x3b 0 0 rd rs1 rs2
  | Jalr rd rs1 imm => enc_I 0x67 0 rd rs1 imm
  | Jal rd imm => enc_J 0x6f rd imm
  end.

Definition reg_ok (r : Z) : Prop := 0 <= r < 32.
Definition imm12_ok (i : Z) : Prop := -2048 <= i < 2048.
Definition instr_ok (i : instr) : Prop :=
  match i with
  | Lw rd rs1 imm | Ld rd rs1 imm | Addi rd rs1 imm | Slti rd rs1 imm | Addiw rd rs1 imm | Jalr rd rs1 imm =>
      reg_ok rd /\ reg_ok rs1 /\ imm12_ok imm
  | Auipc rd imm | Lui rd imm => reg_ok rd /\ 0 <= imm < 2 ^ 20
  | Sb rs1 rs2 imm | Sw rs1 rs2 imm | Sd rs1 rs2 imm => reg_ok rs1 /\ reg_ok rs2 /\ imm12_ok imm
  | Add rd rs1 rs2 | Addw rd rs1 rs2 => reg_ok rd /\ reg_ok rs1 /\ reg_ok rs2
  | Jal rd imm => reg_ok rd /\ - 2 ^ 20 <= imm < 2 ^ 20 /\ imm mod 2 = 0
  end.

(** ** Meaning *)

(** [i_x] holds the 32 registers, [i_x !! 0] being zero; [i_pc] is the address
    of the instruction at hand. *)
Record isa := Isa { i_x : list Z; i_pc : Z; i_mem : bytes }.

Definition rx (a : isa) (r : Z) : Z := default 0 (i_x a !! Z.to_nat r).
Definition wx (r v : Z) (a : isa) : isa :=
  if r =? 0 then a else Isa (<[Z.to_nat r := v]> (i_x a)) (i_pc a) (i_mem a).
Definition next (a : isa) : isa := Isa (i_x a) (u64 (i_pc a + 4)) (i_mem a).
Definition jump (pc : Z) (a : isa) : isa := Isa (i_x a) pc (i_mem a).

(** The value of the low [n] bits read as a signed number. *)
Definition sext (n v : Z) : Z := (v + 2 ^ (n - 1)) mod 2 ^ n - 2 ^ (n - 1).

(** Memory accesses of [n] bytes; outside the memory there is none. *)
Definition load (a : isa) (n : nat) (addr : Z) : option Z :=
  if addr + Z.of_nat n <=? Z.of_nat (length (i_mem a)) then
    Some (le_val (take n (drop (Z.to_nat addr) (i_mem a))))
  else None.
Definition store (a : isa) (n : nat) (addr v : Z) : option isa :=
  if addr + Z.of_nat n <=? Z.of_nat (length (i_mem a)) then
    Some (Isa (i_x a) (i_pc a)
           (take (Z.to_nat addr) (i_mem a) ++ le_bytes n v ++ drop (Z.to_nat addr + n) (i_mem a)))
  else None.

Definition isa_exec (a : isa) (i : instr) : option isa :=
  match i with
  | Lw rd rs1 imm => v ← load a 4 (u64 (rx a rs1 + imm)); Some (next (wx rd (u64 (sext 32 v)) a))
  | Ld rd rs1 imm => v ← load a 8 (u64 (rx a rs1 + imm)); Some (next (wx rd v a))
  | Addi rd rs1 imm => Some (next (wx rd (u64 (rx a rs1 + imm)) a))
  | Slti rd rs1 imm => Some (next (wx rd (if sext 64 (rx a rs1) <? imm then 1 else 0) a))
  | Addiw rd rs1 imm => Some (next (wx rd (u64 (sext 32 (rx a rs1 + imm))) a))
  | Auipc rd imm => Some (next (wx rd (u64 (i_pc a + sext 32 (imm * 2 ^ 12))) a))
  | Lui rd imm => Some (next (wx rd (u64 (sext 32 (imm * 2 ^ 12))) a))
  | Sb rs1 rs2 imm => a ← store a 1 (u64 (rx a rs1 + imm)) (rx a rs2); Some (next a)
  | Sw rs1 rs2 imm => a ← store a 4 (u64 (rx a rs1 + imm)) (rx a rs2); Some (next a)
  | Sd rs1 rs2 imm => a ← store a 8 (u64 (rx a rs1 + imm)) (rx a rs2); Some (next a)
  | Add rd rs1 rs2 => Some (next (wx rd (u64 (rx a rs1 + rx a rs2)) a))
  | Addw rd rs1 rs2 => Some (next (wx rd (u64 (sext 32 (rx a rs1 + rx a rs2))) a))
  | Jalr rd rs1 imm =>
      let target := u64 (rx a rs1 + imm) in
      Some (jump (target - target mod 2) (wx rd (u64 (i_pc a + 4)) a))
  | Jal rd imm => Some (jump (u64 (i_pc a + imm)) (wx rd (u64 (i_pc a + 4)) a))
  end.

(** ** The fields of an encoded instruction *)

Lemma land_mod w k m : 0 <= k -> m = 2 ^ k - 1 -> Z.land w m = w mod 2 ^ k.
Proof. intros Hk ->. rewrite <- Z.land_ones by done. by rewrite Z.ones_equiv, Z.sub_1_r. Qed.

(** A field of [n] bits at bit [k], left in its place. *)
Lemma land_field w k n m :
  0 <= k -> 0 <= n -> m = (2 ^ n - 1) * 2 ^ k -> Z.land w m = (w / 2 ^ k mod 2 ^ n) * 2 ^ k.
Proof.
  intros Hk Hn ->. rewrite <- Z.shiftr_div_pow2, <- Z.land_ones, <- !Z.shiftl_mul_pow2 by done.
  replace (2 ^ n - 1) with (Z.ones n) by (rewrite Z.ones_equiv; lia).
  apply Z.bits_inj'. intros j Hj. rewrite Z.land_spec, !Z.shiftl_spec by done.
  destruct (decide (k <= j)).
  - rewrite Z.land_spec, Z.shiftr_spec by lia. by replace (j - k + k) with j by lia.
  - by rewrite !(Z.testbit_neg_r _ (j - k)), andb_false_r by lia.
Qed.

(** Joining a multiple of [2 ^ k] and a number below it. *)
Lemma lor_add a b k : 0 <= k -> 0 <= b < 2 ^ k -> Z.lor (a * 2 ^ k) b = a * 2 ^ k + b.
Proof.
  intros Hk Hb. symmetry. apply Z.add_nocarry_lor. rewrite <- Z.shiftl_mul_pow2 by done.
  apply Z.bits_inj'. intros j Hj. rewrite Z.land_spec, Z.shiftl_spec, Z.bits_0 by done.
  destruct (decide (k <= j)).
  - rewrite (proj2 (Z.testbit_false b j Hj)); [apply andb_false_r|].
    rewrite Z.div_small; [done|]. split; [lia|]. pose proof (Z.pow_le_mono_r 2 k j). lia.
  - by rewrite Z.testbit_neg_r by lia.
Qed.

Lemma imm_i_spec w : 0 <= w < 2 ^ 32 -> imm_i w = u64 (sext 12 (w / 2 ^ 20)).
Proof.
  intros Hw. unfold imm_i. rewrite (land_field w 20 12) by (done || lia).
  rewrite Z.shiftr_div_pow2 by done. f_equal. unfold sext, s32. mlia.
Qed.
Lemma imm_u_spec w : 0 <= w < 2 ^ 32 -> imm_u w = u64 (sext 32 (w / 2 ^ 12 * 2 ^ 12)).
Proof.
  intros Hw. unfold imm_u. rewrite (land_field w 12 20) by (done || lia). f_equal. unfold sext, s32. mlia.
Qed.
Lemma imm_s_spec w :
  0 <= w < 2 ^ 32 -> imm_s w = u64 (sext 12 (w / 2 ^ 25 * 2 ^ 5 + w / 2 ^ 7 mod 2 ^ 5)).
Proof.
  intros Hw. unfold imm_s. rewrite (land_field w 25 7), (land_mod _ 5) by (done || lia).
  rewrite !Z.shiftr_div_pow2 by done.
  replace (s32 (w / 2 ^ 25 mod 2 ^ 7 * 2 ^ 25) / 2 ^ 20) with (sext 7 (w / 2 ^ 25) * 2 ^ 5) by (unfold sext, s32; mlia).
  replace (s32 (w / 2 ^ 7 mod 2 ^ 5)) with (w / 2 ^ 7 mod 2 ^ 5) by (unfold s32; mlia).
  rewrite lor_add by (done || mlia). f_equal. unfold sext. mlia.
Qed.
Lemma imm_j_spec w :
  0 <= w < 2 ^ 32 ->
  imm_j w = u64 (sext 21 (w / 2 ^ 31 * 2 ^ 20 + (w / 2 ^ 12 mod 2 ^ 8) * 2 ^ 12 + (w / 2 ^ 20 mod 2) * 2 ^ 11
                          + (w / 2 ^ 21 mod 2 ^ 10) * 2)).
Proof.
  intros Hw. unfold imm_j.
  rewrite (land_field w 31 1), (land_field w 12 8), (land_field (Z.shiftr w 9) 11 1),
    (land_field (Z.shiftr w 20) 1 10) by (done || lia).
  rewrite !Z.shiftr_div_pow2 by done. rewrite !Z.div_div by done.
  rewrite <- !Z.pow_add_r by done.
  replace (9 + 11) with 20 by lia. replace (20 + 1) with 21 by lia.
  set (b := w / 2 ^ 31). set (h := w / 2 ^ 12 mod 2 ^ 8). set (m := w / 2 ^ 20 mod 2).
  change (2 ^ 1) with 2. fold m. set (l := w / 2 ^ 21 mod 2 ^ 10).
  assert (Hb : 0 <= b < 2) by (subst b; mlia). assert (Hh : 0 <= h < 256) by (subst h; mlia).
  assert (Hm : 0 <= m < 2) by (subst m; mlia). assert (Hl : 0 <= l < 1024) by (subst l; mlia).
  clearbody b h m l. clear w Hw.
  replace (s32 (b mod 2 * 2 ^ 31) / 2 ^ 11) with (- b * 2 ^ 20) by (unfold s32; mlia).
  rewrite !s32_id by mlia.
  rewrite (lor_add _ (h * 2 ^ 12)) by lia.
  replace (- b * 2 ^ 20 + h * 2 ^ 12) with ((- b * 2 ^ 8 + h) * 2 ^ 12) by lia.
  rewrite (lor_add _ (m * 2 ^ 11)) by lia.
  replace ((- b * 2 ^ 8 + h) * 2 ^ 12 + m * 2 ^ 11) with (((- b * 2 ^ 8 + h) * 2 + m) * 2 ^ 11) by lia.
  rewrite lor_add by lia. f_equal. unfold sext. mlia.
Qed.

(** What [decode] and the immediates give back on an encoded instruction. *)
Lemma decode_spec w :
  0 <= w < 2 ^ 32 ->
  decode w = Inst w (w / 2 ^ 7 mod 2 ^ 5) (w / 2 ^ 15 mod 2 ^ 5) (w / 2 ^ 20 mod 2 ^ 5) (w / 2 ^ 12 mod 2 ^ 3) (w / 2 ^ 25 mod 2 ^ 7).
Proof.
  intros Hw. unfold decode. rewrite !Z.shiftr_div_pow2 by done.
  by rewrite !(land_mod _ 5), (land_mod _ 3), (land_mod _ 7) by done.
Qed.

Ltac fields := unfold enc_I, enc_S, enc_U, enc_J, enc_R, reg_ok, imm12_ok in *; mlia.

Section Fields.
Context (op f3 : Z) (Hop : 0 <= op < 128) (Hf3 : 0 <= f3 < 8).
#[local] Set Default Proof Using "Type Hop Hf3".

Lemma dec_I rd rs1 imm :
  reg_ok rd -> reg_ok rs1 -> imm12_ok imm ->
  let w := enc_I op f3 rd rs1 imm in
  0 <= w < 2 ^ 32 /\ Z.land w 127 = op /\ imm_i w = u64 imm /\
  exists r2 f7, decode w = Inst w rd rs1 r2 f3 f7.
Proof.
  intros Hd H1 Hi w. assert (Hw : 0 <= w < 2 ^ 32) by (subst w; fields).
  split; [done|]. rewrite (land_mod _ 7), imm_i_spec, decode_spec by done. subst w. split_and!.
  - fields.
  - f_equal. unfold sext. fields.
  - eexists _, _. f_equal; fields.
Qed.

Lemma dec_S rs1 rs2 imm :
  reg_ok rs1 -> reg_ok rs2 -> imm12_ok imm ->
  let w := enc_S op f3 rs1 rs2 imm in
  0 <= w < 2 ^ 32 /\ Z.land w 127 = op /\ imm_s w = u64 imm /\
  exists r f7, decode w = Inst w r rs1 rs2 f3 f7.
Proof.
  intros H1 H2 Hi w. assert (Hw : 0 <= w < 2 ^ 32) by (subst w; fields).
  split; [done|]. rewrite (land_mod _ 7), imm_s_spec, decode_spec by done. subst w. split_and!.
  - fields.
  - f_equal. unfold sext. fields.
  - eexists _, _. f_equal; fields.
Qed.

Lemma dec_R rd rs1 rs2 :
  reg_ok rd -> reg_ok rs1 -> reg_ok rs2 ->
  let w := enc_R op f3 0 rd rs1 rs2 in
  0 <= w < 2 ^ 32 /\ Z.land w 127 = op /\ decode w = Inst w rd rs1 rs2 f3 0.
Proof.
  intros Hd H1 H2 w. assert (Hw : 0 <= w < 2 ^ 32) by (subst w; fields).
  split; [done|]. rewrite (land_mod _ 7), decode_spec by done. subst w. split; [fields|]. f_equal; fields.
Qed.

Lemma dec_U rd imm :
  reg_ok rd -> 0 <= imm < 2 ^ 20 ->
  let w := enc_U op rd imm in
  0 <= w < 2 ^ 32 /\ Z.land w 127 = op /\ imm_u w = u64 (sext 32 (imm * 2 ^ 12)) /\
  exists r1 r2 g3 f7, decode w = Inst w rd r1 r2 g3 f7.
Proof using Hop.
  clear dependent f3. intros Hd Hi w. assert (Hw : 0 <= w < 2 ^ 32) by (subst w; fields).
  split; [done|]. rewrite (land_mod _ 7), imm_u_spec, decode_spec by done. subst w. split_and!.
  - fields.
  - do 2 f_equal. fields.
  - eexists _, _, _, _. f_equal; fields.
Qed.

Lemma dec_J rd imm :
  reg_ok rd -> - 2 ^ 20 <= imm < 2 ^ 20 -> imm mod 2 = 0 ->
  let w := enc_J op rd imm in
  0 <= w < 2 ^ 32 /\ Z.land w 127 = op /\ imm_j w = u64 imm /\
  exists r1 r2 g3 f7, decode w = Inst w rd r1 r2 g3 f7.
Proof using Hop.
  clear dependent f3. intros Hd Hi He w.
  assert (Himm : sext 21 (imm / 2 ^ 20 mod 2 * 2 ^ 20 + (imm / 2 ^ 12 mod 2 ^ 8) * 2 ^ 12
                          + (imm / 2 ^ 11 mod 2) * 2 ^ 11 + (imm / 2 mod 2 ^ 10) * 2) = imm).
  { unfold sext. mlia. }
  subst w. unfold enc_J. revert Himm.
  set (h := imm / 2 ^ 12 mod 2 ^ 8). set (m := imm / 2 ^ 11 mod 2).
  set (l := imm / 2 mod 2 ^ 10). set (b := imm / 2 ^ 20 mod 2).
  assert (Hb : 0 <= b < 2) by (subst b; mlia). assert (Hh : 0 <= h < 256) by (subst h; mlia).
  assert (Hm : 0 <= m < 2) by (subst m; mlia). assert (Hl : 0 <= l < 1024) by (subst l; mlia).
  clearbody b h m l. intros Himm.
  set (w := op + _ + _ + _ + _ + _). unfold reg_ok in Hd.
  assert (Hw : 0 <= w < 2 ^ 32) by (subst w; lia).
  split; [done|]. rewrite (land_mod _ 7), imm_j_spec, decode_spec by done.
  assert (w / 2 ^ 31 = b /\ w / 2 ^ 12 mod 2 ^ 8 = h /\ w / 2 ^ 20 mod 2 = m /\ w / 2 ^ 21 mod 2 ^ 10 = l)
    as (-> & -> & -> & ->) by (clear Himm; subst w; split_and!; mlia).
  rewrite Himm. clear Himm. subst w. split_and!; [mlia|done|]. eexists _, _, _, _. f_equal; mlia.
Qed.
End Fields.
