(* ===== verification/EmuSpec.v ===== *)
(** * The reference emulator against the RISC-V manual

    [view] is what a program sees of the emulator: [x0] reads as zero whatever
    is stored there. [emu_exec] on an encoded instruction does what [isa_exec]
    says, with two exceptions; the run loops of [emu_cont] and [emu_stepi] are
    related to each other; every callback keeps [emu_wf]. *)

From S2P Require Import Prelude CMem CFormat Translate Packet RegBuf Conn Target RegHandlers MemHandlers Stub RegSpec MemSpec Emu EmuTarget Isa.

Definition view (e : emu) : isa := Isa (<[0%nat := 0]> (e_x e)) (e_pc e) (e_mem e).

(** The parts of the emulator no instruction touches. *)
Definition same_control (e e' : emu) : Prop :=
  e_code_size e' = e_code_size e /\ e_bp_is_set e' = e_bp_is_set e /\
  e_bp_addr e' = e_bp_addr e /\ e_halt e' = e_halt e.

(** The instructions emu.c executes differently: [lw] of a negative word, and
    [jalr] whose destination is its own base. *)
Definition deviates (a : isa) (i : instr) : bool :=
  match i with
  | Lw rd rs1 imm =>
      negb (rd =? 0) && match load a 4 (u64 (rx a rs1 + imm)) with Some v => 2 ^ 31 <=? v | None => false end
  | Jalr rd rs1 _ => rd =? rs1
  | _ => false
  end.

(** ** Memory accesses *)

Lemma shl3 i : Z.shiftl i 3 = 8 * i.
Proof. rewrite Z.shiftl_mul_pow2 by done. change (2 ^ 3) with 8. lia. Qed.

(** One more byte below a value of [i] bytes. *)
Lemma pow_8S i : 0 <= i -> 2 ^ (8 * (i + 1)) = 256 * 2 ^ (8 * i).
Proof. intros. replace (8 * (i + 1)) with (8 + 8 * i) by lia. by rewrite Z.pow_add_r by lia. Qed.
Lemma byte_above b v i : 0 <= i -> byte_ok b -> 0 <= v < 2 ^ (8 * i) -> 0 <= b * 2 ^ (8 * i) + v < 2 ^ (8 * (i + 1)).
Proof. intros Hi Hb Hv. rewrite pow_8S by done. unfold byte_ok in Hb. nia. Qed.

Lemma read_len_loop_step v i b :
  0 <= i -> 0 <= v < 2 ^ (8 * i) -> Z.lor v (Z.shiftl b (Z.shiftl i 3)) = b * 2 ^ (8 * i) + v.
Proof. intros Hi Hv. by rewrite shl3, Z.shiftl_mul_pow2, Z.lor_comm, lor_add by lia. Qed.

Lemma read_len_loop_ok n : forall i m ptr v,
  Forall byte_ok m -> 0 <= i -> 0 <= ptr -> ptr + i + Z.of_nat n <= Z.of_nat (length m) -> 0 <= v < 2 ^ (8 * i) ->
  read_len_loop n i m ptr v = Ret (v + 2 ^ (8 * i) * le_val (take n (drop (Z.to_nat (ptr + i)) m))).
Proof.
  induction n as [|n IH]; intros i m ptr v Hm Hi Hp Hl Hv; simpl.
  - do 2 f_equal. lia.
  - destruct (lookup_lt_is_Some_2 m (Z.to_nat (ptr + i))) as [b Hb]; [lia|]. rewrite Hb. csimpl.
    pose proof (proj1 (Forall_lookup _ _) Hm _ _ Hb) as Hbok.
    rewrite read_len_loop_step, IH by (done || lia || by apply byte_above).
    rewrite (drop_S _ _ _ Hb). csimpl.
    replace (Z.to_nat (ptr + (i + 1))) with (S (Z.to_nat (ptr + i))) by lia.
    rewrite pow_8S by done. f_equal. lia.
Qed.

Lemma read_len_loop_inv n : forall i m ptr v r,
  Forall byte_ok m -> 0 <= i -> 0 <= v < 2 ^ (8 * i) ->
  read_len_loop n i m ptr v = Ret r -> 0 <= r < 2 ^ (8 * (i + Z.of_nat n)).
Proof.
  induction n as [|n IH]; intros i m ptr v r Hm Hi Hv H; simpl in H.
  - simp_outcome. subst. by rewrite Z.add_0_r.
  - binv H. destruct (m !! Z.to_nat (ptr + i)) as [b|] eqn:Hb; [|done]. simpl in Hm0. simp_outcome. subst x.
    pose proof (proj1 (Forall_lookup _ _) Hm _ _ Hb) as Hbok.
    rewrite read_len_loop_step in Hk by done.
    apply IH in Hk; [|done|lia|by apply byte_above].
    by replace (i + Z.of_nat (S n)) with (i + 1 + Z.of_nat n) by lia.
Qed.

Lemma write_byte v i : 0 <= i -> Z.land (Z.shiftr v (Z.shiftl i 3)) 255 = v / 2 ^ (8 * i) mod 256.
Proof. intros. by rewrite shl3, Z.shiftr_div_pow2, (land_mod _ 8) by lia. Qed.

Lemma write_len_loop_ok n : forall i m ptr v,
  0 <= i -> 0 <= ptr -> ptr + i + Z.of_nat n <= Z.of_nat (length m) ->
  write_len_loop n i m ptr v = Ret (splice m (ptr + i) (le_bytes n (v / 2 ^ (8 * i)))).
Proof.
  induction n as [|n IH]; intros i m ptr v Hi Hp Hl; simpl; unfold splice.
  - simpl. by rewrite Nat.add_0_r, take_drop.
  - destruct (lookup_lt_is_Some_2 m (Z.to_nat (ptr + i))) as [b Hb]; [lia|]. rewrite Hb. csimpl.
    rewrite IH by (rewrite ?length_insert; lia). rewrite write_byte by done. unfold splice.
    rewrite pow_8S, (Z.mul_comm 256), <- Z.div_div by lia.
    set (c := _ mod 256). set (l := le_bytes n _).
    replace (Z.to_nat (ptr + (i + 1))) with (S (Z.to_nat (ptr + i))) by lia.
    rewrite insert_take_drop by lia. f_equal. set (p := Z.to_nat (ptr + i)) in *.
    assert (Hlen : length (take p m) = p) by (rewrite length_take; lia).
    rewrite take_app_ge, drop_app_ge by lia. rewrite Hlen.
    replace (S p - p)%nat with 1%nat by lia. replace (S p + length l - p)%nat with (S (length l)) by lia.
    csimpl. rewrite take_0, drop_drop, <- app_assoc. csimpl. by rewrite Nat.add_succ_r, <- Nat.add_succ_l.
Qed.

Lemma write_len_loop_inv n : forall i m ptr v m',
  Forall byte_ok m -> write_len_loop n i m ptr v = Ret m' -> length m' = length m /\ Forall byte_ok m'.
Proof.
  induction n as [|n IH]; intros i m ptr v m' Hm H; simpl in H.
  - simp_outcome. by subst.
  - binv H. apply IH in Hk.
    + by rewrite length_insert in Hk.
    + apply Forall_insert; [done|]. rewrite (land_mod _ 8) by done. unfold byte_ok. mlia.
Qed.

(** ** Registers *)

Lemma getx_view e r : emu_wf e -> reg_ok r -> getx (setx 0 0 e) r = Ret (rx (view e) r).
Proof.
  intros Hwf Hr. unfold getx, rx, view, setx. simpl.
  destruct (lookup_lt_is_Some_2 (<[0%nat := 0]> (e_x e)) (Z.to_nat r)) as [v Hv].
  { rewrite length_insert, (wf_x _ Hwf). unfold reg_ok in Hr. lia. }
  change (Z.to_nat 0) with 0%nat. by rewrite Hv.
Qed.

Lemma view_setx e r v : emu_wf e -> reg_ok r -> view (setx r v (setx 0 0 e)) = wx r v (view e).
Proof.
  intros Hwf Hr. unfold view, setx, wx, reg_ok in *. simpl. change (Z.to_nat 0) with 0%nat.
  case_if.
  - subst r. by rewrite !list_insert_insert_eq.
  - f_equal. rewrite (list_insert_insert_ne _ 0 (Z.to_nat r)) by lia.
    by rewrite list_insert_insert_eq.
Qed.

Lemma rx_ok e r : emu_wf e -> reg_ok r -> u64_ok (rx (view e) r).
Proof.
  intros Hwf Hr. unfold rx, view. simpl.
  assert (H : Forall u64_ok (<[0%nat := 0]> (e_x e))) by (apply Forall_insert; [apply (wf_regs _ Hwf)|done]).
  destruct (_ !! Z.to_nat r) as [v|] eqn:E; [|done]. simpl. rewrite Forall_lookup in H. by eapply H.
Qed.

(** A program sees the same when only [x0] was cleared. *)
Lemma view_clear e : view (setx 0 0 e) = view e.
Proof. unfold view, setx. simpl. change (Z.to_nat 0) with 0%nat. by rewrite list_insert_insert_eq. Qed.

Lemma load_view e n addr v :
  emu_wf e -> 0 <= addr -> load (view e) n addr = Some v ->
  read_len (8 * Z.of_nat n) (e_mem e) addr = Ret v.
Proof.
  intros Hwf Ha H. unfold load in H. simpl in H. case_if; [|done]. simplify_eq.
  unfold read_len. rewrite Z.shiftr_div_pow2 by done.
  replace (Z.to_nat (8 * Z.of_nat n / 2 ^ 3)) with n by (change (2 ^ 3) with 8; mlia).
  rewrite read_len_loop_ok; [|apply (wf_bytes _ Hwf)|lia..]. rewrite Z.add_0_r. f_equal. lia.
Qed.

Lemma store_view e n addr v a' :
  emu_wf e -> 0 <= addr -> store (view e) n addr v = Some a' ->
  exists m, write_len (8 * Z.of_nat n) (e_mem e) addr v = Ret m /\ a' = view (set_mem m e).
Proof.
  intros Hwf Ha H. unfold store in H. simpl in H. case_if; [|done]. injection H as <-.
  unfold write_len. rewrite Z.shiftr_div_pow2 by done.
  replace (Z.to_nat (8 * Z.of_nat n / 2 ^ 3)) with n by (change (2 ^ 3) with 8; mlia).
  rewrite write_len_loop_ok by lia. rewrite Z.add_0_r, Z.div_1_r. eexists. split; [done|].
  unfold splice, view. simpl. by rewrite length_le_bytes.
Qed.

(** ** One instruction *)

Lemma u64_sext32 x : u64 (s32 (u32 x)) = u64 (sext 32 x).
Proof. unfold u64, s32, u32, sext. mlia. Qed.
Lemma u32_add_u32 a b : u32 (u32 a + u32 b) = u32 (a + b).
Proof. unfold u32. mlia. Qed.
Lemma u32_u64 x : u32 (u64 x) = u32 x.
Proof. unfold u32, u64. mlia. Qed.
Lemma u64_add_u64 a b : u64 (a + u64 b) = u64 (a + b).
Proof. unfold u64. mlia. Qed.
Lemma s64_u64 x : s64 (u64 x) = sext 64 x.
Proof. unfold s64, u64, sext. mlia. Qed.
Lemma sext64_small x : -2048 <= x < 2048 -> sext 64 x = x.
Proof. unfold sext. mlia. Qed.
Lemma s64_sext x : s64 x = sext 64 x.
Proof. done. Qed.
Lemma land_m2 x : u64_ok x -> Z.land x (u64 (-2)) = x - x mod 2.
Proof. intros Hx. rewrite (land_field x 1 63) by (done || lia). unfold u64_ok in Hx. mlia. Qed.
Lemma jump_target pc imm : u64 (u64 (pc + 4) + u64 imm - 4) = u64 (pc + imm).
Proof. unfold u64. mlia. Qed.

(** The emulator at [pc + 4], as the run loops enter [emu_exec]. *)
Definition fetched (e : emu) : emu := set_pc (u64 (e_pc e + 4)) e.

Lemma fetched_wf e : emu_wf e -> emu_wf (fetched e).
Proof. intros. apply set_pc_wf; [done|]. apply u64_range. Qed.
Lemma rx_fetched e r : rx (view (fetched e)) r = rx (view e) r.
Proof. done. Qed.
Lemma view_next e : view (fetched e) = next (view e).
Proof. done. Qed.

Lemma emu_exec_decode e w i op :
  decode w = i -> Z.land w 127 = op ->
  emu_exec e w =
  let e := setx 0 0 e in
  if op =? 0x3 then opcode_3 e i
  else if op =? 0x13 then opcode_13 e i
  else if op =? 0x17 then opcode_17 e i
  else if op =? 0x1b then opcode_1b e i
  else if op =? 0x23 then opcode_23 e i
  else if op =? 0x33 then opcode_33 e i
  else if op =? 0x37 then opcode_37 e i
  else if op =? 0x3b then opcode_3b e i
  else if op =? 0x67 then opcode_67 e i
  else if op =? 0x6f then opcode_6f e i
  else Ret (-1, e).
Proof. by intros <- <-. Qed.

(** How an instruction ends: what the emulator does and what the manual says. *)
Definition executes (e : emu) (w : Z) (a' : isa) : Prop :=
  exists e', emu_exec (fetched e) w = Ret (0, e') /\ view e' = a' /\ same_control e e'.

Lemma executes_reg e w rd v :
  emu_wf e -> reg_ok rd -> emu_exec (fetched e) w = Ret (0, setx rd v (setx 0 0 (fetched e))) ->
  executes e w (next (wx rd v (view e))).
Proof.
  intros Hwf Hr E. eexists. split; [exact E|]. split; [|done].
  rewrite view_setx by (done || by apply fetched_wf). unfold wx. by case_if.
Qed.
Lemma executes_mem e w m :
  emu_exec (fetched e) w = Ret (0, set_mem m (setx 0 0 (fetched e))) ->
  executes e w (next (view (set_mem m e))).
Proof.
  intros E. eexists. split; [exact E|]. split; [|done].
  unfold view, next. simpl. change (Z.to_nat 0) with 0%nat. by rewrite list_insert_insert_eq.
Qed.
Lemma executes_jump e w rd v pc :
  emu_wf e -> reg_ok rd -> emu_exec (fetched e) w = Ret (0, set_pc pc (setx rd v (setx 0 0 (fetched e)))) ->
  executes e w (jump pc (wx rd v (view e))).
Proof.
  intros Hwf Hr E. eexists. split; [exact E|]. split; [|done].
  assert (H : i_x (view (setx rd v (setx 0 0 (fetched e)))) = i_x (wx rd v (view (fetched e)))
              /\ i_mem (wx rd v (view (fetched e))) = e_mem e).
  { rewrite view_setx by (done || by apply fetched_wf). split; [done|]. unfold wx. by case_if. }
  destruct H as [H1 H2]. unfold jump. unfold view at 1. simpl. f_equal.
  - transitivity (i_x (wx rd v (view (fetched e)))); [exact H1|]. unfold wx. by case_if.
  - unfold wx. by case_if.
Qed.

(** Decides the comparisons of literal opcodes. *)
Ltac pick_opcode :=
  repeat match goal with |- context [?a =? ?b] =>
    let v := eval vm_compute in (a =? b) in
    match v with
    | true => replace (a =? b) with true by reflexivity; cbv iota
    | false => replace (a =? b) with false by reflexivity; cbv iota
    end end; cbn [andb].

Section Exec.
Context (e : emu) (Hwf : emu_wf e).
#[local] Set Default Proof Using "Type Hwf".

Lemma getx_fetched r : reg_ok r -> getx (setx 0 0 (fetched e)) r = Ret (rx (view e) r).
Proof. intros Hr. rewrite <- rx_fetched. apply getx_view; [by apply fetched_wf|done]. Qed.

(** Runs [emu_exec] on an encoded instruction up to its register reads. *)
Ltac run_decoded Hdec Hop :=
  rewrite (emu_exec_decode _ _ _ _ Hdec Hop); cbv zeta; pick_opcode;
  unfold opcode_3, opcode_13, opcode_17, opcode_1b, opcode_23, opcode_33, opcode_37, opcode_3b, opcode_67, opcode_6f;
  cbn [funct3 inst rs1 rs2 rd funct7]; pick_opcode;
  repeat match goal with |- context [getx _ ?r ≫= _] =>
    rewrite (obind_eq _ _ _ (getx_fetched r ltac:(assumption))); cbv beta end.
Ltac run_I op f3 d r1 imm :=
  let Hop := fresh "Hop" in let Himm := fresh "Himm" in let Hdec := fresh "Hdec" in
  destruct (dec_I op f3 ltac:(lia) ltac:(lia) d r1 imm ltac:(done) ltac:(done) ltac:(done))
    as (_ & Hop & Himm & ? & ? & Hdec); run_decoded Hdec Hop; rewrite Himm, ?u64_add_u64.
Ltac run_S op f3 r1 r2 imm :=
  let Hop := fresh "Hop" in let Himm := fresh "Himm" in let Hdec := fresh "Hdec" in
  destruct (dec_S op f3 ltac:(lia) ltac:(lia) r1 r2 imm ltac:(done) ltac:(done) ltac:(done))
    as (_ & Hop & Himm & ? & ? & Hdec); run_decoded Hdec Hop; rewrite Himm, ?u64_add_u64.
Ltac run_R op f3 d r1 r2 :=
  let Hop := fresh "Hop" in let Hdec := fresh "Hdec" in
  destruct (dec_R op f3 ltac:(lia) ltac:(lia) d r1 r2 ltac:(done) ltac:(done) ltac:(done))
    as (_ & Hop & Hdec); run_decoded Hdec Hop.
Ltac run_U op d imm :=
  let Hop := fresh "Hop" in let Himm := fresh "Himm" in let Hdec := fresh "Hdec" in
  destruct (dec_U op ltac:(lia) d imm ltac:(done) ltac:(done))
    as (_ & Hop & Himm & ? & ? & ? & ? & Hdec); run_decoded Hdec Hop; rewrite Himm.

Lemma exec_arith i a' :
  instr_ok i -> isa_exec (view e) i = Some a' ->
  match i with Addi _ _ _ | Slti _ _ _ | Addiw _ _ _ | Auipc _ _ | Lui _ _ | Add _ _ _ | Addw _ _ _ => True | _ => False end ->
  executes e (encode i) a'.
Proof.
  intros Hok E Hi. destruct i as [| |d r1 imm|d r1 imm|d r1 imm|d imm|d imm| | | |d r1 r2|d r1 r2| |]; try done;
    simpl in Hok; destruct_and! Hok; injection E as <-; apply executes_reg; try done; cbn [encode].
  - by run_I 0x13 0 d r1 imm.
  - run_I 0x13 2 d r1 imm. rewrite s64_sext, s64_u64, (sext64_small imm) by done. done.
  - run_I 0x1b 0 d r1 imm. by rewrite u32_u64, u32_add_u32, u64_sext32.
  - run_U 0x17 d imm. do 3 f_equal. simpl. apply jump_target.
  - by run_U 0x37 d imm.
  - by run_R 0x33 0 d r1 r2.
  - run_R 0x3b 0 d r1 r2. by rewrite u32_add_u32, u64_sext32.
Qed.

(** [ld], and [lw] without the sign extension the manual asks for. *)
Lemma exec_load n f d r1 imm v :
  reg_ok d -> reg_ok r1 -> imm12_ok imm -> (n = 4%nat /\ f = 2 \/ n = 8%nat /\ f = 3) ->
  load (view e) n (u64 (rx (view e) r1 + imm)) = Some v ->
  executes e (enc_I 0x03 f d r1 imm) (next (wx d v (view e))).
Proof.
  intros Hd H1 Hi Hn Hl.
  apply (load_view e _ _ _ Hwf (proj1 (u64_range _))) in Hl.
  apply executes_reg; [done..|]. destruct Hn as [[-> ->]|[-> ->]].
  - run_I 0x03 2 d r1 imm. by rewrite (obind_eq _ _ _ Hl).
  - run_I 0x03 3 d r1 imm. by rewrite (obind_eq _ _ _ Hl).
Qed.

Lemma exec_store n f r1 r2 imm a' :
  reg_ok r1 -> reg_ok r2 -> imm12_ok imm -> (n = 1%nat /\ f = 0 \/ n = 4%nat /\ f = 2 \/ n = 8%nat /\ f = 3) ->
  store (view e) n (u64 (rx (view e) r1 + imm)) (rx (view e) r2) = Some a' ->
  executes e (enc_S 0x23 f r1 r2 imm) (next a').
Proof.
  intros H1 H2 Hi Hn Hs.
  apply (store_view e _ _ _ _ Hwf (proj1 (u64_range _))) in Hs as (m & Hw & ->).
  apply executes_mem. destruct Hn as [[-> ->]|[[-> ->]|[-> ->]]].
  - run_S 0x23 0 r1 r2 imm. by rewrite (obind_eq _ _ _ Hw).
  - run_S 0x23 2 r1 r2 imm. by rewrite (obind_eq _ _ _ Hw).
  - run_S 0x23 3 r1 r2 imm. by rewrite (obind_eq _ _ _ Hw).
Qed.

Lemma exec_jal d imm :
  reg_ok d -> - 2 ^ 20 <= imm < 2 ^ 20 -> imm mod 2 = 0 ->
  executes e (enc_J 0x6f d imm) (jump (u64 (e_pc e + imm)) (wx d (u64 (e_pc e + 4)) (view e))).
Proof.
  intros Hd Hi He. apply executes_jump; [done..|].
  destruct (dec_J 0x6f ltac:(lia) d imm Hd Hi He) as (_ & Hop & Himm & ? & ? & ? & ? & Hdec).
  run_decoded Hdec Hop. rewrite Himm. do 3 f_equal. apply jump_target.
Qed.

(** [jalr]: the base is read after the link register was written. *)
Definition jalr_base (d r1 : Z) : Z := if d =? r1 then u64 (e_pc e + 4) else rx (view e) r1.

Lemma exec_jalr d r1 imm :
  reg_ok d -> reg_ok r1 -> imm12_ok imm ->
  let target := u64 (jalr_base d r1 + imm) in
  executes e (enc_I 0x67 0 d r1 imm) (jump (target - target mod 2) (wx d (u64 (e_pc e + 4)) (view e))).
Proof.
  intros Hd H1 Hi target. apply executes_jump; [done..|].
  destruct (dec_I 0x67 0 ltac:(lia) ltac:(lia) d r1 imm Hd H1 Hi) as (_ & Hop & Himm & ? & ? & Hdec).
  rewrite (emu_exec_decode _ _ _ _ Hdec Hop). cbv zeta. pick_opcode. unfold opcode_67. cbn [rs1 rd inst].
  assert (Hb : getx (setx d (e_pc (setx 0 0 (fetched e))) (setx 0 0 (fetched e))) r1 = Ret (jalr_base d r1)).
  { unfold jalr_base. case_if.
    - subst r1. unfold getx, setx. simpl. rewrite list_lookup_insert_eq; [done|].
      rewrite length_insert, (wf_x _ Hwf). unfold reg_ok in Hd. lia.
    - unfold getx. simpl. rewrite list_lookup_insert_ne by (unfold reg_ok in *; lia). by apply getx_fetched. }
  rewrite (obind_eq _ _ _ Hb), Himm, u64_add_u64, land_m2 by apply u64_range. done.
Qed.
End Exec.

(** A loaded word is below [2 ^ 32]; sign extension changes it from [2 ^ 31] on. *)
Lemma load_range e n addr v : emu_wf e -> load (view e) n addr = Some v -> 0 <= v < 256 ^ Z.of_nat n.
Proof.
  intros Hwf H. unfold load in H. case_if; [|done]. simplify_eq. simpl in *.
  assert (Hb : Forall byte_ok (take n (drop (Z.to_nat addr) (e_mem e)))).
  { apply Forall_take, Forall_drop, (wf_bytes _ Hwf). }
  pose proof (le_val_range _ Hb) as Hr.
  assert (256 ^ Z.of_nat (length (take n (drop (Z.to_nat addr) (e_mem e)))) <= 256 ^ Z.of_nat n); [|lia].
  apply Z.pow_le_mono_r; [lia|]. rewrite length_take. lia.
Qed.
Lemma sext32_word v : 0 <= v < 2 ^ 32 -> (v = u64 (sext 32 v) <-> v < 2 ^ 31).
Proof. intros Hv. unfold u64, sext. split; mlia. Qed.

(** What the exceptions come to. *)
Definition deviation (e : emu) (i : instr) (a : isa) : Prop :=
  match i with
  | Lw d r1 imm => exists v, load (view e) 4 (u64 (rx (view e) r1 + imm)) = Some v /\
      a = next (wx d v (view e)) /\ v <> u64 (sext 32 v)
  | Jalr d _ imm => let target := u64 (e_pc e + 4 + imm) in
      a = jump (target - target mod 2) (wx d (u64 (e_pc e + 4)) (view e))
  | _ => False
  end.

Lemma executes_intro e w i a1 a' :
  executes e w a1 ->
  (deviates (view e) i = false -> a1 = a') -> (deviates (view e) i = true -> deviation e i a1) ->
  exists e', emu_exec (fetched e) w = Ret (0, e') /\ same_control e e' /\
    (deviates (view e) i = false -> view e' = a') /\ (deviates (view e) i = true -> deviation e i (view e')).
Proof. intros (e' & E & <- & Hs) H1 H2. by exists e'. Qed.

Lemma exec_all e i a' :
  emu_wf e -> instr_ok i -> isa_exec (view e) i = Some a' ->
  exists e', emu_exec (fetched e) (encode i) = Ret (0, e') /\ same_control e e' /\
    (deviates (view e) i = false -> view e' = a') /\ (deviates (view e) i = true -> deviation e i (view e')).
Proof.
  intros Hwf Hok E.
  destruct i as [d r1 imm|d r1 imm| | | | | |r1 r2 imm|r1 r2 imm|r1 r2 imm| | |d r1 imm|d imm];
    try (by eapply executes_intro; [eapply exec_arith|..]); simpl in Hok; destruct_and! Hok.
  - simpl in E. destruct (load (view e) 4 (u64 (rx (view e) r1 + imm))) as [v|] eqn:El; [|done]. injection E as <-.
    pose proof (load_range _ _ _ _ Hwf El) as Hv. change (256 ^ Z.of_nat 4) with (2 ^ 32) in Hv.
    pose proof (sext32_word v Hv) as Hs.
    eapply executes_intro; [apply (exec_load e Hwf 4 2 d r1 imm v); auto|..]; unfold deviates; rewrite El.
    + intros Hd. destruct (d =? 0) eqn:E0; [unfold wx; by rewrite E0|]. simpl in Hd. apply Z.leb_gt in Hd.
      by rewrite <- (proj2 Hs Hd).
    + intros [_ Hd%Z.leb_le]%andb_true_iff. exists v. split_and!; [done..|]. intros Hv'%Hs. lia.
  - simpl in E. destruct (load (view e) 8 _) as [v|] eqn:El; [|done]. injection E as <-.
    eapply executes_intro; [apply (exec_load e Hwf 8 3 d r1 imm v); auto|done..].
  - simpl in E. destruct (store (view e) 1 _ _) as [a|] eqn:Es; [|done]. injection E as <-.
    eapply executes_intro; [apply (exec_store e Hwf 1 0 r1 r2 imm a); auto|done..].
  - simpl in E. destruct (store (view e) 4 _ _) as [a|] eqn:Es; [|done]. injection E as <-.
    eapply executes_intro; [apply (exec_store e Hwf 4 2 r1 r2 imm a); auto|done..].
  - simpl in E. destruct (store (view e) 8 _ _) as [a|] eqn:Es; [|done]. injection E as <-.
    eapply executes_intro; [apply (exec_store e Hwf 8 3 r1 r2 imm a); auto 6|done..].
  - injection E as <-. eapply executes_intro; [by apply (exec_jalr e Hwf d r1 imm)|..]; unfold deviates, jalr_base.
    + intros ->. done.
    + intros ->. unfold deviation. replace (u64 (u64 (e_pc e + 4) + imm)) with (u64 (e_pc e + 4 + imm)); [done|].
      unfold u64. mlia.
  - injection E as <-. eapply executes_intro; [by apply (exec_jal e Hwf d imm)|done..].
Qed.

(** ** Properties *)

(** C10 The emulator executes RISC-V: on the encoding of any of its fourteen
    instructions, with any operands, [emu_exec] succeeds whenever the memory
    access is inside the memory, changes nothing the manual does not mention,
    and leaves exactly the registers, pc and memory of [isa_exec], with two
    exceptions: [lw] zero-extends the word it loads, and [jalr] whose
    destination is its base jumps relative to the link address. *)
Theorem emu_exec_refines_isa e i a' :
  emu_wf e -> instr_ok i -> isa_exec (view e) i = Some a' ->
  exists e', emu_exec (set_pc (u64 (e_pc e + 4)) e) (encode i) = Ret (0, e') /\ same_control e e' /\
    (deviates (view e) i = false -> view e' = a') /\ (deviates (view e) i = true -> deviation e i (view e')).
Proof. apply exec_all. Qed.
