(* ===== verification/EmuRun.v ===== *)
(** * The emulator's run loops and its invariant

    [emu_cont] is repeated [emu_stepi]; whatever program is loaded and whatever
    the client writes, every callback keeps [emu_wf], so the instruction fetch
    and the registers are always in bounds. *)

From stdpp Require Import relations.
From S2P Require Import Prelude CMem CFormat Translate Packet RegBuf Conn Target RegHandlers MemHandlers Stub RegSpec MemSpec Emu EmuTarget Isa EmuSpec.

(** ** The invariant *)

Lemma getx_ok e r v : emu_wf e -> getx e r = Ret v -> u64_ok v.
Proof.
  intros Hwf H. unfold getx in H. destruct (e_x e !! Z.to_nat r) eqn:E; [|done]. simpl in H. simp_outcome. subst.
  pose proof (wf_regs _ Hwf) as Hr. rewrite Forall_lookup in Hr. by eapply Hr.
Qed.
Lemma u64_ok_u64 x : u64_ok (u64 x).
Proof. apply u64_range. Qed.
Lemma u64_ok_bit (b : bool) : u64_ok (if b then 1 else 0).
Proof. by destruct b. Qed.
Lemma read_len_u64 bits m ptr v :
  Forall byte_ok m -> 0 <= bits <= 64 -> read_len bits m ptr = Ret v -> u64_ok v.
Proof.
  intros Hm Hb H. unfold read_len in H. apply read_len_loop_inv in H; [|done|lia|by vm_compute].
  rewrite Z.shiftr_div_pow2, Z2Nat.id, Z.add_0_l in H by mlia. unfold u64_ok.
  assert (2 ^ (8 * (bits / 2 ^ 3)) <= 2 ^ 64); [|lia]. apply Z.pow_le_mono_r; mlia.
Qed.
#[export] Hint Resolve u64_ok_u64 u64_ok_bit : stub.

(** Each opcode function keeps the invariant, returns 0 or -1, and always
    comes to an end. *)
Definition keeps (f : emu -> outcome (Z * emu)) : Prop :=
  forall e, emu_wf e -> halts (f e) /\
    forall r e', f e = Ret (r, e') -> emu_wf e' /\ (r = 0 \/ r = -1).

Lemma halts_getx e r : halts (getx e r).
Proof. apply halts_deref. Qed.
Lemma halts_read_len_loop n : forall i m ptr v, halts (read_len_loop n i m ptr v).
Proof. induction n as [|n IH]; intros; simpl; [apply halts_ret|]. apply halts_bind; auto with stub. Qed.
Lemma halts_write_len_loop n : forall i m ptr v, halts (write_len_loop n i m ptr v).
Proof. induction n as [|n IH]; intros; simpl; [apply halts_ret|]. apply halts_bind; auto with stub. Qed.
Lemma halts_read_len bits m ptr : halts (read_len bits m ptr).
Proof. apply halts_read_len_loop. Qed.
Lemma halts_write_len bits m ptr v : halts (write_len bits m ptr v).
Proof. apply halts_write_len_loop. Qed.
Lemma u64_ok_even x : u64_ok x -> u64_ok (Z.land x (u64 (-2))).
Proof. intros Hx. rewrite land_m2 by done. unfold u64_ok in *. mlia. Qed.
#[export] Hint Resolve u64_ok_even : stub.
#[export] Hint Resolve halts_getx halts_read_len halts_write_len : stub.

Ltac halt_auto :=
  repeat first [ solve [auto with stub] | case_match | apply halts_bind; [|intros] ].
(** Takes a returning computation apart. *)
Ltac returns H :=
  repeat first
    [ discriminate H
    | match type of H with
      | (if ?b then _ else _) = Ret _ => destruct b
      | _ ≫= _ = Ret _ => apply outcome_bind_inv in H; let x := fresh "x" in let Hx := fresh "Hx" in destruct H as (x & Hx & H)
      end ];
  injection H as <- <-.
Ltac wf_auto :=
  split; [|auto];
  repeat first
    [ done
    | apply setx_wf | apply set_pc_wf | by apply wf_pc
    | solve [auto with stub]
    | match goal with
      | H : read_len _ _ _ = Ret ?v |- u64_ok ?v => eapply read_len_u64; [|..|exact H]; [by apply wf_bytes|lia]
      | H : write_len _ _ _ _ = Ret ?m |- emu_wf (set_mem ?m _) =>
          unfold write_len in H; apply write_len_loop_inv in H as [? ?]; [by apply set_mem_wf|by apply wf_bytes]
      end ].
Ltac keeps_auto :=
  intros e Hwf; split; [halt_auto|]; let H := fresh "H" in intros r e' H; returns H; wf_auto.

Lemma keeps_3 i : keeps (fun e => opcode_3 e i).
Proof. unfold opcode_3. keeps_auto. Qed.
Lemma keeps_13 i : keeps (fun e => opcode_13 e i).
Proof. unfold opcode_13. keeps_auto. Qed.
Lemma keeps_17 i : keeps (fun e => opcode_17 e i).
Proof. unfold opcode_17. keeps_auto. Qed.
Lemma keeps_1b i : keeps (fun e => opcode_1b e i).
Proof. unfold opcode_1b. keeps_auto. Qed.
Lemma keeps_23 i : keeps (fun e => opcode_23 e i).
Proof. unfold opcode_23. cbv zeta. keeps_auto. Qed.
Lemma keeps_33 i : keeps (fun e => opcode_33 e i).
Proof. unfold opcode_33. keeps_auto. Qed.
Lemma keeps_37 i : keeps (fun e => opcode_37 e i).
Proof. unfold opcode_37, imm_u. keeps_auto. Qed.
Lemma keeps_3b i : keeps (fun e => opcode_3b e i).
Proof. unfold opcode_3b. keeps_auto. Qed.
Lemma keeps_67 i : keeps (fun e => opcode_67 e i).
Proof. unfold opcode_67. keeps_auto. Qed.
Lemma keeps_6f i : keeps (fun e => opcode_6f e i).
Proof. unfold opcode_6f. keeps_auto. Qed.

Lemma exec_keeps w : keeps (fun e => emu_exec e w).
Proof.
  intros e Hwf. unfold emu_exec. cbv zeta.
  assert (Hwf0 : emu_wf (setx 0 0 e)) by by apply setx_wf.
  repeat case_match; try (first [apply keeps_3|apply keeps_13|apply keeps_17|apply keeps_1b|apply keeps_23|apply keeps_33
    |apply keeps_37|apply keeps_3b|apply keeps_67|apply keeps_6f]; done).
  split; [done|]. intros r e' [= <- <-]. auto.
Qed.

(** The instruction fetch never leaves the memory: the last word is no code. *)
Lemma fetch_ok e : emu_wf e -> e_pc e < e_code_size e -> exists w, fetch e = Ret w.
Proof.
  intros Hwf Hpc. unfold fetch. pose proof (wf_code _ Hwf) as Hc. pose proof (wf_pc _ Hwf) as Hp.
  unfold TOHOST_ADDR, MEM_SIZE in Hc.
  rewrite (emu_read_mem_ok e (e_pc e) 4 Hwf) by (unfold in_range; lia). unfold mem_read, MEM_SIZE.
  case_if; [lia|]. csimpl. by eexists.
Qed.

(** ** The run loops *)

(** Fetch, advance the pc, execute. *)
Definition exec_one (e : emu) : outcome (Z * emu) :=
  inst ← fetch e; emu_exec (set_pc (u64 (e_pc e + 4)) e) inst.
Definition tohost (e : emu) : Z := default 0 (e_mem e !! Z.to_nat TOHOST_ADDR).
(** The condition that ends the loop of [emu_cont]. *)
Definition run_stops (e : emu) : bool := (e_code_size e <=? e_pc e) || (e_pc e =? e_bp_addr e) || e_halt e.

(** [goes_on e e']: one instruction that lets [emu_cont] go on. *)
Definition goes_on (e e' : emu) : Prop :=
  run_stops e = false /\ exec_one e = Ret (0, e') /\ tohost e' = 0.

Lemma exec_one_ends e :
  emu_wf e -> e_pc e < e_code_size e ->
  halts (exec_one e) /\ forall r e', exec_one e = Ret (r, e') -> emu_wf e' /\ (r = 0 \/ r = -1).
Proof.
  intros Hwf Hpc. unfold exec_one. destruct (fetch_ok e Hwf Hpc) as [w ->]. csimpl.
  apply exec_keeps, set_pc_wf; auto with stub.
Qed.

Lemma tohost_ok e : emu_wf e -> read_len 8 (e_mem e) TOHOST_ADDR = Ret (tohost e).
Proof.
  intros Hwf. unfold tohost. destruct (lookup_lt_is_Some_2 (e_mem e) (Z.to_nat TOHOST_ADDR)) as [b Hb].
  { rewrite (wf_mem _ Hwf). vm_compute. lia. }
  rewrite Hb. unfold read_len. change (Z.to_nat (Z.shiftr 8 3)) with 1%nat.
  pose proof (wf_bytes _ Hwf) as Hm. rewrite Forall_lookup in Hm. pose proof (Hm _ _ Hb) as Hbok.
  cbn [read_len_loop]. rewrite Z.add_0_r, Hb. csimpl. change (Z.shiftl 0 3) with 0. by rewrite Z.shiftl_0_r, Z.lor_0_l.
Qed.

Lemma stops_cond e :
  (e_pc e <? e_code_size e) && negb (e_pc e =? e_bp_addr e) && negb (emu_is_halt e) = negb (run_stops e).
Proof.
  unfold run_stops, emu_is_halt. rewrite !negb_orb. do 2 f_equal.
  destruct (Z.leb_spec (e_code_size e) (e_pc e)), (Z.ltb_spec (e_pc e) (e_code_size e)); done || lia.
Qed.
Lemma stops_pc e : run_stops e = false -> e_pc e < e_code_size e.
Proof. unfold run_stops. intros H. apply orb_false_iff in H as [[H _]%orb_false_iff _]. by apply Z.leb_gt. Qed.

Lemma cont_loop_step n irq e :
  emu_wf e ->
  emu_cont_loop (S n) irq e =
  if decide (irq = Some O) then Ret (ACT_RESUME, emu_halt e)
  else if run_stops e then Ret (ACT_RESUME, e)
  else '(ret, e) ← exec_one e;
       if ret <? 0 then Ret (ACT_RESUME, e)
       else if negb (tohost e =? 0) then Ret (ACT_SHUTDOWN, e) else emu_cont_loop n (Nat.pred <$> irq) e.
Proof.
  intros Hwf. cbn [emu_cont_loop]. rewrite stops_cond. destruct (decide (irq = Some O)) as [->|Hirq].
  { unfold run_stops. simpl. by rewrite orb_true_r. }
  assert (Ee : match irq with Some O => emu_halt e | _ => e end = e) by by destruct irq as [[|j]|].
  rewrite Ee. destruct (run_stops e) eqn:Es; [done|]. simpl negb. cbv iota.
  pose proof (exec_one_ends e Hwf (stops_pc e Es)) as [_ Hx]. unfold exec_one in *.
  destruct (fetch e) as [w| | |]; cbn [mbind outcome_bind] in *; try done.
  destruct (emu_exec _ w) as [[r e']| | |]; cbn [mbind outcome_bind]; try done.
  destruct (Hx _ _ eq_refl) as [Hwf' _]. destruct (r <? 0); [done|].
  rewrite tohost_ok by done. done.
Qed.

(** Why [emu_cont] returned, [k] instructions after it was called: the
    interrupt came; or, when it did not come now, a stop condition holds, the
    next instruction is unknown, or it wrote the exit address. *)
Definition cont_end (irq : option nat) (k : nat) (e1 : emu) (act : gdb_action_t) (e' : emu) : Prop :=
  (act = ACT_RESUME /\ irq = Some k /\ e' = emu_halt e1) \/
  (irq <> Some k /\
   ((act = ACT_RESUME /\ run_stops e1 = true /\ e' = e1) \/
    (act = ACT_RESUME /\ run_stops e1 = false /\ exec_one e1 = Ret (-1, e')) \/
    (act = ACT_SHUTDOWN /\ run_stops e1 = false /\ exec_one e1 = Ret (0, e') /\ tohost e' <> 0))).

Lemma pred_irq (irq : option nat) k : irq <> Some O -> Nat.pred <$> irq = Some k <-> irq = Some (S k).
Proof. destruct irq as [[|j]|]; naive_solver. Qed.

Lemma cont_end_later irq k e1 act e' :
  irq <> Some O -> cont_end (Nat.pred <$> irq) k e1 act e' -> cont_end irq (S k) e1 act e'.
Proof. intros Hi. unfold cont_end. rewrite (pred_irq irq k Hi). done. Qed.

Lemma cont_loop_runs n : forall irq e act e',
  emu_wf e -> emu_cont_loop n irq e = Ret (act, e') ->
  exists k e1, (k < n)%nat /\ (forall j, irq = Some j -> (k <= j)%nat) /\ nsteps goes_on k e e1 /\
    cont_end irq k e1 act e' /\ emu_wf e'.
Proof.
  induction n as [|n IH]; intros irq e act e' Hwf H; [done|]. rewrite cont_loop_step in H by done.
  assert (Hnow : cont_end irq 0 e act e' -> emu_wf e' ->
    exists k e1, (k < S n)%nat /\ (forall j, irq = Some j -> (k <= j)%nat) /\ nsteps goes_on k e e1 /\
      cont_end irq k e1 act e' /\ emu_wf e').
  { intros. exists O, e. split_and!; try done; [lia|intros; lia|constructor]. }
  destruct (decide (irq = Some O)) as [->|Hi].
  { simplify_eq. apply Hnow; [by left|by destruct Hwf]. }
  destruct (run_stops e) eqn:Es.
  { simplify_eq. apply Hnow; [|done]. right. split; [done|by left]. }
  pose proof (exec_one_ends e Hwf (stops_pc e Es)) as [_ Hx].
  destruct (exec_one e) as [[r e1]| | |] eqn:Ex; simpl in H; try done.
  destruct (Hx _ _ eq_refl) as [Hwf1 [-> | ->]]; simpl in H.
  - change (0 <? 0) with false in H. cbv iota in H. destruct (tohost e1 =? 0) eqn:Et; simpl in H.
    + apply Z.eqb_eq in Et. destruct (IH _ e1 act e' Hwf1 H) as (k & e2 & Hk & Hj & Hn & He & Hwf2).
      exists (S k), e2. split_and!; [lia| |by econstructor|by apply cont_end_later|done].
      intros [|j] Hirq; [done|]. apply (pred_irq irq j Hi) in Hirq. specialize (Hj j Hirq). lia.
    + apply Z.eqb_neq in Et. simplify_eq. apply Hnow; [|done]. right. split; [done|by right; right].
  - change (-1 <? 0) with true in H. simplify_eq. apply Hnow; [|done]. right. split; [done|by right; left].
Qed.


(** A single step is what [emu_cont] repeats. *)
Lemma goes_on_stepi e e' : goes_on e e' -> emu_stepi e = Ret (ACT_RESUME, e').
Proof.
  intros (Hs & Hx & _). pose proof (stops_pc e Hs) as Hpc. unfold emu_stepi.
  assert (Hst : emu_start_run e = e).
  { unfold run_stops in Hs. apply orb_false_iff in Hs as [_ Hh]. destruct e; simpl in *. by subst. }
  rewrite Hst, (proj2 (Z.ltb_lt _ _) Hpc). unfold exec_one in Hx.
  destruct (fetch e) as [w| | |]; cbn [mbind outcome_bind] in *; try done. by rewrite Hx.
Qed.

Lemma start_run_wf e : emu_wf e -> emu_wf (emu_start_run e).
Proof. by intros [? ? ? ? ? ?]. Qed.
Lemma set_bp_wf e b a : emu_wf e -> emu_wf (set_bp b a e).
Proof. by intros [? ? ? ? ? ?]. Qed.




Section Calls.
Context (REGSZ : Z) (Hsz : 0 < REGSZ <= 8).




End Calls.


(** ** Properties *)


(** C16 [emu_cont] is repeated [emu_stepi]: it executes whole instructions, each the
    same as a single step, and never runs over the breakpoint or past the
    program's end; it returns for one of four reasons: the breakpoint, the end
    or a halt request is reached, an interrupt arrives, an instruction is
    unknown, or the program has written the exit address. Once a breakpoint has
    been deleted, [bp_addr] is 0, and [emu_cont] at address 0 does nothing. *)
Theorem cont_is_repeated_stepi e :
  emu_wf e ->
  (forall n irq act e', emu_cont n irq e = Ret (act, e') ->
     exists k e1, (k < n)%nat /\ (forall j, irq = Some j -> (k <= j)%nat) /\
       nsteps goes_on k (emu_start_run e) e1 /\ cont_end irq k e1 act e') /\
  (forall e1 e2, goes_on e1 e2 -> emu_stepi e1 = Ret (ACT_RESUME, e2) /\ e_pc e1 <> e_bp_addr e1) /\
  (forall a n, e_bp_is_set e = false -> e_pc e = 0 -> (0 < n)%nat ->
     exists e2 e3, emu_set_bp e a BP_SOFTWARE = Ret (true, e2) /\ emu_del_bp e2 a BP_SOFTWARE = Ret (true, e3) /\
       emu_cont n None e3 = Ret (ACT_RESUME, emu_start_run e3)).
Proof.
  intros Hwf. split_and!.
  - intros n irq act e' H.
    destruct (cont_loop_runs n irq _ act e' (start_run_wf e Hwf) H) as (k & e1 & Hk & Hj & Hn & He & _). eauto 6.
  - intros e1 e2 H. split; [by apply goes_on_stepi|]. destruct H as (Hs & _).
    unfold run_stops in Hs. apply orb_false_iff in Hs as [[_ Hb]%orb_false_iff _]. by apply Z.eqb_neq.
  - intros a n Hb Hpc Hn. eexists _, _. unfold emu_set_bp. rewrite Hb. split; [done|].
    unfold emu_del_bp. simpl. rewrite Z.eqb_refl. split; [done|]. simpl.
    destruct n as [|n]; [lia|]. unfold emu_cont.
    rewrite cont_loop_step by by apply start_run_wf, set_bp_wf, set_bp_wf. rewrite decide_False by done.
    unfold run_stops. simpl. rewrite Hpc, Z.eqb_refl, orb_true_r. done.
Qed.
