(* ===== verification/Lifecycle.v ===== *)
(** * Opening and closing: gdbstub_init, gdbstub_close, conn_init, init_mem

    The functions that acquire memory, descriptors, locks and the reader
    thread, with what each system call answers as their argument. A ledger
    keeps what is held; releasing what is not held is undefined behaviour. *)

From stdpp Require Import gmap.
From S2P Require Import Prelude CMem CFormat Translate Packet PktQueue RegBuf Conn Target RegHandlers MemHandlers QueryHandlers Stub RegSpec Emu.

Inductive res :=
| Priv | AddrStr | RegBuf | QueueMutex | QueueCond | SendMutex | ListenFd | SocketFd | ReaderThread
| BinFile | EmuMem.
#[export] Instance res_eq_dec : EqDecision res.
Proof. solve_decision. Defined.

(** What is held, latest first, and the paths that were unlinked. *)
Record ledger := Ledger { held : list res; unlinked : list bytes }.

Fixpoint remove_first (r : res) (l : list res) : outcome (list res) :=
  match l with
  | [] => UB
  | x :: l => if decide (x = r) then Ret l else l ← remove_first r l; Ret (x :: l)
  end.

Definition acquire (r : res) : M ledger unit := modify (fun s => Ledger (r :: held s) (unlinked s)).
(** A call that may fail: nothing is held then. *)
Definition try_acquire (ok : bool) (r : res) : M ledger bool :=
  if ok then _ ← acquire r; mret true else mret false.
Definition release (r : res) : M ledger unit := fun s =>
  match remove_first r (held s) with
  | Ret l => Ret (tt, Ledger l (unlinked s))
  | _ => UB
  end.
Definition unlink (path : bytes) : M ledger unit := modify (fun s => Ledger (held s) (unlinked s ++ [path])).

(** ** src/conn.c *)

(** The answers of the system calls, in the order of the code. *)
Record conn_env := ConnEnv {
  ce_mutex_init : bool;
  ce_socket : Z;
  ce_reuseaddr : bool;
  ce_bind : bool;
  ce_listen : bool;
  ce_accept : Z;
  ce_nodelay : bool    (* only reported *)
}.

Section Lifecycle.
(** [inet_aton(s, _) != 0]: is the string a dotted address? *)
Context (inet_aton : bytes -> bool).

Definition conn_fail : M ledger (option conn_t) :=
  _ ← release ListenFd; _ ← release SendMutex; mret None.

Definition conn_init (env : conn_env) (addr_str : bytes) : M ledger (option conn_t) :=
  ok ← try_acquire (ce_mutex_init env) SendMutex;
  if negb ok then mret None
  else
    let is_tcp_mode := inet_aton addr_str in
    _ ← (if is_tcp_mode then mret tt else unlink addr_str);
    opened ← try_acquire (0 <=? ce_socket env) ListenFd;
    if negb opened then _ ← release SendMutex; mret None
    else if is_tcp_mode && negb (ce_reuseaddr env) then conn_fail
    else if negb (ce_bind env) then conn_fail
    else if negb (ce_listen env) then conn_fail
    else
      accepted ← try_acquire (0 <=? ce_accept env) SocketFd;
      if negb accepted then conn_fail
      else mret (Some (Conn (ce_socket env) (ce_accept env) false 0)).

Definition conn_close : M ledger unit :=
  _ ← release SocketFd; _ ← release ListenFd; release SendMutex.

(** ** src/pktqueue.c: the synchronisation objects *)

Definition pktqueue_sync_init (mutex_ok cond_ok : bool) : M ledger bool :=
  ok ← try_acquire mutex_ok QueueMutex;
  if negb ok then mret false
  else
    ok ← try_acquire cond_ok QueueCond;
    if negb ok then _ ← release QueueMutex; mret false else mret true.
Definition pktqueue_sync_destroy : M ledger unit :=
  _ ← release QueueCond; release QueueMutex.

(** ** src/gdbstub.c *)

Record init_env := InitEnv {
  ie_calloc : bool;
  ie_strdup : bool;
  ie_regbuf : bool;
  ie_queue_mutex : bool;
  ie_queue_cond : bool;
  ie_conn : conn_env
}.

Context {T : Type}.

(** [for (i = 0; i < arch.reg_num; i++) total_reg_bytes += ops->get_reg_bytes(i)] *)
Fixpoint total_reg_loop (ops : target_ops T) (k : nat) (i total : Z) : outcome Z :=
  match k with
  | O => Ret total
  | S k =>
      get_reg_bytes ← deref (op_get_reg_bytes ops);
      total_reg_loop ops k (i + 1) (u64 (total + get_reg_bytes i))
  end.

(** The string before the first [:] and what follows it. *)
Fixpoint split_colon (s : bytes) : bytes * option bytes :=
  match s with
  | [] => ([], None)
  | c :: s => if c =? chr ":" then ([], Some s) else let '(a, p) := split_colon s in (c :: a, p)
  end.

(** [sscanf(port_str, "%d", &port) <= 0] fails. *)
Definition parse_port (port_str : option bytes) : outcome (option Z) :=
  match port_str with
  | None => Ret (Some 0)
  | Some s =>
      vs ← sscanf [FInt] s;
      Ret (head vs)
  end.

Definition priv_fail : M ledger (option gdbstub_private) := _ ← release Priv; mret None.
Definition addr_fail : M ledger (option gdbstub_private) := _ ← release AddrStr; priv_fail.
Definition regbuf_fail : M ledger (option gdbstub_private) := _ ← release RegBuf; addr_fail.
Definition pktqueue_fail : M ledger (option gdbstub_private) := _ ← pktqueue_sync_destroy; regbuf_fail.

(** From the register buffer on: the labels [pktqueue_fail], [regbuf_fail],
    [addr_fail] and [priv_fail] fall through to each other. *)
Definition init_resources (env : init_env) (addr_str : bytes) (total : Z) : M ledger (option gdbstub_private) :=
  let '(reg_ok, reg) := regbuf_init (ie_regbuf env) in
  _ ← try_acquire reg_ok RegBuf;
  if negb reg_ok then addr_fail
  else
    ok ← pktqueue_sync_init (ie_queue_mutex env) (ie_queue_cond env);
    if negb ok then regbuf_fail
    else
      conn ← conn_init (ie_conn env) addr_str;
      match conn with
      | None => pktqueue_fail
      | Some conn =>
          _ ← release AddrStr;
          mret (Some (GdbstubPrivate conn reg false false false total))
      end.

(** [None] is the result [false]. *)
Definition gdbstub_init (env : init_env) (ops : option (target_ops T)) (arch : arch_info_t) (s : option bytes)
  : M ledger (option gdbstub_private) :=
  match s, ops with
  | Some s, Some ops =>
      ok ← try_acquire (ie_calloc env) Priv;
      if negb ok then mret None
      else
        total ← lift (total_reg_loop ops (Z.to_nat (reg_num arch)) 0 0);
        ok ← try_acquire (ie_strdup env) AddrStr;
        if negb ok then priv_fail
        else
          let '(addr_str, port_str) := split_colon s in
          port ← lift (parse_port port_str);
          match port with
          | None => addr_fail
          | Some port => init_resources env addr_str total
          end
  | _, _ => mret None
  end.

(** [gdbstub_run] up to its loop: [created] is [pthread_create]'s answer. *)
Definition start_reader (created : bool) (p : gdbstub_private) : M ledger (bool * gdbstub_private) :=
  if negb (reader_running p) then
    let p := GdbstubPrivate (conn p) (regbuf p) false (reader_running p) false (total_reg_bytes p) in
    ok ← try_acquire created ReaderThread;
    if negb ok then mret (false, p)
    else mret (true, GdbstubPrivate (conn p) (regbuf p) (thread_stop p) true (async_io_enable p) (total_reg_bytes p))
  else mret (true, p).

(** The stop request, the shutdown signal and [pthread_join]; then everything
    [gdbstub_init] acquired. [free(NULL)] releases nothing. *)
Definition gdbstub_close {Q} `{PacketQueue Q} (p : gdbstub_private) (q : Q) : M ledger Q :=
  q ← (if reader_running p then _ ← release ReaderThread; mret (q_signal_shutdown q) else mret q);
  q ← lift (q_destroy q);
  _ ← pktqueue_sync_destroy;
  _ ← (if rb_buf (regbuf p) then release RegBuf else mret tt);
  _ ← conn_close;
  _ ← release Priv;
  mret q.

(** ** emu/src/emu.c *)

Record mem_env := MemEnv { me_fopen : bool; me_malloc : bool; me_fread : nat }.

(** [init_mem]: the file's bytes, of which [fread] delivers at most [me_fread]. *)
Definition init_mem (env : mem_env) (file : option bytes) (e : emu) : M ledger (Z * emu) :=
  match file with
  | None => mret (-1, e)
  | Some file =>
      ok ← try_acquire (me_fopen env) BinFile;
      if negb ok then mret (-1, e)
      else
        let sz := Z.of_nat (length file) in
        if TOHOST_ADDR <? sz then mret (-1, e)
        else
          ok ← try_acquire (me_malloc env) EmuMem;
          if negb ok then _ ← release BinFile; mret (-1, e)
          else
            let got := take (me_fread env) file in
            let mem := got ++ replicate (Z.to_nat (MEM_SIZE - Z.of_nat (length got))) 0 in
            let read_size := Z.of_nat (length got) in
            let e' := Emu mem (e_code_size e) (e_x e) (e_pc e) (e_bp_is_set e) (e_bp_addr e) (e_halt e) in
            if negb (read_size =? sz) then _ ← release BinFile; mret (-1, e')
            else
              _ ← release BinFile;
              mret (0, Emu mem read_size (e_x e) (e_pc e) (e_bp_is_set e) (e_bp_addr e) (e_halt e))
  end.
Definition free_mem : M ledger unit := release EmuMem.
End Lifecycle.

(** ** gdbstub_run and main *)

Section Main.
Context (inet_aton : bytes -> bool) {Q : Type} `{PQ : PacketQueue Q}.

(** [gdbstub_run] with the queue [q] the reader thread fills; sleeping on it for
    good is [Hang]. *)
Definition gdbstub_run {T} (ops : target_ops T) (arch : arch_info_t) (fuel : nat) (created : bool) (w : world T) (q : Q)
  : M ledger (bool * world T * Q) :=
  '(ok, p) ← start_reader created (w_priv w);
  let w := upd_priv (fun _ => p) w in
  if negb ok then mret (false, w, q)
  else
    '(r, w, q) ← lift (run_loop ops arch fuel w q);
    match r with
    | Return b => mret (b, w, q)
    | _ => lift Hang
    end.

(** [main] of the emulator, compiled for registers of [REGSZ] bytes. *)
Definition emu_main (REGSZ : Z) (cont_fuel : nat) (irq : emu -> option nat) (fuel : nat)
    (argc : Z) (menv : mem_env) (file : option bytes)
    (ienv : init_env) (created : bool) (q : Q) : M ledger Z :=
  if negb (argc =? 2) then mret (-1)
  else
    '(r, e) ← init_mem menv file emu_init;
    if r =? -1 then mret (-1)
    else
      let arch := ArchInfo (Some (if REGSZ =? 4 then TARGET_RV32 else TARGET_RV64)) 1 33 in
      let ops := emu_ops REGSZ cont_fuel irq in
      p ← gdbstub_init inet_aton ienv (Some ops) arch (Some (str "127.0.0.1:1234"));
      match p with
      | None => mret (-1)
      | Some p =>
          '(ok, w, q) ← gdbstub_run ops arch fuel created (World p e [] []) q;
          if negb (ok : bool) then mret (-1)
          else
            _ ← gdbstub_close (w_priv w) q;
            _ ← free_mem;
            mret 0
      end.
End Main.

(** ** Lemmas *)

(** [m] returns [a] and then holds some [l] with [R a l] on top of what was held. *)
Definition gains {A} (m : M ledger A) (R : A -> list res -> Prop) : Prop :=
  forall st, exists a l u, m st = Ret (a, Ledger (l ++ held st) u) /\ R a l.

Lemma conn_init_gains inet_aton env addr :
  gains (conn_init inet_aton env addr)
    (fun c l => match c with
                | Some c => l = [SocketFd; ListenFd; SendMutex] /\ no_ack_mode c = false /\ failure_count c = 0
                | None => l = []
                end).
Proof.
  intros [l u]. unfold conn_init. destruct env as [mu sock re bi li acc nd]; simpl.
  destruct mu; [|by exists None, [], u].
  destruct (inet_aton addr), (0 <=? sock), re, bi, li, (0 <=? acc);
    try (by exists None, [], u); try (by exists None, [], (u ++ [addr]));
    by exists (Some (Conn sock acc false 0)), [SocketFd; ListenFd; SendMutex]; eexists.
Qed.

Lemma queue_init_gains m c :
  gains (pktqueue_sync_init m c) (fun ok l => l = if ok : bool then [QueueCond; QueueMutex] else []).
Proof. intros [l u]. destruct m, c; (exists false, [], u; done) || (exists true, [QueueCond; QueueMutex], u; done). Qed.

Lemma release_head r l u : release r (Ledger (r :: l) u) = Ret (tt, Ledger l u).
Proof. unfold release. simpl. by rewrite decide_True. Qed.

(** What an open stub holds. *)
Definition open_set : list res := [SocketFd; ListenFd; SendMutex; QueueCond; QueueMutex; RegBuf; Priv].

Section Init.
Context (inet_aton : bytes -> bool) {T : Type}.
Implicit Types (ops : target_ops T).

Lemma init_resources_ok env addr total l u :
  exists r l' u', init_resources inet_aton env addr total (Ledger (AddrStr :: Priv :: l) u) = Ret (r, Ledger (l' ++ l) u') /\
    match r with
    | None => l' = []
    | Some p => l' = open_set /\ reader_running p = false /\ total_reg_bytes p = total /\
        regbuf_wf (regbuf p) /\ no_ack_mode (conn p) = false /\ failure_count (conn p) = 0
    end.
Proof.
  unfold init_resources. destruct (ie_regbuf env); simpl; [|by exists None, [], u].
  destruct (queue_init_gains (ie_queue_mutex env) (ie_queue_cond env) (Ledger (RegBuf :: AddrStr :: Priv :: l) u))
    as (ok & l1 & u1 & E1 & ->).
  erewrite M_bind_eq; [|reflexivity]. cbv beta. rewrite (M_bind_eq _ _ _ _ _ E1). destruct ok; simpl; [|by exists None, [], u1].
  destruct (conn_init_gains inet_aton (ie_conn env) addr (Ledger (QueueCond :: QueueMutex :: RegBuf :: AddrStr :: Priv :: l) u1))
    as (c & l2 & u2 & E2 & Hc).
  rewrite (M_bind_eq _ _ _ _ _ E2). destruct c as [c|]; [|subst l2; by exists None, [], u2].
  destruct Hc as (-> & Hn & Hf). simpl. eexists _, open_set, u2. split; [reflexivity|].
  split_and!; try done. by apply regbuf_init_wf.
Qed.

Lemma init_ok env ops arch s l u r st' :
  gdbstub_init inet_aton env (Some ops) arch (Some s) (Ledger l u) = Ret (r, st') ->
  match r with
  | None => held st' = l
  | Some p => held st' = open_set ++ l /\ reader_running p = false /\
      total_reg_loop ops (Z.to_nat (reg_num arch)) 0 0 = Ret (total_reg_bytes p) /\
      regbuf_wf (regbuf p) /\ no_ack_mode (conn p) = false /\ failure_count (conn p) = 0
  end.
Proof.
  unfold gdbstub_init. intros E. destruct (ie_calloc env); [|by injection E as <- <-].
  erewrite M_bind_eq in E; [|reflexivity]. simpl in E.
  minv E. apply lift_inv in Hm as [Ht ->]. destruct (ie_strdup env); [|by injection Hk as <- <-].
  erewrite M_bind_eq in Hk; [|reflexivity]. simpl in Hk.
  destruct (split_colon s) as [addr port]. minv Hk. apply lift_inv in Hm as [_ ->].
  destruct x0 as [p|]; [|by injection Hk0 as <- <-].
  destruct (init_resources_ok env addr x l u) as (r' & l' & u' & E & Hr). rewrite E in Hk0. injection Hk0 as -> <-.
  destruct r as [p'|]; [|by subst]. destruct Hr as (-> & ? & <- & ? & ? & ?). by rewrite Ht.
Qed.

Lemma close_ok {Q} `{PQ : PacketQueue Q} (rep : Q -> aqueue -> Prop) `{!PacketQueueSpec Q rep} p q a l u :
  rep q a -> is_Some (rb_buf (regbuf p)) ->
  exists q', gdbstub_close p q (Ledger ((if reader_running p then [ReaderThread] else []) ++ open_set ++ l) u)
    = Ret (q', Ledger l u) /\ q_blocks q' = O.
Proof.
  intros Hr [b Hb]. unfold gdbstub_close.
  assert (Hq : exists q1 a1, rep q1 a1 /\
    (if reader_running p then _ ← release ReaderThread; mret (q_signal_shutdown q) else mret q)
      (Ledger ((if reader_running p then [ReaderThread] else []) ++ open_set ++ l) u) = Ret (q1, Ledger (open_set ++ l) u)).
  { destruct (reader_running p).
    - exists (q_signal_shutdown q), (aq_signal_shutdown a). split; [by apply q_shutdown_spec|reflexivity].
    - by exists q, a. }
  destruct Hq as (q1 & a1 & Hr1 & E). rewrite (M_bind_eq _ _ _ _ _ E).
  destruct (q_destroy_spec q1 a1 Hr1) as (q2 & Ed & _ & Hempty). rewrite Ed. erewrite M_bind_eq; [|reflexivity].
  rewrite Hb. exists q2. split; [reflexivity|exact Hempty].
Qed.
End Init.

(** [total_reg_bytes] on a target that implements the register interface. *)
Lemma total_reg_loop_ok {T} (ops : target_ops T) inv size n `{RF : !RegisterFile ops inv size n} k : forall i total,
  0 <= i -> i + Z.of_nat k <= n -> 0 <= total -> total + sum_size (size := size) k i < 18446744073709551616 ->
  total_reg_loop ops k i total = Ret (total + sum_size (size := size) k i).
Proof.
  induction k as [|k IH]; intros i total Hi Hk Ht Hs; simpl in Hs |- *; [f_equal; lia|].
  assert (0 < size i < 2147483648) by (apply rf_size_pos; lia).
  assert (0 <= sum_size (size := size) k (i + 1)) by (eapply sum_size_nonneg; [exact RF|lia|lia]).
  rewrite rf_size_op. csimpl. rewrite u64_id by lia. rewrite IH by lia. f_equal. lia.
Qed.

(** *** Loading the program *)
Lemma init_mem_ok env file e l u :
  me_fopen env = true -> me_malloc env = true -> (length file <= me_fread env)%nat ->
  Z.of_nat (length file) <= TOHOST_ADDR ->
  exists e', init_mem env (Some file) e (Ledger l u) = Ret (0, e', Ledger (EmuMem :: l) u) /\
    load_binary file e = Some e'.
Proof.
  intros Hf Hm Hr Hl. unfold init_mem, load_binary. rewrite Hf, Hm, take_ge by done.
  rewrite (proj2 (Z.ltb_ge _ _) Hl), Z.eqb_refl. eexists. split; reflexivity.
Qed.

(** ** Properties *)

(** C14 Nothing leaks and nothing is released twice: whatever the system calls
    answer, a failing [gdbstub_init] holds exactly what was held before it; a
    successful one holds the seven resources of the stub, with the protocol
    state reset; and whether or not the reader thread could be started,
    [gdbstub_close] gives all of them back and empties the heap of the packet
    queue, freeing every node and packet that is still queued, however far the
    register buffer has grown (as long as its last allocation succeeded). *)
Theorem init_close_balanced inet_aton env {T} (ops : target_ops T) arch s st r st' :
  gdbstub_init inet_aton env (Some ops) arch (Some s) st = Ret (r, st') ->
  match r with
  | None => held st' = held st
  | Some p =>
      held st' = open_set ++ held st /\
      no_ack_mode (conn p) = false /\ failure_count (conn p) = 0 /\ regbuf_wf (regbuf p) /\
      forall created ok p1 st1 p2 q h a,
        start_reader created p st' = Ret ((ok, p1), st1) -> ok = created /\
        (reader_running p2 = reader_running p1 -> is_Some (rb_buf (regbuf p2)) -> rep (q, h) a ->
         exists q' st2, gdbstub_close p2 (q, h) st1 = Ret ((q', ∅), st2) /\ held st2 = held st)
  end.
Proof.
  destruct st as [l u]. intros E. pose proof (init_ok inet_aton env ops arch s l u r st' E) as H.
  destruct r as [p|]; [|done]. destruct H as (Hh & Hrun & _ & Hb & Hn & Hf). split_and!; try done.
  intros created ok p1 st1 p2 q h a Es. destruct st' as [l' u']. simpl in Hh. subst l'.
  unfold start_reader in Es. rewrite Hrun in Es. simpl in Es.
  assert (Hst : ok = created /\ reader_running p1 = created /\
    st1 = Ledger ((if created then [ReaderThread] else []) ++ open_set ++ l) u').
  { destruct created; injection Es as <- <- <-; (split_and!; [done|done|reflexivity]). }
  destruct Hst as (-> & Hr1 & ->). split; [done|]. intros Hr2 Hbuf Hrep.
  rewrite Hr1 in Hr2. rewrite <- Hr2.
  destruct (close_ok rep p2 (q, h) a l u' Hrep Hbuf) as ([q' h'] & Ec & Hempty).
  apply map_size_empty_inv in Hempty. simpl in Hempty. subst h'.
  exists q', (Ledger l u'). by split.
Qed.

(** C40 [gdbstub_init] establishes what the register packets rely on: on any target
    that implements the register interface, the stub it returns is
    [configured], the cached total being the sum of the registers' sizes. *)
Theorem init_establishes_configured inet_aton env {T} (ops : target_ops T) inv size n
    `{RF : !RegisterFile ops inv size n} arch s st p st' t :
  gdbstub_init inet_aton env (Some ops) arch (Some s) st = Ret (Some p, st') ->
  reg_num arch = n -> 0 < n < 2147483648 ->
  sum_size (size := size) (Z.to_nat n) 0 < 4611686018427387904 -> inv t ->
  configured arch (inv := inv) (size := size) (n := n) (World p t [] []).
Proof.
  destruct st as [l u]. intros E Hnum Hn Hsum Hinv.
  destruct (init_ok inet_aton env ops arch s l u (Some p) st' E) as (_ & _ & Ht & Hb & _).
  rewrite Hnum, (total_reg_loop_ok ops inv size n) in Ht by lia. injection Ht as Ht.
  by split.
Qed.

(** [init_mem] loads exactly what [load_binary] says when everything succeeds,
    but a file that is too large leaves the stream open, and a short read leaves
    the memory block allocated. *)
Theorem init_mem_leaks env file e l u :
  me_fopen env = true ->
  (TOHOST_ADDR < Z.of_nat (length file) ->
     init_mem env (Some file) e (Ledger l u) = Ret (-1, e, Ledger (BinFile :: l) u)) /\
  (Z.of_nat (length file) <= TOHOST_ADDR -> me_malloc env = true -> (me_fread env < length file)%nat ->
     exists e', init_mem env (Some file) e (Ledger l u) = Ret (-1, e', Ledger (EmuMem :: l) u)).
Proof.
  intros Hf. unfold init_mem. rewrite Hf. split.
  - intros Hl. by rewrite (proj2 (Z.ltb_lt _ _) Hl).
  - intros Hl Hm Hr. rewrite (proj2 (Z.ltb_ge _ _) Hl), Hm.
    rewrite (proj2 (Z.eqb_neq _ (Z.of_nat (length file)))) by (rewrite length_take; lia).
    eexists. reflexivity.
Qed.
