(* ===== verification/Session.v ===== *)
(** * Concrete runs: the stub on the reference emulator

    The witnesses of the theorems about [gdbstub_process_packet] and the main
    loop, evaluated on [emu_ops] with the program of a few instructions. *)

From stdpp Require Import gmap.
From S2P Require Import Prelude CMem CFormat Translate Packet PktQueue RegBuf Conn Target RegHandlers MemHandlers QueryHandlers Stub Reader System RegSpec MemSpec QuerySpec Emu EmuTarget Isa EmuSpec EmuRun Lifecycle.

(** [addi x1, x0, 5; addi x2, x1, 7; add x3, x1, x2] *)
Definition demo_program : bytes :=
  [147; 0; 80; 0] ++ [19; 129; 112; 0] ++ [179; 129; 32; 0].

Definition demo_emu : emu := default emu_init (load_binary demo_program emu_init).

Definition demo_arch : arch_info_t := ArchInfo (Some TARGET_RV64) 1 33.

Definition demo_priv : gdbstub_private :=
  GdbstubPrivate (Conn 3 4 false 0) (Regbuf (Some (uninit 8)) 8) false true false 264.

Definition demo_world : world emu := World demo_priv demo_emu [] [].

(** No interrupt reaches a [cont]; 100 instructions are enough. *)
Definition quiet (e : emu) : option nat := None.
Definition demo_ops : target_ops emu := emu_ops 8 100 quiet.

(** A packet whose second checksum digit was damaged. *)
Definition damaged : packet_t := Packet 4 ((Some <$> str "$?#3e") ++ [Some 0]).

Example one_reply_per_packet_witness :
  exists w', gdbstub_process_packet demo_ops demo_arch (packet_of (str "m0,4")) demo_world
      = Ret (EVENT_NONE, w') /\
    exists l, w_sent w' = l /\ exists s, sendable s /\ l = [frame s].
Proof.
  eexists. split; [vm_compute; reflexivity|].
  apply (one_reply_per_packet demo_ops demo_arch (packet_of (str "m0,4")) demo_world EVENT_NONE).
  vm_compute. reflexivity.
Defined.

Example handle_packet_round_witness :
  exists w', handle_packet demo_ops demo_arch damaged demo_world = Ret (Continue, w') /\
  exists ok, packet_csum_verify damaged = Ret ok /\
  exists l, w_sent w' = [if ok : bool then STR_ACK else STR_NACK] ++ l /\
    if ok then (l = [] \/ is_reply l) /\ failure_count (conn (w_priv w')) = 0 /\
               Continue <> Asleep /\ Continue <> Return false
    else l = [] /\ w_args w' = demo_emu /\ failure_count (conn (w_priv w')) = 1 /\
      Continue = (if 50 <=? 1 then Return false else Continue).
Proof.
  eexists. split; [vm_compute; reflexivity|].
  apply (handle_packet_round demo_ops demo_arch damaged demo_world Continue).
  vm_compute. reflexivity.
Defined.


Example refusals_leave_target_witness :
  gdbstub_process_packet demo_ops demo_arch (packet_of (str "Hg1")) demo_world
    = Ret (EVENT_NONE, add_sent (frame (str "E01")) demo_world) /\
  gdbstub_process_packet demo_ops demo_arch (packet_of (str "!")) demo_world
    = Ret (EVENT_NONE, add_sent (frame []) demo_world).
Proof.
  split.
  - apply (refusals_leave_target demo_ops demo_arch (chr "H") (str "g1") demo_world). done.
  - apply (refusals_leave_target demo_ops demo_arch (chr "!") [] demo_world). vdecide.
Defined.

Example csum_verify_detects_witness :
  packet_csum_verify (packet_of (str "m0,4")) = Ret true /\
  packet_csum_verify (packet_with (str "m0,5") (csum_of (str "m0,4"))) = Ret false.
Proof.
  destruct (csum_verify_detects (str "m0,4")) as (H1 & H2 & _); [done|]. split; [done|].
  apply (H2 (str "m0,") 52 53 []); done.
Defined.

(** A queue with one pending packet: a step. *)
Example run_loop_serves_witness :
  exists q w, rep q (AQueue [] false false) /\
    run_loop demo_ops demo_arch 3 demo_world (demo_queue (packet_of (str "s"))) = Ret (Asleep, w, q).
Proof.
  assert (H := run_loop_serves demo_ops demo_arch rep (demo_queue (packet_of (str "s")))
                 (aq_push aq_init (packet_of (str "s"))) demo_world 3 (demo_queue_rep _) (le_n 3)).
  set (r := serve _ _ _ _) in H. vm_compute in r. subst r.
  destruct H as (q & Hq & E). eauto.
Defined.

Example failures_disconnect_witness :
  exists w', serve demo_ops demo_arch demo_world (replicate 50 damaged) = Ret (Return false, w', []) /\
    w_sent w' = replicate 50 STR_NACK /\ w_args w' = demo_emu.
Proof.
  apply (failures_disconnect demo_ops demo_arch (replicate 50 damaged) demo_world); try done.
  by apply Forall_replicate.
Defined.

(** ** Memory packets on the emulator *)
Lemma demo_emu_wf : emu_wf demo_emu.
Proof. split; vdecide. Qed.

#[local] Instance demo_memory : Memory demo_ops emu_wf := emu_memory 8 100 quiet.

Lemma demo_range a l : 0 <= a <= 4096 -> 0 <= l <= 4096 -> in_range a l.
Proof. unfold in_range. lia. Qed.

Example m_replies_witness :
  gdbstub_process_packet demo_ops demo_arch (packet_of (str "m0,4")) demo_world
    = Ret (EVENT_NONE, add_sent (frame (str "93005000")) demo_world).
Proof.
  pose proof (m_replies demo_ops demo_arch 0 4 demo_world demo_emu_wf eq_refl ltac:(by apply demo_range)) as E.
  set (r := mm_read _ _ _) in E. vm_compute in r. subst r. exact E.
Defined.

Example m_after_M_witness :
  exists w1, gdbstub_process_packet demo_ops demo_arch (packet_of (str "M10,2:ab0c")) demo_world = Ret (EVENT_NONE, w1) /\
    gdbstub_process_packet demo_ops demo_arch (packet_of (str "m10,2")) w1
      = Ret (EVENT_NONE, add_sent (frame (str "ab0c")) w1).
Proof.
  pose proof (m_after_M demo_ops demo_arch 16 [171; 12] demo_world demo_emu_wf eq_refl
    ltac:(by apply demo_range) ltac:(vdecide)) as H.
  destruct (mm_write _ _ _) as [c t] eqn:Ew.
  assert (c = 0) as -> by (apply (f_equal fst) in Ew; vm_compute in Ew; by rewrite <- Ew).
  destruct H as [H1 H2]. eexists. split; [exact H1|]. apply H2; [reflexivity|by vm_compute].
Defined.

Example X_writes_like_M_witness :
  exists w', gdbstub_process_packet demo_ops demo_arch (packet_of (str "X10,2:}" ++ [3; 7])) demo_world
      = Ret (EVENT_NONE, w') /\ take 2 (drop 16 (e_mem (w_args w'))) = [35; 7].
Proof.
  pose proof (X_writes_like_M demo_ops demo_arch 16 [35; 7] demo_world demo_emu_wf eq_refl
    ltac:(by apply demo_range) ltac:(vdecide)) as H.
  destruct (mm_write _ _ _) as [c t] eqn:Ew. destruct H as [_ H].
  eexists. split; [exact H|]. apply (f_equal snd) in Ew. simpl in Ew. subst t. vm_compute. reflexivity.
Defined.

Example M_reads_past_packet_witness :
  gdbstub_process_packet demo_ops demo_arch (packet_of (str "M0,10:00")) demo_world = UB.
Proof.
  apply (M_reads_past_packet (inv := emu_wf) demo_ops demo_arch 0 16 (str "00") demo_world eq_refl);
    [by apply demo_range|vdecide|done].
Defined.

Example breakpoints_reply_witness :
  gdbstub_process_packet demo_ops demo_arch (packet_of (str "Z0,8,4")) demo_world
    = Ret (EVENT_NONE, add_sent (frame (str "OK")) (upd_args (set_bp true 8 demo_emu) demo_world)) /\
  gdbstub_process_packet demo_ops demo_arch (packet_of (str "Z1,8,4")) demo_world
    = Ret (EVENT_NONE, add_sent (frame (str "E22")) demo_world).
Proof.
  split.
  - apply (breakpoints_reply demo_ops demo_arch emu_set_bp emu_del_bp 0 8 4 true (set_bp true 8 demo_emu) demo_world); done.
  - apply (breakpoints_reply demo_ops demo_arch emu_set_bp emu_del_bp 1 8 4 false demo_emu demo_world); done.
Defined.

(** ** Queries *)
Example xfer_delivers_description_witness :
  gdbstub_process_packet demo_ops demo_arch (packet_of (chr "q" :: xfer_request 0 20)) demo_world
    = Ret (EVENT_NONE, add_sent (frame (str "m<target version=" ++ [34; 49; 46])) demo_world) /\
  read_all (S (length TARGET_RV64)) TARGET_RV64 0 20 = Some TARGET_RV64.
Proof.
  destruct (xfer_delivers_description demo_ops demo_arch TARGET_RV64 20 demo_world) as [H1 H2];
    [done|vdecide|vdecide|done|].
  split; [|exact H2]. apply (H1 0). vdecide.
Defined.

Example vCont_accepts_what_it_lists_witness :
  gdbstub_process_packet demo_ops demo_arch (packet_of (str "vCont?")) demo_world
    = Ret (EVENT_NONE, add_sent (frame (str "vCont;s;c;")) demo_world) /\
  gdbstub_process_packet demo_ops demo_arch (packet_of (str "vCont;s:1")) demo_world = Ret (EVENT_STEP, demo_world).
Proof.
  destruct (vCont_accepts_what_it_lists demo_ops demo_arch demo_world) as [H1 H2]. split; [exact H1|].
  apply (H2 115 (str ":1")). vdecide.
Defined.

Example missing_separator_is_null_dereference_witness :
  gdbstub_process_packet demo_ops demo_arch (packet_of (str "vCont")) demo_world = UB /\
  gdbstub_process_packet demo_ops demo_arch (packet_of (str "M1f,4")) demo_world = UB /\
  gdbstub_process_packet demo_ops demo_arch (packet_of (str "Pa")) demo_world = UB.
Proof.
  destruct (missing_separator_is_null_dereference demo_ops demo_arch emu_write_mem (emu_write_reg 8)
           (emu_get_reg_bytes 8) demo_world) as (H1 & H2 & H3 & _); [done..| |].
  - split; [by exists 3|]. exists (uninit 8). split; [done|]. by rewrite blen_uninit.
  - split; [exact H1|]. split; [apply (H2 31 4); done|apply (H3 10); done].
Defined.

Example thread_list_bounds_witness :
  gdbstub_process_packet demo_ops demo_arch (packet_of (str "qfThreadInfo")) demo_world
    = Ret (EVENT_NONE, add_sent (frame (str "m0000,")) demo_world).
Proof. apply (thread_list_bounds demo_ops demo_arch demo_world); done. Defined.

(** A target that is only its current CPU. *)
Definition cpu_ops : target_ops Z := TargetOps None None None None None None None None None None
  (Some (fun _ i => Ret i)) (Some (fun i => Ret (i, i))).

Example thread_id_round_trip_witness :
  gdbstub_process_packet cpu_ops demo_arch (packet_of (str "Hg0012")) (World demo_priv 12 [] [])
    = Ret (EVENT_NONE, World demo_priv 12 [frame (str "OK")] []) /\
  gdbstub_process_packet cpu_ops demo_arch (packet_of (str "qC")) (World demo_priv 12 [] [])
    = Ret (EVENT_NONE, World demo_priv 12 [frame (str "QC0012")] []).
Proof.
  destruct (thread_id_round_trip cpu_ops demo_arch (fun _ i => Ret i) (fun i => Ret (i, i)) 12 12
              (World demo_priv 12 [] [])) as (H1 & _ & H3); [done..|].
  split; [exact H1|exact H3].
Defined.

(** ** From the socket *)

(** A round that reads [ch] while nobody else is busy. *)
Definition data_round (ch : bytes) : round_env := RoundEnv false PollIn true (ReadData ch) [] [].

(** An interrupt while the target runs, a request in two reads, then a step
    behind an acknowledgement. *)
Definition demo_arrivals : list arrival :=
  [Arrival [3] (str "?") [[3]; []; str "$?#"; str "3f"]; Arrival (str "+") (str "s") [str "+$s#73"]].
Definition demo_rounds : list round_env :=
  RoundEnv false PollIn true (ReadData [3]) [true] [] :: RoundEnv false PollTimeout true ReadEof [] []
  :: (data_round <$> [str "$?#"; str "3f"; str "+$s#73"]).

Lemma demo_well_cut : Forall well_cut demo_arrivals.
Proof.
  repeat constructor; try vdecide.
  - intros [|[|[|[|[|k]]]]]; vm_compute; done.
  - intros [|[|k]]; vm_compute; done.
Qed.
Example framed_stream_delivered_witness :
  exists pb q' acks, socket_reader demo_ops true demo_rounds (pktqueue_init, ∅) demo_emu
      = Ret (false, RState pb q' (emu_halt demo_emu) (concat acks)) /\
    rep q' (AQueue [packet_of (str "?"); packet_of (str "s")] false true) /\ concat acks = str "++".
Proof.
  destruct (framed_stream_delivered demo_ops rep demo_arrivals demo_rounds
              (pktqueue_init, ∅) aq_init demo_emu (emu_halt demo_emu) demo_well_cut)
    as (pb & q & taken & acks & E & Hr & Hl & Hs & _ & Hq).
  - by eexists.
  - reflexivity.
  - repeat constructor.
  - apply init_rep.
  - reflexivity.
  - exists pb, q, acks. rewrite kept_all in Hr.
    + split_and!; [exact E|exact Hr|]. rewrite Hq by repeat constructor. reflexivity.
    + by rewrite Hl.
    + apply (all_taken _ _ Hs). repeat constructor.
Defined.

(** A packet longer than the buffer's first 1024 bytes, which doubles. *)
Definition long_payload : bytes := replicate 1500 97.
Definition long_arrival : arrival :=
  Arrival [] long_payload [take 700 (frame long_payload); take 324 (drop 700 (frame long_payload)); drop 1024 (frame long_payload)].

Example buffer_grows : all_fit 10 [long_arrival] = Some 11.
Proof. vm_compute. reflexivity. Qed.

Definition eof_rounds : list round_env :=
  [data_round (str "$?#3f"); RoundEnv false PollTimeout true ReadEof [] []; RoundEnv false PollIn true ReadEof [] []].

Example reader_ends_with_shutdown_witness :
  exists st, socket_reader demo_ops true eof_rounds aq_init demo_emu = Ret (true, st) /\
    aq_shutdown (rs_queue st) = true.
Proof.
  destruct (reader_ends_with_shutdown demo_ops eq eof_rounds aq_init aq_init demo_emu eq_refl) as [_ H].
  destruct (socket_reader demo_ops true eof_rounds aq_init demo_emu) as [[x st]| | |] eqn:E;
    try (exfalso; revert E; vm_compute; discriminate).
  destruct (H x st eq_refl) as [-> (l & n & Hq)]. exists st. split; [reflexivity|]. by rewrite Hq.
Defined.


(** The second packet arrives while the first is being handled, with an interrupt
    behind it. *)
Definition demo_start : sys emu aqueue := Sys (demo_pktbuf []) aq_init demo_world None [].
Definition demo_trace : list (bytes * bool) := [(str "$?#3f", true); (str "$s#73", true); ([3], true)].

Example any_interleaving_serves_in_order_witness :
  exists s, sys_run demo_ops demo_arch demo_start demo_trace s /\ sys_busy s = None /\
  exists taken served pending intr, kept [packet_of (str "?"); packet_of (str "s")] taken = served ++ pending /\
    sys_queue s = AQueue pending false intr /\
    serve demo_ops demo_arch demo_world served = Ret (Continue, sys_world s, []).
Proof.
  assert (Hrun : exists s, sys_run demo_ops demo_arch demo_start demo_trace s /\ sys_busy s = None).
  { eexists. split.
    - change demo_trace with (((([] ++ [(str "$?#3f", true)]) ++ []) ++ [(str "$s#73", true)]) ++ [([3], true)] ++ [] : list (bytes * bool)).
      rewrite app_assoc. eapply run_more; [eapply run_more; [eapply run_more; [eapply run_more; [eapply run_more; [apply run_start|]|]|]|]|].
      + eapply (reader_steps _ _ (data_round (str "$?#3f"))); [reflexivity|constructor|done|vm_compute; reflexivity].
      + eapply main_takes; [reflexivity|vm_compute; reflexivity].
      + eapply (reader_steps _ _ (data_round (str "$s#73"))); [reflexivity|constructor|done|vm_compute; reflexivity].
      + eapply (reader_steps _ _ (data_round [3])); [reflexivity|constructor|done|vm_compute; reflexivity].
      + eapply main_handles; [reflexivity|vm_compute; reflexivity].
    - reflexivity. }
  destruct Hrun as (s & Hrun & Hb). exists s. split; [exact Hrun|]. split; [exact Hb|].
  destruct (any_interleaving_serves_in_order demo_ops demo_arch eq demo_start demo_trace s 10 []
              [packet_of (str "?"); packet_of (str "s")])
    as (taken & served & pending & intr & _ & _ & Hk & Hq & Hs);
    [exact Hrun|reflexivity|reflexivity|by apply demo_holds|reflexivity|vm_compute; reflexivity|].
  exists taken, served, pending, intr. rewrite Hb in Hk. split; [exact Hk|]. split; [exact Hq|exact Hs].
Defined.

(** ** The emulator *)

(** [addi x1, x0, 5], the first instruction of the program. *)
Example emu_exec_refines_isa_witness :
  encode (Addi 1 0 5) = le_val (take 4 demo_program) /\
  exists e', emu_exec (set_pc 4 demo_emu) (encode (Addi 1 0 5)) = Ret (0, e') /\
    view e' = next (wx 1 5 (view demo_emu)).
Proof.
  split; [reflexivity|].
  destruct (emu_exec_refines_isa demo_emu (Addi 1 0 5) (next (wx 1 5 (view demo_emu))) demo_emu_wf)
    as (e' & E & _ & H & _); [by vm_compute|reflexivity|].
  exists e'. split; [exact E|]. by apply H.
Defined.






Example cont_is_repeated_stepi_witness :
  exists e', emu_cont 100 None demo_emu = Ret (ACT_RESUME, e') /\ e_pc e' = 12 /\
    exists k e1, (k < 100)%nat /\ nsteps goes_on k (emu_start_run demo_emu) e1 /\ cont_end None k e1 ACT_RESUME e'.
Proof.
  destruct (cont_is_repeated_stepi demo_emu demo_emu_wf) as [H _].
  destruct (emu_cont 100 None demo_emu) as [[act e']| | |] eqn:E; try (exfalso; revert E; vm_compute; discriminate).
  assert (He : act = ACT_RESUME /\ e_pc e' = 12) by (revert E; vm_compute; by intros [= <- <-]).
  destruct He as [-> Hpc]. exists e'. split; [reflexivity|]. split; [exact Hpc|].
  destruct (H _ _ _ _ E) as (k & e1 & Hk & _ & Hn & Hend). by exists k, e1.
Defined.

(** ** Opening and closing *)
Definition all_ok : init_env := InitEnv true true true true true (ConnEnv true 3 true true true 4 true).
Definition is_localhost (s : bytes) : bool := streq s (str "127.0.0.1").
Definition demo_init : M ledger (option gdbstub_private) :=
  gdbstub_init is_localhost all_ok (Some demo_ops) demo_arch (Some (str "127.0.0.1:1234")).

Example init_close_balanced_witness :
  exists p st1, demo_init (Ledger [] []) = Ret (Some p, st1) /\ held st1 = open_set /\
  exists p1 st2 q' st3, start_reader true p st1 = Ret ((true, p1), st2) /\
    gdbstub_close p1 (demo_queue (packet_of (str "g"))) st2 = Ret ((q', ∅), st3) /\ held st3 = [].
Proof.
  destruct (demo_init (Ledger [] [])) as [[[p|] st1]| | |] eqn:E; try (exfalso; revert E; vm_compute; discriminate).
  exists p, st1. split; [reflexivity|].
  destruct (init_close_balanced is_localhost all_ok demo_ops demo_arch (str "127.0.0.1:1234") (Ledger [] []) (Some p) st1 E)
    as (Hh & _ & _ & Hb & H).
  split; [exact Hh|].
  destruct (start_reader true p st1) as [[[ok p1] st2]| | |] eqn:Es.
  2-4: exfalso; revert Es; unfold start_reader; by destruct (reader_running p).
  assert (Hp1 : is_Some (rb_buf (regbuf p1))).
  { destruct Hb as (_ & b & Hb & _). exists b. revert Es. unfold start_reader. destruct (negb (reader_running p)); by intros [= <- <- <-]. }
  destruct (demo_queue (packet_of (str "g"))) as [q h] eqn:Eq.
  destruct (H true ok p1 st2 p1 q h (aq_push aq_init (packet_of (str "g"))) Es) as [-> Hclose].
  destruct (Hclose eq_refl Hp1) as (q' & st3 & Ec & Hst3); [rewrite <- Eq; apply demo_queue_rep|].
  exists p1, st2, q', st3. split; [reflexivity|]. split; [exact Ec|exact Hst3].
Defined.

#[local] Instance demo_registers : RegisterFile demo_ops emu_wf (fun _ => 8) 33 := emu_registers 8 100 quiet ltac:(lia).

Example init_establishes_configured_witness :
  exists p st', demo_init (Ledger [] []) = Ret (Some p, st') /\
    configured demo_arch (inv := emu_wf) (size := fun _ => 8) (n := 33) (World p demo_emu [] []).
Proof.
  destruct (demo_init (Ledger [] [])) as [[[p|] st1]| | |] eqn:E; try (exfalso; revert E; vm_compute; discriminate).
  exists p, st1. split; [reflexivity|].
  apply (init_establishes_configured is_localhost all_ok demo_ops emu_wf (fun _ => 8) 33 demo_arch
           (str "127.0.0.1:1234") (Ledger [] []) p st1 demo_emu E); [done|lia|by vm_compute|apply demo_emu_wf].
Defined.

(** The whole emulator: it loads its program, opens the stub, serves a
    breakpoint, a [c] and a detach, and has released everything when it ends. *)
Example emu_main_runs :
  emu_main is_localhost 8 100 quiet 10 2 (MemEnv true true 12) (Some demo_program) all_ok true
    (AQueue [packet_of (str "Z0,8,4"); packet_of (str "c"); packet_of (str "D")] false false) (Ledger [] [])
  = Ret (0, Ledger [] []).
Proof. vm_compute. reflexivity. Qed.
